(** * Secret Santa Shuffler: the assignment engine and the exchange lifecycle

    A shallow embedding of the TypeScript sources
    - [lib/shuffle/sattolo.ts]  (secureRandomInt, sattoloShuffleInPlace,
      sattoloShuffle, createSecretSantaChain, createSecretSantaAssignments,
      createQuickShuffleAssignments, validateAssignments),
    - [lib/db/queries.ts]       (the D1 queries on exchanges, participants
      and questionnaires),
    - [lib/exchanges/notifications.ts] (checkAndNotifyAllComplete),
    - the route actions of [routes/exchanges/[exchangeId]] (add, remove and
      edit a participant, edit the exchange, shuffle, send secrets) and the
      loader of the shuffle page,
    - the loader and the action of the questionnaire page
      [routes/q/[token]],
    followed by the properties of the specification that were checked
    against them, and by further properties of the same sources. *)

From Stdlib Require Import String Ascii Bool Arith ZArith Lia List Permutation
  Sorted.
Import ListNotations.
Open Scope string_scope.
Open Scope list_scope.
Open Scope nat_scope.

Set Implicit Arguments.

(* ================================================================== *)
(** ** JavaScript values used by the sources *)

(** [if (s)] on a string: only the empty string is falsy. *)
Definition truthy (s : string) : bool :=
  match s with
  | EmptyString => false
  | String _ _ => true
  end.

(** [if (v)] on [string | undefined] (or [string | null]). *)
Definition truthy_opt (v : option string) : bool :=
  match v with
  | Some s => truthy s
  | None => false
  end.

(** Strict equality [===] on [string | undefined]. *)
Definition opt_eqb (a b : option string) : bool :=
  match a, b with
  | Some x, Some y => String.eqb x y
  | None, None => true
  | _, _ => false
  end.

(* ------------------------------------------------------------------ *)
(** *** Arrays *)

Section Arrays.
Variable T : Type.

(** [a[i] = v] for an index inside the array.  (An index past the end
    would extend a JavaScript array; the shuffle loop never does that,
    see [sattoloLoop_indices].) *)
Fixpoint array_set (a : list T) (i : nat) (v : T) : list T :=
  match a, i with
  | [], _ => []
  | _ :: t, 0 => v :: t
  | h :: t, S i' => h :: array_set t i' v
  end.

(** [[a[i], a[j]] = [a[j], a[i]]]: the right-hand side is read first,
    then [a[i]] and [a[j]] are written in this order. *)
Definition array_swap (a : list T) (i j : nat) : list T :=
  match nth_error a i, nth_error a j with
  | Some x, Some y => array_set (array_set a i y) j x
  | _, _ => a
  end.
End Arrays.

(** The transposition of the positions [i] and [j]. *)
Definition transp (i j p : nat) : nat :=
  if p =? j then i else if p =? i then j else p.

(* ------------------------------------------------------------------ *)
(** *** [Map<string, string>] and [Set<string>]

    Both keep insertion order; [set] on a present key overwrites the value
    in place, [add] of a present element does nothing. *)

Definition Map := list (string * string).

Fixpoint Map_get (m : Map) (k : string) : option string :=
  match m with
  | [] => None
  | (k', v) :: t => if String.eqb k' k then Some v else Map_get t k
  end.

Fixpoint Map_set (m : Map) (k v : string) : Map :=
  match m with
  | [] => [(k, v)]
  | (k', v') :: t =>
      if String.eqb k' k then (k', v) :: t else (k', v') :: Map_set t k v
  end.

Definition Map_keys (m : Map) : list string := map fst m.
Definition Map_values (m : Map) : list string := map snd m.
Definition Map_size (m : Map) : nat := length m.

(** [new Map(entries)] *)
Definition Map_of_entries (es : list (string * string)) : Map :=
  fold_left (fun m e => Map_set m (fst e) (snd e)) es [].

Definition JsSet := list string.

Fixpoint Set_has (s : JsSet) (x : string) : bool :=
  match s with
  | [] => false
  | y :: t => String.eqb y x || Set_has t x
  end.

Definition Set_add (s : JsSet) (x : string) : JsSet :=
  if Set_has s x then s else s ++ [x].

(** [new Set(iterable)] *)
Definition Set_of (xs : list string) : JsSet := fold_left Set_add xs [].

(* ================================================================== *)
(** ** lib/shuffle/sattolo.ts *)

(** The value read back from a [Uint32Array] cell. *)
Definition uint32 (w : Z) : Z := (w mod 2 ^ 32)%Z.

(** [secureRandomInt(max)], on the [crypto.getRandomValues] path: [w] is the
    word the generator wrote, the result is [array[0] % max].  (The
    [Math.random] fallback computes on floating point numbers and is not
    part of this model.) *)
Definition secureRandomInt (w : Z) (max : nat) : nat :=
  Z.to_nat (uint32 w mod Z.of_nat max).

Section Sattolo.
Variable T : Type.

(** The random source: [tape c] is the word produced by the [c]-th call of
    [crypto.getRandomValues]. *)
Variable tape : nat -> Z.

(** The loop [for (let i = n - 1; i > 0; i--)], entered at index [i] with
    [c] words already consumed. *)
Fixpoint sattoloLoop (c i : nat) (array : list T) : list T :=
  match i with
  | 0 => array
  | S i' =>
      let j := secureRandomInt (tape c) i in
      sattoloLoop (S c) i' (array_swap array i j)
  end.

Definition sattoloShuffleInPlace (array : list T) : list T :=
  let n := length array in
  if n <? 2 then array else sattoloLoop 0 (n - 1) array.

(** [[...array]] is a fresh copy; lists are values, so the copy is the
    list itself. *)
Definition sattoloShuffle (array : list T) : list T :=
  let copy := array in
  sattoloShuffleInPlace copy.
End Sattolo.

(** The loop run on the positions [0 .. n-1] themselves. *)
Definition rho (tape : nat -> Z) (c i n : nat) : list nat :=
  sattoloLoop tape c i (seq 0 n).

Inductive thrown : Type :=
| Error (msg : string).

(** [createSecretSantaChain]: the loop sets [participantIds[i]] to
    [shuffled[i]] for [i] from 0 to [length - 1]. *)
Definition createSecretSantaChain (tape : nat -> Z)
    (participantIds : list string) : thrown + Map :=
  if length participantIds <? 2 then
    inl (Error "Secret Santa requires at least 2 participants")
  else
    let shuffled := sattoloShuffle tape participantIds in
    inr (fold_left (fun assignments kv => Map_set assignments (fst kv) (snd kv))
           (combine participantIds shuffled) []).

(** [Array.from(chain.entries())] *)
Definition createSecretSantaAssignments (tape : nat -> Z)
    (participantIds : list string) : thrown + list (string * string) :=
  match createSecretSantaChain tape participantIds with
  | inl e => inl e
  | inr chain => inr chain
  end.

(** [Array.prototype.map((x, i) => f(x, i))] *)
Fixpoint mapi_from (A B : Type) (f : A -> nat -> B) (i : nat) (l : list A)
  : list B :=
  match l with
  | [] => []
  | x :: t => f x i :: mapi_from f (S i) t
  end.

(** [{ santa, recipient }] of the quick shuffle. *)
Record QuickAssignment : Type := {
  santa : string;
  recipient : string
}.

(** [createQuickShuffleAssignments]: [names.map((santa, i) => ({ santa,
    recipient: shuffled[i] }))].  The index [i] is inside [shuffled], which
    is as long as [names] ([sattoloShuffle_length]). *)
Definition createQuickShuffleAssignments (tape : nat -> Z) (names : list string)
  : thrown + list QuickAssignment :=
  if length names <? 2 then
    inl (Error "Need at least 2 names to shuffle")
  else
    let shuffled := sattoloShuffle tape names in
    inr (mapi_from (fun santa i =>
                      {| santa := santa; recipient := nth i shuffled "" |})
                   0 names).

(** The result of [validateAssignments]; every [error] string of the source
    has its constructor, with the values interpolated into it. *)
Inductive validation_error : Type :=
| MismatchedSizes
| RecipientNotSanta (recipient : string)
| SelfAssignment (santa : string)
| MultipleCycles (visited total : nat)
| CycleNotClosed.

Inductive validation : Type :=
| Valid
| Invalid (error : validation_error).

(** [for (const recipient of recipients) if (!santas.has(recipient)) return ...] *)
Fixpoint first_non_santa (santas : JsSet) (recipients : list string)
  : option string :=
  match recipients with
  | [] => None
  | r :: t => if Set_has santas r then first_non_santa santas t else Some r
  end.

(** [for (const [santa, recipient] of assignments) if (santa === recipient) return ...] *)
Fixpoint first_self_assignment (assignments : Map) : option string :=
  match assignments with
  | [] => None
  | (santa, recipient) :: t =>
      if String.eqb santa recipient then Some santa
      else first_self_assignment t
  end.

(** [while (current && !visited.has(current)) { visited.add(current);
    current = assignments.get(current); }] with an iteration budget:
    [None] means the budget ran out before the loop condition failed. *)
Fixpoint traverse (fuel : nat) (assignments : Map) (visited : JsSet)
    (current : option string) : option (JsSet * option string) :=
  match current with
  | Some c =>
      if truthy c && negb (Set_has visited c) then
        match fuel with
        | 0 => None
        | S fuel' =>
            traverse fuel' assignments (Set_add visited c) (Map_get assignments c)
        end
      else Some (visited, current)
  | None => Some (visited, current)
  end.

(** The budget given to the traversal: it is never exhausted
    ([traverse_terminates]). *)
Definition traverse_budget (assignments : Map) : nat := Map_size assignments + 2.

Definition validateAssignments (assignments : Map) : option validation :=
  let santas := Set_of (Map_keys assignments) in
  let recipients := Set_of (Map_values assignments) in
  if negb (length santas =? length recipients) then
    Some (Invalid MismatchedSizes)
  else
    match first_non_santa santas recipients with
    | Some r => Some (Invalid (RecipientNotSanta r))
    | None =>
        match first_self_assignment assignments with
        | Some s => Some (Invalid (SelfAssignment s))
        | None =>
            let start := hd_error (Map_keys assignments) in
            match traverse (traverse_budget assignments) assignments [] start with
            | None => None
            | Some (visited, current) =>
                if negb (length visited =? Map_size assignments) then
                  Some (Invalid (MultipleCycles (length visited)
                                   (Map_size assignments)))
                else if negb (opt_eqb current start) then
                  Some (Invalid CycleNotClosed)
                else Some Valid
            end
        end
    end.

(* ================================================================== *)
(** ** lib/db/types.ts and the schema of migrations/ *)

Inductive ExchangeStatus : Type :=
| Draft | Collecting | Ready | Shuffled | Complete.

Definition status_eqb (a b : ExchangeStatus) : bool :=
  match a, b with
  | Draft, Draft | Collecting, Collecting | Ready, Ready
  | Shuffled, Shuffled | Complete, Complete => true
  | _, _ => false
  end.

(** The position of a status in Draft < Collecting < Ready < Shuffled <
    Complete. *)
Definition status_rank (s : ExchangeStatus) : nat :=
  match s with
  | Draft => 0 | Collecting => 1 | Ready => 2 | Shuffled => 3 | Complete => 4
  end.

Record Organizer : Type := {
  o_id : string;
  o_email : string;
  o_name : option string
}.

Record Exchange : Type := {
  e_id : string;
  e_organizer_id : string;
  e_title : string;
  e_description : option string;
  e_budget_min : option Z;
  e_budget_max : option Z;
  e_exchange_date : option string;
  e_status : ExchangeStatus;
  e_shuffled_at : option Z;
  e_secrets_sent_at : option Z;
  e_created_at : Z;
  e_updated_at : Z
}.

(** [UpdateExchangeInput]: an absent field is [None]; a nullable field
    that is present holds [Some None] (null) or [Some (Some v)]. *)
Record UpdateExchangeInput : Type := {
  in_title : option string;
  in_description : option (option string);
  in_budget_min : option (option Z);
  in_budget_max : option (option Z);
  in_exchange_date : option (option string);
  in_status : option ExchangeStatus;
  in_shuffled_at : option (option Z);
  in_secrets_sent_at : option (option Z)
}.

Record Participant : Type := {
  p_id : string;
  p_exchange_id : string;
  p_email : string;
  p_name : option string;
  p_token : string;
  p_is_organizer : bool;
  p_questionnaire_completed_at : option Z;
  p_assigned_recipient_id : option string;
  p_created_at : Z;
  p_updated_at : Z
}.

(** Of a questionnaire only the fields the lifecycle reads are kept; the
    preference texts are payload of the emails. *)
Record Questionnaire : Type := {
  q_id : string;
  q_participant_id : string;
  q_name : string
}.

(** The D1 database: one list of rows per table, in insertion order. *)
Record DB : Type := {
  organizers : list Organizer;
  exchanges : list Exchange;
  participants : list Participant;
  questionnaires : list Questionnaire
}.

Definition with_exchanges (db : DB) (es : list Exchange) : DB :=
  {| organizers := organizers db; exchanges := es;
     participants := participants db; questionnaires := questionnaires db |}.

Definition with_participants (db : DB) (ps : list Participant) : DB :=
  {| organizers := organizers db; exchanges := exchanges db;
     participants := ps; questionnaires := questionnaires db |}.

(** [id TEXT PRIMARY KEY] on exchanges and participants. *)
Definition primary_keys (db : DB) : Prop :=
  NoDup (map e_id (exchanges db)) /\ NoDup (map p_id (participants db)).

(** [if (n)] on [number | null]: [null] and [0] are falsy. *)
Definition truthy_num (v : option Z) : bool :=
  match v with
  | Some z => negb (Z.eqb z 0)
  | None => false
  end.

Definition is_null (A : Type) (v : option A) : bool :=
  match v with
  | Some _ => false
  | None => true
  end.

(* ================================================================== *)
(** ** lib/db/queries.ts *)

(** The message of [getDbErrorMessage] for an exception of the store. *)
Definition db_error_message : string :=
  "Service temporarily unavailable. Please try again later.".

Definition findOrganizerById (db : DB) (id : string) : option Organizer :=
  find (fun o => String.eqb (o_id o) id) (organizers db).

Definition findExchangeById (db : DB) (id : string) : option Exchange :=
  find (fun e => String.eqb (e_id e) id) (exchanges db).

Definition findExchangeByIdForOrganizer (db : DB) (id organizerId : string)
  : option Exchange :=
  find (fun e => String.eqb (e_id e) id && String.eqb (e_organizer_id e) organizerId)
       (exchanges db).

(** The values bound by the [UPDATE exchanges SET ...] of [updateExchange],
    written into a row selected by [WHERE id = ?]. *)
Definition updated_row (existing : Exchange) (input : UpdateExchangeInput)
    (now : Z) (row : Exchange) : Exchange :=
  {| e_id := e_id row;
     e_organizer_id := e_organizer_id row;
     e_title := match in_title input with
                | Some t => t
                | None => e_title existing
                end;
     e_description := match in_description input with
                      | Some d => d
                      | None => e_description existing
                      end;
     e_budget_min := match in_budget_min input with
                     | Some b => b
                     | None => e_budget_min existing
                     end;
     e_budget_max := match in_budget_max input with
                     | Some b => b
                     | None => e_budget_max existing
                     end;
     e_exchange_date := match in_exchange_date input with
                        | Some d => d
                        | None => e_exchange_date existing
                        end;
     e_status := match in_status input with
                 | Some s => s
                 | None => e_status existing
                 end;
     e_shuffled_at := match in_shuffled_at input with
                      | Some t => t
                      | None => e_shuffled_at existing
                      end;
     e_secrets_sent_at := match in_secrets_sent_at input with
                          | Some t => t
                          | None => e_secrets_sent_at existing
                          end;
     e_created_at := e_created_at row;
     e_updated_at := now |}.

(** The effect of the [UPDATE] on one row of the table. *)
Definition update_rows (id : string) (existing : Exchange)
    (input : UpdateExchangeInput) (now : Z) (row : Exchange) : Exchange :=
  if String.eqb (e_id row) id then updated_row existing input now row else row.

(** [updateExchange]: read the row, write every column unconditionally
    [WHERE id = ?], read the row back. *)
Definition updateExchange (db : DB) (id : string) (input : UpdateExchangeInput)
    (now : Z) : thrown + DB :=
  match findExchangeById db id with
  | None => inl (Error "Exchange not found")
  | Some existing =>
      let db' :=
        with_exchanges db
          (map (update_rows id existing input now) (exchanges db)) in
      match findExchangeById db' id with
      | None => inl (Error "Failed to update exchange")
      | Some _ => inr db'
      end
  end.

(** [UPDATE exchanges SET status = ?, updated_at = ? WHERE id = ?] *)
Definition updateExchangeStatus (db : DB) (id : string)
    (status : ExchangeStatus) (now : Z) : DB :=
  with_exchanges db
    (map (fun row =>
            if String.eqb (e_id row) id then
              {| e_id := e_id row; e_organizer_id := e_organizer_id row;
                 e_title := e_title row; e_description := e_description row;
                 e_budget_min := e_budget_min row;
                 e_budget_max := e_budget_max row;
                 e_exchange_date := e_exchange_date row;
                 e_status := status;
                 e_shuffled_at := e_shuffled_at row;
                 e_secrets_sent_at := e_secrets_sent_at row;
                 e_created_at := e_created_at row;
                 e_updated_at := now |}
            else row)
         (exchanges db)).

Definition findParticipantById (db : DB) (id : string) : option Participant :=
  find (fun p => String.eqb (p_id p) id) (participants db).

Definition findParticipantByExchangeAndEmail (db : DB)
    (exchangeId email : string) : option Participant :=
  find (fun p => String.eqb (p_exchange_id p) exchangeId
                 && String.eqb (p_email p) email)
       (participants db).

(** [ORDER BY created_at ASC] on rows taken in table order: a row goes
    before the first row with a later or equal [created_at] that follows
    it.  SQL leaves the order of rows with the same [created_at] to the
    engine; here they stay in table order. *)
Fixpoint insert_by_created_at (p : Participant) (sorted : list Participant)
  : list Participant :=
  match sorted with
  | [] => [p]
  | q :: rest =>
      if (p_created_at p <=? p_created_at q)%Z then p :: sorted
      else q :: insert_by_created_at p rest
  end.

Definition order_by_created_at (rows : list Participant) : list Participant :=
  fold_right insert_by_created_at [] rows.

(** [SELECT * FROM participants WHERE exchange_id = ?
    ORDER BY created_at ASC] *)
Definition listParticipantsByExchange (db : DB) (exchangeId : string)
  : list Participant :=
  order_by_created_at
    (filter (fun p => String.eqb (p_exchange_id p) exchangeId)
            (participants db)).

Definition countParticipantsByExchange (db : DB) (exchangeId : string) : nat :=
  length (filter (fun p => String.eqb (p_exchange_id p) exchangeId)
                 (participants db)).

Definition countCompletedQuestionnaires (db : DB) (exchangeId : string) : nat :=
  length (filter (fun p => String.eqb (p_exchange_id p) exchangeId
                           && negb (is_null (p_questionnaire_completed_at p)))
                 (participants db)).

Definition areAllQuestionnairesComplete (db : DB) (exchangeId : string) : bool :=
  let total := countParticipantsByExchange db exchangeId in
  let completed := countCompletedQuestionnaires db exchangeId in
  (0 <? total) && (total =? completed).

Record CreateParticipantInput : Type := {
  cp_id : string;
  cp_exchange_id : string;
  cp_email : string;
  cp_name : option string;
  cp_token : string;
  cp_is_organizer : bool
}.

(** [INSERT INTO participants ...] under the constraints of the schema:
    [id PRIMARY KEY], [token UNIQUE], [UNIQUE(exchange_id, email)] and the
    foreign key [exchange_id REFERENCES exchanges(id)]. *)
Definition createParticipant (db : DB) (input : CreateParticipantInput)
    (now : Z) : thrown + DB :=
  if existsb (fun p => String.eqb (p_id p) (cp_id input)
                       || String.eqb (p_token p) (cp_token input)
                       || (String.eqb (p_exchange_id p) (cp_exchange_id input)
                           && String.eqb (p_email p) (cp_email input)))
             (participants db)
     || is_null (findExchangeById db (cp_exchange_id input))
  then inl (Error "constraint failed")
  else
    inr (with_participants db
           (participants db ++
            [{| p_id := cp_id input; p_exchange_id := cp_exchange_id input;
                p_email := cp_email input; p_name := cp_name input;
                p_token := cp_token input;
                p_is_organizer := cp_is_organizer input;
                p_questionnaire_completed_at := None;
                p_assigned_recipient_id := None;
                p_created_at := now; p_updated_at := now |}])).

Definition set_email (email : string) (now : Z) (p : Participant) : Participant :=
  {| p_id := p_id p; p_exchange_id := p_exchange_id p; p_email := email;
     p_name := p_name p; p_token := p_token p;
     p_is_organizer := p_is_organizer p;
     p_questionnaire_completed_at := p_questionnaire_completed_at p;
     p_assigned_recipient_id := p_assigned_recipient_id p;
     p_created_at := p_created_at p; p_updated_at := now |}.

Definition set_recipient (recipientId : string) (now : Z) (p : Participant)
  : Participant :=
  {| p_id := p_id p; p_exchange_id := p_exchange_id p; p_email := p_email p;
     p_name := p_name p; p_token := p_token p;
     p_is_organizer := p_is_organizer p;
     p_questionnaire_completed_at := p_questionnaire_completed_at p;
     p_assigned_recipient_id := Some recipientId;
     p_created_at := p_created_at p; p_updated_at := now |}.

(** [UPDATE participants SET email = ?, updated_at = ? WHERE id = ?] *)
Definition updateParticipantEmail (db : DB) (id email : string) (now : Z) : DB :=
  with_participants db
    (map (fun p => if String.eqb (p_id p) id then set_email email now p else p)
         (participants db)).

(** [UPDATE participants SET assigned_recipient_id = ?, updated_at = ?
    WHERE id = ?] *)
Definition assignRecipient (db : DB) (participantId recipientId : string)
    (now : Z) : DB :=
  with_participants db
    (map (fun p => if String.eqb (p_id p) participantId
                   then set_recipient recipientId now p else p)
         (participants db)).

(** [DELETE FROM participants WHERE id = ?]: refused by the foreign key
    [assigned_recipient_id REFERENCES participants(id)] while another row
    points to the deleted one; the questionnaire of the participant goes
    with it ([ON DELETE CASCADE]). *)
Definition deleteParticipant (db : DB) (id : string) : thrown + DB :=
  if existsb (fun p => negb (String.eqb (p_id p) id)
                       && opt_eqb (p_assigned_recipient_id p) (Some id))
             (participants db)
  then inl (Error "FOREIGN KEY constraint failed")
  else
    inr {| organizers := organizers db;
           exchanges := exchanges db;
           participants :=
             filter (fun p => negb (String.eqb (p_id p) id)) (participants db);
           questionnaires :=
             filter (fun q => negb (String.eqb (q_participant_id q) id))
                    (questionnaires db) |}.

Definition findQuestionnaireByParticipant (db : DB) (participantId : string)
  : option Questionnaire :=
  find (fun q => String.eqb (q_participant_id q) participantId)
       (questionnaires db).

Definition findParticipantByToken (db : DB) (token : string)
  : option Participant :=
  find (fun p => String.eqb (p_token p) token) (participants db).

Definition set_completed (now : Z) (p : Participant) : Participant :=
  {| p_id := p_id p; p_exchange_id := p_exchange_id p; p_email := p_email p;
     p_name := p_name p; p_token := p_token p;
     p_is_organizer := p_is_organizer p;
     p_questionnaire_completed_at := Some now;
     p_assigned_recipient_id := p_assigned_recipient_id p;
     p_created_at := p_created_at p; p_updated_at := now |}.

(** [UPDATE participants SET questionnaire_completed_at = ?, updated_at = ?
    WHERE id = ?] *)
Definition markQuestionnaireCompleted (db : DB) (participantId : string)
    (now : Z) : DB :=
  with_participants db
    (map (fun p => if String.eqb (p_id p) participantId
                   then set_completed now p else p)
         (participants db)).

Definition with_questionnaires (db : DB) (qs : list Questionnaire) : DB :=
  {| organizers := organizers db; exchanges := exchanges db;
     participants := participants db; questionnaires := qs |}.

(** The input of [upsertQuestionnaire], with the fields kept of a
    questionnaire. *)
Record QuestionnaireInput : Type := {
  qi_id : string;
  qi_participant_id : string;
  qi_name : string
}.

(** [upsertQuestionnaire]: an [UPDATE ... WHERE participant_id = ?] when the
    participant has a questionnaire (its id is kept), otherwise an [INSERT]
    under the constraints [id PRIMARY KEY], [participant_id UNIQUE] and
    [participant_id REFERENCES participants(id)]; then the row is read
    back. *)
Definition upsertQuestionnaire (db : DB) (input : QuestionnaireInput)
  : thrown + DB :=
  let written :=
    match findQuestionnaireByParticipant db (qi_participant_id input) with
    | Some _ =>
        inr (with_questionnaires db
               (map (fun q =>
                       if String.eqb (q_participant_id q)
                                     (qi_participant_id input)
                       then {| q_id := q_id q;
                               q_participant_id := q_participant_id q;
                               q_name := qi_name input |}
                       else q)
                    (questionnaires db)))
    | None =>
        if existsb (fun q => String.eqb (q_id q) (qi_id input)
                             || String.eqb (q_participant_id q)
                                           (qi_participant_id input))
                   (questionnaires db)
           || is_null (findParticipantById db (qi_participant_id input))
        then inl (Error "constraint failed")
        else
          inr (with_questionnaires db
                 (questionnaires db ++
                  [{| q_id := qi_id input;
                      q_participant_id := qi_participant_id input;
                      q_name := qi_name input |}]))
    end in
  match written with
  | inl e => inl e
  | inr db' =>
      match findQuestionnaireByParticipant db' (qi_participant_id input) with
      | None => inl (Error "Failed to save questionnaire")
      | Some _ => inr db'
      end
  end.

(* ================================================================== *)
(** ** The email service and the results of the actions *)

(** The messages handed to the provider, by kind and addressee. *)
Inductive Email : Type :=
| QuestionnaireInvite (to token : string)
| AllCompleteNotification (to eventId : string) (participantCount : nat)
| SecretSantaAssignment (santaEmail recipientName : string).

Definition is_assignment_email (e : Email) : bool :=
  match e with
  | SecretSantaAssignment _ _ => true
  | _ => false
  end.

(** The reasons pushed on [errors] by [useSendSecretsAction], each next to
    the email address of the santa. *)
Inductive SendError : Type :=
| NoAssignmentFound
| RecipientNotFound
| RecipientQuestionnaireNotFound
| SendFailed.

(** What an action returns.  [Redirected] is a thrown redirect response
    ([requireAuth] without a session). *)
Inductive Response : Type :=
| Redirected
| Failed (error : string)
| Succeeded (message : string)
| ShuffledOk (assignmentCount : nat)
| SentAll (sentCount : nat)
| SentPartial (sentCount total : nat) (errors : list (string * SendError))
| SentNone (errors : list (string * SendError))
| Notified (notified : bool) (error : option string).

(** The user returned by [requireAuth]. *)
Record AuthUser : Type := {
  u_id : string;
  u_email : string
}.

Definition Outcome : Type := (DB * Response * list Email)%type.

(* ================================================================== *)
(** ** routes/exchanges/[exchangeId]/shuffle/index.tsx *)

(** The part of [useShuffleAction] that only reads: the guards, the
    shuffle and its validation.  It ends with a response, or with the
    assignments to be saved. *)
Definition shuffle_read (db : DB) (exchangeId : string)
    (auth : option AuthUser) (tape : nat -> Z)
  : Response + list (string * string) :=
  match auth with
  | None => inl Redirected
  | Some user =>
      match findExchangeByIdForOrganizer db exchangeId (u_id user) with
      | None => inl (Failed "Exchange not found.")
      | Some exchange =>
          if negb (status_eqb (e_status exchange) Collecting)
             && negb (status_eqb (e_status exchange) Ready)
          then inl (Failed "Exchange has already been shuffled or is not ready.")
          else
            let participants := listParticipantsByExchange db exchangeId in
            if length participants <? 2 then
              inl (Failed "Need at least 2 participants.")
            else
              let completedCount := countCompletedQuestionnaires db exchangeId in
              if negb (completedCount =? length participants) then
                inl (Failed "All participants must complete their questionnaires first.")
              else
                let participantIds := map p_id participants in
                match createSecretSantaAssignments tape participantIds with
                | inl _ => inl (Failed db_error_message)
                | inr assignments =>
                    let assignmentMap := Map_of_entries assignments in
                    match validateAssignments assignmentMap with
                    | Some Valid => inr assignments
                    | _ => inl (Failed "Shuffle validation failed. Please try again.")
                    end
                end
      end
  end.

(** [{ status: "shuffled", shuffled_at: nowUnix() }] *)
Definition shuffled_input (now : Z) : UpdateExchangeInput :=
  {| in_title := None; in_description := None; in_budget_min := None;
     in_budget_max := None; in_exchange_date := None;
     in_status := Some Shuffled; in_shuffled_at := Some (Some now);
     in_secrets_sent_at := None |}.

(** The part that writes: one [assignRecipient] per pair, then the
    [updateExchange] that sets the status. *)
Definition shuffle_write (db : DB) (exchangeId : string)
    (assignments : list (string * string)) (now : Z) : DB * Response :=
  let db1 :=
    fold_left (fun d a => assignRecipient d (fst a) (snd a) now) assignments db in
  match updateExchange db1 exchangeId (shuffled_input now) now with
  | inl _ => (db1, Failed db_error_message)
  | inr db2 => (db2, ShuffledOk (length assignments))
  end.

Definition useShuffleAction (db : DB) (exchangeId : string)
    (auth : option AuthUser) (tape : nat -> Z) (now : Z) : Outcome :=
  match shuffle_read db exchangeId auth tape with
  | inl response => (db, response, [])
  | inr assignments =>
      let (db', response) := shuffle_write db exchangeId assignments now in
      (db', response, [])
  end.

(** The state of the loop [for (const santa of participants)]. *)
Record SendLoop : Type := {
  sentCount : nat;
  errors : list (string * SendError);
  calls : nat;
  outbox : list Email
}.

Definition push_error (st : SendLoop) (santa : Participant) (e : SendError)
  : SendLoop :=
  {| sentCount := sentCount st;
     errors := errors st ++ [(p_email santa, e)];
     calls := calls st;
     outbox := outbox st |}.

(** [participantMap.get(id)] for [new Map(participants.map(p => [p.id, p]))]:
    a later entry with the same key replaces an earlier one. *)
Definition participantMap_get (participants : list Participant) (id : string)
  : option Participant :=
  find (fun p => String.eqb (p_id p) id) (rev participants).

(** One iteration; [mail k] is the result of the [k]-th call of the email
    service. *)
Definition send_one (db : DB) (participants : list Participant)
    (mail : nat -> bool) (st : SendLoop) (santa : Participant) : SendLoop :=
  match p_assigned_recipient_id santa with
  | Some recipientId =>
      if truthy recipientId then
        match participantMap_get participants recipientId with
        | None => push_error st santa RecipientNotFound
        | Some recipient =>
            match findQuestionnaireByParticipant db (p_id recipient) with
            | None => push_error st santa RecipientQuestionnaireNotFound
            | Some questionnaire =>
                let result := mail (calls st) in
                let st' :=
                  {| sentCount := sentCount st; errors := errors st;
                     calls := S (calls st);
                     outbox := outbox st ++
                               [SecretSantaAssignment (p_email santa)
                                  (q_name questionnaire)] |} in
                if result then
                  {| sentCount := S (sentCount st'); errors := errors st';
                     calls := calls st'; outbox := outbox st' |}
                else push_error st' santa SendFailed
            end
        end
      else push_error st santa NoAssignmentFound
  | None => push_error st santa NoAssignmentFound
  end.

Definition send_loop (db : DB) (participants : list Participant)
    (mail : nat -> bool) : SendLoop :=
  fold_left (send_one db participants mail) participants
            {| sentCount := 0; errors := []; calls := 0; outbox := [] |}.

(** [{ status: "complete", secrets_sent_at: nowUnix() }] on full success,
    [{ secrets_sent_at: nowUnix() }] on partial success. *)
Definition secrets_sent_input (status : option ExchangeStatus) (now : Z)
  : UpdateExchangeInput :=
  {| in_title := None; in_description := None; in_budget_min := None;
     in_budget_max := None; in_exchange_date := None;
     in_status := status; in_shuffled_at := None;
     in_secrets_sent_at := Some (Some now) |}.

Definition useSendSecretsAction (db : DB) (exchangeId : string)
    (auth : option AuthUser) (mail : nat -> bool) (now : Z) : Outcome :=
  match auth with
  | None => (db, Redirected, [])
  | Some user =>
      match findExchangeByIdForOrganizer db exchangeId (u_id user) with
      | None => (db, Failed "Exchange not found.", [])
      | Some exchange =>
          if negb (status_eqb (e_status exchange) Shuffled) then
            (db, Failed "Exchange must be shuffled before sending secrets.", [])
          else if negb (is_null (e_secrets_sent_at exchange)) then
            (db, Failed "Secrets have already been sent.", [])
          else
            let participants := listParticipantsByExchange db exchangeId in
            let st := send_loop db participants mail in
            if sentCount st =? length participants then
              match updateExchange db exchangeId
                      (secrets_sent_input (Some Complete) now) now with
              | inl _ => (db, Failed db_error_message, outbox st)
              | inr db' => (db', SentAll (sentCount st), outbox st)
              end
            else if 0 <? sentCount st then
              match updateExchange db exchangeId
                      (secrets_sent_input None now) now with
              | inl _ => (db, Failed db_error_message, outbox st)
              | inr db' =>
                  (db', SentPartial (sentCount st) (length participants)
                          (errors st), outbox st)
              end
            else (db, SentNone (errors st), outbox st)
      end
  end.

(** The [shuffleError] of the shuffle page.  [WaitingFor n plural] is the
    text "Waiting for n more questionnaire(s) to be completed.", with the
    final "s" when [plural]. *)
Inductive ShuffleError : Type :=
| NeedTwoParticipants
| WaitingFor (remaining : nat) (plural : bool).

Record ShuffleData : Type := {
  sd_exchange : Exchange;
  sd_participants : list Participant;
  sd_completedCount : nat;
  sd_canShuffle : bool;
  sd_canSendSecrets : bool;
  sd_shuffleError : option ShuffleError
}.

(** [useShuffleData], for the user resolved by the parent loader; [None] is
    the redirect to the dashboard. *)
Definition useShuffleData (db : DB) (exchangeId : string) (user : AuthUser)
  : option ShuffleData :=
  match findExchangeByIdForOrganizer db exchangeId (u_id user) with
  | None => None
  | Some exchange =>
      let participants := listParticipantsByExchange db exchangeId in
      let completedCount := countCompletedQuestionnaires db exchangeId in
      let allComplete :=
        (0 <? length participants) && (completedCount =? length participants) in
      let hasEnoughParticipants := 2 <=? length participants in
      Some {| sd_exchange := exchange;
              sd_participants := participants;
              sd_completedCount := completedCount;
              sd_canShuffle :=
                hasEnoughParticipants && allComplete
                && (status_eqb (e_status exchange) Collecting
                    || status_eqb (e_status exchange) Ready);
              sd_canSendSecrets :=
                status_eqb (e_status exchange) Shuffled
                && is_null (e_secrets_sent_at exchange);
              sd_shuffleError :=
                if negb hasEnoughParticipants then Some NeedTwoParticipants
                else if negb allComplete then
                  Some (WaitingFor (length participants - completedCount)
                          (1 <? length participants - completedCount))
                else None |}
  end.

(* ================================================================== *)
(** ** routes/exchanges/[exchangeId]/index.tsx and edit/index.tsx *)

Section ParticipantActions.
(** [normalizeEmail] and [isValidEmail] of lib/security work on the text
    of the address only. *)
Variable normalizeEmail : string -> string.
Variable isValidEmail : string -> bool.

Definition useAddParticipant (db : DB) (exchangeId : string)
    (auth : option AuthUser) (data_email : string) (data_name : option string)
    (participantId token : string) (now : Z) : Outcome :=
  match auth with
  | None => (db, Redirected, [])
  | Some user =>
      match findExchangeByIdForOrganizer db exchangeId (u_id user) with
      | None => (db, Failed "Exchange not found.", [])
      | Some exchange =>
          if negb (status_eqb (e_status exchange) Draft)
             && negb (status_eqb (e_status exchange) Collecting)
          then (db, Failed "Cannot add participants after shuffling.", [])
          else
            let email := normalizeEmail data_email in
            match findParticipantByExchangeAndEmail db exchangeId email with
            | Some _ =>
                (db, Failed "This email is already added to the exchange.", [])
            | None =>
                match createParticipant db
                        {| cp_id := participantId;
                           cp_exchange_id := exchangeId;
                           cp_email := email;
                           cp_name := if truthy_opt data_name
                                      then data_name else None;
                           cp_token := token;
                           cp_is_organizer := String.eqb email (u_email user) |}
                        now with
                | inl _ => (db, Failed db_error_message, [])
                | inr db1 =>
                    let db2 :=
                      if status_eqb (e_status exchange) Draft
                      then updateExchangeStatus db1 exchangeId Collecting now
                      else db1 in
                    (db2, Succeeded "Participant added and invitation sent!",
                     [QuestionnaireInvite email token])
                end
            end
      end
  end.

Definition useResendInvite (db : DB) (exchangeId : string)
    (auth : option AuthUser) (participantId : string) : Outcome :=
  match auth with
  | None => (db, Redirected, [])
  | Some user =>
      match findExchangeByIdForOrganizer db exchangeId (u_id user) with
      | None => (db, Failed "Exchange not found.", [])
      | Some exchange =>
          match findParticipantById db participantId with
          | None => (db, Failed "Participant not found.", [])
          | Some participant =>
              if negb (String.eqb (p_exchange_id participant) exchangeId) then
                (db, Failed "Participant not found.", [])
              else if truthy_num (p_questionnaire_completed_at participant) then
                (db, Failed "Questionnaire already completed.", [])
              else
                (db, Succeeded "Invitation resent!",
                 [QuestionnaireInvite (p_email participant)
                    (p_token participant)])
          end
      end
  end.

Definition useUpdateParticipantEmail (db : DB) (exchangeId : string)
    (auth : option AuthUser) (participantId data_email : string) (now : Z)
  : Outcome :=
  match auth with
  | None => (db, Redirected, [])
  | Some user =>
      match findExchangeByIdForOrganizer db exchangeId (u_id user) with
      | None => (db, Failed "Exchange not found.", [])
      | Some exchange =>
          match findParticipantById db participantId with
          | None => (db, Failed "Participant not found.", [])
          | Some participant =>
              if negb (String.eqb (p_exchange_id participant) exchangeId) then
                (db, Failed "Participant not found.", [])
              else
                let newEmail := normalizeEmail data_email in
                if negb (isValidEmail newEmail) then
                  (db, Failed "Please enter a valid email address.", [])
                else
                  match findParticipantByExchangeAndEmail db exchangeId newEmail with
                  | Some existing =>
                      if negb (String.eqb (p_id existing) (p_id participant))
                      then (db, Failed "This email is already in the exchange.", [])
                      else (updateParticipantEmail db participantId newEmail now,
                            Succeeded "Email updated!", [])
                  | None =>
                      (updateParticipantEmail db participantId newEmail now,
                       Succeeded "Email updated!", [])
                  end
          end
      end
  end.

Definition useRemoveParticipant (db : DB) (exchangeId : string)
    (auth : option AuthUser) (participantId : string) : Outcome :=
  match auth with
  | None => (db, Redirected, [])
  | Some user =>
      match findExchangeByIdForOrganizer db exchangeId (u_id user) with
      | None => (db, Failed "Exchange not found.", [])
      | Some exchange =>
          if status_eqb (e_status exchange) Shuffled
             || status_eqb (e_status exchange) Complete
          then (db, Failed "Cannot remove participants after shuffling.", [])
          else
            match findParticipantById db participantId with
            | None => (db, Failed "Participant not found.", [])
            | Some participant =>
                if negb (String.eqb (p_exchange_id participant) exchangeId) then
                  (db, Failed "Participant not found.", [])
                else
                  match deleteParticipant db participantId with
                  | inl _ => (db, Failed db_error_message, [])
                  | inr db' => (db', Succeeded "Participant removed.", [])
                  end
            end
      end
  end.

(** [useUpdateExchange]: the form carries the title and the four optional
    details; the status is not part of the input.  The whole body is inside
    one [try].  [requireAuth] throws a [Response], which the [catch] throws
    again: the redirect to the login page.  After [updateExchange] the action
    throws what [requestEvent.redirect] returns, which is not a [Response]
    and not an [Error]: the [catch] keeps it, and the action returns
    [success: false] with the message that [getDbErrorMessage] has for every
    value other than a no-such-table error.  The row is written by then. *)
Definition useUpdateExchange (db : DB) (exchangeId : string)
    (auth : option AuthUser) (title : string) (description : option string)
    (budget_min budget_max : option Z) (exchange_date : option string)
    (now : Z) : Outcome :=
  match auth with
  | None => (db, Redirected, [])
  | Some user =>
      match findExchangeByIdForOrganizer db exchangeId (u_id user) with
      | None => (db, Failed "Exchange not found.", [])
      | Some exchange =>
          if status_eqb (e_status exchange) Shuffled
             || status_eqb (e_status exchange) Complete
          then (db, Failed "Cannot edit after shuffling.", [])
          else
            match updateExchange db exchangeId
                    {| in_title := Some title;
                       in_description :=
                         Some (if truthy_opt description
                               then description else None);
                       in_budget_min := Some budget_min;
                       in_budget_max := Some budget_max;
                       in_exchange_date := Some exchange_date;
                       in_status := None;
                       in_shuffled_at := None;
                       in_secrets_sent_at := None |} now with
            | inl _ => (db, Failed db_error_message, [])
            | inr db' => (db', Failed db_error_message, [])
            end
      end
  end.

(** lib/exchanges/notifications.ts *)
Definition checkAndNotifyAllComplete (db : DB) (exchangeId : string)
    (mail : nat -> bool) (now : Z) : Outcome :=
  let allComplete := areAllQuestionnairesComplete db exchangeId in
  if negb allComplete then (db, Notified false None, [])
  else
    match findExchangeById db exchangeId with
    | None => (db, Notified false (Some "Exchange not found"), [])
    | Some exchange =>
        if negb (status_eqb (e_status exchange) Collecting) then
          (db, Notified false None, [])
        else
          let db' := updateExchangeStatus db exchangeId Ready now in
          match findOrganizerById db' (e_organizer_id exchange) with
          | None => (db', Notified false (Some "Organizer not found"), [])
          | Some organizer =>
              let participantCount :=
                countParticipantsByExchange db' exchangeId in
              let sent :=
                [AllCompleteNotification (o_email organizer) (e_id exchange)
                   participantCount] in
              if mail 0 then (db', Notified true None, sent)
              else (db', Notified false (Some "Failed to send email"), sent)
          end
    end.

(** The operations on an exchange, with what each request carries; the
    clock and the email service answer per request. *)
Inductive Request : Type :=
| AddParticipant (exchangeId : string) (auth : option AuthUser)
    (email : string) (name : option string) (participantId token : string)
| ResendInvite (exchangeId : string) (auth : option AuthUser)
    (participantId : string)
| UpdateParticipantEmail (exchangeId : string) (auth : option AuthUser)
    (participantId email : string)
| RemoveParticipant (exchangeId : string) (auth : option AuthUser)
    (participantId : string)
| UpdateExchange (exchangeId : string) (auth : option AuthUser)
    (title : string) (description : option string)
    (budget_min budget_max : option Z) (exchange_date : option string)
| CheckAllComplete (exchangeId : string)
| Shuffle (exchangeId : string) (auth : option AuthUser) (tape : nat -> Z)
| SendSecrets (exchangeId : string) (auth : option AuthUser).

Definition handle (req : Request) (mail : nat -> bool) (now : Z) (db : DB)
  : Outcome :=
  match req with
  | AddParticipant exchangeId auth email name participantId token =>
      useAddParticipant db exchangeId auth email name participantId token now
  | ResendInvite exchangeId auth participantId =>
      useResendInvite db exchangeId auth participantId
  | UpdateParticipantEmail exchangeId auth participantId email =>
      useUpdateParticipantEmail db exchangeId auth participantId email now
  | RemoveParticipant exchangeId auth participantId =>
      useRemoveParticipant db exchangeId auth participantId
  | UpdateExchange exchangeId auth title description bmin bmax date =>
      useUpdateExchange db exchangeId auth title description bmin bmax date now
  | CheckAllComplete exchangeId =>
      checkAndNotifyAllComplete db exchangeId mail now
  | Shuffle exchangeId auth tape =>
      useShuffleAction db exchangeId auth tape now
  | SendSecrets exchangeId auth =>
      useSendSecretsAction db exchangeId auth mail now
  end.

(** A run of requests, one after the other; the [k]-th request is served
    with the clock and the mail results of [env k]. *)
Fixpoint run (reqs : list Request) (env : nat -> (nat -> bool) * Z)
    (k : nat) (db : DB) : DB :=
  match reqs with
  | [] => db
  | req :: rest =>
      let '(db', _, _) := handle req (fst (env k)) (snd (env k)) db in
      run rest env (S k) db'
  end.
End ParticipantActions.

(* ================================================================== *)
(** ** routes/q/[token]/index.tsx *)

(** What [useQuestionnaireData] returns: an error, with [notFound] when the
    link is unknown, or the page of a participant. *)
Inductive QuestionnairePage : Type :=
| PageError (error : string) (notFound : bool)
| PageData (participant : Participant) (exchange : Exchange)
    (questionnaire : option Questionnaire) (alreadyShuffled : bool).

Definition useQuestionnaireData (db : DB) (token : string)
  : QuestionnairePage :=
  if negb (truthy token) then PageError "Invalid questionnaire link." true
  else
    match findParticipantByToken db token with
    | None =>
        PageError "This questionnaire link is invalid or has expired." true
    | Some participant =>
        match findExchangeById db (p_exchange_id participant) with
        | None =>
            PageError
              "The exchange associated with this link no longer exists." false
        | Some exchange =>
            if status_eqb (e_status exchange) Shuffled
               || status_eqb (e_status exchange) Complete
            then PageData participant exchange None true
            else PageData participant exchange
                   (findQuestionnaireByParticipant db (p_id participant)) false
        end
    end.

(** [useSubmitQuestionnaire]; [questionnaireId] is the id that [generateId]
    returns when the participant has no questionnaire yet.  The result of
    the notification email is not read. *)
Definition useSubmitQuestionnaire (db : DB) (token : string)
    (data_name : string) (questionnaireId : string) (now : Z) : Outcome :=
  match findParticipantByToken db token with
  | None => (db, Failed "Invalid questionnaire link.", [])
  | Some participant =>
      match findExchangeById db (p_exchange_id participant) with
      | None => (db, Failed "Exchange not found.", [])
      | Some exchange =>
          if status_eqb (e_status exchange) Shuffled
             || status_eqb (e_status exchange) Complete
          then
            (db,
             Failed "The gift exchange has already been shuffled. No changes allowed.",
             [])
          else
            let existingQuestionnaire :=
              findQuestionnaireByParticipant db (p_id participant) in
            let isUpdate := negb (is_null existingQuestionnaire) in
            match upsertQuestionnaire db
                    {| qi_id := match existingQuestionnaire with
                                | Some q => q_id q
                                | None => questionnaireId
                                end;
                       qi_participant_id := p_id participant;
                       qi_name := data_name |} with
            | inl _ => (db, Failed db_error_message, [])
            | inr db1 =>
                if isUpdate then
                  (db1, Succeeded "Your preferences have been updated!", [])
                else
                  let db2 :=
                    markQuestionnaireCompleted db1 (p_id participant) now in
                  let allComplete :=
                    areAllQuestionnairesComplete db2
                      (p_exchange_id participant) in
                  let sent :=
                    if allComplete then
                      match findOrganizerById db2 (e_organizer_id exchange) with
                      | Some organizer =>
                          [AllCompleteNotification (o_email organizer)
                             (e_id exchange)
                             (countParticipantsByExchange db2
                                (p_exchange_id participant))]
                      | None => []
                      end
                    else [] in
                  (db2,
                   Succeeded "Thank you! Your preferences have been saved. You'll receive your Secret Santa assignment once everyone has responded.",
                   sent)
            end
      end
  end.

(** Two [shuffle] requests on one exchange at once.  A request runs up to
    its next [await] of the database, and there the other request may run.
    [ShuffleWriter] is where a request that has passed its guards stands:
    in the loop [for (const [santaId, recipientId] of assignments)], with
    the pairs still to save (with none left, before the [SELECT] that
    opens [updateExchange]); before the [UPDATE], with the row that the
    [SELECT] returned; before the [SELECT] that reads the row back; or
    done, with its answer. *)
Inductive ShuffleWriter : Type :=
| Assigning (rest : list (string * string))
| Updating (existing : Exchange)
| Reselecting
| Answered (response : Response).

(** One statement of a request that saves [assignments]: the
    [assignRecipient] of the next pair, or one of the three statements of
    [updateExchange]; an exception of [updateExchange] ends the request in
    the [catch] of the action.  As in [shuffle_write] the request reads
    the clock once. *)
Definition writer_step (exchangeId : string)
    (assignments : list (string * string)) (now : Z)
    (w : ShuffleWriter) (db : DB) : ShuffleWriter * DB :=
  match w with
  | Assigning ((santaId, recipientId) :: rest) =>
      (Assigning rest, assignRecipient db santaId recipientId now)
  | Assigning [] =>
      match findExchangeById db exchangeId with
      | None => (Answered (Failed db_error_message), db)
      | Some existing => (Updating existing, db)
      end
  | Updating existing =>
      (Reselecting,
       with_exchanges db
         (map (update_rows exchangeId existing (shuffled_input now) now)
              (exchanges db)))
  | Reselecting =>
      match findExchangeById db exchangeId with
      | None => (Answered (Failed db_error_message), db)
      | Some _ => (Answered (ShuffledOk (length assignments)), db)
      end
  | Answered response => (Answered response, db)
  end.

(** The statements of two requests A and B in the order of [schedule]:
    [true] is a turn of A, [false] a turn of B. *)
Fixpoint race (exchangeId : string)
    (assignmentsA : list (string * string)) (nowA : Z)
    (assignmentsB : list (string * string)) (nowB : Z)
    (schedule : list bool) (a b : ShuffleWriter) (db : DB)
  : ShuffleWriter * ShuffleWriter * DB :=
  match schedule with
  | [] => (a, b, db)
  | true :: rest =>
      let (a', db') := writer_step exchangeId assignmentsA nowA a db in
      race exchangeId assignmentsA nowA assignmentsB nowB rest a' b db'
  | false :: rest =>
      let (b', db') := writer_step exchangeId assignmentsB nowB b db in
      race exchangeId assignmentsA nowA assignmentsB nowB rest a b' db'
  end.

(** Where a request stands when its reads are over: answered by a guard, or
    about to save its assignments. *)
Definition writer_start (plan : Response + list (string * string))
  : ShuffleWriter :=
  match plan with
  | inl response => Answered response
  | inr assignments => Assigning assignments
  end.

Definition planned (plan : Response + list (string * string))
  : list (string * string) :=
  match plan with
  | inl _ => []
  | inr assignments => assignments
  end.

(** Two [shuffle] requests on one exchange that both finish their reads
    before either writes; their writes then take turns as [schedule]
    says. *)
Definition racing_shuffles (db : DB) (exchangeId : string)
    (authA : option AuthUser) (tapeA : nat -> Z) (nowA : Z)
    (authB : option AuthUser) (tapeB : nat -> Z) (nowB : Z)
    (schedule : list bool) : ShuffleWriter * ShuffleWriter * DB :=
  let planA := shuffle_read db exchangeId authA tapeA in
  let planB := shuffle_read db exchangeId authB tapeB in
  race exchangeId (planned planA) nowA (planned planB) nowB schedule
       (writer_start planA) (writer_start planB) db.

(** The statements that a request has still to run. *)
Definition remaining (w : ShuffleWriter) : nat :=
  match w with
  | Assigning rest => length rest + 3
  | Updating _ => 2
  | Reselecting => 1
  | Answered _ => 0
  end.

(** The turns that [schedule] gives to A ([true]) or to B ([false]). *)
Definition turns (who : bool) (schedule : list bool) : nat :=
  length (filter (Bool.eqb who) schedule).

(** What a request that saves [assignments] has saved so far, and what it
    answers when served without an exception. *)
Definition progress (assignments : list (string * string))
    (w : ShuffleWriter) (saved : list (string * string)) : Prop :=
  match w with
  | Assigning rest => assignments = saved ++ rest
  | Updating _ | Reselecting => saved = assignments
  | Answered response =>
      saved = assignments /\ response = ShuffledOk (length assignments)
  end.

(** The request has run its [UPDATE exchanges]. *)
Definition has_written (w : ShuffleWriter) : Prop :=
  match w with
  | Reselecting | Answered _ => True
  | _ => False
  end.

(** What holds of two requests and the database at every turn of a race
    that started on [db0]. *)
Definition race_invariant (db0 : DB) (id : string)
    (assignmentsA : list (string * string)) (nowA : Z)
    (assignmentsB : list (string * string)) (nowB : Z)
    (a b : ShuffleWriter) (db : DB) : Prop :=
  exists savedA savedB,
    progress assignmentsA a savedA /\ progress assignmentsB b savedB /\
    findExchangeById db id <> None /\
    map p_id (listParticipantsByExchange db id)
    = map p_id (listParticipantsByExchange db0 id) /\
    (has_written a \/ has_written b ->
     exists e, findExchangeById db id = Some e /\ e_status e = Shuffled /\
               (e_shuffled_at e = Some nowA \/ e_shuffled_at e = Some nowB)) /\
    (forall p r0, In p (participants db) ->
                  In (p_id p, r0) (savedA ++ savedB) ->
                  exists r, p_assigned_recipient_id p = Some r /\
                            (In (p_id p, r) assignmentsA \/
                             In (p_id p, r) assignmentsB)).

(* ================================================================== *)
(** ** A small exchange, used to run the actions *)

Definition example_user : AuthUser :=
  {| u_id := "org1"; u_email := "olga@example.com" |}.

Definition example_exchange (status : ExchangeStatus)
    (secrets_sent_at : option Z) : Exchange :=
  {| e_id := "ex1"; e_organizer_id := "org1"; e_title := "Office party";
     e_description := None; e_budget_min := None; e_budget_max := None;
     e_exchange_date := None; e_status := status;
     e_shuffled_at := None; e_secrets_sent_at := secrets_sent_at;
     e_created_at := 1%Z; e_updated_at := 1%Z |}.

Definition example_participant (id email : string) (recipient : option string)
  : Participant :=
  {| p_id := id; p_exchange_id := "ex1"; p_email := email; p_name := None;
     p_token := "token-" ++ id; p_is_organizer := false;
     p_questionnaire_completed_at := Some 50%Z;
     p_assigned_recipient_id := recipient;
     p_created_at := 10%Z; p_updated_at := 10%Z |}.

Definition example_questionnaire (participantId name : string) : Questionnaire :=
  {| q_id := "q-" ++ participantId; q_participant_id := participantId;
     q_name := name |}.

(** Three participants with completed questionnaires and no assignment. *)
Definition example_db (status : ExchangeStatus) : DB :=
  {| organizers := [{| o_id := "org1"; o_email := "olga@example.com";
                       o_name := None |}];
     exchanges := [example_exchange status None];
     participants := [example_participant "p1" "ann@example.com" None;
                      example_participant "p2" "bob@example.com" None;
                      example_participant "p3" "cat@example.com" None];
     questionnaires := [example_questionnaire "p1" "Ann";
                        example_questionnaire "p2" "Bob";
                        example_questionnaire "p3" "Cat"] |}.

(** The same exchange after a shuffle: p1 -> p2 -> p3 -> p1. *)
Definition example_db_assigned (secrets_sent_at : option Z) : DB :=
  {| organizers := organizers (example_db Shuffled);
     exchanges := [example_exchange Shuffled secrets_sent_at];
     participants := [example_participant "p1" "ann@example.com" (Some "p2");
                      example_participant "p2" "bob@example.com" (Some "p3");
                      example_participant "p3" "cat@example.com" (Some "p1")];
     questionnaires := questionnaires (example_db Shuffled) |}.

(** Two random sources: every word 0, and first word 1. *)
Definition tape_zero : nat -> Z := fun _ => 0%Z.
Definition tape_one : nat -> Z :=
  fun c => match c with
           | 0 => 1%Z
           | S _ => 0%Z
           end.

(** The email service: every call succeeds, every call fails, only the
    second call fails. *)
Definition mail_ok : nat -> bool := fun _ => true.
Definition mail_down : nat -> bool := fun _ => false.
Definition mail_second_fails : nat -> bool :=
  fun k => negb (k =? 1).

(** An order of the statements of two requests A ([true]) and B ([false])
    that save three pairs each: A saves its first pair, B its first two,
    A its last two, B its last; then A runs its [updateExchange], then
    B. *)
Definition example_schedule : list bool :=
  [true; false; false; true; true; false;
   true; true; true; false; false; false].

Definition example_db_shuffled : DB :=
  Eval vm_compute in
    fst (fst (useShuffleAction (example_db Ready) "ex1" (Some example_user)
                tape_zero 500%Z)).

(** The status and the reveal timestamp of an exchange, as its organizer
    reads them. *)
Definition exchange_state (db : DB) (exchangeId organizerId : string)
  : option (ExchangeStatus * option Z) :=
  option_map (fun e => (e_status e, e_secrets_sent_at e))
             (findExchangeByIdForOrganizer db exchangeId organizerId).

(** The exchange a request addresses. *)
Definition request_exchange (req : Request) : string :=
  match req with
  | AddParticipant exchangeId _ _ _ _ _
  | ResendInvite exchangeId _ _
  | UpdateParticipantEmail exchangeId _ _ _
  | RemoveParticipant exchangeId _ _
  | UpdateExchange exchangeId _ _ _ _ _ _
  | CheckAllComplete exchangeId
  | Shuffle exchangeId _ _
  | SendSecrets exchangeId _ => exchangeId
  end.

(** The assignment notifications among the emails of an outcome. *)
Definition assignment_emails (o : Outcome) : list Email :=
  filter is_assignment_email (snd o).

(** The example exchange after a send in which the second delivery (to
    bob) failed. *)
Definition example_db_partial : DB :=
  Eval vm_compute in
    fst (fst (useSendSecretsAction (example_db_assigned None) "ex1"
                (Some example_user) mail_second_fails 900%Z)).

(** Row by row, the exchanges table keeps its ids and no status moves
    backward. *)
Definition exchanges_advance (es es' : list Exchange) : Prop :=
  Forall2 (fun e e' => e_id e' = e_id e /\
                       status_rank (e_status e) <= status_rank (e_status e'))
          es es'.

(** The database an outcome leaves. *)
Definition db_of (o : Outcome) : DB := fst (fst o).

(* ================================================================== *)
(** ** The distribution of a draw *)

(** The number of 32-bit words: [crypto.getRandomValues] fills the cell with
    one of them. *)
Definition words : N := 4294967296%N.

(** Does the word [w] make [secureRandomInt(max)] return [j]? *)
Definition drawn (w : N) (max j : nat) : bool :=
  secureRandomInt (Z.of_N w) max =? j.

(** How many of the words below [bound] draw [j]. *)
Definition count_draws (bound : N) (max j : nat) : N :=
  N.peano_rect (fun _ => N) 0%N
    (fun w acc => if drawn w max j then N.succ acc else acc) bound.

(** With every 32-bit word equally likely, the draw is uniform on
    [0 .. max-1] when every value is drawn by the same number of words. *)
Definition uniform_draw (max : nat) : Prop :=
  forall j k, j < max -> k < max ->
              count_draws words max j = count_draws words max k.

(* ================================================================== *)
(** ** Vocabulary of the specification *)

Section Traversal.
Variable A : Type.
Variable f : A -> option A.

(** The node reached from [x] after [k] steps along the mapping. *)
Fixpoint follow (k : nat) (x : A) : option A :=
  match k with
  | 0 => Some x
  | S k' => match f x with
            | Some y => follow k' y
            | None => None
            end
  end.

(** The first [k] nodes visited when walking from [x]. *)
Fixpoint walk (k : nat) (x : A) : list A :=
  match k with
  | 0 => []
  | S k' => x :: match f x with
                 | Some y => walk k' y
                 | None => []
                 end
  end.

(** [links l z]: every element of [l] is mapped to the next one, and the
    last one to [z]. *)
Fixpoint links (l : list A) (z : A) : Prop :=
  match l with
  | [] => True
  | x :: t => f x = Some (hd z t) /\ links t z
  end.
End Traversal.

(** [cycle_upto i l]: some listing of the positions [0 .. i] without
    repetition is a cycle of the mapping [p |-> l[p]]. *)
Definition cycle_upto (i : nat) (l : list nat) : Prop :=
  exists L, L <> [] /\ NoDup L /\ (forall x, In x L <-> x <= i) /\
            links (nth_error l) L (hd 0 L).

(** The assignment is a bijection on the set [ids]. *)
Definition bijection_on (m : Map) (ids : list string) : Prop :=
  (forall x, In x ids -> exists y, Map_get m x = Some y /\ In y ids) /\
  (forall x x' y, Map_get m x = Some y -> Map_get m x' = Some y -> x = x') /\
  (forall y, In y ids -> exists x, In x ids /\ Map_get m x = Some y) /\
  (forall x, In x (Map_keys m) <-> In x ids).

(** No participant gives to themselves. *)
Definition no_self_assignment (m : Map) : Prop :=
  forall x y, Map_get m x = Some y -> x <> y.

(** Walking from [x] visits the [n] ids, each exactly once, and the next
    step is back at [x]. *)
Definition single_cycle_from (m : Map) (ids : list string) (x : string) : Prop :=
  let n := length ids in
  length (walk (Map_get m) n x) = n /\
  NoDup (walk (Map_get m) n x) /\
  (forall y, In y ids <-> In y (walk (Map_get m) n x)) /\
  follow (Map_get m) n x = Some x /\
  (forall k, 0 < k < n -> follow (Map_get m) k x <> Some x).

(** The three checks of the validator, as the specification words them. *)

(** (1) the set of keys equals the set of values. *)
Definition keys_equal_values (m : Map) : Prop :=
  forall x, In x (Map_keys m) <-> In x (Map_values m).

(** (2) no key maps to itself. *)
Definition no_key_maps_to_itself (m : Map) : Prop :=
  forall k v, In (k, v) m -> k <> v.

(** (3) following the mapping from the first key visits every key exactly
    once and returns to the start. *)
Definition cycle_from_first_key (m : Map) : Prop :=
  match Map_keys m with
  | [] => True
  | start :: _ =>
      let n := Map_size m in
      length (walk (Map_get m) n start) = n /\
      NoDup (walk (Map_get m) n start) /\
      (forall k, In k (Map_keys m) -> In k (walk (Map_get m) n start)) /\
      follow (Map_get m) n start = Some start
  end.

(** Which check rejected a map. *)
Definition rejected_by_check (m : Map) (check : nat) : Prop :=
  match validateAssignments m with
  | Some (Invalid MismatchedSizes) | Some (Invalid (RecipientNotSanta _)) =>
      check = 1
  | Some (Invalid (SelfAssignment _)) => check = 2
  | Some (Invalid (MultipleCycles _ _)) | Some (Invalid CycleNotClosed) =>
      check = 3
  | _ => False
  end.

(* ================================================================== *)
(** ** Vocabulary of the further properties *)

(** The assignments stored for an exchange, santa by santa, in the order
    of the participants. *)
Definition committed_assignments (db : DB) (exchangeId : string)
  : list (string * string) :=
  flat_map (fun p => match p_assigned_recipient_id p with
                     | Some r => [(p_id p, r)]
                     | None => []
                     end)
           (listParticipantsByExchange db exchangeId).

(** The row left by the loop [for (const [santaId, recipientId] of
    assignments) assignRecipient(...)] of [useShuffleAction] when the
    santa ids are distinct. *)
Definition assigned_row (assignments : Map) (now : Z) (p : Participant)
  : Participant :=
  match Map_get assignments (p_id p) with
  | Some r => set_recipient r now p
  | None => p
  end.

(** The message that the loop of [useSendSecretsAction] hands to the email
    service for one santa, if it gets that far. *)
Definition attempted_email (db : DB) (participants : list Participant)
    (santa : Participant) : option Email :=
  match p_assigned_recipient_id santa with
  | Some recipientId =>
      if truthy recipientId then
        match participantMap_get participants recipientId with
        | None => None
        | Some recipient =>
            match findQuestionnaireByParticipant db (p_id recipient) with
            | None => None
            | Some questionnaire =>
                Some (SecretSantaAssignment (p_email santa)
                        (q_name questionnaire))
            end
        end
      else None
  | None => None
  end.

Definition attempted_emails (db : DB) (participants santas : list Participant)
  : list Email :=
  flat_map (fun santa => match attempted_email db participants santa with
                         | Some e => [e]
                         | None => []
                         end) santas.

(** The failures that the reveal reports when the message of every santa
    reaches the email service: the santas whose call the service refused,
    in the order of the calls; the call for the first santa has number
    [k]. *)
Definition refused_by_service (mail : nat -> bool) (k : nat)
    (santas : list Participant) : list (string * SendError) :=
  flat_map (fun ks => if mail (fst ks) then []
                      else [(p_email (snd ks), SendFailed)])
           (combine (seq k (length santas)) santas).

(** The constraints of the schema on the participants table:
    [id PRIMARY KEY], [token UNIQUE], [UNIQUE(exchange_id, email)] and
    [exchange_id REFERENCES exchanges(id)]. *)
Definition participant_constraints (db : DB) : Prop :=
  NoDup (map p_id (participants db)) /\
  NoDup (map p_token (participants db)) /\
  NoDup (map (fun p => (p_exchange_id p, p_email p)) (participants db)) /\
  (forall p, In p (participants db) ->
             findExchangeById db (p_exchange_id p) <> None).

(** Two rows of the exchanges table that differ at most in the status, the
    two timestamps of the shuffle and of the reveal, and [updated_at]. *)
Definition same_details (e e' : Exchange) : Prop :=
  e_id e' = e_id e /\ e_organizer_id e' = e_organizer_id e /\
  e_title e' = e_title e /\ e_description e' = e_description e /\
  e_budget_min e' = e_budget_min e /\ e_budget_max e' = e_budget_max e /\
  e_exchange_date e' = e_exchange_date e /\ e_created_at e' = e_created_at e.

(** [FOREIGN KEY (assigned_recipient_id) REFERENCES participants(id)] *)
Definition recipients_exist (db : DB) : Prop :=
  forall p r, In p (participants db) ->
              p_assigned_recipient_id p = Some r ->
              In r (map p_id (participants db)).

(** All the constraints of the schema on exchanges and participants. *)
Definition schema_constraints (db : DB) : Prop :=
  NoDup (map e_id (exchanges db)) /\
  participant_constraints db /\
  recipients_exist db.

(** The row that [createParticipant] inserts. *)
Definition inserted_row (input : CreateParticipantInput) (now : Z)
  : Participant :=
  {| p_id := cp_id input; p_exchange_id := cp_exchange_id input;
     p_email := cp_email input; p_name := cp_name input;
     p_token := cp_token input; p_is_organizer := cp_is_organizer input;
     p_questionnaire_completed_at := None; p_assigned_recipient_id := None;
     p_created_at := now; p_updated_at := now |}.

(** The constraints of the schema on the questionnaires table:
    [id PRIMARY KEY], [participant_id UNIQUE] and
    [participant_id REFERENCES participants(id)]. *)
Definition questionnaire_constraints (db : DB) : Prop :=
  NoDup (map q_id (questionnaires db)) /\
  NoDup (map q_participant_id (questionnaires db)) /\
  (forall q, In q (questionnaires db) ->
             findParticipantById db (q_participant_id q) <> None).

(** Every participant marked as completed has a questionnaire. *)
Definition completed_have_questionnaire (db : DB) : Prop :=
  forall p, In p (participants db) ->
            p_questionnaire_completed_at p <> None ->
            findQuestionnaireByParticipant db (p_id p) <> None.

(** The constraints of the schema together with the link between the
    completion mark of a participant and the questionnaire. *)
Definition store_invariant (db : DB) : Prop :=
  schema_constraints db /\ questionnaire_constraints db /\
  completed_have_questionnaire db.

(** An exchange whose reveal is over: complete, or shuffled with the reveal
    timestamp set. *)
Definition reveal_over (e : Exchange) : Prop :=
  e_status e = Complete \/
  (e_status e = Shuffled /\ e_secrets_sent_at e <> None).

(** Every exchange that has been shuffled has two participants or more. *)
Definition shuffled_have_participants (db : DB) : Prop :=
  forall e, In e (exchanges db) ->
            e_status e = Shuffled \/ e_status e = Complete ->
            2 <= length (listParticipantsByExchange db (e_id e)).

(** What reaches the store: a request of an organizer, or the questionnaire
    that a participant submits under a token. *)
Inductive Event : Type :=
| OrganizerRequest (req : Request) (mail : nat -> bool) (now : Z)
| Submission (token data_name questionnaireId : string) (now : Z).

Definition step (normalizeEmail : string -> string)
    (isValidEmail : string -> bool) (db : DB) (ev : Event) : DB :=
  match ev with
  | OrganizerRequest req mail now =>
      db_of (handle normalizeEmail isValidEmail req mail now db)
  | Submission token data_name questionnaireId now =>
      db_of (useSubmitQuestionnaire db token data_name questionnaireId now)
  end.

(** What reaches the store after the reveal in which the delivery to bob
    failed: the organizer corrects the address of bob and asks for the
    reveal again, and cat submits her questionnaire again. *)
Definition example_events : list Event :=
  [OrganizerRequest
     (UpdateParticipantEmail "ex1" (Some example_user) "p2"
        "robert@example.com") mail_ok 910%Z;
   OrganizerRequest (SendSecrets "ex1" (Some example_user)) mail_ok 920%Z;
   Submission "token-p3" "Cat" "q9" 930%Z].

(* ================================================================== *)
(** * Properties *)

(* ------------------------------------------------------------------ *)
(** ** Arrays *)

Section ArrayFacts.
Variable T : Type.
Implicit Types a : list T.

Lemma array_set_length a i v : length (array_set a i v) = length a.
Proof.
  revert i; induction a as [|h t IH]; intros [|i]; simpl; auto.
Qed.

Lemma nth_error_array_set a i v p :
  i < length a ->
  nth_error (array_set a i v) p = if p =? i then Some v else nth_error a p.
Proof.
  revert i p; induction a as [|h t IH]; intros [|i] [|p] Hi; simpl in *;
    try lia; auto.
  apply IH; lia.
Qed.

Lemma array_swap_length a i j : length (array_swap a i j) = length a.
Proof.
  unfold array_swap.
  destruct (nth_error a i), (nth_error a j); auto.
  now rewrite !array_set_length.
Qed.

Lemma nth_error_array_swap a i j p :
  i < length a -> j < length a ->
  nth_error (array_swap a i j) p = nth_error a (transp i j p).
Proof.
  intros Hi Hj. unfold array_swap, transp.
  destruct (nth_error a i) as [x|] eqn:Ex;
    [|apply nth_error_None in Ex; lia].
  destruct (nth_error a j) as [y|] eqn:Ey;
    [|apply nth_error_None in Ey; lia].
  rewrite nth_error_array_set by (rewrite array_set_length; lia).
  destruct (p =? j) eqn:Epj; [now rewrite Ex|].
  rewrite nth_error_array_set by lia.
  destruct (p =? i) eqn:Epi; [now rewrite Ey|reflexivity].
Qed.

Lemma array_swap_Permutation a i j : Permutation (array_swap a i j) a.
Proof.
  destruct (Nat.lt_ge_cases i (length a)) as [Hi|Hi];
    [|unfold array_swap;
      rewrite (proj2 (nth_error_None a i)) by lia; reflexivity].
  destruct (Nat.lt_ge_cases j (length a)) as [Hj|Hj];
    [|unfold array_swap;
      rewrite (proj2 (nth_error_None a j)) by lia;
      destruct (nth_error a i); reflexivity].
  symmetry. apply Permutation_nth_error. split.
  - symmetry. apply array_swap_length.
  - exists (transp i j). split.
    + intros p q E. unfold transp in E.
      destruct (p =? j) eqn:E1, (q =? j) eqn:E2,
               (p =? i) eqn:E3, (q =? i) eqn:E4;
        repeat match goal with
               | H : (_ =? _) = true |- _ => apply Nat.eqb_eq in H
               | H : (_ =? _) = false |- _ => apply Nat.eqb_neq in H
               end; lia.
    + intros p. now apply nth_error_array_swap.
Qed.
End ArrayFacts.

Lemma array_set_map (T U : Type) (g : T -> U) a i v :
  array_set (map g a) i (g v) = map g (array_set a i v).
Proof.
  revert i; induction a as [|h t IH]; intros [|i]; simpl; auto.
  now rewrite IH.
Qed.

Lemma array_swap_map (T U : Type) (g : T -> U) a i j :
  array_swap (map g a) i j = map g (array_swap a i j).
Proof.
  unfold array_swap. rewrite !nth_error_map.
  destruct (nth_error a i), (nth_error a j); simpl; auto.
  now rewrite !array_set_map.
Qed.

(* ------------------------------------------------------------------ *)
(** ** The random draw *)

Lemma uint32_range w : (0 <= uint32 w < 2 ^ 32)%Z.
Proof. unfold uint32. apply Z.mod_pos_bound. reflexivity. Qed.

Lemma secureRandomInt_lt w max : 0 < max -> secureRandomInt w max < max.
Proof.
  intros H. unfold secureRandomInt.
  assert (0 <= uint32 w mod Z.of_nat max < Z.of_nat max)%Z
    by (apply Z.mod_pos_bound; lia).
  lia.
Qed.

(** Every draw below the bound is the draw of some word. *)
Lemma secureRandomInt_onto j max :
  j < max -> (Z.of_nat max <= 2 ^ 32)%Z ->
  secureRandomInt (Z.of_nat j) max = j.
Proof.
  intros H Hm. unfold secureRandomInt, uint32.
  rewrite (Z.mod_small (Z.of_nat j)) by lia.
  rewrite Z.mod_small by lia. lia.
Qed.

(* ------------------------------------------------------------------ *)
(** ** The shuffle loop is a rearrangement of positions *)

Section LoopFacts.
Variable tape : nat -> Z.

Lemma sattoloLoop_map (T U : Type) (g : T -> U) c i a :
  sattoloLoop tape c i (map g a) = map g (sattoloLoop tape c i a).
Proof.
  revert c a; induction i as [|i IH]; intros c a; simpl; auto.
  now rewrite array_swap_map, IH.
Qed.

Lemma sattoloLoop_length (T : Type) c i (a : list T) :
  length (sattoloLoop tape c i a) = length a.
Proof.
  revert c a; induction i as [|i IH]; intros c a; simpl; auto.
  now rewrite IH, array_swap_length.
Qed.

Lemma sattoloLoop_Permutation (T : Type) c i (a : list T) :
  Permutation (sattoloLoop tape c i a) a.
Proof.
  revert c a; induction i as [|i IH]; intros c a; simpl; auto.
  now rewrite IH, array_swap_Permutation.
Qed.

(** The loop only exchanges positions inside the array: [j < i < n]. *)
Lemma sattoloLoop_indices i n c :
  0 < i < n ->
  secureRandomInt (tape c) i < i /\ i < n.
Proof. intros H. split; [apply secureRandomInt_lt|]; lia. Qed.

Lemma nth_error_seq0 n p : p < n -> nth_error (seq 0 n) p = Some p.
Proof.
  intros H. rewrite (nth_error_nth' _ 0) by (now rewrite length_seq).
  now rewrite seq_nth.
Qed.

Lemma array_swap_seq n i j :
  i < n -> j < n -> array_swap (seq 0 n) i j = map (transp i j) (seq 0 n).
Proof.
  intros Hi Hj. apply nth_error_ext. intros p.
  rewrite nth_error_array_swap by (now rewrite length_seq).
  rewrite nth_error_map.
  destruct (Nat.lt_ge_cases p n) as [Hp|Hp].
  - rewrite (nth_error_seq0 Hp). simpl.
    apply nth_error_seq0. unfold transp.
    destruct (p =? j); [lia|]. destruct (p =? i); lia.
  - rewrite (proj2 (nth_error_None (seq 0 n) p)) by (now rewrite length_seq).
    apply nth_error_None. rewrite length_seq. unfold transp.
    destruct (p =? j) eqn:E1; [apply Nat.eqb_eq in E1; lia|].
    destruct (p =? i) eqn:E2; [apply Nat.eqb_eq in E2; lia|lia].
Qed.

Lemma rho_step c i n :
  S i < n ->
  rho tape c (S i) n =
  map (transp (S i) (secureRandomInt (tape c) (S i))) (rho tape (S c) i n).
Proof.
  intros H. unfold rho. simpl.
  pose proof (@secureRandomInt_lt (tape c) (S i)) as Hj.
  rewrite array_swap_seq by lia.
  apply sattoloLoop_map.
Qed.

Lemma rho_fixed i n : forall c p,
  i < p < n -> nth_error (rho tape c i n) p = Some p.
Proof.
  induction i as [|i IH]; intros c p Hp.
  - unfold rho; simpl. apply nth_error_seq0; lia.
  - rewrite rho_step by lia. rewrite nth_error_map, IH by lia. simpl.
    pose proof (@secureRandomInt_lt (tape c) (S i)) as Hj.
    unfold transp.
    destruct (p =? _) eqn:E1; [apply Nat.eqb_eq in E1; lia|].
    destruct (p =? S i) eqn:E2; [apply Nat.eqb_eq in E2; lia|reflexivity].
Qed.

(** The loop applied to any array reads it through the positions. *)
Lemma sattoloLoop_positions (T : Type) (d : T) c i (a : list T) :
  sattoloLoop tape c i a =
  map (fun p => nth p a d) (rho tape c i (length a)).
Proof.
  unfold rho. rewrite <- sattoloLoop_map. f_equal.
  apply nth_error_ext. intros p. rewrite nth_error_map.
  destruct (Nat.lt_ge_cases p (length a)) as [Hp|Hp].
  - rewrite (nth_error_seq0 Hp). simpl. now apply nth_error_nth'.
  - rewrite (proj2 (nth_error_None (seq 0 (length a)) p))
      by (now rewrite length_seq).
    now apply nth_error_None.
Qed.
End LoopFacts.

(* ------------------------------------------------------------------ *)
(** ** Chains of links *)

Section LinkFacts.
Variable A : Type.
Implicit Types (f : A -> option A) (l : list A).

Lemma hd_app_hd l1 l2 (z : A) : hd z (l1 ++ l2) = hd (hd z l2) l1.
Proof. now destruct l1. Qed.

Lemma links_app f l1 l2 z :
  links f (l1 ++ l2) z <-> links f l1 (hd z l2) /\ links f l2 z.
Proof.
  induction l1 as [|x t IH]; simpl.
  - tauto.
  - rewrite IH, hd_app_hd. tauto.
Qed.

(** A cycle written from another of its elements. *)
Lemma links_rotate f l1 x l2 d :
  links f (l1 ++ x :: l2) (hd d (l1 ++ x :: l2)) ->
  links f (x :: l2 ++ l1) x.
Proof.
  intros H. apply links_app in H. destruct H as [H1 H2]. simpl hd in H1.
  change (x :: l2 ++ l1) with ((x :: l2) ++ l1).
  apply links_app. split; [|exact H1].
  rewrite hd_app_hd in H2. exact H2.
Qed.

Lemma links_follow f l z :
  links f l z ->
  forall k, k <= length l -> follow f k (hd z l) = Some (nth k l z).
Proof.
  induction l as [|x t IH]; intros H k Hk; simpl in *.
  - assert (k = 0) by lia. now subst.
  - destruct k as [|k]; [reflexivity|]. simpl.
    destruct H as [Hx Ht]. rewrite Hx. apply IH; [exact Ht|lia].
Qed.

Lemma links_walk f l z :
  links f l z -> walk f (length l) (hd z l) = l.
Proof.
  induction l as [|x t IH]; intros H; simpl in *; [reflexivity|].
  destruct H as [Hx Ht]. rewrite Hx. now rewrite IH.
Qed.
End LinkFacts.

Lemma links_map (A B : Type) (f : A -> option A) (g : B -> option B)
    (h : A -> B) l z :
  links f l z ->
  (forall x y, In x l -> f x = Some y -> g (h x) = Some (h y)) ->
  links g (map h l) (h z).
Proof.
  induction l as [|x t IH]; intros H Hg; simpl in *; [exact I|].
  destruct H as [Hx Ht]. split.
  - rewrite (Hg x _ (or_introl eq_refl) Hx). f_equal. now destruct t.
  - apply IH; [exact Ht|]. intros; eapply Hg; eauto.
Qed.

(** Composing the mapping with a rearrangement [t] that leaves the inner
    targets of a chain alone only moves its end. *)
Lemma links_retarget (f f' : nat -> option nat) (t : nat -> nat) l z :
  links f l z ->
  (forall y, In y (tl l) -> t y = y) ->
  (forall x, In x l -> f' x = option_map t (f x)) ->
  links f' l (t z).
Proof.
  induction l as [|x r IH]; intros H Ht Hf; simpl in *; [exact I|].
  destruct H as [Hx Hr]. split.
  - rewrite Hf, Hx by auto. simpl. f_equal.
    destruct r as [|y r']; simpl; [reflexivity|]. apply Ht. now left.
  - apply IH; [exact Hr| |auto].
    intros y Hy. apply Ht. destruct r; simpl in *; [contradiction|now right].
Qed.

(* ------------------------------------------------------------------ *)
(** ** Sattolo's invariant: the positions [0 .. i] form one cycle *)

Section CycleInvariant.
Variable tape : nat -> Z.

Lemma rho_cycle i n : forall c, i < n -> cycle_upto i (rho tape c i n).
Proof.
  induction i as [|i IH]; intros c Hn.
  - exists [0]. repeat split.
    + discriminate.
    + constructor; [intros []|constructor].
    + intros [<-|[]]; lia.
    + intros Hx; left; lia.
    + unfold rho. cbn [sattoloLoop hd]. now apply nth_error_seq0.
  - destruct (IH (S c)) as (L & HL0 & HLnd & HLin & HLl); [lia|].
    set (j := secureRandomInt (tape c) (S i)).
    assert (Hj : j < S i) by (apply secureRandomInt_lt; lia).
    assert (HjL : In j L) by (apply HLin; lia).
    destruct (in_split _ _ HjL) as (A & B & ->).
    assert (HSi : ~ In (S i) (A ++ j :: B))
      by (intros Hin; apply HLin in Hin; lia).
    assert (Hfix : forall y, In y (A ++ j :: B) -> y <> j ->
                             transp (S i) j y = y).
    { intros y Hy Hne. apply HLin in Hy. unfold transp.
      destruct (y =? j) eqn:E1; [apply Nat.eqb_eq in E1; lia|].
      destruct (y =? S i) eqn:E2; [apply Nat.eqb_eq in E2; lia|reflexivity]. }
    assert (HjA : ~ In j A /\ ~ In j B).
    { apply NoDup_remove_2 in HLnd. rewrite in_app_iff in HLnd. tauto. }
    assert (Hf' : forall x, nth_error (rho tape c (S i) n) x =
                            option_map (transp (S i) j)
                                       (nth_error (rho tape (S c) i n) x)).
    { intros x. rewrite rho_step by lia. apply nth_error_map. }
    apply links_app in HLl. destruct HLl as [HlA HlB]. simpl hd in HlA.
    exists (A ++ S i :: j :: B). repeat split.
    + now destruct A.
    + apply Permutation_NoDup with (l := S i :: A ++ j :: B).
      * apply Permutation_middle.
      * now constructor.
    + intros Hx.
      apply (Permutation_in _ (Permutation_sym
               (Permutation_middle A (j :: B) (S i)))) in Hx.
      destruct Hx as [<-|Hx]; [lia|]. apply HLin in Hx. lia.
    + intros Hx.
      apply (Permutation_in _ (Permutation_middle A (j :: B) (S i))).
      destruct (Nat.eq_dec x (S i)) as [->|Hne]; [now left|].
      right. apply HLin. lia.
    + apply links_app. simpl hd. split.
      * assert (Htj : transp (S i) j j = S i)
          by (unfold transp; now rewrite Nat.eqb_refl).
        generalize (@links_retarget (nth_error (rho tape (S c) i n))
                      (nth_error (rho tape c (S i) n))
                      (transp (S i) j) A j HlA).
        rewrite Htj. intros K. apply K; [|intros; apply Hf'].
        intros y Hy. apply Hfix.
        -- apply in_or_app. left. destruct A; simpl in *;
             [contradiction|now right].
        -- intros ->. apply (proj1 HjA).
           destruct A; simpl in *; [contradiction|now right].
      * cbn [links hd]. split.
        -- rewrite Hf', rho_fixed by lia. cbn [option_map]. f_equal.
           unfold transp.
           destruct (S i =? j) eqn:E1; [apply Nat.eqb_eq in E1; lia|].
           now rewrite Nat.eqb_refl.
        -- change (links (nth_error (rho tape c (S i) n)) (j :: B)
                     (hd 0 (A ++ S i :: j :: B))).
           replace (hd 0 (A ++ S i :: j :: B))
             with (transp (S i) j (hd 0 (A ++ j :: B))).
           ++ apply links_retarget with (f := nth_error (rho tape (S c) i n));
                [exact HlB| |intros; apply Hf'].
              intros y Hy. simpl in Hy. apply Hfix.
              ** apply in_or_app. right. now right.
              ** intros ->. now apply (proj2 HjA).
           ++ destruct A as [|h A']; simpl.
              ** unfold transp. now rewrite Nat.eqb_refl.
              ** apply Hfix; [now left|]. intros ->.
                 apply (proj1 HjA). now left.
Qed.
End CycleInvariant.

(* ------------------------------------------------------------------ *)
(** ** Maps *)

Lemma String_eqb_false x y : x <> y -> String.eqb x y = false.
Proof. intros H. now apply String.eqb_neq. Qed.

Lemma Map_get_In m k v : Map_get m k = Some v -> In (k, v) m.
Proof.
  induction m as [|[k' v'] t IH]; simpl; [discriminate|].
  destruct (String.eqb k' k) eqn:E.
  - apply String.eqb_eq in E. intros [= ->]. left. now subst.
  - intros H. right. now apply IH.
Qed.

Lemma Map_get_key m k v : Map_get m k = Some v -> In k (Map_keys m).
Proof. intros H. apply Map_get_In in H. now apply (in_map fst) in H. Qed.

Lemma Map_get_not_key m k : ~ In k (Map_keys m) -> Map_get m k = None.
Proof.
  intros H. destruct (Map_get m k) eqn:E; [|reflexivity].
  now apply Map_get_key in E.
Qed.

Lemma In_Map_get m k v :
  NoDup (Map_keys m) -> In (k, v) m -> Map_get m k = Some v.
Proof.
  induction m as [|[k' v'] t IH]; simpl; intros Hnd Hin; [contradiction|].
  inversion Hnd as [|? ? Hk' Ht]; subst.
  destruct Hin as [[= -> ->]|Hin].
  - now rewrite String.eqb_refl.
  - rewrite String_eqb_false; [now apply IH|].
    intros ->. apply Hk'. now apply (in_map fst) in Hin.
Qed.

Lemma Map_set_fresh m k v :
  ~ In k (Map_keys m) -> Map_set m k v = m ++ [(k, v)].
Proof.
  induction m as [|[k' v'] t IH]; simpl; intros H; [reflexivity|].
  rewrite String_eqb_false by (intros ->; apply H; now left).
  f_equal. apply IH. intros Hin. apply H. now right.
Qed.

Lemma fold_Map_set_fresh es : forall acc,
  NoDup (map fst es) ->
  (forall k, In k (map fst es) -> ~ In k (Map_keys acc)) ->
  fold_left (fun m e => Map_set m (fst e) (snd e)) es acc = acc ++ es.
Proof.
  induction es as [|[k v] t IH]; intros acc Hnd Hfresh; simpl.
  - now rewrite app_nil_r.
  - inversion Hnd as [|? ? Hk Ht]; subst.
    rewrite Map_set_fresh by (apply Hfresh; now left).
    rewrite IH; [now rewrite <- app_assoc|exact Ht|].
    intros k' Hk' Hin. unfold Map_keys in Hin.
    rewrite map_app, in_app_iff in Hin. destruct Hin as [Hin|[<-|[]]].
    + apply (Hfresh k'); [now right|exact Hin].
    + now apply Hk.
Qed.

Lemma Map_of_entries_NoDup es :
  NoDup (map fst es) -> Map_of_entries es = es.
Proof.
  intros H. unfold Map_of_entries. rewrite fold_Map_set_fresh; auto.
Qed.

Lemma map_fst_combine (A B : Type) (l : list A) (l' : list B) :
  length l = length l' -> map fst (combine l l') = l.
Proof.
  revert l'; induction l as [|x t IH]; intros [|y t'] H; simpl in *;
    try discriminate; auto.
  f_equal. apply IH. lia.
Qed.

Lemma map_snd_combine (A B : Type) (l : list A) (l' : list B) :
  length l = length l' -> map snd (combine l l') = l'.
Proof.
  revert l'; induction l as [|x t IH]; intros [|y t'] H; simpl in *;
    try discriminate; auto.
  f_equal. apply IH. lia.
Qed.

Lemma Map_get_combine_nth ks : forall vs p d,
  NoDup ks -> p < length ks ->
  Map_get (combine ks vs) (nth p ks d) = nth_error vs p.
Proof.
  induction ks as [|k0 ks IH]; intros vs p d Hnd Hp; simpl in Hp; [lia|].
  inversion Hnd as [|? ? Hk0 Hks]; subst.
  destruct vs as [|v0 vs]; [now destruct p|].
  destruct p as [|p]; simpl.
  - now rewrite String.eqb_refl.
  - rewrite String_eqb_false; [apply IH; [exact Hks|lia]|].
    intros E. apply Hk0. rewrite E. apply nth_In. lia.
Qed.

Lemma map_nth_seq0 (T : Type) (d : T) (a : list T) :
  map (fun p => nth p a d) (seq 0 (length a)) = a.
Proof.
  apply nth_error_ext. intros p. rewrite nth_error_map.
  destruct (Nat.lt_ge_cases p (length a)) as [Hp|Hp].
  - rewrite (nth_error_seq0 Hp). simpl. symmetry. now apply nth_error_nth'.
  - rewrite (proj2 (nth_error_None (seq 0 (length a)) p))
      by (now rewrite length_seq).
    symmetry. now apply nth_error_None.
Qed.

(* ------------------------------------------------------------------ *)
(** ** The chain built by [createSecretSantaChain] *)

Section Chain.
Variable tape : nat -> Z.
Variable ids : list string.
Hypothesis ids_distinct : NoDup ids.
Hypothesis ids_two : 2 <= length ids.

Let n := length ids.
Let idof (p : nat) : string := nth p ids "".
Let sigma : list nat := rho tape 0 (n - 1) n.
Let shuffled : list string := sattoloShuffle tape ids.
Let chain : Map := combine ids shuffled.

Lemma chain_shuffled : shuffled = map idof sigma.
Proof.
  unfold shuffled, sattoloShuffle, sattoloShuffleInPlace.
  destruct (length ids <? 2) eqn:E; [apply Nat.ltb_lt in E; lia|].
  apply sattoloLoop_positions.
Qed.

Lemma chain_sigma_perm : Permutation sigma (seq 0 n).
Proof. apply sattoloLoop_Permutation. Qed.

Lemma chain_sigma_length : length sigma = n.
Proof. unfold sigma, rho. now rewrite sattoloLoop_length, length_seq. Qed.

Lemma chain_shuffled_length : length shuffled = n.
Proof. now rewrite chain_shuffled, length_map, chain_sigma_length. Qed.

Lemma chain_result : createSecretSantaChain tape ids = inr chain.
Proof.
  unfold createSecretSantaChain.
  destruct (length ids <? 2) eqn:E; [apply Nat.ltb_lt in E; lia|].
  f_equal. rewrite fold_Map_set_fresh; [reflexivity| |intros ? ? []].
  rewrite map_fst_combine; [exact ids_distinct|].
  symmetry. apply chain_shuffled_length.
Qed.

Lemma chain_keys : Map_keys chain = ids.
Proof.
  apply map_fst_combine. symmetry. apply chain_shuffled_length.
Qed.

Lemma idof_inj p q : p < n -> q < n -> idof p = idof q -> p = q.
Proof.
  intros Hp Hq E. now apply (proj1 (NoDup_nth ids "") ids_distinct).
Qed.

Lemma ids_idof x : In x ids -> exists p, p < n /\ idof p = x.
Proof. intros H. now apply In_nth. Qed.

Lemma chain_get p :
  p < n -> Map_get chain (idof p) = option_map idof (nth_error sigma p).
Proof.
  intros Hp. unfold chain, idof.
  rewrite Map_get_combine_nth by assumption.
  rewrite chain_shuffled. apply nth_error_map.
Qed.

Lemma sigma_lt p q : nth_error sigma p = Some q -> q < n.
Proof.
  intros H. apply nth_error_In in H.
  apply (Permutation_in _ chain_sigma_perm) in H.
  apply in_seq in H. lia.
Qed.

Lemma chain_get_inv x y :
  Map_get chain x = Some y ->
  exists p q, p < n /\ q < n /\ x = idof p /\ y = idof q /\
              nth_error sigma p = Some q.
Proof.
  intros H. pose proof (Map_get_key _ _ H) as Hk. rewrite chain_keys in Hk.
  destruct (ids_idof _ Hk) as (p & Hp & <-).
  rewrite chain_get in H by assumption.
  destruct (nth_error sigma p) as [q|] eqn:E; [|discriminate].
  injection H as <-. exists p, q. pose proof (sigma_lt _ E). auto.
Qed.

Lemma chain_bijection : bijection_on chain ids.
Proof.
  repeat split.
  - intros x Hx. destruct (ids_idof _ Hx) as (p & Hp & <-).
    rewrite chain_get by assumption.
    destruct (nth_error sigma p) as [q|] eqn:E.
    + exists (idof q). split; [reflexivity|].
      apply nth_In. exact (sigma_lt _ E).
    + apply nth_error_None in E. rewrite chain_sigma_length in E. lia.
  - intros x x' y H H'.
    destruct (chain_get_inv _ H) as (p & q & Hp & Hq & -> & -> & E).
    destruct (chain_get_inv _ H') as (p' & q' & Hp' & Hq' & -> & Ey & E').
    apply idof_inj in Ey; [subst q'|assumption..].
    f_equal.
    assert (Hnd : NoDup sigma)
      by (apply (Permutation_NoDup (Permutation_sym chain_sigma_perm));
          apply seq_NoDup).
    apply (proj1 (NoDup_nth_error sigma) Hnd);
      [rewrite chain_sigma_length; lia|congruence].
  - intros y Hy. destruct (ids_idof _ Hy) as (q & Hq & <-).
    assert (Hin : In q sigma).
    { apply (Permutation_in _ (Permutation_sym chain_sigma_perm)).
      apply in_seq. lia. }
    destruct (In_nth_error _ _ Hin) as (p & E).
    assert (Hp : p < n).
    { rewrite <- chain_sigma_length. apply nth_error_Some. congruence. }
    exists (idof p). split; [now apply nth_In|].
    rewrite chain_get by assumption. now rewrite E.
  - now rewrite chain_keys.
  - now rewrite chain_keys.
Qed.

Lemma chain_single_cycle x : In x ids -> single_cycle_from chain ids x.
Proof.
  intros Hx. destruct (ids_idof _ Hx) as (p & Hp & <-).
  destruct (@rho_cycle tape (n - 1) n 0) as (L & _ & HLnd & HLin & HLl);
    [lia|]. fold sigma in HLl.
  assert (HpL : In p L) by (apply HLin; lia).
  destruct (in_split _ _ HpL) as (A & B & ->).
  apply links_rotate in HLl.
  set (R := p :: B ++ A) in *.
  assert (HRperm : Permutation R (seq 0 n)).
  { apply NoDup_Permutation.
    - apply (Permutation_NoDup (l := A ++ p :: B)); [|exact HLnd].
      unfold R. rewrite Permutation_app_comm. reflexivity.
    - apply seq_NoDup.
    - intros x. rewrite in_seq.
      assert (HR : In x R <-> In x (A ++ p :: B)).
      { unfold R. simpl. rewrite !in_app_iff. simpl. tauto. }
      rewrite HR, HLin. lia. }
  assert (HRin : forall x, In x R -> x < n).
  { intros x H. apply (Permutation_in _ HRperm) in H.
    apply in_seq in H. lia. }
  assert (Hlinks : links (Map_get chain) (map idof R) (idof p)).
  { apply links_map with (f := nth_error sigma); [exact HLl|].
    intros x y Hin E. rewrite chain_get by auto. now rewrite E. }
  assert (Hperm : Permutation (map idof R) ids).
  { transitivity (map idof (seq 0 n)); [now apply Permutation_map|].
    unfold idof, n. now rewrite map_nth_seq0. }
  assert (Hlen : length (map idof R) = n)
    by (now rewrite (Permutation_length Hperm)).
  assert (Hnd : NoDup (map idof R))
    by (apply (Permutation_NoDup (Permutation_sym Hperm)); assumption).
  assert (Hwalk : walk (Map_get chain) n (idof p) = map idof R).
  { rewrite <- Hlen.
    exact (links_walk (Map_get chain) (map idof R) (idof p) Hlinks). }
  unfold single_cycle_from. fold n. rewrite Hwalk.
  repeat split; auto.
  - intros H. now apply (Permutation_in _ (Permutation_sym Hperm)).
  - intros H. now apply (Permutation_in _ Hperm).
  - generalize (links_follow _ _ _ Hlinks (k := n)).
    rewrite Hlen. intros K. specialize (K (le_n n)).
    now rewrite nth_overflow in K by lia.
  - intros k Hk E.
    generalize (links_follow _ _ _ Hlinks (k := k)).
    rewrite Hlen. intros K. specialize (K ltac:(lia)).
    change (hd (idof p) (map idof R)) with (idof p) in K.
    rewrite K in E. injection E as E.
    assert (k = 0); [|lia].
    apply (proj1 (NoDup_nth (map idof R) (idof p)) Hnd); [lia..|].
    exact E.
Qed.

Lemma chain_no_self : no_self_assignment chain.
Proof.
  intros x y H ->.
  pose proof (Map_get_key _ _ H) as Hk. rewrite chain_keys in Hk.
  destruct (chain_single_cycle _ Hk) as (_ & _ & _ & _ & Hk1).
  apply (Hk1 1); [fold n; lia|]. simpl. now rewrite H.
Qed.
End Chain.

Unset Implicit Arguments.

(** C1.  For every list of at least two distinct participant ids and every
    random source (each draw is [secureRandomInt (tape c) i], which is
    below the loop index [i] by [secureRandomInt_lt], and every draw below
    [i] is the draw of some word by [secureRandomInt_onto]),
    [createSecretSantaChain] returns the pairing of the original order with
    the shuffled order; that assignment is a bijection on the id set, maps
    no id to itself, and is one cycle: the walk from any id visits all [n]
    ids, each exactly once, and the next step returns to the start. *)
Theorem createSecretSantaChain_single_cycle (tape : nat -> Z) (ids : list string) :
  NoDup ids ->
  2 <= length ids ->
  exists assignments,
    createSecretSantaChain tape ids = inr assignments /\
    assignments = combine ids (sattoloShuffle tape ids) /\
    bijection_on assignments ids /\
    no_self_assignment assignments /\
    forall x, In x ids -> single_cycle_from assignments ids x.
Proof.
  intros Hnd Hn. exists (combine ids (sattoloShuffle tape ids)).
  split; [now apply chain_result|]. split; [reflexivity|].
  split; [now apply chain_bijection|].
  split; [now apply chain_no_self|].
  intros x Hx. now apply chain_single_cycle.
Qed.

Lemma createSecretSantaChain_single_cycle_witness :
  exists assignments,
    createSecretSantaChain (fun c => Z.of_nat c) ["alice"; "bob"; "charlie"; "diana"]
      = inr assignments /\
    assignments = combine ["alice"; "bob"; "charlie"; "diana"]
                    (sattoloShuffle (fun c => Z.of_nat c)
                       ["alice"; "bob"; "charlie"; "diana"]) /\
    bijection_on assignments ["alice"; "bob"; "charlie"; "diana"] /\
    no_self_assignment assignments /\
    forall x, In x ["alice"; "bob"; "charlie"; "diana"] ->
              single_cycle_from assignments ["alice"; "bob"; "charlie"; "diana"] x.
Proof.
  apply (createSecretSantaChain_single_cycle (fun c => Z.of_nat c)
           ["alice"; "bob"; "charlie"; "diana"]).
  - repeat constructor; simpl; intuition discriminate.
  - simpl; lia.
Defined.

(** The example of the source's documentation comment, reached with the
    draws 0, 1, 0: alice -> charlie -> bob -> diana -> alice. *)
Example createSecretSantaChain_example :
  createSecretSantaChain
    (fun c : nat => match c with 1 => 1%Z | _ => 0%Z end)
    ["alice"; "bob"; "charlie"; "diana"]
  = inr [("alice", "charlie"); ("bob", "diana"); ("charlie", "bob");
         ("diana", "alice")].
Proof. vm_compute. reflexivity. Qed.

(* ------------------------------------------------------------------ *)
(** ** Sets *)

Lemma Set_has_In s x : Set_has s x = true <-> In x s.
Proof.
  induction s as [|y t IH]; simpl.
  - split; [discriminate|contradiction].
  - rewrite orb_true_iff, IH, String.eqb_eq. tauto.
Qed.

Lemma Set_has_notin s x : Set_has s x = false <-> ~ In x s.
Proof.
  rewrite <- Set_has_In. destruct (Set_has s x); split; congruence.
Qed.

Lemma Set_add_In s x y : In y (Set_add s x) <-> In y s \/ y = x.
Proof.
  unfold Set_add. destruct (Set_has s x) eqn:E.
  - apply Set_has_In in E. split; [tauto|]. intros [H| ->]; assumption.
  - rewrite in_app_iff. simpl. intuition.
Qed.

Lemma Set_add_NoDup s x : NoDup s -> NoDup (Set_add s x).
Proof.
  intros H. unfold Set_add. destruct (Set_has s x) eqn:E; [exact H|].
  apply Set_has_notin in E.
  apply (Permutation_NoDup (l := x :: s)).
  - rewrite Permutation_app_comm. reflexivity.
  - now constructor.
Qed.

Lemma fold_Set_add_In xs : forall acc y,
  In y (fold_left Set_add xs acc) <-> In y acc \/ In y xs.
Proof.
  induction xs as [|x t IH]; intros acc y; simpl; [tauto|].
  rewrite IH, Set_add_In. intuition.
Qed.

Lemma fold_Set_add_NoDup xs : forall acc,
  NoDup acc -> NoDup (fold_left Set_add xs acc).
Proof.
  induction xs as [|x t IH]; intros acc H; simpl; [exact H|].
  apply IH. now apply Set_add_NoDup.
Qed.

Lemma Set_of_In xs y : In y (Set_of xs) <-> In y xs.
Proof. unfold Set_of. rewrite fold_Set_add_In. simpl. tauto. Qed.

Lemma Set_of_NoDup xs : NoDup (Set_of xs).
Proof. apply fold_Set_add_NoDup. constructor. Qed.

Lemma fold_Set_add_fresh xs : forall acc,
  NoDup (acc ++ xs) -> fold_left Set_add xs acc = acc ++ xs.
Proof.
  induction xs as [|x t IH]; intros acc H; simpl.
  - now rewrite app_nil_r.
  - assert (Hx : Set_has acc x = false).
    { apply Set_has_notin. intros Hin.
      apply NoDup_remove_2 in H. apply H. apply in_or_app. now left. }
    unfold Set_add at 2. rewrite Hx.
    rewrite IH; rewrite <- app_assoc; [reflexivity|exact H].
Qed.

Lemma Set_of_NoDup_id xs : NoDup xs -> Set_of xs = xs.
Proof. intros H. unfold Set_of. now rewrite fold_Set_add_fresh. Qed.

(* ------------------------------------------------------------------ *)
(** ** The three checks of [validateAssignments] *)

Lemma first_non_santa_None santas recipients :
  first_non_santa santas recipients = None <->
  forall r, In r recipients -> In r santas.
Proof.
  induction recipients as [|r t IH]; simpl.
  - split; [intros _ ? []|reflexivity].
  - destruct (Set_has santas r) eqn:E.
    + apply Set_has_In in E. rewrite IH. split.
      * intros H x [<-|Hx]; auto.
      * intros H x Hx. apply H. now right.
    + apply Set_has_notin in E. split; [discriminate|].
      intros H. exfalso. apply E, H. now left.
Qed.

Lemma first_self_assignment_None m :
  first_self_assignment m = None <-> no_key_maps_to_itself m.
Proof.
  unfold no_key_maps_to_itself.
  induction m as [|[k v] t IH]; simpl.
  - split; [intros _ ? ? []|reflexivity].
  - destruct (String.eqb k v) eqn:E.
    + apply String.eqb_eq in E. split; [discriminate|].
      intros H. exfalso. apply (H k v); auto.
    + apply String.eqb_neq in E. rewrite IH. split.
      * intros H k' v' [[= <- <-]|Hin]; auto.
      * intros H k' v' Hin. apply H. now right.
Qed.

(** The first check of the source (equal sizes, every recipient a santa)
    is the equality of the two sets. *)
Lemma check_sets_equal m :
  (length (Set_of (Map_keys m)) = length (Set_of (Map_values m)) /\
   first_non_santa (Set_of (Map_keys m)) (Set_of (Map_values m)) = None)
  <-> keys_equal_values m.
Proof.
  unfold keys_equal_values. rewrite first_non_santa_None. split.
  - intros [Hlen Hsub] x. split; intros Hx.
    + assert (Hincl : incl (Set_of (Map_keys m)) (Set_of (Map_values m))).
      { apply NoDup_length_incl; [apply Set_of_NoDup|lia|exact Hsub]. }
      apply Set_of_In, Hincl, Set_of_In, Hx.
    + apply Set_of_In, Hsub, Set_of_In, Hx.
  - intros H. split.
    + apply Permutation_length, NoDup_Permutation; try apply Set_of_NoDup.
      intros x. rewrite !Set_of_In. apply H.
    + intros r Hr. apply Set_of_In, H, Set_of_In, Hr.
Qed.

(* ------------------------------------------------------------------ *)
(** ** The traversal loop *)

Section TraverseFacts.
Variable m : Map.
Let f := Map_get m.

Lemma follow_walk_length k : forall x y,
  follow f k x = Some y -> length (walk f k x) = k.
Proof.
  induction k as [|k IH]; intros x y H; simpl in *; [reflexivity|].
  destruct (f x) as [x'|]; [|discriminate].
  f_equal. eapply IH, H.
Qed.

Lemma walk_values k : forall x y,
  In y (walk f k x) -> y = x \/ In y (Map_values m).
Proof.
  induction k as [|k IH]; intros x y H; simpl in *; [contradiction|].
  destruct H as [<-|H]; [now left|]. right.
  destruct (f x) as [x'|] eqn:E; [|contradiction].
  apply IH in H. destruct H as [->|H]; [|exact H].
  apply Map_get_In in E. now apply (in_map snd) in E.
Qed.

(** While the nodes ahead are fresh and truthy, the loop walks on. *)
Lemma traverse_walk j : forall fuel visited c y,
  j <= fuel ->
  follow f j c = Some y ->
  NoDup (visited ++ walk f j c) ->
  (forall x, In x (walk f j c) -> truthy x = true) ->
  traverse fuel m visited (Some c) =
  traverse (fuel - j) m (visited ++ walk f j c) (Some y).
Proof.
  induction j as [|j IH]; intros fuel visited c y Hf Hy Hnd Ht.
  - simpl in *. injection Hy as <-. now rewrite app_nil_r, Nat.sub_0_r.
  - simpl in Hy, Hnd, Ht |- *. fold f in Hy, Hnd, Ht |- *.
    destruct (f c) as [c'|] eqn:E; [|discriminate].
    destruct fuel as [|fuel]; [lia|].
    assert (Hc : Set_has visited c = false).
    { apply Set_has_notin. intros Hin. apply NoDup_remove_2 in Hnd.
      apply Hnd, in_or_app. now left. }
    simpl. rewrite (Ht c (or_introl eq_refl)), Hc. simpl.
    unfold Set_add. rewrite Hc. fold f. rewrite E.
    assert (Hnd' : NoDup ((visited ++ [c]) ++ walk f j c'))
      by (now rewrite <- app_assoc).
    assert (Ht' : forall x, In x (walk f j c') -> truthy x = true)
      by (intros x Hx; apply Ht; now right).
    rewrite (IH fuel (visited ++ [c]) c' y (le_S_n _ _ Hf) Hy Hnd' Ht').
    now rewrite <- app_assoc.
Qed.

(** What the loop has done when it stops. *)
Lemma traverse_inv fuel : forall visited c visited' current',
  traverse fuel m visited (Some c) = Some (visited', current') ->
  exists j,
    visited' = visited ++ walk f j c /\
    length (walk f j c) = j /\
    current' = follow f j c /\
    (NoDup visited -> NoDup visited').
Proof.
  induction fuel as [|fuel IH]; intros visited c visited' current' H;
    simpl in H.
  - destruct (truthy c && negb (Set_has visited c)); [discriminate|].
    injection H as <- <-. exists 0. simpl. now rewrite app_nil_r.
  - destruct (truthy c && negb (Set_has visited c)) eqn:Ec.
    + apply andb_true_iff in Ec. destruct Ec as [_ Ec].
      apply negb_true_iff in Ec.
      unfold Set_add in H. rewrite Ec in H. fold f in H.
      destruct (f c) as [c'|] eqn:E.
      * apply IH in H. destruct H as (j & Hv & Hl & Hc & Hnd).
        exists (S j). simpl. fold f. rewrite E. repeat split.
        -- now rewrite Hv, <- app_assoc.
        -- now rewrite Hl.
        -- exact Hc.
        -- intros Hv0. apply Hnd.
           apply (Permutation_NoDup (l := c :: visited)).
           ++ rewrite Permutation_app_comm. reflexivity.
           ++ constructor; [now apply Set_has_notin|exact Hv0].
      * destruct fuel; simpl in H; injection H as <- <-;
          exists 1; simpl; fold f; rewrite E; repeat split;
          intros Hv0;
          (apply (Permutation_NoDup (l := c :: visited));
           [rewrite Permutation_app_comm; reflexivity
           |constructor; [now apply Set_has_notin|exact Hv0]]).
    + injection H as <- <-. exists 0. simpl. now rewrite app_nil_r.
Qed.

(** The budget is never used up: the visited nodes are distinct and are
    the start or recipients. *)
Lemma traverse_budget_enough fuel : forall start visited current,
  NoDup visited ->
  incl visited (start :: Map_values m) ->
  (forall c, current = Some c -> In c (start :: Map_values m)) ->
  length (start :: Map_values m) <= fuel + length visited ->
  traverse fuel m visited current <> None.
Proof.
  induction fuel as [|fuel IH]; intros start visited current Hnd Hin Hc Hlen.
  - destruct current as [c|]; simpl; [|discriminate].
    destruct (truthy c && negb (Set_has visited c)) eqn:Ec; [|discriminate].
    exfalso. apply andb_true_iff in Ec. destruct Ec as [_ Ec].
    apply negb_true_iff, Set_has_notin in Ec.
    assert (Hle : length (c :: visited) <= length (start :: Map_values m)).
    { apply NoDup_incl_length; [now constructor|].
      intros x [<-|Hx]; auto. }
    simpl in *. lia.
  - destruct current as [c|]; simpl; [|discriminate].
    destruct (truthy c && negb (Set_has visited c)) eqn:Ec; [|discriminate].
    apply andb_true_iff in Ec. destruct Ec as [_ Ec].
    apply negb_true_iff in Ec. unfold Set_add. rewrite Ec.
    apply Set_has_notin in Ec.
    apply (IH start).
    + apply (Permutation_NoDup (l := c :: visited)).
      * rewrite Permutation_app_comm. reflexivity.
      * now constructor.
    + intros x Hx. apply in_app_or in Hx. destruct Hx as [Hx|[<-|[]]]; auto.
    + intros c' E. right. apply Map_get_In in E.
      now apply (in_map snd) in E.
    + rewrite length_app. simpl in *. lia.
Qed.
End TraverseFacts.

(** [validateAssignments] returns on every map. *)
Lemma traverse_terminates m :
  traverse (traverse_budget m) m [] (hd_error (Map_keys m)) <> None.
Proof.
  destruct (hd_error (Map_keys m)) as [start|] eqn:E;
    [|unfold traverse_budget; rewrite Nat.add_comm; discriminate].
  apply (traverse_budget_enough m (traverse_budget m) start).
  - constructor.
  - intros ? [].
  - intros c [= <-]. now left.
  - unfold traverse_budget, Map_size, Map_values. simpl.
    rewrite length_map. lia.
Qed.

Theorem validateAssignments_total m : validateAssignments m <> None.
Proof.
  unfold validateAssignments.
  destruct (negb _); [discriminate|].
  destruct (first_non_santa _ _); [discriminate|].
  destruct (first_self_assignment m); [discriminate|].
  pose proof (traverse_terminates m) as H.
  destruct (traverse _ _ _ _) as [[visited current]|]; [|contradiction].
  destruct (negb _); [discriminate|]. destruct (negb _); discriminate.
Qed.

Lemma opt_eqb_eq a b : opt_eqb a b = true <-> a = b.
Proof.
  destruct a as [x|], b as [y|]; simpl; try (split; congruence).
  rewrite String.eqb_eq. split; congruence.
Qed.

Lemma traverse_stop fuel m visited c :
  Set_has visited c = true ->
  traverse fuel m visited (Some c) = Some (visited, Some c).
Proof.
  intros H. destruct fuel; simpl; now rewrite H, andb_false_r.
Qed.

(** The decision tree of [validateAssignments], read off its result. *)
Lemma validateAssignments_cases m :
  let santas := Set_of (Map_keys m) in
  let recipients := Set_of (Map_values m) in
  let start := hd_error (Map_keys m) in
  let traversal := traverse (traverse_budget m) m [] start in
  match validateAssignments m with
  | Some Valid =>
      length santas = length recipients /\
      first_non_santa santas recipients = None /\
      first_self_assignment m = None /\
      exists visited, traversal = Some (visited, start) /\
                      length visited = Map_size m
  | Some (Invalid MismatchedSizes) => length santas <> length recipients
  | Some (Invalid (RecipientNotSanta r)) =>
      length santas = length recipients /\
      first_non_santa santas recipients = Some r
  | Some (Invalid (SelfAssignment s)) =>
      length santas = length recipients /\
      first_non_santa santas recipients = None /\
      first_self_assignment m = Some s
  | Some (Invalid (MultipleCycles a b)) =>
      length santas = length recipients /\
      first_non_santa santas recipients = None /\
      first_self_assignment m = None /\
      exists visited current, traversal = Some (visited, current) /\
                              length visited <> Map_size m
  | Some (Invalid CycleNotClosed) =>
      length santas = length recipients /\
      first_non_santa santas recipients = None /\
      first_self_assignment m = None /\
      exists visited current, traversal = Some (visited, current) /\
                              length visited = Map_size m /\ current <> start
  | None => False
  end.
Proof.
  intros santas recipients start traversal.
  pose proof (validateAssignments_total m) as Htot.
  unfold validateAssignments in *.
  fold santas recipients start traversal in Htot |- *.
  destruct (length santas =? length recipients) eqn:E1; simpl in *;
    [apply Nat.eqb_eq in E1|now apply Nat.eqb_neq in E1].
  destruct (first_non_santa santas recipients) as [r|] eqn:E2; [now split|].
  destruct (first_self_assignment m) as [s|] eqn:E3; [now repeat split|].
  destruct traversal as [[visited current]|] eqn:E4; [|contradiction].
  destruct (length visited =? Map_size m) eqn:E5; simpl;
    [apply Nat.eqb_eq in E5
    |apply Nat.eqb_neq in E5; repeat split; auto; now exists visited, current].
  destruct (opt_eqb current start) eqn:E6; simpl.
  - apply opt_eqb_eq in E6. subst current. repeat split; auto.
    now exists visited.
  - repeat split; auto. exists visited, current. repeat split; auto.
    intros ->. destruct start as [x|]; simpl in E6; [|discriminate].
    now rewrite String.eqb_refl in E6.
Qed.

(** With the first check passed and no empty key, the traversal closes
    exactly on the maps that are one cycle through the first key. *)
Lemma traverse_cycle m :
  m <> [] ->
  keys_equal_values m ->
  (forall k, In k (Map_keys m) -> truthy k = true) ->
  (exists visited,
      traverse (traverse_budget m) m [] (hd_error (Map_keys m))
      = Some (visited, hd_error (Map_keys m)) /\
      length visited = Map_size m)
  <-> cycle_from_first_key m.
Proof.
  intros Hne Hkv Htr. unfold cycle_from_first_key.
  destruct (Map_keys m) as [|k0 ks] eqn:Ek;
    [destruct m; [contradiction|discriminate]|].
  simpl hd_error.
  assert (Hsize : Map_size m = length (Map_keys m))
    by (unfold Map_size, Map_keys; now rewrite length_map).
  assert (Hwk : forall j y, In y (walk (Map_get m) j k0) -> In y (Map_keys m)).
  { intros j y Hy. apply walk_values in Hy. destruct Hy as [->|Hy].
    - rewrite Ek. now left.
    - now apply Hkv. }
  split.
  - intros (visited & Ht & Hlen).
    apply traverse_inv in Ht. destruct Ht as (j & Hv & Hj & Hc & Hnd).
    simpl in Hv. subst visited. rewrite Hj in Hlen. subst j.
    specialize (Hnd (NoDup_nil _)).
    repeat split; auto.
    intros k Hk. rewrite <- Ek in Hk. revert k Hk.
    apply NoDup_length_incl; [exact Hnd|lia|].
    intros y Hy. eapply Hwk, Hy.
  - intros (Hlen & Hnd & Hall & Hfol).
    exists (walk (Map_get m) (Map_size m) k0). split; [|exact Hlen].
    rewrite (traverse_walk m (Map_size m) (traverse_budget m) [] k0 k0);
      auto.
    + simpl. apply traverse_stop. apply Set_has_In, Hall. now left.
    + unfold traverse_budget. lia.
    + intros x Hx. eapply Htr. rewrite <- Ek. eapply Hwk, Hx.
Qed.

(** X5.  On every non-empty map without an empty-string key,
    [validateAssignments] answers [Valid] exactly when the three checks of
    the specification hold, and an invalid map is rejected by the first check that fails, in
    the order (1) sets of keys and values, (2) self-assignment, (3) single
    cycle. *)
Theorem validateAssignments_checks (m : Map) :
  m <> [] ->
  (forall k, In k (Map_keys m) -> truthy k = true) ->
  (validateAssignments m = Some Valid <->
   keys_equal_values m /\ no_key_maps_to_itself m /\ cycle_from_first_key m) /\
  (~ keys_equal_values m -> rejected_by_check m 1) /\
  (keys_equal_values m -> ~ no_key_maps_to_itself m -> rejected_by_check m 2) /\
  (keys_equal_values m -> no_key_maps_to_itself m ->
   ~ cycle_from_first_key m -> rejected_by_check m 3).
Proof.
  intros Hne Htr.
  pose proof (validateAssignments_cases m) as Hc.
  pose proof (check_sets_equal m) as H1.
  pose proof (first_self_assignment_None m) as H2.
  pose proof (fun H => traverse_cycle m Hne H Htr) as H3.
  unfold rejected_by_check. cbv zeta in Hc.
  destruct (validateAssignments m) as [[|[| r | s | a b |]]|];
    try contradiction.
  - destruct Hc as (Hl & Hr & Hs & visited & Ht & Hv).
    assert (K1 : keys_equal_values m) by (apply H1; auto).
    assert (K2 : no_key_maps_to_itself m) by (now apply H2).
    assert (K3 : cycle_from_first_key m)
      by (apply (H3 K1); now exists visited).
    split; [split; [intros _; auto|reflexivity]|].
    repeat split; intros; contradiction.
  - assert (K1 : ~ keys_equal_values m)
      by (intros K; apply H1 in K; tauto).
    split; [split; [discriminate|intros; tauto]|].
    repeat split; auto; intros; tauto.
  - destruct Hc as (Hl & Hr).
    assert (K1 : ~ keys_equal_values m)
      by (intros K; apply H1 in K; destruct K; congruence).
    split; [split; [discriminate|intros; tauto]|].
    repeat split; auto; intros; tauto.
  - destruct Hc as (Hl & Hr & Hs).
    assert (K1 : keys_equal_values m) by (apply H1; auto).
    assert (K2 : ~ no_key_maps_to_itself m)
      by (intros K; apply H2 in K; congruence).
    split; [split; [discriminate|intros; tauto]|].
    repeat split; auto; intros; tauto.
  - destruct Hc as (Hl & Hr & Hs & visited & current & Ht & Hv).
    assert (K1 : keys_equal_values m) by (apply H1; auto).
    assert (K2 : no_key_maps_to_itself m) by (now apply H2).
    assert (K3 : ~ cycle_from_first_key m).
    { intros K. apply (H3 K1) in K. destruct K as (v' & Ht' & Hv').
      congruence. }
    split; [split; [discriminate|intros; tauto]|].
    repeat split; auto; intros; tauto.
  - destruct Hc as (Hl & Hr & Hs & visited & current & Ht & Hv & Hcur).
    assert (K1 : keys_equal_values m) by (apply H1; auto).
    assert (K2 : no_key_maps_to_itself m) by (now apply H2).
    assert (K3 : ~ cycle_from_first_key m).
    { intros K. apply (H3 K1) in K. destruct K as (v' & Ht' & Hv').
      congruence. }
    split; [split; [discriminate|intros; tauto]|].
    repeat split; auto; intros; tauto.
Qed.

Lemma validateAssignments_checks_witness :
  let m := [("A", "B"); ("B", "C"); ("C", "D"); ("D", "A")] in
  (validateAssignments m = Some Valid <->
   keys_equal_values m /\ no_key_maps_to_itself m /\ cycle_from_first_key m) /\
  (~ keys_equal_values m -> rejected_by_check m 1) /\
  (keys_equal_values m -> ~ no_key_maps_to_itself m -> rejected_by_check m 2) /\
  (keys_equal_values m -> no_key_maps_to_itself m ->
   ~ cycle_from_first_key m -> rejected_by_check m 3).
Proof.
  apply (validateAssignments_checks
           [("A", "B"); ("B", "C"); ("C", "D"); ("D", "A")]).
  - discriminate.
  - simpl. intros k [<-|[<-|[<-|[<-|[]]]]]; reflexivity.
Defined.

(** [validate({A:B, B:C, C:D, D:A})] is [Valid]: a single 4-cycle. *)
Example validateAssignments_four_cycle :
  validateAssignments [("A", "B"); ("B", "C"); ("C", "D"); ("D", "A")]
  = Some Valid.
Proof. vm_compute. reflexivity. Qed.

(** A fixed point next to a 2-cycle is rejected by the self-assignment
    check, which names the fixed point. *)
Example validateAssignments_fixed_point :
  validateAssignments [("A", "B"); ("B", "A"); ("C", "C")]
  = Some (Invalid (SelfAssignment "C")).
Proof. vm_compute. reflexivity. Qed.

(** Two disjoint 2-cycles pass the first two checks and fail the third. *)
Example validateAssignments_two_cycles :
  validateAssignments [("A", "B"); ("B", "A"); ("C", "D"); ("D", "C")]
  = Some (Invalid (MultipleCycles 2 4)).
Proof. vm_compute. reflexivity. Qed.

(** C3, at a map with an empty-string key.  The loop condition
    [current && ...] reads the empty string as false: the 2-cycle through
    the key of length 0 passes the three checks of the specification, and
    [validateAssignments] rejects it with no node visited ("Only 0 of 2
    participants in main cycle").  On the maps without such a key the
    validator agrees with the three checks ([validateAssignments_checks]). *)
Theorem validateAssignments_empty_string_key :
  let m := [("", "a"); ("a", "")] in
  keys_equal_values m /\ no_key_maps_to_itself m /\ cycle_from_first_key m /\
  validateAssignments m = Some (Invalid (MultipleCycles 0 2)).
Proof.
  cbv zeta. repeat split.
  - simpl. tauto.
  - simpl. tauto.
  - intros k v [[= <- <-]|[[= <- <-]|[]]]; discriminate.
  - repeat constructor; simpl; intuition discriminate.
  - simpl. tauto.
Qed.

(** C10.  On the empty map the two sets are empty, no loop body runs,
    [current] and [start] are both [undefined], and the result is
    [{ valid: true }]. *)
Theorem validateAssignments_empty_map :
  validateAssignments [] = Some Valid.
Proof. reflexivity. Qed.

(* ------------------------------------------------------------------ *)
(** ** Queries and updates of the exchanges table *)

Lemma find_map_same (A : Type) (p : A -> bool) (g : A -> A) l :
  (forall x, p (g x) = p x) ->
  find p (map g l) = option_map g (find p l).
Proof.
  intros H. induction l as [|x t IH]; simpl; [reflexivity|].
  rewrite H. destruct (p x); [reflexivity|exact IH].
Qed.

Lemma find_NoDup_key (A : Type) (key : A -> string) (p : A -> bool) l k x y :
  NoDup (map key l) ->
  find (fun a => String.eqb (key a) k) l = Some x ->
  find (fun a => String.eqb (key a) k && p a) l = Some y ->
  x = y.
Proof.
  induction l as [|a t IH]; simpl; intros Hnd Hx Hy; [discriminate|].
  inversion Hnd as [|? ? Ha Ht]; subst.
  destruct (String.eqb (key a) k) eqn:E; simpl in *.
  - injection Hx as <-. destruct (p a); [congruence|].
    exfalso. apply find_some in Hy. destruct Hy as [Hin Hy].
    apply andb_true_iff in Hy. destruct Hy as [Hy _].
    apply String.eqb_eq in E, Hy. apply Ha. rewrite E, <- Hy.
    now apply in_map.
  - now apply IH.
Qed.

Lemma status_eqb_eq a b : status_eqb a b = true <-> a = b.
Proof. destruct a, b; simpl; split; congruence. Qed.

Lemma status_eqb_refl a : status_eqb a a = true.
Proof. now destruct a. Qed.

Section ExchangeUpdates.
Variables (db : DB) (id : string) (g : Exchange -> Exchange).
Hypothesis g_id : forall row, e_id (g row) = e_id row.
Hypothesis g_organizer : forall row, e_organizer_id (g row) = e_organizer_id row.

Lemma findExchangeById_map id' :
  findExchangeById (with_exchanges db (map g (exchanges db))) id' =
  option_map g (findExchangeById db id').
Proof.
  unfold findExchangeById. simpl. apply find_map_same.
  intros x. now rewrite g_id.
Qed.

Lemma findExchangeByIdForOrganizer_map id' u :
  findExchangeByIdForOrganizer (with_exchanges db (map g (exchanges db))) id' u =
  option_map g (findExchangeByIdForOrganizer db id' u).
Proof.
  unfold findExchangeByIdForOrganizer. simpl. apply find_map_same.
  intros x. now rewrite g_id, g_organizer.
Qed.
End ExchangeUpdates.

Lemma update_rows_id id existing input now row :
  e_id (update_rows id existing input now row) = e_id row.
Proof. unfold update_rows. now destruct (String.eqb (e_id row) id). Qed.

Lemma update_rows_organizer id existing input now row :
  e_organizer_id (update_rows id existing input now row) = e_organizer_id row.
Proof. unfold update_rows. now destruct (String.eqb (e_id row) id). Qed.

Lemma updateExchange_found db id input now existing :
  findExchangeById db id = Some existing ->
  updateExchange db id input now =
  inr (with_exchanges db
         (map (update_rows id existing input now) (exchanges db))).
Proof.
  intros H. unfold updateExchange. rewrite H.
  rewrite findExchangeById_map, H by apply update_rows_id. reflexivity.
Qed.

Lemma forOrganizer_byId db id u e :
  findExchangeByIdForOrganizer db id u = Some e ->
  e_id e = id /\ e_organizer_id e = u /\ findExchangeById db id <> None.
Proof.
  unfold findExchangeByIdForOrganizer, findExchangeById. intros H.
  pose proof (find_some _ _ H) as [Hin Hp].
  apply andb_true_iff in Hp. destruct Hp as [Hi Ho].
  apply String.eqb_eq in Hi, Ho. repeat split; auto.
  intros Hn. apply (find_none _ _ Hn) in Hin.
  rewrite Hi, String.eqb_refl in Hin. discriminate.
Qed.

Lemma byId_id db id e : findExchangeById db id = Some e -> e_id e = id.
Proof.
  unfold findExchangeById. intros H. apply find_some in H.
  now apply String.eqb_eq.
Qed.

Lemma forOrganizer_unique db id u e :
  NoDup (map e_id (exchanges db)) ->
  findExchangeByIdForOrganizer db id u = Some e ->
  findExchangeById db id = Some e.
Proof.
  intros Hnd H. destruct (forOrganizer_byId _ _ _ _ H) as (_ & _ & Hn).
  destruct (findExchangeById db id) as [x|] eqn:E; [|contradiction].
  f_equal.
  exact (find_NoDup_key _ e_id
           (fun a => String.eqb (e_organizer_id a) u) _ _ _ _ Hnd E H).
Qed.

(** The writes on participants leave the exchanges table alone. *)
Lemma assignRecipient_fold_exchanges assignments now : forall db,
  exchanges (fold_left (fun d a => assignRecipient d (fst a) (snd a) now)
                       assignments db) = exchanges db.
Proof.
  induction assignments as [|a t IH]; intros db; simpl; [reflexivity|].
  now rewrite IH.
Qed.

(* ------------------------------------------------------------------ *)
(** ** Shuffle: the guard and the commit *)

(** The commit does not look at the status: on an existing exchange it
    always writes the edges and sets the status. *)
Lemma shuffle_write_found db id assignments now existing :
  findExchangeById db id = Some existing ->
  shuffle_write db id assignments now =
  (with_exchanges
     (fold_left (fun d a => assignRecipient d (fst a) (snd a) now) assignments db)
     (map (update_rows id existing (shuffled_input now) now) (exchanges db)),
   ShuffledOk (length assignments)).
Proof.
  intros H. unfold shuffle_write.
  set (db1 := fold_left _ assignments db).
  assert (H1 : findExchangeById db1 id = Some existing).
  { unfold findExchangeById, db1.
    now rewrite assignRecipient_fold_exchanges. }
  rewrite (updateExchange_found _ _ _ _ _ H1).
  unfold db1 at 2. now rewrite assignRecipient_fold_exchanges.
Qed.

Lemma shuffle_read_guard db id u tape e :
  findExchangeByIdForOrganizer db id (u_id u) = Some e ->
  e_status e = Shuffled \/ e_status e = Complete \/ e_status e = Draft ->
  shuffle_read db id (Some u) tape =
  inl (Failed "Exchange has already been shuffled or is not ready.").
Proof.
  intros H Hs. unfold shuffle_read. rewrite H.
  destruct Hs as [-> | [-> | ->]]; reflexivity.
Qed.

Lemma shuffle_read_plan db id auth tape assignments :
  shuffle_read db id auth tape = inr assignments ->
  exists u e,
    auth = Some u /\
    findExchangeByIdForOrganizer db id (u_id u) = Some e /\
    (e_status e = Collecting \/ e_status e = Ready) /\
    2 <= length (listParticipantsByExchange db id) /\
    countCompletedQuestionnaires db id = length (listParticipantsByExchange db id) /\
    createSecretSantaAssignments tape
      (map p_id (listParticipantsByExchange db id)) = inr assignments /\
    validateAssignments (Map_of_entries assignments) = Some Valid.
Proof.
  unfold shuffle_read. intros H.
  destruct auth as [u|]; [|discriminate].
  destruct (findExchangeByIdForOrganizer db id (u_id u)) as [e|] eqn:Ee;
    [|discriminate].
  destruct (negb (status_eqb (e_status e) Collecting)
            && negb (status_eqb (e_status e) Ready)) eqn:Es; [discriminate|].
  destruct (length (listParticipantsByExchange db id) <? 2) eqn:El;
    [discriminate|].
  destruct (negb (countCompletedQuestionnaires db id =?
                  length (listParticipantsByExchange db id))) eqn:Ec;
    [discriminate|].
  destruct (createSecretSantaAssignments tape _) as [|a] eqn:Ea;
    [discriminate|].
  destruct (validateAssignments (Map_of_entries a)) as [[|]|] eqn:Ev;
    try discriminate.
  injection H as <-. exists u, e. repeat split; auto.
  - destruct (e_status e); simpl in Es; try discriminate; auto.
  - apply Nat.ltb_ge in El. exact El.
  - apply negb_false_iff, Nat.eqb_eq in Ec. exact Ec.
Qed.

(** C4.  When a call of [shuffle] succeeds, the exchange is [Shuffled] with
    the shuffled timestamp of that call, and a second call on the same
    exchange is refused by the status guard ("Exchange has already been
    shuffled or is not ready.") and writes nothing: the database, with
    every assignment edge, the status and the shuffled timestamp, is the
    one the first call left.  Whoever makes the second call, the database
    is unchanged. *)
Theorem shuffle_twice_conflict (db : DB) (exchangeId : string) (user : AuthUser)
    (tape : nat -> Z) (now : Z) (db1 : DB) (count : nat) (out : list Email) :
  useShuffleAction db exchangeId (Some user) tape now
    = (db1, ShuffledOk count, out) ->
  (exists e1,
      findExchangeByIdForOrganizer db1 exchangeId (u_id user) = Some e1 /\
      e_status e1 = Shuffled /\ e_shuffled_at e1 = Some now) /\
  (forall tape' now',
      useShuffleAction db1 exchangeId (Some user) tape' now'
      = (db1, Failed "Exchange has already been shuffled or is not ready.", [])) /\
  (forall auth' tape' now',
      exists response,
        useShuffleAction db1 exchangeId auth' tape' now' = (db1, response, []) /\
        forall k, response <> ShuffledOk k).
Proof.
  unfold useShuffleAction at 1. intros H.
  destruct (shuffle_read db exchangeId (Some user) tape) as [r|a] eqn:Er.
  { injection H as _ -> _.
    unfold shuffle_read in Er.
    destruct (findExchangeByIdForOrganizer _ _ _); [|discriminate].
    destruct (_ && _); [discriminate|].
    destruct (_ <? _); [discriminate|].
    destruct (negb _); [discriminate|].
    destruct (createSecretSantaAssignments _ _); [discriminate|].
    destruct (validateAssignments _) as [[|]|]; discriminate. }
  apply shuffle_read_plan in Er.
  destruct Er as (u & e & [= <-] & He & _).
  destruct (forOrganizer_byId _ _ _ _ He) as (Hid & _ & Hex).
  destruct (findExchangeById db exchangeId) as [existing|] eqn:Eex;
    [clear Hex|contradiction].
  rewrite (shuffle_write_found _ _ _ _ _ Eex) in H.
  injection H as <- _ _.
  set (g := update_rows exchangeId existing (shuffled_input now) now).
  set (dbp := fold_left _ a db).
  assert (Hrows : forall row, e_id row = exchangeId ->
                              e_status (g row) = Shuffled /\
                              e_shuffled_at (g row) = Some now).
  { intros row Hr. unfold g, update_rows.
    rewrite Hr, String.eqb_refl. now split. }
  assert (Hfind : forall u',
             findExchangeByIdForOrganizer
               (with_exchanges dbp (map g (exchanges db))) exchangeId u' =
             option_map g (findExchangeByIdForOrganizer db exchangeId u')).
  { intros u'. unfold findExchangeByIdForOrganizer. simpl.
    apply find_map_same. intros x. unfold g.
    now rewrite update_rows_id, update_rows_organizer. }
  assert (Hsame : forall tape' now',
             useShuffleAction (with_exchanges dbp (map g (exchanges db)))
               exchangeId (Some user) tape' now' =
             (with_exchanges dbp (map g (exchanges db)),
              Failed "Exchange has already been shuffled or is not ready.", [])).
  { intros tape' now'. unfold useShuffleAction.
    erewrite shuffle_read_guard; [reflexivity| |left].
    - rewrite Hfind, He. reflexivity.
    - now apply Hrows. }
  split; [|split].
  - exists (g e). rewrite Hfind, He. split; [reflexivity|]. now apply Hrows.
  - exact Hsame.
  - intros [u'|] tape' now'.
    + destruct (findExchangeByIdForOrganizer db exchangeId (u_id u'))
        as [e'|] eqn:Ee'.
      * exists (Failed "Exchange has already been shuffled or is not ready.").
        split; [|discriminate].
        unfold useShuffleAction.
        erewrite shuffle_read_guard; [reflexivity| |left].
        -- rewrite Hfind, Ee'. reflexivity.
        -- apply Hrows. now destruct (forOrganizer_byId _ _ _ _ Ee').
      * exists (Failed "Exchange not found."). split; [|discriminate].
        unfold useShuffleAction, shuffle_read. now rewrite Hfind, Ee'.
    + exists Redirected. split; [reflexivity|discriminate].
Qed.

Lemma shuffle_twice_conflict_witness :
  (exists e1,
      findExchangeByIdForOrganizer example_db_shuffled "ex1" (u_id example_user)
        = Some e1 /\
      e_status e1 = Shuffled /\ e_shuffled_at e1 = Some 500%Z) /\
  (forall tape' now',
      useShuffleAction example_db_shuffled "ex1" (Some example_user) tape' now'
      = (example_db_shuffled,
         Failed "Exchange has already been shuffled or is not ready.", [])) /\
  (forall auth' tape' now',
      exists response,
        useShuffleAction example_db_shuffled "ex1" auth' tape' now'
          = (example_db_shuffled, response, []) /\
        forall k, response <> ShuffledOk k).
Proof.
  apply (shuffle_twice_conflict (example_db Ready) "ex1" example_user
           tape_zero 500%Z example_db_shuffled 3 []).
  vm_compute. reflexivity.
Defined.

(* ------------------------------------------------------------------ *)
(** ** What the writes of a shuffle leave *)

Lemma shuffle_write_status db id assignments now :
  findExchangeById db id <> None ->
  exists db',
    shuffle_write db id assignments now = (db', ShuffledOk (length assignments)) /\
    findExchangeById db' id <> None /\
    participants db' =
      participants (fold_left (fun d a => assignRecipient d (fst a) (snd a) now)
                              assignments db) /\
    forall e, findExchangeById db' id = Some e ->
              e_status e = Shuffled /\ e_shuffled_at e = Some now.
Proof.
  intros H. destruct (findExchangeById db id) as [existing|] eqn:E;
    [clear H|contradiction].
  rewrite (shuffle_write_found _ _ _ _ _ E).
  eexists. split; [reflexivity|].
  assert (Hf : findExchangeById
                 (with_exchanges
                    (fold_left (fun d a => assignRecipient d (fst a) (snd a) now)
                               assignments db)
                    (map (update_rows id existing (shuffled_input now) now)
                         (exchanges db))) id =
               Some (update_rows id existing (shuffled_input now) now existing)).
  { unfold findExchangeById in *. simpl.
    rewrite find_map_same, E; [reflexivity|].
    intros x. now rewrite update_rows_id. }
  rewrite Hf. split; [discriminate|]. split; [reflexivity|].
  intros e [= <-]. unfold update_rows.
  rewrite (byId_id _ _ _ E), String.eqb_refl. now split.
Qed.

(* ------------------------------------------------------------------ *)
(** ** Send secrets *)

Lemma send_one_counts db ps mail st santa :
  sentCount (send_one db ps mail st santa)
  + length (errors (send_one db ps mail st santa))
  = S (sentCount st + length (errors st)).
Proof.
  unfold send_one, push_error.
  destruct (p_assigned_recipient_id santa) as [r|]; simpl;
    [|rewrite length_app; simpl; lia].
  destruct (truthy r); simpl; [|rewrite length_app; simpl; lia].
  destruct (participantMap_get ps r) as [recipient|]; simpl;
    [|rewrite length_app; simpl; lia].
  destruct (findQuestionnaireByParticipant db (p_id recipient)); simpl;
    [|rewrite length_app; simpl; lia].
  destruct (mail (calls st)); simpl; [lia|rewrite length_app; simpl; lia].
Qed.

Lemma send_fold_counts db ps mail santas : forall st,
  sentCount (fold_left (send_one db ps mail) santas st)
  + length (errors (fold_left (send_one db ps mail) santas st))
  = sentCount st + length (errors st) + length santas.
Proof.
  induction santas as [|santa t IH]; intros st; simpl; [lia|].
  rewrite IH, send_one_counts. lia.
Qed.

(** Every participant is counted once: as sent, or with an error. *)
Lemma send_loop_counts db ps mail :
  sentCount (send_loop db ps mail) + length (errors (send_loop db ps mail))
  = length ps.
Proof. unfold send_loop. rewrite send_fold_counts. simpl. lia. Qed.

Lemma exchange_state_updated db id u exchange input now :
  NoDup (map e_id (exchanges db)) ->
  findExchangeByIdForOrganizer db id u = Some exchange ->
  exists db',
    updateExchange db id input now = inr db' /\
    exchange_state db' id u =
    Some (match in_status input with
          | Some s => s
          | None => e_status exchange
          end,
          match in_secrets_sent_at input with
          | Some t => t
          | None => e_secrets_sent_at exchange
          end).
Proof.
  intros Hnd H. pose proof (forOrganizer_unique _ _ _ _ Hnd H) as Hid.
  rewrite (updateExchange_found _ _ _ _ _ Hid).
  eexists. split; [reflexivity|].
  unfold exchange_state.
  rewrite findExchangeByIdForOrganizer_map
    by (intros; first [apply update_rows_id|apply update_rows_organizer]).
  rewrite H. simpl. unfold update_rows.
  rewrite (byId_id _ _ _ Hid), String.eqb_refl. reflexivity.
Qed.

Lemma example_keys (status : ExchangeStatus) (sent : option Z) :
  NoDup (map e_id [example_exchange status sent]).
Proof. simpl. constructor; [intros []|constructor]. Qed.

(** One delivery of three fails: the result carries the sent count and the
    failure, the status stays [Shuffled], the reveal timestamp is set. *)
Example send_secrets_one_fails :
  let '(db', response, out) :=
    useSendSecretsAction (example_db_assigned None) "ex1" (Some example_user)
      mail_second_fails 900%Z in
  response = SentPartial 2 3 [("bob@example.com", SendFailed)] /\
  exchange_state db' "ex1" "org1" = Some (Shuffled, Some 900%Z) /\
  db' = example_db_partial.
Proof. vm_compute. repeat split. Qed.

(** Every delivery fails: nothing changes. *)
Example send_secrets_all_fail :
  useSendSecretsAction (example_db_assigned None) "ex1" (Some example_user)
    mail_down 900%Z
  = (example_db_assigned None,
     SentNone [("ann@example.com", SendFailed); ("bob@example.com", SendFailed);
               ("cat@example.com", SendFailed)],
     [SecretSantaAssignment "ann@example.com" "Bob";
      SecretSantaAssignment "bob@example.com" "Cat";
      SecretSantaAssignment "cat@example.com" "Ann"]).
Proof. vm_compute. reflexivity. Qed.

(* ------------------------------------------------------------------ *)
(** ** After a partial send *)

Ltac split_cases :=
  repeat match goal with
         | |- context [match ?x with _ => _ end] => destruct x
         end.

(** Only [useSendSecretsAction] hands assignment emails to the service. *)
Lemma other_requests_no_assignment_email nE iV req mail now db :
  (forall id auth, req <> SendSecrets id auth) ->
  assignment_emails (handle nE iV req mail now db) = [].
Proof.
  intros Hreq. unfold assignment_emails.
  destruct req as [id a em nm pid tk | id a pid | id a pid em | id a pid
                  | id a ti de b1 b2 da | id | id a tp | id a]; simpl handle.
  - unfold useAddParticipant. split_cases; reflexivity.
  - unfold useResendInvite. split_cases; reflexivity.
  - unfold useUpdateParticipantEmail. split_cases; reflexivity.
  - unfold useRemoveParticipant. split_cases; reflexivity.
  - unfold useUpdateExchange. split_cases; reflexivity.
  - unfold checkAndNotifyAllComplete. split_cases; reflexivity.
  - unfold useShuffleAction. split_cases; reflexivity.
  - exfalso. now apply (Hreq id a).
Qed.

(** Once every row of the exchange carries a reveal timestamp, a send
    request on it is refused by one of the two guards and delivers
    nothing. *)
Lemma send_secrets_refused db id :
  (forall e, In e (exchanges db) -> e_id e = id -> e_secrets_sent_at e <> None) ->
  forall auth mail now,
  exists response,
    useSendSecretsAction db id auth mail now = (db, response, []).
Proof.
  intros Hrows auth mail now. unfold useSendSecretsAction.
  destruct auth as [u|]; [|now eexists].
  destruct (findExchangeByIdForOrganizer db id (u_id u)) as [e|] eqn:E;
    [|now eexists].
  destruct (negb (status_eqb (e_status e) Shuffled)); [now eexists|].
  destruct (forOrganizer_byId _ _ _ _ E) as (Hid & _ & _).
  unfold findExchangeByIdForOrganizer in E. apply find_some in E.
  destruct E as [Hin _].
  specialize (Hrows e Hin Hid).
  destruct (e_secrets_sent_at e); [now eexists|contradiction].
Qed.

Lemma no_assignment_email_once_sent nE iV db id :
  (forall e, In e (exchanges db) -> e_id e = id -> e_secrets_sent_at e <> None) ->
  forall req mail now,
    request_exchange req = id ->
    assignment_emails (handle nE iV req mail now db) = [].
Proof.
  intros Hrows req mail now Hid.
  destruct req as [id' a em nm pid tk | id' a pid | id' a pid em | id' a pid
                  | id' a ti de b1 b2 da | id' | id' a tp | id' a];
    try (apply other_requests_no_assignment_email; discriminate).
  simpl in Hid. subst id'. simpl handle.
  destruct (send_secrets_refused db id Hrows a mail now) as (r & ->).
  reflexivity.
Qed.

(** What a partial send leaves behind. *)
Lemma send_partial_rows db id auth mail now db' sent total errs out :
  useSendSecretsAction db id auth mail now
    = (db', SentPartial sent total errs, out) ->
  forall e, In e (exchanges db') -> e_id e = id ->
            e_secrets_sent_at e = Some now.
Proof.
  unfold useSendSecretsAction. intros H.
  destruct auth as [u|]; [|discriminate].
  destruct (findExchangeByIdForOrganizer db id (u_id u)) as [ex|] eqn:E;
    [|discriminate].
  destruct (negb (status_eqb (e_status ex) Shuffled)); [discriminate|].
  destruct (negb (is_null (e_secrets_sent_at ex))); [discriminate|].
  destruct (sentCount _ =? _).
  { destruct (updateExchange _ _ _ _); discriminate. }
  destruct (0 <? _); [|discriminate].
  destruct (forOrganizer_byId _ _ _ _ E) as (_ & _ & Hex).
  destruct (findExchangeById db id) as [existing|] eqn:Eex; [|contradiction].
  rewrite (updateExchange_found _ _ _ _ _ Eex) in H.
  injection H as <- _ _ _ _.
  simpl. intros e Hin He. apply in_map_iff in Hin.
  destruct Hin as (row & <- & _). rewrite update_rows_id in He.
  unfold update_rows. rewrite He, String.eqb_refl. reflexivity.
Qed.

(* ------------------------------------------------------------------ *)
(** ** Removing and editing a participant *)

Lemma deleteParticipant_unreferenced db id :
  (forall p, In p (participants db) -> p_id p <> id ->
             p_assigned_recipient_id p <> Some id) ->
  exists db',
    deleteParticipant db id = inr db' /\
    exchanges db' = exchanges db /\
    participants db' =
      filter (fun p => negb (String.eqb (p_id p) id)) (participants db).
Proof.
  intros H. unfold deleteParticipant.
  destruct (existsb _ (participants db)) eqn:E.
  - exfalso. apply existsb_exists in E. destruct E as (p & Hin & Hp).
    apply andb_true_iff in Hp. destruct Hp as [Hne Hr].
    apply negb_true_iff, String.eqb_neq in Hne.
    apply opt_eqb_eq in Hr. exact (H p Hin Hne Hr).
  - eexists. repeat split.
Qed.

(** C9, as the code has it, for removal.  [useRemoveParticipant] is refused
    with an error, the database unchanged, when the status is [Shuffled] or
    [Complete]; in the statuses [Draft], [Collecting] and [Ready] the status
    guard lets it through, and a participant of the exchange to whom no
    other participant is assigned is deleted. *)
Theorem remove_participant_guard (db : DB) (exchangeId : string)
    (user : AuthUser) (participantId : string) (exchange : Exchange) :
  findExchangeByIdForOrganizer db exchangeId (u_id user) = Some exchange ->
  (e_status exchange = Shuffled \/ e_status exchange = Complete ->
   useRemoveParticipant db exchangeId (Some user) participantId
   = (db, Failed "Cannot remove participants after shuffling.", [])) /\
  (e_status exchange = Draft \/ e_status exchange = Collecting \/
   e_status exchange = Ready ->
   forall participant,
     findParticipantById db participantId = Some participant ->
     p_exchange_id participant = exchangeId ->
     (forall p, In p (participants db) -> p_id p <> participantId ->
                p_assigned_recipient_id p <> Some participantId) ->
     exists db',
       useRemoveParticipant db exchangeId (Some user) participantId
       = (db', Succeeded "Participant removed.", []) /\
       exchanges db' = exchanges db /\
       participants db' =
         filter (fun p => negb (String.eqb (p_id p) participantId))
                (participants db)).
Proof.
  intros He. unfold useRemoveParticipant. rewrite He. split.
  - intros [-> | ->]; reflexivity.
  - intros Hs participant Hp Hex Hfk.
    assert (Hg : status_eqb (e_status exchange) Shuffled
                 || status_eqb (e_status exchange) Complete = false)
      by (destruct Hs as [-> | [-> | ->]]; reflexivity).
    rewrite Hg, Hp, Hex, String.eqb_refl. simpl.
    destruct (deleteParticipant_unreferenced db participantId Hfk)
      as (db' & -> & Hx & Hps).
    exists db'. auto.
Qed.

Lemma remove_participant_guard_witness :
  useRemoveParticipant (example_db_assigned None) "ex1" (Some example_user) "p3"
  = (example_db_assigned None,
     Failed "Cannot remove participants after shuffling.", []) /\
  exists db',
    useRemoveParticipant (example_db Ready) "ex1" (Some example_user) "p3"
    = (db', Succeeded "Participant removed.", []) /\
    exchanges db' = exchanges (example_db Ready) /\
    participants db' =
      filter (fun p => negb (String.eqb (p_id p) "p3"))
             (participants (example_db Ready)).
Proof.
  split.
  - apply (proj1 (remove_participant_guard (example_db_assigned None) "ex1"
                    example_user "p3" (example_exchange Shuffled None)
                    eq_refl)).
    left. reflexivity.
  - apply (proj2 (remove_participant_guard (example_db Ready) "ex1"
                    example_user "p3" (example_exchange Ready None) eq_refl)
             (or_intror (or_intror eq_refl))
             (example_participant "p3" "cat@example.com" None)
             eq_refl eq_refl).
    intros p [<-|[<-|[<-|[]]]] _; discriminate.
Defined.

(** In status [Ready], outside {Draft, Collecting}, a removal goes through
    and the participant set shrinks. *)
Lemma remove_participant_when_ready :
  let '(db', response, _) :=
    useRemoveParticipant (example_db Ready) "ex1" (Some example_user) "p3" in
  exchange_state (example_db Ready) "ex1" "org1" = Some (Ready, None) /\
  response = Succeeded "Participant removed." /\
  map p_id (participants (example_db Ready)) = ["p1"; "p2"; "p3"] /\
  map p_id (participants db') = ["p1"; "p2"].
Proof. vm_compute. repeat split. Qed.

(** [useUpdateParticipantEmail] reads no status: on a shuffled exchange the
    email of a participant is changed. *)
Lemma edit_participant_when_shuffled :
  let '(db', response, _) :=
    useUpdateParticipantEmail (fun s => s) (fun _ => true)
      (example_db_assigned None) "ex1" (Some example_user) "p2"
      "robert@example.com" 950%Z in
  exchange_state (example_db_assigned None) "ex1" "org1" = Some (Shuffled, None) /\
  response = Succeeded "Email updated!" /\
  map p_email (participants db')
  = ["ann@example.com"; "robert@example.com"; "cat@example.com"].
Proof. vm_compute. repeat split. Qed.

(* ------------------------------------------------------------------ *)
(** ** The status never moves backward *)

Lemma advance_refl es : exchanges_advance es es.
Proof. induction es; constructor; auto. Qed.

Lemma advance_trans es1 es2 es3 :
  exchanges_advance es1 es2 -> exchanges_advance es2 es3 ->
  exchanges_advance es1 es3.
Proof.
  intros H12. revert es3.
  induction H12 as [|a b l l' [Hi Hr] _ IH]; intros es3 H23;
    inversion H23 as [|? c ? l'' [Hi' Hr'] Ht]; subst; constructor.
  - split; [congruence|lia].
  - now apply IH.
Qed.

Lemma advance_ids es es' :
  exchanges_advance es es' -> map e_id es' = map e_id es.
Proof.
  induction 1 as [|a b l l' [Hi _] _ IH]; simpl; [reflexivity|].
  now rewrite Hi, IH.
Qed.

Lemma advance_map es (g : Exchange -> Exchange) :
  (forall e, In e es ->
             e_id (g e) = e_id e /\
             status_rank (e_status e) <= status_rank (e_status (g e))) ->
  exchanges_advance es (map g es).
Proof.
  induction es as [|a t IH]; intros H; simpl; constructor.
  - apply H. now left.
  - apply IH. intros e He. apply H. now right.
Qed.

Lemma advance_find es es' id e :
  exchanges_advance es es' ->
  find (fun x => String.eqb (e_id x) id) es = Some e ->
  exists e', find (fun x => String.eqb (e_id x) id) es' = Some e' /\
             status_rank (e_status e) <= status_rank (e_status e').
Proof.
  induction 1 as [|a b l l' [Hi Hr] _ IH]; simpl; [discriminate|].
  rewrite Hi. destruct (String.eqb (e_id a) id).
  - intros [= <-]. now exists b.
  - exact IH.
Qed.

Lemma unique_row es id x y :
  NoDup (map e_id es) ->
  find (fun e => String.eqb (e_id e) id) es = Some x ->
  In y es -> e_id y = id -> y = x.
Proof.
  induction es as [|a t IH]; simpl; intros Hnd Hx Hy Hid; [contradiction|].
  inversion Hnd as [|? ? Ha Ht]; subst.
  destruct (String.eqb (e_id a) (e_id y)) eqn:E.
  - injection Hx as <-. destruct Hy as [->|Hy]; [reflexivity|].
    exfalso. apply Ha. apply String.eqb_eq in E. rewrite E.
    now apply in_map.
  - destruct Hy as [->|Hy]; [now rewrite String.eqb_refl in E|].
    now apply IH.
Qed.

Lemma advance_updateExchange db id input now existing :
  NoDup (map e_id (exchanges db)) ->
  findExchangeById db id = Some existing ->
  (forall s, in_status input = Some s ->
             status_rank (e_status existing) <= status_rank s) ->
  exchanges_advance (exchanges db)
    (map (update_rows id existing input now) (exchanges db)).
Proof.
  intros Hnd Hex Hs. apply advance_map. intros e He.
  split; [apply update_rows_id|]. unfold update_rows.
  destruct (String.eqb (e_id e) id) eqn:E; [|lia].
  apply String.eqb_eq in E.
  rewrite (unique_row _ _ _ _ Hnd Hex He E). simpl.
  destruct (in_status input) as [s|]; [now apply Hs|lia].
Qed.

Lemma advance_updateExchangeStatus db id s now existing :
  NoDup (map e_id (exchanges db)) ->
  findExchangeById db id = Some existing ->
  status_rank (e_status existing) <= status_rank s ->
  exchanges_advance (exchanges db)
    (exchanges (updateExchangeStatus db id s now)).
Proof.
  intros Hnd Hex Hs. unfold updateExchangeStatus. simpl.
  apply advance_map. intros e He.
  destruct (String.eqb (e_id e) id) eqn:E; simpl; [|split; [reflexivity|lia]].
  apply String.eqb_eq in E.
  rewrite (unique_row _ _ _ _ Hnd Hex He E). split; [reflexivity|exact Hs].
Qed.

Lemma createParticipant_exchanges db input now db' :
  createParticipant db input now = inr db' -> exchanges db' = exchanges db.
Proof.
  unfold createParticipant. destruct (_ || _); [discriminate|].
  now intros [= <-].
Qed.

Lemma deleteParticipant_exchanges db id db' :
  deleteParticipant db id = inr db' -> exchanges db' = exchanges db.
Proof.
  unfold deleteParticipant. destruct (existsb _ _); [discriminate|].
  now intros [= <-].
Qed.

Section Advance.
Variable normalizeEmail : string -> string.
Variable isValidEmail : string -> bool.
Variable db : DB.
Hypothesis keys : NoDup (map e_id (exchanges db)).

Lemma useAddParticipant_advance id auth em nm pid tk now :
  exchanges_advance (exchanges db)
    (exchanges (db_of (useAddParticipant normalizeEmail db id auth em nm pid tk now))).
Proof.
  unfold useAddParticipant, db_of.
  destruct auth as [u|]; [|apply advance_refl].
  destruct (findExchangeByIdForOrganizer db id (u_id u)) as [ex|] eqn:E;
    [|apply advance_refl].
  destruct (_ && _); [apply advance_refl|].
  destruct (findParticipantByExchangeAndEmail _ _ _); [apply advance_refl|].
  destruct (createParticipant _ _ _) as [|db1] eqn:Ec; [apply advance_refl|].
  apply createParticipant_exchanges in Ec. simpl.
  destruct (status_eqb (e_status ex) Draft) eqn:Es;
    [|rewrite Ec; apply advance_refl].
  apply status_eqb_eq in Es.
  pose proof (forOrganizer_unique _ _ _ _ keys E) as Hid.
  rewrite <- Ec at 1.
  apply (advance_updateExchangeStatus db1 id Collecting now ex).
  - now rewrite Ec.
  - unfold findExchangeById in *. now rewrite Ec.
  - rewrite Es. simpl. lia.
Qed.

Lemma useResendInvite_advance id auth pid :
  exchanges_advance (exchanges db)
    (exchanges (db_of (useResendInvite db id auth pid))).
Proof.
  unfold useResendInvite, db_of. split_cases; apply advance_refl.
Qed.

Lemma useUpdateParticipantEmail_advance id auth pid em now :
  exchanges_advance (exchanges db)
    (exchanges (db_of (useUpdateParticipantEmail normalizeEmail isValidEmail
                         db id auth pid em now))).
Proof.
  unfold useUpdateParticipantEmail, db_of. split_cases; apply advance_refl.
Qed.

Lemma useRemoveParticipant_advance id auth pid :
  exchanges_advance (exchanges db)
    (exchanges (db_of (useRemoveParticipant db id auth pid))).
Proof.
  unfold useRemoveParticipant, db_of.
  destruct auth as [u|]; [|apply advance_refl].
  destruct (findExchangeByIdForOrganizer _ _ _); [|apply advance_refl].
  destruct (_ || _); [apply advance_refl|].
  destruct (findParticipantById _ _); [|apply advance_refl].
  destruct (negb _); [apply advance_refl|].
  destruct (deleteParticipant db pid) as [|db'] eqn:Ed; [apply advance_refl|].
  simpl. rewrite (deleteParticipant_exchanges _ _ _ Ed). apply advance_refl.
Qed.

Lemma useUpdateExchange_advance id auth ti de b1 b2 da now :
  exchanges_advance (exchanges db)
    (exchanges (db_of (useUpdateExchange db id auth ti de b1 b2 da now))).
Proof.
  unfold useUpdateExchange, db_of.
  destruct auth as [u|]; [|apply advance_refl].
  destruct (findExchangeByIdForOrganizer db id (u_id u)) as [ex|] eqn:E;
    [|apply advance_refl].
  destruct (_ || _); [apply advance_refl|].
  pose proof (forOrganizer_unique _ _ _ _ keys E) as Hid.
  rewrite (updateExchange_found _ _ _ _ _ Hid). simpl.
  apply advance_updateExchange; auto. discriminate.
Qed.

Lemma checkAndNotifyAllComplete_advance id mail now :
  exchanges_advance (exchanges db)
    (exchanges (db_of (checkAndNotifyAllComplete db id mail now))).
Proof.
  unfold checkAndNotifyAllComplete, db_of.
  destruct (negb _); [apply advance_refl|].
  destruct (findExchangeById db id) as [ex|] eqn:E; [|apply advance_refl].
  destruct (status_eqb (e_status ex) Collecting) eqn:Es; simpl;
    [|apply advance_refl].
  apply status_eqb_eq in Es.
  assert (Ha : exchanges_advance (exchanges db)
                 (exchanges (updateExchangeStatus db id Ready now))).
  { apply (advance_updateExchangeStatus db id Ready now ex); auto.
    rewrite Es. simpl. lia. }
  destruct (findOrganizerById _ _); [|exact Ha].
  destruct (mail 0); exact Ha.
Qed.

Lemma useShuffleAction_advance id auth tape now :
  exchanges_advance (exchanges db)
    (exchanges (db_of (useShuffleAction db id auth tape now))).
Proof.
  unfold useShuffleAction, db_of.
  destruct (shuffle_read db id auth tape) as [r|a] eqn:Er;
    [apply advance_refl|].
  destruct (shuffle_read_plan _ _ _ _ _ Er) as (u & ex & _ & E & Hs & _).
  pose proof (forOrganizer_unique _ _ _ _ keys E) as Hid.
  rewrite (shuffle_write_found _ _ _ _ _ Hid). simpl.
  apply advance_updateExchange; auto.
  intros s [= <-]. destruct Hs as [-> | ->]; simpl; lia.
Qed.

Lemma useSendSecretsAction_advance id auth mail now :
  exchanges_advance (exchanges db)
    (exchanges (db_of (useSendSecretsAction db id auth mail now))).
Proof.
  unfold useSendSecretsAction, db_of.
  destruct auth as [u|]; [|apply advance_refl].
  destruct (findExchangeByIdForOrganizer db id (u_id u)) as [ex|] eqn:E;
    [|apply advance_refl].
  destruct (status_eqb (e_status ex) Shuffled) eqn:Es; simpl;
    [|apply advance_refl].
  apply status_eqb_eq in Es.
  destruct (negb _); [apply advance_refl|].
  pose proof (forOrganizer_unique _ _ _ _ keys E) as Hid.
  destruct (_ =? _).
  - rewrite (updateExchange_found _ _ _ _ _ Hid). simpl.
    apply advance_updateExchange; auto.
    intros s [= <-]. rewrite Es. simpl. lia.
  - destruct (0 <? _); [|apply advance_refl].
    rewrite (updateExchange_found _ _ _ _ _ Hid). simpl.
    apply advance_updateExchange; auto. discriminate.
Qed.

(** One request never moves a status backward. *)
Lemma handle_advance req mail now :
  exchanges_advance (exchanges db)
    (exchanges (db_of (handle normalizeEmail isValidEmail req mail now db))).
Proof.
  destruct req; simpl handle.
  - apply useAddParticipant_advance.
  - apply useResendInvite_advance.
  - apply useUpdateParticipantEmail_advance.
  - apply useRemoveParticipant_advance.
  - apply useUpdateExchange_advance.
  - apply checkAndNotifyAllComplete_advance.
  - apply useShuffleAction_advance.
  - apply useSendSecretsAction_advance.
Qed.
End Advance.

Lemma run_advance nE iV reqs : forall env k db,
  NoDup (map e_id (exchanges db)) ->
  exchanges_advance (exchanges db) (exchanges (run nE iV reqs env k db)).
Proof.
  induction reqs as [|req rest IH]; intros env k db Hnd; simpl.
  - apply advance_refl.
  - pose proof (handle_advance nE iV db Hnd req (fst (env k)) (snd (env k)))
      as H1.
    unfold db_of in H1.
    destruct (handle nE iV req (fst (env k)) (snd (env k)) db)
      as [[db' r] o]. simpl in H1.
    eapply advance_trans; [exact H1|]. apply IH.
    now rewrite (advance_ids _ _ H1).
Qed.

(** C8.  Along Draft < Collecting < Ready < Shuffled < Complete, whatever
    sequence of requests is served one after the other (adding a
    participant, the questionnaire-completion check, shuffle, send secrets,
    and the requests that write no status), every exchange is still there
    afterwards and its status is the one before or a later one. *)
Theorem status_never_moves_backward (normalizeEmail : string -> string)
    (isValidEmail : string -> bool) (reqs : list Request)
    (env : nat -> (nat -> bool) * Z) (db : DB) (id : string) (e : Exchange) :
  NoDup (map e_id (exchanges db)) ->
  findExchangeById db id = Some e ->
  exists e',
    findExchangeById (run normalizeEmail isValidEmail reqs env 0 db) id = Some e' /\
    status_rank (e_status e) <= status_rank (e_status e').
Proof.
  intros Hnd He.
  exact (advance_find _ _ _ _
           (run_advance normalizeEmail isValidEmail reqs env 0 db Hnd) He).
Qed.

(* ------------------------------------------------------------------ *)
(** ** The distribution of [secureRandomInt] *)

Lemma drawn_small w max j :
  (w < words)%N -> 0 < max ->
  drawn w max j = (N.to_nat (w mod N.of_nat max) =? j).
Proof.
  intros Hw Hm. unfold drawn, secureRandomInt, uint32. f_equal.
  unfold words in Hw.
  rewrite (Z.mod_small (Z.of_N w)) by lia.
  rewrite <- (nat_N_Z max), <- N2Z.inj_mod.
  generalize (w mod N.of_nat max)%N. intros x. lia.
Qed.

Lemma count_draws_succ b max j :
  count_draws (N.succ b) max j =
  if drawn b max j then N.succ (count_draws b max j) else count_draws b max j.
Proof. unfold count_draws. now rewrite N.peano_rect_succ. Qed.

(** The count in closed form: each block of [max] consecutive words draws
    every value once, and the last, incomplete block draws the values below
    its length. *)
Lemma count_draws_closed max j :
  0 < max -> j < max ->
  forall bound, (bound <= words)%N ->
    count_draws bound max j =
    (bound / N.of_nat max
     + if N.of_nat j <? bound mod N.of_nat max then 1 else 0)%N.
Proof.
  intros Hm Hj. induction bound as [|b IH] using N.peano_ind; intros Hb.
  - unfold count_draws. rewrite N.peano_rect_base.
    rewrite N.Div0.div_0_l, N.Div0.mod_0_l.
    destruct (N.of_nat j); reflexivity.
  - rewrite count_draws_succ, drawn_small by lia. rewrite IH by lia.
    set (m := N.of_nat max) in *.
    assert (Hm0 : (0 < m)%N) by (unfold m; lia).
    pose proof (N.div_mod b m ltac:(lia)) as Eb.
    pose proof (N.mod_lt b m ltac:(lia)) as Lb.
    destruct (N.eq_dec (N.succ (b mod m)) m) as [Efull|Enot].
    + assert (Eq : (N.succ b / m = N.succ (b / m))%N).
      { symmetry. apply (N.div_unique _ _ _ 0%N); lia. }
      assert (Er : (N.succ b mod m = 0)%N).
      { symmetry. apply (N.mod_unique _ _ (N.succ (b / m))); lia. }
      rewrite Eq, Er.
      destruct (N.to_nat (b mod m) =? j) eqn:E1;
        [apply Nat.eqb_eq in E1|apply Nat.eqb_neq in E1];
        destruct (N.of_nat j <? b mod m)%N eqn:E2;
        try (apply N.ltb_lt in E2); try (apply N.ltb_ge in E2);
        destruct (N.of_nat j <? 0)%N eqn:E3;
        try (apply N.ltb_lt in E3); try (apply N.ltb_ge in E3);
        unfold m in *; lia.
    + assert (Eq : (N.succ b / m = b / m)%N).
      { symmetry. apply (N.div_unique _ _ _ (N.succ (b mod m))); lia. }
      assert (Er : (N.succ b mod m = N.succ (b mod m))%N).
      { symmetry. apply (N.mod_unique _ _ (b / m)); lia. }
      rewrite Eq, Er.
      destruct (N.to_nat (b mod m) =? j) eqn:E1;
        [apply Nat.eqb_eq in E1|apply Nat.eqb_neq in E1];
        destruct (N.of_nat j <? b mod m)%N eqn:E2;
        try (apply N.ltb_lt in E2); try (apply N.ltb_ge in E2);
        destruct (N.of_nat j <? N.succ (b mod m))%N eqn:E3;
        try (apply N.ltb_lt in E3); try (apply N.ltb_ge in E3);
        unfold m in *; lia.
Qed.

Lemma count_draws_words max j :
  0 < max -> j < max ->
  count_draws words max j =
  (words / N.of_nat max
   + if N.of_nat j <? words mod N.of_nat max then 1 else 0)%N.
Proof. intros Hm Hj. apply count_draws_closed; auto. apply N.le_refl. Qed.

(** The draw is uniform exactly for the bounds that divide 2^32. *)
Lemma uniform_draw_iff max :
  0 < max -> (uniform_draw max <-> (words mod N.of_nat max = 0)%N).
Proof.
  intros Hm. unfold uniform_draw. split.
  - intros H. specialize (H 0 (max - 1) Hm ltac:(lia)).
    rewrite !count_draws_words in H by lia.
    pose proof (N.mod_lt words (N.of_nat max) ltac:(lia)) as Lr.
    revert H Lr. generalize (words mod N.of_nat max)%N (words / N.of_nat max)%N.
    intros R Q H Lr.
    destruct (N.of_nat 0 <? R)%N eqn:E1;
      [apply N.ltb_lt in E1|apply N.ltb_ge in E1; lia].
    destruct (N.of_nat (max - 1) <? R)%N eqn:E2;
      [apply N.ltb_lt in E2; lia|lia].
  - intros H j k Hj Hk. rewrite !count_draws_words by lia. rewrite H.
    now destruct (N.of_nat j), (N.of_nat k).
Qed.

(** In every iteration of the shuffle loop the drawn index is below the
    loop index. *)
Theorem draw_below_index (tape : nat -> Z) (c i : nat) :
  0 < i -> secureRandomInt (tape c) i < i.
Proof. apply secureRandomInt_lt. Qed.

(** C2, at the bound 3 (the first draw on an array of four elements).
    The draw is below the loop index ([draw_below_index]), but of the 2^32
    words, 1431655766 draw 0 and 1431655765 draw 1 or 2: [array[0] % 3] is
    not uniform on a uniform word. *)
Theorem secureRandomInt_modulo_bias :
  count_draws words 3 0 = 1431655766%N /\
  count_draws words 3 1 = 1431655765%N /\
  count_draws words 3 2 = 1431655765%N /\
  ~ uniform_draw 3.
Proof.
  split; [|split; [|split]].
  - rewrite count_draws_words by lia. vm_compute. reflexivity.
  - rewrite count_draws_words by lia. vm_compute. reflexivity.
  - rewrite count_draws_words by lia. vm_compute. reflexivity.
  - intros H.
    pose proof (proj1 (uniform_draw_iff 3 (Nat.lt_0_succ 2)) H) as K.
    vm_compute in K. discriminate K.
Qed.

Lemma status_never_moves_backward_witness :
  exists e',
    findExchangeById
      (run (fun s => s) (fun _ => true)
           [CheckAllComplete "ex1";
            Shuffle "ex1" (Some example_user) tape_zero;
            SendSecrets "ex1" (Some example_user)]
           (fun _ => (mail_ok, 700%Z)) 0 (example_db Collecting)) "ex1"
    = Some e' /\
    status_rank (e_status (example_exchange Collecting None))
    <= status_rank (e_status e').
Proof.
  apply (status_never_moves_backward (fun s => s) (fun _ => true)
           [CheckAllComplete "ex1";
            Shuffle "ex1" (Some example_user) tape_zero;
            SendSecrets "ex1" (Some example_user)]
           (fun _ => (mail_ok, 700%Z)) (example_db Collecting) "ex1"
           (example_exchange Collecting None)).
  - simpl. constructor; [intros []|constructor].
  - reflexivity.
Defined.

(** The whole lifecycle on the example: Collecting, then Ready, Shuffled
    and Complete; a request that comes too late changes nothing. *)
Example lifecycle_run :
  map e_status
      (exchanges
         (run (fun s => s) (fun _ => true)
              [CheckAllComplete "ex1";
               Shuffle "ex1" (Some example_user) tape_zero;
               SendSecrets "ex1" (Some example_user);
               AddParticipant "ex1" (Some example_user) "dan@example.com" None
                 "p4" "token-p4";
               Shuffle "ex1" (Some example_user) tape_one;
               CheckAllComplete "ex1"]
              (fun _ => (mail_ok, 700%Z)) 0 (example_db Collecting)))
  = [Complete].
Proof. vm_compute. reflexivity. Qed.

(* ================================================================== *)
(** * Further properties of the sources *)

(* ------------------------------------------------------------------ *)
(** ** The shuffle on any array *)

Lemma sattoloShuffle_length (T : Type) tape (a : list T) :
  length (sattoloShuffle tape a) = length a.
Proof.
  unfold sattoloShuffle, sattoloShuffleInPlace.
  destruct (length a <? 2); [reflexivity|apply sattoloLoop_length].
Qed.

Lemma sattoloShuffle_Permutation (T : Type) tape (a : list T) :
  Permutation (sattoloShuffle tape a) a.
Proof.
  unfold sattoloShuffle, sattoloShuffleInPlace.
  destruct (length a <? 2); [reflexivity|apply sattoloLoop_Permutation].
Qed.

(** X1.  [sattoloShuffle] returns a rearrangement of its argument: the same
    elements, each as often as before, whatever the array (empty, one
    element, repeated elements) and whatever the random words. *)
Theorem sattoloShuffle_rearranges (T : Type) (tape : nat -> Z) (a : list T) :
  Permutation (sattoloShuffle tape a) a /\
  length (sattoloShuffle tape a) = length a /\
  (length a < 2 -> sattoloShuffle tape a = a).
Proof.
  split; [|split].
  - apply sattoloShuffle_Permutation.
  - apply sattoloShuffle_length.
  - intros H. unfold sattoloShuffle, sattoloShuffleInPlace.
    apply Nat.ltb_lt in H. now rewrite H.
Qed.

Lemma links_no_fixed (A : Type) (f : A -> option A) l d :
  NoDup l -> 2 <= length l ->
  links f l (hd d l) ->
  forall x, In x l -> f x <> Some x.
Proof.
  intros Hnd Hlen Hl x Hx.
  destruct (in_split _ _ Hx) as (l1 & l2 & ->).
  assert (Hnd' : NoDup (x :: l2 ++ l1)).
  { apply (Permutation_NoDup (l := l1 ++ x :: l2)); [|exact Hnd].
    change (x :: l2 ++ l1) with ((x :: l2) ++ l1).
    apply Permutation_app_comm. }
  apply links_rotate in Hl. simpl in Hl. destruct Hl as [Hfx _].
  rewrite Hfx. intros [= E].
  inversion Hnd' as [|? ? Hnotin _]; subst. apply Hnotin.
  destruct (l2 ++ l1) as [|y r] eqn:El.
  - rewrite length_app in Hlen. simpl in Hlen.
    apply (f_equal (@length A)) in El. rewrite length_app in El.
    simpl in El. lia.
  - simpl in E. rewrite E. now left.
Qed.

(** No position keeps its index under the rearrangement of the loop. *)
Lemma rho_no_fixed_point tape n p :
  2 <= n -> p < n -> nth_error (rho tape 0 (n - 1) n) p <> Some p.
Proof.
  intros Hn Hp.
  destruct (@rho_cycle tape (n - 1) n 0) as (L & _ & Hnd & Hin & Hl); [lia|].
  apply (links_no_fixed _ (nth_error (rho tape 0 (n - 1) n)) L 0); auto.
  - assert (Hperm : Permutation L (seq 0 n)).
    { apply NoDup_Permutation; [exact Hnd|apply seq_NoDup|].
      intros x. rewrite in_seq, Hin. lia. }
    rewrite (Permutation_length Hperm), length_seq. exact Hn.
  - apply Hin. lia.
Qed.

(** The element that the shuffle puts at a position comes from another
    position. *)
Lemma sattoloShuffle_source (T : Type) tape (a : list T) p :
  2 <= length a -> p < length a ->
  exists q, q < length a /\ q <> p /\
            nth_error (sattoloShuffle tape a) p = nth_error a q.
Proof.
  intros Hlen Hp.
  destruct a as [|d a']; [simpl in Hlen; lia|].
  set (a := d :: a') in *.
  unfold sattoloShuffle, sattoloShuffleInPlace.
  destruct (length a <? 2) eqn:E; [apply Nat.ltb_lt in E; lia|].
  rewrite (sattoloLoop_positions tape d), nth_error_map.
  destruct (nth_error (rho tape 0 (length a - 1) (length a)) p) as [q|] eqn:Eq.
  - assert (Hq : q < length a).
    { apply nth_error_In in Eq.
      apply (Permutation_in _ (sattoloLoop_Permutation tape 0 _ _)) in Eq.
      apply in_seq in Eq. lia. }
    exists q. split; [exact Hq|]. split.
    + intros ->. now apply (rho_no_fixed_point tape (length a) p).
    + cbn [option_map]. symmetry. now apply nth_error_nth'.
  - apply nth_error_None in Eq. unfold rho in Eq.
    rewrite sattoloLoop_length, length_seq in Eq. lia.
Qed.

(** X2.  On an array of at least two distinct elements the shuffle leaves
    no element where it was: position by position, the result differs from
    the argument. *)
Theorem sattoloShuffle_moves_every_element (T : Type) (tape : nat -> Z)
    (a : list T) (p : nat) :
  NoDup a -> 2 <= length a -> p < length a ->
  nth_error (sattoloShuffle tape a) p <> nth_error a p.
Proof.
  intros Hnd Hlen Hp.
  destruct (sattoloShuffle_source T tape a p Hlen Hp) as (q & Hq & Hne & Hs).
  rewrite Hs. intros Heq. apply Hne.
  now apply (proj1 (NoDup_nth_error a) Hnd).
Qed.

Lemma sattoloShuffle_moves_every_element_witness :
  nth_error (sattoloShuffle tape_one ["ann"; "bob"; "cat"]) 1
  <> nth_error ["ann"; "bob"; "cat"] 1.
Proof.
  apply (sattoloShuffle_moves_every_element string tape_one
           ["ann"; "bob"; "cat"] 1).
  - repeat constructor; simpl; intuition discriminate.
  - simpl; lia.
  - simpl; lia.
Defined.

(* ------------------------------------------------------------------ *)
(** ** The quick shuffle *)

Lemma mapi_from_combine (names shuffled : list string) : forall i pre,
  length pre = i ->
  length (pre ++ shuffled) = i + length names ->
  mapi_from (fun s k => {| santa := s; recipient := nth k (pre ++ shuffled) "" |})
            i names
  = map (fun kv => {| santa := fst kv; recipient := snd kv |})
        (combine names shuffled).
Proof.
  revert shuffled. induction names as [|x t IH]; intros shuffled i pre Hi Hlen;
    simpl; [reflexivity|].
  destruct shuffled as [|y r];
    [rewrite app_nil_r in Hlen; simpl in Hlen; lia|].
  simpl. f_equal.
  - f_equal. rewrite app_nth2 by lia. now replace (i - length pre) with 0 by lia.
  - specialize (IH r (S i) (pre ++ [y])).
    rewrite <- app_assoc in IH. simpl in IH. apply IH.
    + rewrite length_app. simpl. lia.
    + rewrite length_app in *. simpl in *. lia.
Qed.

(** X3.  [createQuickShuffleAssignments] throws on fewer than two names.
    On two or more distinct names it returns one pair per name, the santas
    being the names in their order and the recipients a rearrangement of
    the names, and in no pair is the recipient the santa. *)
Theorem createQuickShuffleAssignments_pairs (tape : nat -> Z) (names : list string) :
  (length names < 2 ->
   createQuickShuffleAssignments tape names
   = inl (Error "Need at least 2 names to shuffle")) /\
  (NoDup names -> 2 <= length names ->
   exists pairs,
     createQuickShuffleAssignments tape names = inr pairs /\
     map santa pairs = names /\
     Permutation (map recipient pairs) names /\
     forall pr, In pr pairs -> santa pr <> recipient pr).
Proof.
  split.
  - intros H. unfold createQuickShuffleAssignments.
    apply Nat.ltb_lt in H. now rewrite H.
  - intros Hnd Hlen. unfold createQuickShuffleAssignments.
    destruct (length names <? 2) eqn:E; [apply Nat.ltb_lt in E; lia|].
    eexists. split; [reflexivity|].
    pose proof (sattoloShuffle_length _ tape names) as Hsl.
    pose proof (mapi_from_combine names (sattoloShuffle tape names) 0 []
                  eq_refl Hsl) as K.
    cbn [app] in K. rewrite K. clear K.
    rewrite !map_map. simpl. split; [|split].
    + change (fun x : string * string => fst x) with (@fst string string).
      now apply map_fst_combine.
    + change (fun x : string * string => snd x) with (@snd string string).
      rewrite map_snd_combine by auto.
      apply sattoloShuffle_Permutation.
    + intros pr Hin. apply in_map_iff in Hin.
      destruct Hin as ([k v] & <- & Hkv). simpl.
      destruct (In_nth_error _ _ Hkv) as (p & Hp).
      assert (Hpl : p < length names).
      { assert (Hlt : p < length (combine names (sattoloShuffle tape names)))
          by (apply nth_error_Some; congruence).
        rewrite length_combine, Hsl, Nat.min_id in Hlt. exact Hlt. }
      destruct (sattoloShuffle_source string tape names p Hlen Hpl)
        as (q & Hq & Hne & Hs).
      intros ->. apply Hne. apply (proj1 (NoDup_nth_error names) Hnd); auto.
      rewrite <- Hs.
      assert (Hk : nth_error names p = Some v).
      { apply (f_equal (option_map fst)) in Hp.
        rewrite <- nth_error_map, map_fst_combine in Hp by auto. exact Hp. }
      assert (Hv : nth_error (sattoloShuffle tape names) p = Some v).
      { apply (f_equal (option_map snd)) in Hp.
        rewrite <- nth_error_map, map_snd_combine in Hp by auto. exact Hp. }
      congruence.
Qed.

Lemma createQuickShuffleAssignments_pairs_witness :
  createQuickShuffleAssignments tape_zero ["solo"]
  = inl (Error "Need at least 2 names to shuffle") /\
  exists pairs,
    createQuickShuffleAssignments tape_zero ["ann"; "bob"; "cat"] = inr pairs /\
    map santa pairs = ["ann"; "bob"; "cat"] /\
    Permutation (map recipient pairs) ["ann"; "bob"; "cat"] /\
    forall pr, In pr pairs -> santa pr <> recipient pr.
Proof.
  split.
  - apply (proj1 (createQuickShuffleAssignments_pairs tape_zero ["solo"])).
    simpl; lia.
  - apply (proj2 (createQuickShuffleAssignments_pairs tape_zero
                    ["ann"; "bob"; "cat"])).
    + repeat constructor; simpl; intuition discriminate.
    + simpl; lia.
Defined.

(* ------------------------------------------------------------------ *)
(** ** The validator on every map *)

Lemma traverse_truthy m fuel : forall visited current visited' current',
  traverse fuel m visited current = Some (visited', current') ->
  (forall x, In x visited -> truthy x = true) ->
  forall x, In x visited' -> truthy x = true.
Proof.
  induction fuel as [|fuel IH]; intros visited current visited' current' H Hv;
    destruct current as [c|]; simpl in H;
    try (injection H as <- <-; exact Hv).
  - destruct (truthy c && negb (Set_has visited c)); [discriminate|].
    injection H as <- <-. exact Hv.
  - destruct (truthy c && negb (Set_has visited c)) eqn:Ec.
    + apply andb_true_iff in Ec. destruct Ec as [Ht Ec].
      apply negb_true_iff in Ec.
      eapply IH; [exact H|].
      unfold Set_add. rewrite Ec. intros x Hx.
      apply in_app_or in Hx. destruct Hx as [Hx|[<-|[]]]; auto.
    + injection H as <- <-. exact Hv.
Qed.

Lemma traverse_exit m fuel : forall visited current visited' current',
  traverse fuel m visited current = Some (visited', current') ->
  truthy_opt current' = false \/
  exists c, current' = Some c /\ In c visited'.
Proof.
  induction fuel as [|fuel IH]; intros visited current visited' current' H;
    destruct current as [c|]; simpl in H;
    try (injection H as <- <-; now left).
  - destruct (truthy c && negb (Set_has visited c)) eqn:Ec; [discriminate|].
    injection H as <- <-. apply andb_false_iff in Ec. destruct Ec as [Ec|Ec].
    + now left.
    + right. exists c. split; [reflexivity|].
      apply negb_false_iff in Ec. now apply Set_has_In.
  - destruct (truthy c && negb (Set_has visited c)) eqn:Ec.
    + now apply IH in H.
    + injection H as <- <-. apply andb_false_iff in Ec. destruct Ec as [Ec|Ec].
      * now left.
      * right. exists c. split; [reflexivity|].
        apply negb_false_iff in Ec. now apply Set_has_In.
Qed.

(** X7.  The loop of [validateAssignments] stops on every map, also on maps
    that are no permutation: it visits distinct non-empty nodes, at most
    one more than the map has entries, and ends on a missing or empty
    [current] or on a node already visited. *)
Theorem traverse_postcondition (m : Map) :
  exists visited current,
    traverse (traverse_budget m) m [] (hd_error (Map_keys m))
    = Some (visited, current) /\
    NoDup visited /\
    (forall x, In x visited -> truthy x = true) /\
    length visited <= Map_size m + 1 /\
    (truthy_opt current = false \/
     exists c, current = Some c /\ In c visited).
Proof.
  pose proof (traverse_terminates m) as Ht.
  destruct (traverse (traverse_budget m) m [] (hd_error (Map_keys m)))
    as [[visited current]|] eqn:E; [clear Ht|contradiction].
  exists visited, current. split; [reflexivity|].
  assert (Htr : forall x, In x visited -> truthy x = true)
    by (apply (traverse_truthy _ _ _ _ _ _ E); intros ? []).
  assert (Hex := traverse_exit _ _ _ _ _ _ E).
  destruct (hd_error (Map_keys m)) as [start|] eqn:Es.
  - apply traverse_inv in E. destruct E as (j & Hv & Hj & _ & Hnd).
    simpl in Hv. subst visited. specialize (Hnd (NoDup_nil _)).
    repeat split; auto.
    assert (Hle : length (walk (Map_get m) j start)
                  <= length (start :: Map_values m)).
    { apply NoDup_incl_length; [exact Hnd|].
      intros y Hy. apply walk_values in Hy. destruct Hy as [->|Hy];
        [now left|now right]. }
    simpl in Hle. unfold Map_values in Hle. rewrite length_map in Hle.
    unfold Map_size. lia.
  - unfold traverse_budget in E. rewrite Nat.add_comm in E. simpl in E.
    injection E as <- <-. repeat split; auto; [constructor|simpl; lia].
Qed.

Lemma traverse_cycle_sound m visited :
  keys_equal_values m ->
  traverse (traverse_budget m) m [] (hd_error (Map_keys m))
  = Some (visited, hd_error (Map_keys m)) ->
  length visited = Map_size m ->
  cycle_from_first_key m /\ incl (Map_keys m) visited.
Proof.
  intros Hkv Ht Hlen. unfold cycle_from_first_key.
  destruct (Map_keys m) as [|k0 ks] eqn:Ek; [split; [exact I|intros ? []]|].
  simpl hd_error in Ht.
  assert (Hsize : Map_size m = length (Map_keys m))
    by (unfold Map_size, Map_keys; now rewrite length_map).
  apply traverse_inv in Ht. destruct Ht as (j & Hv & Hj & Hc & Hnd).
  simpl in Hv. subst visited. rewrite Hj in Hlen. subst j.
  specialize (Hnd (NoDup_nil _)).
  assert (Hincl : incl (Map_keys m) (walk (Map_get m) (Map_size m) k0)).
  { apply NoDup_length_incl; [exact Hnd|lia|].
    intros y Hy. apply walk_values in Hy. destruct Hy as [->|Hy].
    - rewrite Ek. now left.
    - now apply Hkv. }
  rewrite Ek in Hincl. repeat split; auto.
Qed.

(** X4.  [validateAssignments] has no false positive: whatever the map, an
    answer [valid: true] means that the keys and the values are the same
    set, that no key maps to itself, and that the walk from the first key
    passes through every key once and returns to it. *)
Theorem validateAssignments_sound (m : Map) :
  validateAssignments m = Some Valid ->
  keys_equal_values m /\ no_key_maps_to_itself m /\ cycle_from_first_key m.
Proof.
  intros H. pose proof (validateAssignments_cases m) as Hc.
  rewrite H in Hc. cbv zeta in Hc.
  destruct Hc as (Hl & Hr & Hs & visited & Ht & Hv).
  assert (K1 : keys_equal_values m) by (apply check_sets_equal; auto).
  split; [exact K1|]. split; [now apply first_self_assignment_None|].
  exact (proj1 (traverse_cycle_sound m visited K1 Ht Hv)).
Qed.

Lemma validateAssignments_sound_witness :
  keys_equal_values [("A", "B"); ("B", "C"); ("C", "A")] /\
  no_key_maps_to_itself [("A", "B"); ("B", "C"); ("C", "A")] /\
  cycle_from_first_key [("A", "B"); ("B", "C"); ("C", "A")].
Proof.
  apply (validateAssignments_sound [("A", "B"); ("B", "C"); ("C", "A")]).
  vm_compute. reflexivity.
Defined.

(** X6.  A map that has the empty string among its keys is never found
    valid, whatever else it holds: the walk stops at the empty key without
    visiting it. *)
Theorem validateAssignments_rejects_empty_key (m : Map) :
  In "" (Map_keys m) -> validateAssignments m <> Some Valid.
Proof.
  intros Hin H. pose proof (validateAssignments_cases m) as Hc.
  rewrite H in Hc. cbv zeta in Hc.
  destruct Hc as (Hl & Hr & Hs & visited & Ht & Hv).
  assert (K1 : keys_equal_values m) by (apply check_sets_equal; auto).
  destruct (traverse_cycle_sound m visited K1 Ht Hv) as [_ Hincl].
  assert (Htr : truthy "" = true).
  { apply (traverse_truthy _ _ _ _ _ _ Ht); [intros ? []|].
    now apply Hincl. }
  discriminate Htr.
Qed.

Lemma validateAssignments_rejects_empty_key_witness :
  validateAssignments [("a", "b"); ("b", ""); ("", "a")] <> Some Valid.
Proof.
  apply (validateAssignments_rejects_empty_key
           [("a", "b"); ("b", ""); ("", "a")]).
  simpl. auto.
Defined.

(** The converse of [validateAssignments_sound], on the maps without an
    empty key. *)
Lemma validateAssignments_complete m :
  (forall k, In k (Map_keys m) -> truthy k = true) ->
  keys_equal_values m -> no_key_maps_to_itself m -> cycle_from_first_key m ->
  validateAssignments m = Some Valid.
Proof.
  intros Htr K1 K2 K3.
  destruct m as [|kv t]; [reflexivity|].
  set (m := kv :: t) in *.
  assert (Hne : m <> []) by discriminate.
  pose proof (validateAssignments_cases m) as Hc. cbv zeta in Hc.
  pose proof (proj2 (check_sets_equal m) K1) as [Hl Hr].
  pose proof (proj2 (first_self_assignment_None m) K2) as Hs.
  pose proof (proj2 (traverse_cycle m Hne K1 Htr) K3) as (v & Ht & Hv).
  destruct (validateAssignments m) as [[|[| r | s | a b |]]|];
    [reflexivity| | | | | |contradiction].
  - contradiction.
  - destruct Hc as (_ & Hr'). congruence.
  - destruct Hc as (_ & _ & Hs'). congruence.
  - destruct Hc as (_ & _ & _ & v' & c' & Ht' & Hv'). congruence.
  - destruct Hc as (_ & _ & _ & v' & c' & Ht' & Hv' & Hcur). congruence.
Qed.

(* ------------------------------------------------------------------ *)
(** ** The validator on the chains of the generator *)

Lemma chain_checks tape ids :
  NoDup ids -> 2 <= length ids ->
  let chain := combine ids (sattoloShuffle tape ids) in
  keys_equal_values chain /\ no_key_maps_to_itself chain /\
  cycle_from_first_key chain.
Proof.
  intros Hnd Hlen chain.
  pose proof (chain_keys tape ids Hlen) as Hkeys. fold chain in Hkeys.
  pose proof (sattoloShuffle_length _ tape ids) as Hsl.
  assert (Hvals : Map_values chain = sattoloShuffle tape ids)
    by (apply map_snd_combine; auto).
  split; [|split].
  - intros x. rewrite Hkeys, Hvals. split; intros Hx.
    + apply (Permutation_in _ (Permutation_sym
               (sattoloShuffle_Permutation _ tape ids))), Hx.
    + apply (Permutation_in _ (sattoloShuffle_Permutation _ tape ids)), Hx.
  - intros k v Hin. apply (@chain_no_self tape ids Hnd Hlen k v).
    apply In_Map_get; [|exact Hin]. fold chain. now rewrite Hkeys.
  - unfold cycle_from_first_key. rewrite Hkeys.
    assert (Hsize : Map_size chain = length ids).
    { unfold Map_size, chain. rewrite length_combine, Hsl. apply Nat.min_id. }
    rewrite Hsize.
    assert (Hall : forall k0, In k0 ids -> single_cycle_from chain ids k0)
      by (intros k0 Hk0; now apply chain_single_cycle).
    clearbody chain. clear Hkeys Hvals Hsize Hsl Hnd Hlen.
    destruct ids as [|k0 ks]; [exact I|].
    destruct (Hall k0 (or_introl eq_refl)) as (Hl & Hn & Ha & Hf & _).
    repeat split; auto. intros k Hk. now apply Ha.
Qed.

(** X8.  The validator accepts what the generator builds: for two or more
    distinct ids, none of them the empty string, and every random source,
    the assignments of [createSecretSantaAssignments], read back with
    [new Map], pass [validateAssignments]. *)
Theorem generated_assignments_validate (tape : nat -> Z) (ids : list string) :
  NoDup ids -> 2 <= length ids ->
  (forall x, In x ids -> truthy x = true) ->
  exists assignments,
    createSecretSantaAssignments tape ids = inr assignments /\
    Map_of_entries assignments = assignments /\
    validateAssignments (Map_of_entries assignments) = Some Valid.
Proof.
  intros Hnd Hlen Htr.
  exists (combine ids (sattoloShuffle tape ids)).
  pose proof (chain_keys tape ids Hlen) as Hkeys.
  assert (Hmap : Map_of_entries (combine ids (sattoloShuffle tape ids))
                 = combine ids (sattoloShuffle tape ids)).
  { apply Map_of_entries_NoDup. unfold Map_keys in Hkeys. now rewrite Hkeys. }
  split; [|split; [exact Hmap|]].
  - unfold createSecretSantaAssignments.
    now rewrite (@chain_result tape ids Hnd Hlen).
  - rewrite Hmap.
    destruct (chain_checks tape ids Hnd Hlen) as (K1 & K2 & K3).
    apply validateAssignments_complete; auto.
    intros k Hk. apply Htr. now rewrite Hkeys in Hk.
Qed.

Lemma generated_assignments_validate_witness :
  exists assignments,
    createSecretSantaAssignments tape_one ["p1"; "p2"; "p3"; "p4"]
      = inr assignments /\
    Map_of_entries assignments = assignments /\
    validateAssignments (Map_of_entries assignments) = Some Valid.
Proof.
  apply (generated_assignments_validate tape_one ["p1"; "p2"; "p3"; "p4"]).
  - repeat constructor; simpl; intuition discriminate.
  - simpl; lia.
  - simpl. intros x [<-|[<-|[<-|[<-|[]]]]]; reflexivity.
Defined.

(* ------------------------------------------------------------------ *)
(** ** The shuffle action and what it stores *)

Lemma NoDup_map_filter (A B : Type) (f : A -> B) (q : A -> bool) l :
  NoDup (map f l) -> NoDup (map f (filter q l)).
Proof.
  induction l as [|x l IH]; simpl; intros H; [constructor|].
  inversion H as [|? ? Hx Hl]; subst.
  destruct (q x); simpl; auto.
  constructor; auto. intros Hin. apply Hx.
  apply in_map_iff in Hin. destruct Hin as (y & Hy & Hin).
  apply filter_In in Hin. rewrite <- Hy. now apply in_map.
Qed.

Lemma filter_map_swap (A : Type) (q : A -> bool) (g : A -> A) l :
  (forall x, q (g x) = q x) -> filter q (map g l) = map g (filter q l).
Proof.
  intros H. induction l as [|x l IH]; simpl; [reflexivity|].
  rewrite H. destruct (q x); simpl; now rewrite IH.
Qed.

Lemma filter_and (A : Type) (q r : A -> bool) l :
  filter (fun x => q x && r x) l = filter r (filter q l).
Proof.
  induction l as [|x l IH]; simpl; [reflexivity|].
  destruct (q x); simpl; [|exact IH].
  destruct (r x); now rewrite IH.
Qed.

(* ------------------------------------------------------------------ *)
(** ** The order of [listParticipantsByExchange] *)

Lemma insert_by_created_at_Permutation p l :
  Permutation (insert_by_created_at p l) (p :: l).
Proof.
  induction l as [|q l IH]; simpl; [reflexivity|].
  destruct (p_created_at p <=? p_created_at q)%Z; [reflexivity|].
  rewrite IH. apply perm_swap.
Qed.

Lemma order_by_created_at_Permutation l :
  Permutation (order_by_created_at l) l.
Proof.
  induction l as [|p l IH]; simpl; [reflexivity|].
  rewrite insert_by_created_at_Permutation. now constructor.
Qed.

Lemma insert_by_created_at_map (g : Participant -> Participant) p l :
  (forall x, p_created_at (g x) = p_created_at x) ->
  insert_by_created_at (g p) (map g l) = map g (insert_by_created_at p l).
Proof.
  intros Hg. induction l as [|q l IH]; simpl; [reflexivity|].
  rewrite !Hg. destruct (p_created_at p <=? p_created_at q)%Z;
    [reflexivity|]. simpl. now rewrite IH.
Qed.

Lemma order_by_created_at_map (g : Participant -> Participant) l :
  (forall x, p_created_at (g x) = p_created_at x) ->
  order_by_created_at (map g l) = map g (order_by_created_at l).
Proof.
  intros Hg. induction l as [|p l IH]; [reflexivity|].
  change (insert_by_created_at (g p) (order_by_created_at (map g l))
          = map g (insert_by_created_at p (order_by_created_at l))).
  rewrite IH. now apply insert_by_created_at_map.
Qed.

Lemma insert_by_created_at_Sorted p l :
  Sorted (fun x y => (p_created_at x <= p_created_at y)%Z) l ->
  Sorted (fun x y => (p_created_at x <= p_created_at y)%Z)
         (insert_by_created_at p l).
Proof.
  induction 1 as [|q l Hs IH Hhd]; cbn [insert_by_created_at].
  - repeat constructor.
  - destruct (p_created_at p <=? p_created_at q)%Z eqn:E.
    + apply Z.leb_le in E. repeat constructor; auto.
    + apply Z.leb_gt in E. constructor; [exact IH|].
      destruct Hhd as [|r l' Hle]; cbn [insert_by_created_at].
      * constructor. lia.
      * destruct (p_created_at p <=? p_created_at r)%Z;
          constructor; [lia|exact Hle].
Qed.

(** The rows that the query returns are in the order of their
    [created_at]. *)
Lemma order_by_created_at_Sorted l :
  Sorted (fun x y => (p_created_at x <= p_created_at y)%Z)
         (order_by_created_at l).
Proof.
  induction l as [|p l IH]; [constructor|].
  now apply insert_by_created_at_Sorted.
Qed.

(** On rows already in the order of their [created_at], as a table written
    with a clock that does not go back is, the query returns the rows in
    table order. *)
Lemma order_by_created_at_sorted l :
  Sorted (fun p q => (p_created_at p <= p_created_at q)%Z) l ->
  order_by_created_at l = l.
Proof.
  induction 1 as [|p l Hs IH Hhd]; [reflexivity|].
  change (insert_by_created_at p (order_by_created_at l) = p :: l).
  rewrite IH.
  destruct Hhd as [|q l' Hle]; simpl; [reflexivity|].
  now rewrite (proj2 (Z.leb_le _ _) Hle).
Qed.

Lemma Permutation_filter (A : Type) (q : A -> bool) l l' :
  Permutation l l' -> Permutation (filter q l) (filter q l').
Proof.
  induction 1 as [|x l l' H IH|x y l|l l' l'' H1 IH1 H2 IH2]; simpl.
  - reflexivity.
  - destruct (q x); [now constructor|exact IH].
  - destruct (q x), (q y); try reflexivity. apply perm_swap.
  - now transitivity (filter q l').
Qed.

Lemma list_Permutation db id :
  Permutation (listParticipantsByExchange db id)
              (filter (fun p => String.eqb (p_exchange_id p) id)
                      (participants db)).
Proof. apply order_by_created_at_Permutation. Qed.

Lemma list_length db id :
  length (listParticipantsByExchange db id)
  = countParticipantsByExchange db id.
Proof. apply Permutation_length, list_Permutation. Qed.

Lemma list_In db id p :
  In p (listParticipantsByExchange db id) <->
  In p (participants db) /\ p_exchange_id p = id.
Proof.
  rewrite <- String.eqb_eq.
  rewrite <- (filter_In (fun p => String.eqb (p_exchange_id p) id)).
  split; intros H.
  - apply (Permutation_in _ (list_Permutation db id)), H.
  - apply (Permutation_in _ (Permutation_sym (list_Permutation db id))), H.
Qed.

Lemma list_ids_NoDup db id :
  NoDup (map p_id (participants db)) ->
  NoDup (map p_id (listParticipantsByExchange db id)).
Proof.
  intros H.
  apply (Permutation_NoDup
           (Permutation_map p_id (Permutation_sym (list_Permutation db id)))).
  now apply NoDup_map_filter.
Qed.

Lemma list_map db db' (g : Participant -> Participant) id :
  participants db' = map g (participants db) ->
  (forall p, p_exchange_id (g p) = p_exchange_id p /\
             p_created_at (g p) = p_created_at p) ->
  listParticipantsByExchange db' id = map g (listParticipantsByExchange db id).
Proof.
  intros Hp Hg. unfold listParticipantsByExchange. rewrite Hp.
  rewrite filter_map_swap by (intros p; now destruct (Hg p) as [-> _]).
  apply order_by_created_at_map. intros p. apply Hg.
Qed.

Lemma list_completed_length db id :
  countCompletedQuestionnaires db id
  = length (filter (fun p => negb (is_null (p_questionnaire_completed_at p)))
                   (listParticipantsByExchange db id)).
Proof.
  unfold countCompletedQuestionnaires. rewrite filter_and.
  apply Permutation_length, Permutation_filter, Permutation_sym,
    list_Permutation.
Qed.

Lemma chain_validates tape ids :
  NoDup ids -> 2 <= length ids ->
  (forall x, In x ids -> truthy x = true) ->
  createSecretSantaAssignments tape ids
  = inr (combine ids (sattoloShuffle tape ids)) /\
  validateAssignments (Map_of_entries (combine ids (sattoloShuffle tape ids)))
  = Some Valid.
Proof.
  intros Hnd Hlen Htr.
  pose proof (chain_keys tape ids Hlen) as Hkeys.
  split.
  - unfold createSecretSantaAssignments.
    now rewrite (@chain_result tape ids Hnd Hlen).
  - rewrite Map_of_entries_NoDup
      by (unfold Map_keys in Hkeys; now rewrite Hkeys).
    destruct (chain_checks tape ids Hnd Hlen) as (K1 & K2 & K3).
    apply validateAssignments_complete; auto.
    intros k Hk. apply Htr. now rewrite Hkeys in Hk.
Qed.

Lemma NoDup_map_inj (A B : Type) (f : A -> B) l x y :
  NoDup (map f l) -> In x l -> In y l -> f x = f y -> x = y.
Proof.
  induction l as [|a l IH]; simpl; intros H Hx Hy E; [contradiction|].
  inversion H as [|? ? Ha Hl]; subst.
  destruct Hx as [->|Hx], Hy as [->|Hy]; auto.
  - exfalso. apply Ha. rewrite E. now apply in_map.
  - exfalso. apply Ha. rewrite <- E. now apply in_map.
Qed.

Lemma Map_get_combine_all ks : forall vs,
  NoDup ks -> length ks = length vs ->
  map (Map_get (combine ks vs)) ks = map Some vs.
Proof.
  induction ks as [|k ks IH]; intros [|v vs] Hnd Hlen;
    try discriminate; [reflexivity|].
  inversion Hnd as [|? ? Hk Hks]; subst. simpl.
  rewrite String.eqb_refl. f_equal.
  rewrite <- (IH vs Hks) by (simpl in Hlen; lia).
  apply map_ext_in. intros k' Hk'.
  destruct (String.eqb k k') eqn:E; [|reflexivity].
  apply String.eqb_eq in E. subst. contradiction.
Qed.

Lemma assignRecipient_fold_participants now : forall assignments db,
  NoDup (Map_keys assignments) ->
  participants (fold_left (fun d a => assignRecipient d (fst a) (snd a) now)
                          assignments db)
  = map (assigned_row assignments now) (participants db).
Proof.
  induction assignments as [|[k r] rest IH]; intros db Hnd.
  - simpl. symmetry. unfold assigned_row. simpl. apply map_id.
  - inversion Hnd as [|? ? Hk Hrest]; subst. simpl fold_left.
    rewrite (IH _ Hrest). unfold assignRecipient. simpl participants.
    rewrite map_map. apply map_ext. intros p.
    unfold assigned_row. simpl Map_get. simpl fst. simpl snd.
    rewrite String.eqb_sym.
    destruct (String.eqb k (p_id p)) eqn:E.
    + apply String.eqb_eq in E. simpl p_id. rewrite <- E.
      now rewrite (Map_get_not_key rest k Hk).
    + reflexivity.
Qed.

Lemma assigned_row_exchange assignments now p :
  p_exchange_id (assigned_row assignments now p) = p_exchange_id p.
Proof. unfold assigned_row. now destruct (Map_get assignments (p_id p)). Qed.

Lemma assigned_row_created_at assignments now p :
  p_created_at (assigned_row assignments now p) = p_created_at p.
Proof. unfold assigned_row. now destruct (Map_get assignments (p_id p)). Qed.

Lemma committed_rows assignments now : forall ps vs,
  map (fun p => Map_get assignments (p_id p)) ps = map Some vs ->
  flat_map (fun p => match p_assigned_recipient_id p with
                     | Some r => [(p_id p, r)]
                     | None => []
                     end)
           (map (assigned_row assignments now) ps)
  = combine (map p_id ps) vs.
Proof.
  induction ps as [|p ps IH]; intros [|v vs] H; try discriminate;
    [reflexivity|].
  simpl in H. injection H as Hp Hps. simpl.
  rewrite (IH vs Hps). unfold assigned_row at 1 2. rewrite Hp. reflexivity.
Qed.

Lemma shuffle_read_passes db id u tape e :
  NoDup (map p_id (participants db)) ->
  findExchangeByIdForOrganizer db id (u_id u) = Some e ->
  e_status e = Collecting \/ e_status e = Ready ->
  2 <= length (listParticipantsByExchange db id) ->
  countCompletedQuestionnaires db id
  = length (listParticipantsByExchange db id) ->
  (forall p, In p (listParticipantsByExchange db id) ->
             truthy (p_id p) = true) ->
  shuffle_read db id (Some u) tape
  = inr (combine (map p_id (listParticipantsByExchange db id))
           (sattoloShuffle tape (map p_id (listParticipantsByExchange db id)))).
Proof.
  intros Hpk Hfind Hst Hlen Hdone Htr.
  set (ps := listParticipantsByExchange db id) in *.
  assert (Hnd : NoDup (map p_id ps)) by now apply list_ids_NoDup.
  destruct (chain_validates tape (map p_id ps) Hnd) as [Hgen Hval].
  { now rewrite length_map. }
  { intros x Hx. apply in_map_iff in Hx. destruct Hx as (p & <- & Hp). auto. }
  unfold shuffle_read. rewrite Hfind.
  replace (negb (status_eqb (e_status e) Collecting)
           && negb (status_eqb (e_status e) Ready)) with false
    by (destruct Hst as [-> | ->]; reflexivity).
  fold ps. rewrite (proj2 (Nat.ltb_ge _ _) Hlen).
  rewrite Hdone, Nat.eqb_refl. cbn [negb].
  rewrite Hgen. cbv zeta. now rewrite Hval.
Qed.

(** X9.  When the guards of [useShuffleAction] pass, on a participants
    table with distinct ids none of which is empty, the action succeeds
    with the number of participants, and what it stores is what Sattolo's
    shuffle produced: read back santa by santa, the stored recipients are
    the shuffled ids, they pass [validateAssignments], the rows of the
    exchange keep their ids, and the participants of other exchanges are
    untouched. *)
Theorem useShuffleAction_commits (db : DB) (exchangeId : string)
    (user : AuthUser) (tape : nat -> Z) (now : Z) (exchange : Exchange) :
  NoDup (map p_id (participants db)) ->
  findExchangeByIdForOrganizer db exchangeId (u_id user) = Some exchange ->
  e_status exchange = Collecting \/ e_status exchange = Ready ->
  2 <= length (listParticipantsByExchange db exchangeId) ->
  countCompletedQuestionnaires db exchangeId
  = length (listParticipantsByExchange db exchangeId) ->
  (forall p, In p (listParticipantsByExchange db exchangeId) ->
             truthy (p_id p) = true) ->
  let ids := map p_id (listParticipantsByExchange db exchangeId) in
  exists db',
    useShuffleAction db exchangeId (Some user) tape now
    = (db', ShuffledOk (length ids), []) /\
    committed_assignments db' exchangeId
    = combine ids (sattoloShuffle tape ids) /\
    validateAssignments (committed_assignments db' exchangeId) = Some Valid /\
    map p_id (listParticipantsByExchange db' exchangeId) = ids /\
    filter (fun p => negb (String.eqb (p_exchange_id p) exchangeId))
           (participants db')
    = filter (fun p => negb (String.eqb (p_exchange_id p) exchangeId))
             (participants db).
Proof.
  intros Hpk Hfind Hst Hlen Hdone Htr ids.
  set (ps := listParticipantsByExchange db exchangeId) in *.
  set (chain := combine ids (sattoloShuffle tape ids)).
  assert (Hnd : NoDup ids) by now apply list_ids_NoDup.
  assert (Hlen' : 2 <= length ids) by (unfold ids; now rewrite length_map).
  assert (Hkeys : Map_keys chain = ids) by (apply chain_keys; exact Hlen').
  assert (Hsl := sattoloShuffle_length _ tape ids).
  destruct (chain_validates tape ids Hnd Hlen') as [_ Hval].
  { intros x Hx. apply in_map_iff in Hx. destruct Hx as (p & <- & Hp). auto. }
  rewrite Map_of_entries_NoDup in Hval
    by (unfold Map_keys in Hkeys; fold chain; now rewrite Hkeys).
  fold chain in Hval.
  pose proof (shuffle_read_passes db exchangeId user tape exchange
                Hpk Hfind Hst Hlen Hdone Htr) as Hread.
  fold ps ids chain in Hread.
  destruct (forOrganizer_byId _ _ _ _ Hfind) as (_ & _ & Hby).
  destruct (shuffle_write_status db exchangeId chain now Hby)
    as (db' & Hw & _ & Hps & _).
  rewrite assignRecipient_fold_participants in Hps
    by (rewrite Hkeys; exact Hnd).
  assert (Hlist : listParticipantsByExchange db' exchangeId
                  = map (assigned_row chain now) ps).
  { apply list_map; [exact Hps|]. intros p.
    split; [apply assigned_row_exchange|apply assigned_row_created_at]. }
  assert (Hcom : committed_assignments db' exchangeId = chain).
  { unfold committed_assignments. rewrite Hlist.
    apply (committed_rows chain now ps (sattoloShuffle tape ids)).
    rewrite <- (map_map p_id (Map_get chain)). fold ids.
    now apply Map_get_combine_all. }
  exists db'. split; [|split; [exact Hcom|split; [now rewrite Hcom|split]]].
  - unfold useShuffleAction. rewrite Hread, Hw.
    unfold chain. rewrite length_combine, Hsl, Nat.min_id. reflexivity.
  - rewrite Hlist, map_map. apply map_ext. intros p.
    unfold assigned_row. now destruct (Map_get chain (p_id p)).
  - rewrite Hps.
    assert (Hgen : forall l, incl l (participants db) ->
              filter (fun p => negb (String.eqb (p_exchange_id p) exchangeId))
                     (map (assigned_row chain now) l)
              = filter (fun p => negb (String.eqb (p_exchange_id p) exchangeId)) l).
    { induction l as [|p l IH]; intros Hincl; [reflexivity|].
      simpl. rewrite assigned_row_exchange.
      rewrite IH by (intros y Hy; apply Hincl; now right).
      destruct (String.eqb (p_exchange_id p) exchangeId) eqn:E;
        [reflexivity|]. simpl. f_equal.
      unfold assigned_row. rewrite Map_get_not_key; [reflexivity|].
      rewrite Hkeys. intros Hin. apply in_map_iff in Hin.
      destruct Hin as (p' & Hid & Hp').
      apply list_In in Hp'. destruct Hp' as [Hp' Hex].
      apply String.eqb_eq in Hex.
      assert (p' = p).
      { apply (NoDup_map_inj _ _ p_id (participants db)); auto.
        apply Hincl. now left. }
      subst p'. congruence. }
    apply Hgen. apply incl_refl.
Qed.

Lemma useShuffleAction_commits_witness :
  exists db',
    useShuffleAction (example_db Ready) "ex1" (Some example_user) tape_one
      500%Z
    = (db', ShuffledOk 3, []) /\
    committed_assignments db' "ex1"
    = combine ["p1"; "p2"; "p3"] (sattoloShuffle tape_one ["p1"; "p2"; "p3"]) /\
    validateAssignments (committed_assignments db' "ex1") = Some Valid /\
    map p_id (listParticipantsByExchange db' "ex1") = ["p1"; "p2"; "p3"] /\
    filter (fun p => negb (String.eqb (p_exchange_id p) "ex1"))
           (participants db')
    = [].
Proof.
  apply (useShuffleAction_commits (example_db Ready) "ex1" example_user
           tape_one 500%Z (example_exchange Ready None)).
  - simpl. repeat constructor; simpl; intuition discriminate.
  - reflexivity.
  - now right.
  - simpl. lia.
  - reflexivity.
  - simpl. intros p [<-|[<-|[<-|[]]]]; reflexivity.
Defined.

(** X10.  [useShuffleAction] sends no email, and every answer other than
    success leaves the database as it was: the writes start only after
    the last guard, and the exchange they end on was found by the first. *)
Theorem useShuffleAction_failure_writes_nothing (db : DB) (exchangeId : string)
    (auth : option AuthUser) (tape : nat -> Z) (now : Z) :
  exists db' response,
    useShuffleAction db exchangeId auth tape now = (db', response, []) /\
    ((exists assignments,
         shuffle_read db exchangeId auth tape = inr assignments /\
         response = ShuffledOk (length assignments)) \/
     (db' = db /\ exists error, response = Failed error) \/
     (db' = db /\ response = Redirected /\ auth = None)).
Proof.
  unfold useShuffleAction.
  destruct (shuffle_read db exchangeId auth tape) as [r|assignments] eqn:E.
  - exists db, r. split; [reflexivity|]. right.
    unfold shuffle_read in E. destruct auth as [u|];
      [|injection E as <-; right; auto].
    left. split; [reflexivity|].
    destruct (findExchangeByIdForOrganizer db exchangeId (u_id u)) as [e|];
      [|injection E as <-; eauto].
    destruct (negb (status_eqb (e_status e) Collecting)
              && negb (status_eqb (e_status e) Ready));
      [injection E as <-; eauto|].
    destruct (length (listParticipantsByExchange db exchangeId) <? 2);
      [injection E as <-; eauto|].
    destruct (negb (countCompletedQuestionnaires db exchangeId
                    =? length (listParticipantsByExchange db exchangeId)));
      [injection E as <-; eauto|].
    destruct (createSecretSantaAssignments tape
                (map p_id (listParticipantsByExchange db exchangeId)))
      as [err|assignments]; [injection E as <-; eauto|].
    destruct (validateAssignments (Map_of_entries assignments))
      as [[|err]|]; try discriminate; injection E as <-; eauto.
  - destruct (shuffle_read_plan _ _ _ _ _ E)
      as (u & e & _ & Hfind & _).
    destruct (forOrganizer_byId _ _ _ _ Hfind) as (_ & _ & Hby).
    destruct (shuffle_write_status db exchangeId assignments now Hby)
      as (db' & Hw & _).
    rewrite Hw. exists db', (ShuffledOk (length assignments)).
    split; [reflexivity|]. left. eauto.
Qed.

(* ------------------------------------------------------------------ *)
(** ** The shuffle page and the two actions behind it *)

Lemma countCompleted_le db id :
  countCompletedQuestionnaires db id
  <= length (listParticipantsByExchange db id).
Proof.
  rewrite list_completed_length. apply filter_length_le.
Qed.

Lemma shuffle_read_two db id tape :
  2 <= length (listParticipantsByExchange db id) ->
  exists assignments,
    createSecretSantaAssignments tape
      (map p_id (listParticipantsByExchange db id)) = inr assignments.
Proof.
  intros H. unfold createSecretSantaAssignments, createSecretSantaChain.
  rewrite length_map. rewrite (proj2 (Nat.ltb_ge _ _) H). eauto.
Qed.

(** X11.  What the loader of the shuffle page announces agrees with what
    the actions then do.  With [canShuffle] false the shuffle action
    refuses and writes nothing; with [canShuffle] true it gets past every
    guard, so that only the validation of the shuffle can still refuse.
    With [canSendSecrets] false the send action refuses without an email;
    with it true the deliveries are attempted.  [shuffleError] is absent
    exactly when there are two participants or more and all have
    completed, whatever the status, and the count in its text is never
    negative. *)
Theorem useShuffleData_agrees_with_actions (db : DB) (exchangeId : string)
    (user : AuthUser) (data : ShuffleData) :
  useShuffleData db exchangeId user = Some data ->
  sd_completedCount data <= length (sd_participants data) /\
  (sd_shuffleError data = None <->
   2 <= length (sd_participants data) /\
   sd_completedCount data = length (sd_participants data)) /\
  (sd_canShuffle data = true -> sd_shuffleError data = None) /\
  (sd_canShuffle data = false ->
   forall tape now, exists error,
     useShuffleAction db exchangeId (Some user) tape now
     = (db, Failed error, [])) /\
  (sd_canShuffle data = true ->
   forall tape now, exists db' response,
     useShuffleAction db exchangeId (Some user) tape now
     = (db', response, []) /\
     ((exists n, response = ShuffledOk n) \/
      response = Failed "Shuffle validation failed. Please try again.")) /\
  (sd_canSendSecrets data = false ->
   forall mail now, exists error,
     useSendSecretsAction db exchangeId (Some user) mail now
     = (db, Failed error, [])) /\
  (sd_canSendSecrets data = true ->
   forall mail now, exists db' response,
     useSendSecretsAction db exchangeId (Some user) mail now
     = (db', response, outbox (send_loop db (sd_participants data) mail))).
Proof.
  unfold useShuffleData.
  destruct (findExchangeByIdForOrganizer db exchangeId (u_id user))
    as [e|] eqn:Hfind; [|discriminate].
  intros H.
  apply (f_equal (fun o => match o with Some d => d | None => data end)) in H.
  subst data. unfold sd_completedCount, sd_participants, sd_shuffleError,
    sd_canShuffle, sd_canSendSecrets.
  pose proof (countCompleted_le db exchangeId) as Hle.
  set (ps := listParticipantsByExchange db exchangeId) in *.
  set (done := countCompletedQuestionnaires db exchangeId) in *.
  split; [exact Hle|].
  split.
  { destruct (2 <=? length ps) eqn:E2; cbn [negb andb].
    - apply Nat.leb_le in E2.
      replace (0 <? length ps) with true
        by (symmetry; apply Nat.ltb_lt; lia).
      cbn [andb]. destruct (done =? length ps) eqn:Ed; cbn [negb].
      + apply Nat.eqb_eq in Ed. split; [intros _; now split|reflexivity].
      + apply Nat.eqb_neq in Ed.
        split; [discriminate|intros [_ Hd]; contradiction].
    - apply Nat.leb_gt in E2. split; [discriminate|lia]. }
  split.
  { destruct (2 <=? length ps); cbn [negb andb]; [|discriminate].
    destruct ((0 <? length ps) && (done =? length ps)); cbn [negb andb];
      [reflexivity|discriminate]. }
  split.
  { intros Hno tape now. unfold useShuffleAction, shuffle_read.
    rewrite Hfind. fold ps done.
    destruct (negb (status_eqb (e_status e) Collecting)
              && negb (status_eqb (e_status e) Ready)) eqn:Est; [eauto|].
    destruct (length ps <? 2) eqn:E2; [eauto|].
    destruct (negb (done =? length ps)) eqn:Ed; [eauto|].
    exfalso. apply Nat.ltb_ge in E2. apply negb_false_iff in Ed.
    replace (2 <=? length ps) with true in Hno
      by (symmetry; now apply Nat.leb_le).
    replace (0 <? length ps) with true in Hno
      by (symmetry; apply Nat.ltb_lt; lia).
    rewrite Ed in Hno. cbn [andb] in Hno.
    destruct (status_eqb (e_status e) Collecting),
             (status_eqb (e_status e) Ready); discriminate. }
  split.
  { intros Hyes tape now.
    apply andb_true_iff in Hyes. destruct Hyes as [Hyes Hst].
    apply andb_true_iff in Hyes. destruct Hyes as [H2 Hall].
    apply andb_true_iff in Hall. destruct Hall as [_ Hd].
    apply Nat.leb_le in H2.
    unfold useShuffleAction, shuffle_read. rewrite Hfind. fold ps done.
    replace (negb (status_eqb (e_status e) Collecting)
             && negb (status_eqb (e_status e) Ready)) with false
      by (destruct (status_eqb (e_status e) Collecting),
                   (status_eqb (e_status e) Ready); auto; discriminate).
    rewrite (proj2 (Nat.ltb_ge _ _) H2), Hd. cbn [negb].
    destruct (shuffle_read_two db exchangeId tape H2) as [a Ha].
    fold ps in Ha. rewrite Ha. cbv zeta.
    destruct (forOrganizer_byId _ _ _ _ Hfind) as (_ & _ & Hby).
    destruct (shuffle_write_status db exchangeId a now Hby)
      as (db' & Hw & _).
    destruct (validateAssignments (Map_of_entries a)) as [[|err]|];
      [rewrite Hw|..]; eauto 6. }
  split.
  { intros Hno mail now. unfold useSendSecretsAction. rewrite Hfind.
    destruct (status_eqb (e_status e) Shuffled); cbn [negb andb] in *;
      [|eauto].
    rewrite Hno. cbn [negb]. eauto. }
  intros Hyes mail now. unfold useSendSecretsAction. rewrite Hfind.
  apply andb_true_iff in Hyes. destruct Hyes as [-> ->]. cbn [negb].
  fold ps.
  destruct (sentCount (send_loop db ps mail) =? length ps).
  - destruct (updateExchange db exchangeId _ now); eauto.
  - destruct (0 <? sentCount (send_loop db ps mail)); [|eauto].
    destruct (updateExchange db exchangeId _ now); eauto.
Qed.

Lemma useShuffleData_agrees_with_actions_witness :
  exists data,
    useShuffleData (example_db Collecting) "ex1" example_user = Some data /\
    sd_canShuffle data = true /\ sd_canSendSecrets data = false /\
    sd_shuffleError data = None /\
    (forall tape now, exists db' response,
       useShuffleAction (example_db Collecting) "ex1" (Some example_user)
         tape now = (db', response, []) /\
       ((exists n, response = ShuffledOk n) \/
        response = Failed "Shuffle validation failed. Please try again.")) /\
    (forall mail now, exists error,
       useSendSecretsAction (example_db Collecting) "ex1" (Some example_user)
         mail now = (example_db Collecting, Failed error, [])).
Proof.
  eexists. split; [reflexivity|].
  destruct (useShuffleData_agrees_with_actions (example_db Collecting) "ex1"
              example_user _ eq_refl)
    as (_ & _ & Herr & _ & Hyes & Hno & _).
  split; [reflexivity|]. split; [reflexivity|].
  split; [exact (Herr eq_refl)|].
  split; [exact (Hyes eq_refl)|exact (Hno eq_refl)].
Defined.

(* ------------------------------------------------------------------ *)
(** ** The loop of [useSendSecretsAction] *)

Lemma send_one_attempt db ps mail st santa :
  match attempted_email db ps santa with
  | None =>
      outbox (send_one db ps mail st santa) = outbox st /\
      calls (send_one db ps mail st santa) = calls st /\
      sentCount (send_one db ps mail st santa) = sentCount st
  | Some e =>
      outbox (send_one db ps mail st santa) = outbox st ++ [e] /\
      calls (send_one db ps mail st santa) = S (calls st) /\
      sentCount (send_one db ps mail st santa)
      = sentCount st + length (filter mail [calls st])
  end.
Proof.
  unfold attempted_email, send_one.
  destruct (p_assigned_recipient_id santa) as [r|]; [|now repeat split].
  destruct (truthy r); [|now repeat split].
  destruct (participantMap_get ps r) as [recipient|]; [|now repeat split].
  destruct (findQuestionnaireByParticipant db (p_id recipient)) as [q|];
    [|now repeat split].
  simpl. destruct (mail (calls st)); simpl; repeat split; lia.
Qed.

Lemma send_fold_attempts db ps mail santas : forall st,
  outbox (fold_left (send_one db ps mail) santas st)
  = outbox st ++ attempted_emails db ps santas /\
  calls (fold_left (send_one db ps mail) santas st)
  = calls st + length (attempted_emails db ps santas) /\
  sentCount (fold_left (send_one db ps mail) santas st)
  = sentCount st
    + length (filter mail (seq (calls st)
                             (length (attempted_emails db ps santas)))).
Proof.
  induction santas as [|santa santas IH]; intros st.
  - simpl. rewrite app_nil_r. repeat split; lia.
  - cbn [fold_left]. destruct (IH (send_one db ps mail st santa))
      as (Ho & Hc & Hs).
    rewrite Ho, Hc, Hs. clear Ho Hc Hs IH.
    pose proof (send_one_attempt db ps mail st santa) as H1.
    unfold attempted_emails. cbn [flat_map].
    fold (attempted_emails db ps santas).
    destruct (attempted_email db ps santa) as [e|];
      destruct H1 as (Ho & Hc & Hs); rewrite Ho, Hc, Hs.
    + rewrite <- app_assoc. cbn [app length seq filter].
      destruct (mail (calls st)); cbn [length]; repeat split; lia.
    + cbn [app]. repeat split.
Qed.

(** X12.  The deliveries that [useSendSecretsAction] attempts do not depend
    on how earlier deliveries went: the loop hands to the email service,
    in the order of the participants, one message for every santa whose
    recipient and recipient's questionnaire are found, whatever the service
    answers; [sentCount] is the number of those calls that succeeded. *)
Theorem send_loop_attempts (db : DB) (ps : list Participant)
    (mail : nat -> bool) :
  outbox (send_loop db ps mail) = attempted_emails db ps ps /\
  calls (send_loop db ps mail) = length (attempted_emails db ps ps) /\
  sentCount (send_loop db ps mail)
  = length (filter mail (seq 0 (length (attempted_emails db ps ps)))) /\
  sentCount (send_loop db ps mail) <= length (attempted_emails db ps ps) /\
  length (attempted_emails db ps ps) <= length ps.
Proof.
  unfold send_loop.
  destruct (send_fold_attempts db ps mail ps
              {| sentCount := 0; errors := []; calls := 0; outbox := [] |})
    as (Ho & Hc & Hs).
  rewrite Ho, Hc, Hs. cbn [outbox calls sentCount app Nat.add].
  repeat split.
  - etransitivity; [apply filter_length_le|]. now rewrite length_seq.
  - assert (H : forall l, length (attempted_emails db ps l) <= length l).
    { unfold attempted_emails. induction l as [|p l IH]; simpl; [lia|].
      rewrite length_app.
      destruct (attempted_email db ps p); simpl; lia. }
    apply H.
Qed.

(* ------------------------------------------------------------------ *)
(** ** What [updateExchange] writes *)

Lemma update_rows_other id existing input now row :
  e_id row <> id -> update_rows id existing input now row = row.
Proof.
  intros H. unfold update_rows.
  destruct (String.eqb (e_id row) id) eqn:E; [|reflexivity].
  apply String.eqb_eq in E. contradiction.
Qed.

Lemma updateExchange_rows db id input now db' :
  NoDup (map e_id (exchanges db)) ->
  updateExchange db id input now = inr db' ->
  organizers db' = organizers db /\
  participants db' = participants db /\
  questionnaires db' = questionnaires db /\
  Forall2 (fun e e' =>
             (e_id e <> id -> e' = e) /\
             (e_id e = id -> e' = updated_row e input now e))
          (exchanges db) (exchanges db').
Proof.
  intros Hpk H.
  destruct (findExchangeById db id) as [existing|] eqn:Hf;
    [|unfold updateExchange in H; rewrite Hf in H; discriminate].
  rewrite (updateExchange_found db id input now existing Hf) in H.
  injection H as <-. cbn [organizers participants questionnaires exchanges
                          with_exchanges].
  repeat split; auto.
  unfold findExchangeById in Hf.
  assert (Hall : forall y, In y (exchanges db) -> e_id y = id -> y = existing)
    by (intros y Hy Hid; now apply (unique_row (exchanges db) id)).
  clear Hpk Hf. induction (exchanges db) as [|e es IH]; simpl; constructor.
  - split.
    + now apply update_rows_other.
    + intros Hid. unfold update_rows.
      rewrite (proj2 (String.eqb_eq _ _) Hid).
      now rewrite (Hall e (or_introl eq_refl) Hid).
  - apply IH. intros y Hy. apply Hall. now right.
Qed.

(** X13.  [useSendSecretsAction] writes nothing but the outcome of the
    reveal: with unique exchange ids, whatever the email service answers,
    the participants (and so the stored assignments), the questionnaires
    and the organizers are untouched, every other exchange keeps its row,
    and the row of the exchange keeps its id, organizer, title,
    description, budget, date, [created_at] and [shuffled_at]. *)
Theorem useSendSecretsAction_frame (db : DB) (exchangeId : string)
    (auth : option AuthUser) (mail : nat -> bool) (now : Z) :
  NoDup (map e_id (exchanges db)) ->
  let db' := db_of (useSendSecretsAction db exchangeId auth mail now) in
  organizers db' = organizers db /\
  participants db' = participants db /\
  questionnaires db' = questionnaires db /\
  committed_assignments db' exchangeId = committed_assignments db exchangeId /\
  Forall2 (fun e e' =>
             same_details e e' /\ e_shuffled_at e' = e_shuffled_at e /\
             (e_id e <> exchangeId -> e' = e))
          (exchanges db) (exchanges db').
Proof.
  intros Hpk db'.
  assert (Hsame : forall d : DB, d = db ->
            organizers d = organizers db /\
            participants d = participants db /\
            questionnaires d = questionnaires db /\
            committed_assignments d exchangeId
            = committed_assignments db exchangeId /\
            Forall2 (fun e e' =>
                       same_details e e' /\
                       e_shuffled_at e' = e_shuffled_at e /\
                       (e_id e <> exchangeId -> e' = e))
                    (exchanges db) (exchanges d)).
  { intros d ->. repeat split; auto. clear Hpk.
    induction (exchanges db); constructor; auto.
    unfold same_details. repeat split; auto. }
  assert (Hupd : forall status d,
            updateExchange db exchangeId (secrets_sent_input status now) now
            = inr d ->
            organizers d = organizers db /\
            participants d = participants db /\
            questionnaires d = questionnaires db /\
            committed_assignments d exchangeId
            = committed_assignments db exchangeId /\
            Forall2 (fun e e' =>
                       same_details e e' /\
                       e_shuffled_at e' = e_shuffled_at e /\
                       (e_id e <> exchangeId -> e' = e))
                    (exchanges db) (exchanges d)).
  { intros status d Hd.
    destruct (updateExchange_rows db exchangeId _ now d Hpk Hd)
      as (Ho & Hp & Hq & Hrows).
    repeat split; auto.
    - unfold committed_assignments, listParticipantsByExchange.
      now rewrite Hp.
    - eapply Forall2_impl; [|exact Hrows].
      intros e e' [Hother Hrow]. cbv beta.
      destruct (String.eqb (e_id e) exchangeId) eqn:E.
      + apply String.eqb_eq in E. rewrite (Hrow E).
        unfold same_details. repeat split; auto. intros; contradiction.
      + apply String.eqb_neq in E. rewrite (Hother E).
        unfold same_details. repeat split; auto. }
  subst db'. unfold useSendSecretsAction, db_of.
  destruct auth as [user|]; [|now apply Hsame].
  destruct (findExchangeByIdForOrganizer db exchangeId (u_id user)) as [e|];
    [|now apply Hsame].
  destruct (negb (status_eqb (e_status e) Shuffled)); [now apply Hsame|].
  destruct (negb (is_null (e_secrets_sent_at e))); [now apply Hsame|].
  destruct (sentCount _ =? length _).
  - destruct (updateExchange db exchangeId _ now) as [err|d] eqn:Hd;
      [now apply Hsame|]. now apply (Hupd (Some Complete)).
  - destruct (0 <? sentCount _); [|now apply Hsame].
    destruct (updateExchange db exchangeId _ now) as [err|d] eqn:Hd;
      [now apply Hsame|]. now apply (Hupd None).
Qed.

Lemma useSendSecretsAction_frame_witness :
  let db' := db_of (useSendSecretsAction (example_db_assigned None) "ex1"
                      (Some example_user) mail_second_fails 900%Z) in
  organizers db' = organizers (example_db_assigned None) /\
  participants db' = participants (example_db_assigned None) /\
  questionnaires db' = questionnaires (example_db_assigned None) /\
  committed_assignments db' "ex1"
  = committed_assignments (example_db_assigned None) "ex1" /\
  Forall2 (fun e e' =>
             same_details e e' /\ e_shuffled_at e' = e_shuffled_at e /\
             (e_id e <> "ex1" -> e' = e))
          (exchanges (example_db_assigned None)) (exchanges db').
Proof.
  apply (useSendSecretsAction_frame (example_db_assigned None) "ex1"
           (Some example_user) mail_second_fails 900%Z).
  simpl. repeat constructor. intros [].
Defined.

(** X14.  [updateExchange] on a table with unique ids: an id that is not in
    the table is answered by the error "Exchange not found"; otherwise the
    call succeeds (its second error, "Failed to update exchange", cannot
    occur), the row read back is the old row with the columns of the input
    written over it and [updated_at] set, every other exchange reads as
    before, and the other tables are untouched. *)
Theorem updateExchange_read_back (db : DB) (id : string)
    (input : UpdateExchangeInput) (now : Z) :
  NoDup (map e_id (exchanges db)) ->
  match findExchangeById db id with
  | None => updateExchange db id input now = inl (Error "Exchange not found")
  | Some existing =>
      exists db',
        updateExchange db id input now = inr db' /\
        findExchangeById db' id
        = Some (updated_row existing input now existing) /\
        (forall id', id' <> id ->
                     findExchangeById db' id' = findExchangeById db id') /\
        map e_id (exchanges db') = map e_id (exchanges db) /\
        participants db' = participants db /\
        questionnaires db' = questionnaires db /\
        organizers db' = organizers db
  end.
Proof.
  intros Hpk.
  destruct (findExchangeById db id) as [existing|] eqn:Hf.
  - exists (with_exchanges db
              (map (update_rows id existing input now) (exchanges db))).
    split; [now apply updateExchange_found|].
    split.
    { rewrite findExchangeById_map by (intros; apply update_rows_id).
      rewrite Hf. cbn [option_map]. unfold update_rows.
      now rewrite (proj2 (String.eqb_eq _ _) (byId_id _ _ _ Hf)). }
    split.
    { intros id' Hne.
      rewrite findExchangeById_map by (intros; apply update_rows_id).
      destruct (findExchangeById db id') as [e'|] eqn:Hf'; [|reflexivity].
      cbn [option_map]. rewrite update_rows_other; [reflexivity|].
      rewrite (byId_id _ _ _ Hf'). exact Hne. }
    cbn [with_exchanges exchanges participants questionnaires organizers].
    repeat split. rewrite map_map. apply map_ext. intros e.
    apply update_rows_id.
  - unfold updateExchange. now rewrite Hf.
Qed.

Lemma updateExchange_read_back_witness :
  exists db',
    updateExchange (example_db Collecting) "ex1" (shuffled_input 7%Z) 8%Z
    = inr db' /\
    option_map (fun e => (e_title e, e_status e, e_shuffled_at e, e_updated_at e))
               (findExchangeById db' "ex1")
    = Some ("Office party", Shuffled, Some 7%Z, 8%Z) /\
    participants db' = participants (example_db Collecting).
Proof.
  destruct (updateExchange_read_back (example_db Collecting) "ex1"
              (shuffled_input 7%Z) 8%Z)
    as (db' & Hu & Hf & _ & _ & Hp & _).
  - simpl. repeat constructor. intros [].
  - exists db'. split; [exact Hu|]. split; [|exact Hp].
    rewrite Hf. reflexivity.
Defined.

Lemma with_exchanges_same db : with_exchanges db (exchanges db) = db.
Proof. now destruct db. Qed.

(** X15.  [updateExchangeStatus] is [updateExchange] with an input that
    holds the status only, when the exchange exists and ids are unique;
    when it does not exist, [updateExchangeStatus] changes nothing and
    reports nothing, where [updateExchange] throws. *)
Theorem updateExchangeStatus_as_updateExchange (db : DB) (id : string)
    (status : ExchangeStatus) (now : Z) :
  NoDup (map e_id (exchanges db)) ->
  let input :=
    {| in_title := None; in_description := None; in_budget_min := None;
       in_budget_max := None; in_exchange_date := None;
       in_status := Some status; in_shuffled_at := None;
       in_secrets_sent_at := None |} in
  (findExchangeById db id <> None ->
   updateExchange db id input now
   = inr (updateExchangeStatus db id status now)) /\
  (findExchangeById db id = None ->
   updateExchangeStatus db id status now = db /\
   updateExchange db id input now = inl (Error "Exchange not found")).
Proof.
  intros Hpk input. split.
  - destruct (findExchangeById db id) as [existing|] eqn:Hf;
      [intros _|intros H; now contradiction H].
    rewrite (updateExchange_found db id input now existing Hf).
    unfold updateExchangeStatus. do 2 f_equal.
    apply map_ext_in. intros row Hrow. unfold update_rows.
    destruct (String.eqb (e_id row) id) eqn:E; [|reflexivity].
    apply String.eqb_eq in E.
    now rewrite (unique_row (exchanges db) id existing row Hpk Hf Hrow E).
  - intros Hf. split; [|unfold updateExchange; now rewrite Hf].
    unfold updateExchangeStatus.
    transitivity (with_exchanges db (exchanges db));
      [|apply with_exchanges_same].
    f_equal.
    transitivity (map (fun row => row) (exchanges db)); [|apply map_id].
    apply map_ext_in. intros row Hrow.
    destruct (String.eqb (e_id row) id) eqn:E; [|reflexivity].
    exfalso. unfold findExchangeById in Hf.
    pose proof (find_none _ _ Hf row Hrow) as K. cbv beta in K. congruence.
Qed.

Lemma updateExchangeStatus_as_updateExchange_witness :
  updateExchange (example_db Draft) "ex1"
    {| in_title := None; in_description := None; in_budget_min := None;
       in_budget_max := None; in_exchange_date := None;
       in_status := Some Collecting; in_shuffled_at := None;
       in_secrets_sent_at := None |} 20%Z
  = inr (updateExchangeStatus (example_db Draft) "ex1" Collecting 20%Z) /\
  updateExchangeStatus (example_db Draft) "ex2" Collecting 20%Z
  = example_db Draft.
Proof.
  assert (Hpk : NoDup (map e_id (exchanges (example_db Draft))))
    by (simpl; repeat constructor; intros []).
  split.
  - apply (updateExchangeStatus_as_updateExchange (example_db Draft) "ex1"
             Collecting 20%Z Hpk). discriminate.
  - apply (updateExchangeStatus_as_updateExchange (example_db Draft) "ex2"
             Collecting 20%Z Hpk). reflexivity.
Defined.

(* ------------------------------------------------------------------ *)
(** ** Inserting, counting and deleting participants *)

Lemma find_app_last (A : Type) (q : A -> bool) l y :
  (forall x, In x l -> q x = false) ->
  find q (l ++ [y]) = if q y then Some y else None.
Proof.
  induction l as [|x l IH]; intros H; simpl; [reflexivity|].
  rewrite (H x (or_introl eq_refl)). apply IH.
  intros z Hz. apply H. now right.
Qed.

Lemma NoDup_map_snoc (A B : Type) (f : A -> B) l y :
  NoDup (map f l) -> ~ In (f y) (map f l) -> NoDup (map f (l ++ [y])).
Proof.
  intros Hl Hy. rewrite map_app. simpl.
  apply (Permutation_NoDup (Permutation_cons_append (map f l) (f y))).
  now constructor.
Qed.

Lemma createParticipant_checks db input now :
  (exists db', createParticipant db input now = inr db') <->
  (forall p, In p (participants db) ->
             p_id p <> cp_id input /\ p_token p <> cp_token input /\
             (p_exchange_id p, p_email p)
             <> (cp_exchange_id input, cp_email input)) /\
  findExchangeById db (cp_exchange_id input) <> None.
Proof.
  unfold createParticipant.
  destruct (existsb _ (participants db)) eqn:Ex; cbn [orb].
  - split; [intros [db' H]; discriminate|].
    intros [Hall _]. exfalso.
    apply existsb_exists in Ex. destruct Ex as (p & Hp & Hq).
    destruct (Hall p Hp) as (H1 & H2 & H3).
    apply orb_true_iff in Hq. destruct Hq as [Hq|Hq].
    + apply orb_true_iff in Hq. destruct Hq as [Hq|Hq];
        apply String.eqb_eq in Hq; contradiction.
    + apply andb_true_iff in Hq. destruct Hq as [Ha Hb].
      apply String.eqb_eq in Ha, Hb. apply H3. congruence.
  - assert (Hall : forall p, In p (participants db) ->
             p_id p <> cp_id input /\ p_token p <> cp_token input /\
             (p_exchange_id p, p_email p)
             <> (cp_exchange_id input, cp_email input)).
    { intros p Hp.
      assert (Hq : (String.eqb (p_id p) (cp_id input)
                    || String.eqb (p_token p) (cp_token input)
                    || (String.eqb (p_exchange_id p) (cp_exchange_id input)
                        && String.eqb (p_email p) (cp_email input))) = false).
      { destruct (_ || _ || _) eqn:Eq; [|reflexivity].
        rewrite <- Ex. symmetry. apply existsb_exists. exists p. now split. }
      apply orb_false_iff in Hq. destruct Hq as [Hq H3].
      apply orb_false_iff in Hq. destruct Hq as [H1 H2].
      apply String.eqb_neq in H1, H2. repeat split; auto.
      intros E. injection E as Ea Eb.
      rewrite Ea, Eb, !String.eqb_refl in H3. discriminate. }
    destruct (findExchangeById db (cp_exchange_id input)) as [e|];
      cbn [is_null].
    + split; [intros _; split; [exact Hall|discriminate]|eauto].
    + split; [intros [db' H]; discriminate|intros [_ H]; now contradiction H].
Qed.

Lemma createParticipant_constraints db input now :
  participant_constraints db ->
  (forall p, In p (participants db) ->
             p_id p <> cp_id input /\ p_token p <> cp_token input /\
             (p_exchange_id p, p_email p)
             <> (cp_exchange_id input, cp_email input)) ->
  findExchangeById db (cp_exchange_id input) <> None ->
  participant_constraints
    (with_participants db
       (participants db ++
        [{| p_id := cp_id input; p_exchange_id := cp_exchange_id input;
            p_email := cp_email input; p_name := cp_name input;
            p_token := cp_token input;
            p_is_organizer := cp_is_organizer input;
            p_questionnaire_completed_at := None;
            p_assigned_recipient_id := None;
            p_created_at := now; p_updated_at := now |}])).
Proof.
  intros (Hid & Htok & Hmail & Hfk) Hall Hex.
  unfold participant_constraints.
  cbn [with_participants participants].
  split; [|split; [|split]].
  - apply NoDup_map_snoc; auto. intros Hin. apply in_map_iff in Hin.
    destruct Hin as (p & E & Hp). now destruct (Hall p Hp).
  - apply NoDup_map_snoc; auto. intros Hin. apply in_map_iff in Hin.
    destruct Hin as (p & E & Hp). now destruct (Hall p Hp) as (_ & H2 & _).
  - apply NoDup_map_snoc; auto. intros Hin. apply in_map_iff in Hin.
    destruct Hin as (p & E & Hp). now destruct (Hall p Hp) as (_ & _ & H3).
  - intros p Hp. apply in_app_or in Hp. destruct Hp as [Hp|[<-|[]]].
    + now apply Hfk.
    + exact Hex.
Qed.

(** X16.  [createParticipant] under the constraints of the schema.  The
    insert goes through exactly when the id, the token and the pair of
    exchange and email are new and the exchange exists.  Then the new row
    is the last of the table, both lookups find it, it carries neither a
    completed questionnaire nor a recipient, so that the exchange counts
    one participant more and is not "all complete"; and the table still
    satisfies its constraints. *)
Theorem createParticipant_inserts (db : DB) (input : CreateParticipantInput)
    (now : Z) :
  participant_constraints db ->
  ((exists db', createParticipant db input now = inr db') <->
   findParticipantById db (cp_id input) = None /\
   ~ In (cp_token input) (map p_token (participants db)) /\
   findParticipantByExchangeAndEmail db (cp_exchange_id input) (cp_email input)
   = None /\
   findExchangeById db (cp_exchange_id input) <> None) /\
  (forall db',
     createParticipant db input now = inr db' ->
     exists row,
       participants db' = participants db ++ [row] /\
       exchanges db' = exchanges db /\
       findParticipantById db' (cp_id input) = Some row /\
       findParticipantByExchangeAndEmail db' (cp_exchange_id input)
         (cp_email input) = Some row /\
       p_token row = cp_token input /\
       p_questionnaire_completed_at row = None /\
       p_assigned_recipient_id row = None /\
       countParticipantsByExchange db' (cp_exchange_id input)
       = S (countParticipantsByExchange db (cp_exchange_id input)) /\
       areAllQuestionnairesComplete db' (cp_exchange_id input) = false /\
       participant_constraints db').
Proof.
  intros (Hid & Htok & Hmail & Hfk).
  pose proof (createParticipant_checks db input now) as Hchk.
  split.
  - rewrite Hchk. split.
    + intros [Hall Hex]. repeat split; auto.
      * unfold findParticipantById.
        destruct (find _ (participants db)) as [p|] eqn:E; [|reflexivity].
        apply find_some in E. destruct E as [Hp E].
        apply String.eqb_eq in E. now destruct (Hall p Hp).
      * intros Hin. apply in_map_iff in Hin. destruct Hin as (p & E & Hp).
        now destruct (Hall p Hp) as (_ & H2 & _).
      * unfold findParticipantByExchangeAndEmail.
        destruct (find _ (participants db)) as [p|] eqn:E; [|reflexivity].
        apply find_some in E. destruct E as [Hp E].
        apply andb_true_iff in E. destruct E as [Ea Eb].
        apply String.eqb_eq in Ea, Eb.
        destruct (Hall p Hp) as (_ & _ & H3). exfalso. apply H3. congruence.
    + intros (H1 & H2 & H3 & H4). split; [|exact H4].
      intros p Hp. repeat split.
      * intros E. apply (find_none _ _ H1 p) in Hp.
        cbv beta in Hp. rewrite E, String.eqb_refl in Hp. discriminate.
      * intros E. apply H2. rewrite <- E. now apply in_map.
      * intros E. injection E as Ea Eb.
        apply (find_none _ _ H3 p) in Hp. cbv beta in Hp.
        rewrite Ea, Eb, !String.eqb_refl in Hp. discriminate.
  - intros db' Hc.
    destruct (proj1 Hchk (ex_intro _ db' Hc)) as [Hall Hex].
    unfold createParticipant in Hc.
    destruct (existsb _ (participants db) || _); [discriminate|].
    injection Hc as <-.
    set (row := {| p_id := cp_id input; p_exchange_id := cp_exchange_id input;
                   p_email := cp_email input; p_name := cp_name input;
                   p_token := cp_token input;
                   p_is_organizer := cp_is_organizer input;
                   p_questionnaire_completed_at := None;
                   p_assigned_recipient_id := None;
                   p_created_at := now; p_updated_at := now |}).
    exists row. cbn [with_participants participants exchanges].
    split; [reflexivity|]. split; [reflexivity|].
    split.
    { unfold findParticipantById. cbn [with_participants participants].
      rewrite find_app_last.
      - cbn [row p_id]. now rewrite String.eqb_refl.
      - intros p Hp. apply String.eqb_neq. now destruct (Hall p Hp). }
    split.
    { unfold findParticipantByExchangeAndEmail.
      cbn [with_participants participants].
      rewrite find_app_last.
      - cbn [row p_exchange_id p_email]. now rewrite !String.eqb_refl.
      - intros p Hp. destruct (Hall p Hp) as (_ & _ & H3).
        destruct (String.eqb (p_exchange_id p) (cp_exchange_id input)) eqn:Ea;
          [|reflexivity].
        destruct (String.eqb (p_email p) (cp_email input)) eqn:Eb;
          [|reflexivity].
        apply String.eqb_eq in Ea, Eb. exfalso. apply H3. congruence. }
    split; [reflexivity|]. split; [reflexivity|]. split; [reflexivity|].
    assert (Hcount :
      countParticipantsByExchange
        (with_participants db (participants db ++ [row])) (cp_exchange_id input)
      = S (countParticipantsByExchange db (cp_exchange_id input))).
    { unfold countParticipantsByExchange.
      cbn [with_participants participants].
      rewrite filter_app, length_app. cbn [filter row p_exchange_id].
      rewrite String.eqb_refl. simpl. lia. }
    split; [exact Hcount|].
    split.
    { unfold areAllQuestionnairesComplete. rewrite Hcount.
      assert (Hdone :
        countCompletedQuestionnaires
          (with_participants db (participants db ++ [row]))
          (cp_exchange_id input)
        = countCompletedQuestionnaires db (cp_exchange_id input)).
      { unfold countCompletedQuestionnaires.
        cbn [with_participants participants].
        rewrite filter_app, length_app.
        cbn [filter row p_exchange_id p_questionnaire_completed_at is_null negb].
        rewrite andb_false_r. simpl. lia. }
      rewrite Hdone. cbv zeta.
      pose proof (countCompleted_le db (cp_exchange_id input)) as Hle.
      rewrite list_length in Hle.
      apply andb_false_iff. right. apply Nat.eqb_neq. lia. }
    apply (createParticipant_constraints db input now); auto.
    unfold participant_constraints. repeat split; auto.
Qed.

Lemma createParticipant_inserts_witness :
  exists db' row,
    createParticipant (example_db Collecting)
      {| cp_id := "p4"; cp_exchange_id := "ex1"; cp_email := "dan@example.com";
         cp_name := None; cp_token := "token-p4"; cp_is_organizer := false |}
      60%Z = inr db' /\
    findParticipantById db' "p4" = Some row /\
    countParticipantsByExchange db' "ex1" = 4 /\
    areAllQuestionnairesComplete db' "ex1" = false /\
    participant_constraints db'.
Proof.
  assert (Hc : participant_constraints (example_db Collecting)).
  { unfold participant_constraints. simpl.
    repeat split; try (repeat constructor; simpl; intuition discriminate).
    intros p [<-|[<-|[<-|[]]]]; discriminate. }
  eexists.
  destruct (proj2 (createParticipant_inserts (example_db Collecting)
              {| cp_id := "p4"; cp_exchange_id := "ex1";
                 cp_email := "dan@example.com"; cp_name := None;
                 cp_token := "token-p4"; cp_is_organizer := false |}
              60%Z Hc) _ eq_refl)
    as (row & _ & _ & Hf & _ & _ & _ & _ & Hn & Ha & Hk).
  exists row. split; [reflexivity|]. repeat split; auto.
  - apply Hk.
  - apply Hk.
  - apply Hk.
  - apply Hk.
Defined.

Lemma find_filter_other (A : Type) (key : A -> string) l id id' :
  id' <> id ->
  find (fun x => String.eqb (key x) id')
       (filter (fun x => negb (String.eqb (key x) id)) l)
  = find (fun x => String.eqb (key x) id') l.
Proof.
  intros Hne. induction l as [|x l IH]; simpl; [reflexivity|].
  destruct (String.eqb (key x) id) eqn:E; simpl.
  - apply String.eqb_eq in E.
    replace (String.eqb (key x) id') with false; [exact IH|].
    symmetry. apply String.eqb_neq. congruence.
  - now rewrite IH.
Qed.

Lemma find_filter_same (A : Type) (key : A -> string) l id :
  find (fun x => String.eqb (key x) id)
       (filter (fun x => negb (String.eqb (key x) id)) l) = None.
Proof.
  induction l as [|x l IH]; simpl; [reflexivity|].
  destruct (String.eqb (key x) id) eqn:E; simpl; [exact IH|].
  now rewrite E.
Qed.

Lemma deleteParticipant_constraints db id :
  schema_constraints db ->
  (forall p, In p (participants db) -> p_id p <> id ->
             p_assigned_recipient_id p <> Some id) ->
  schema_constraints
    {| organizers := organizers db;
       exchanges := exchanges db;
       participants :=
         filter (fun p => negb (String.eqb (p_id p) id)) (participants db);
       questionnaires :=
         filter (fun q => negb (String.eqb (q_participant_id q) id))
                (questionnaires db) |}.
Proof.
  intros (Hpk & (Hid & Htok & Hmail & Hfk) & Hrec) Hno.
  assert (Hkept : forall p,
            In p (filter (fun p => negb (String.eqb (p_id p) id))
                         (participants db)) ->
            In p (participants db) /\ p_id p <> id).
  { intros p Hp. apply filter_In in Hp. destruct Hp as [Hp Hq].
    split; [exact Hp|]. now apply String.eqb_neq, negb_true_iff. }
  unfold schema_constraints, participant_constraints, recipients_exist.
  cbn [participants exchanges].
  split; [exact Hpk|]. split.
  - split; [now apply NoDup_map_filter|].
    split; [now apply NoDup_map_filter|].
    split; [now apply NoDup_map_filter|].
    intros p Hp. destruct (Hkept p Hp) as [Hp' _].
    unfold findExchangeById. cbn [exchanges]. now apply Hfk.
  - intros p r Hp Hr. destruct (Hkept p Hp) as [Hp' Hne].
    pose proof (Hrec p r Hp' Hr) as Hin.
    apply in_map_iff in Hin. destruct Hin as (p2 & E & Hp2).
    apply in_map_iff. exists p2. split; [exact E|].
    apply filter_In. split; [exact Hp2|].
    apply negb_true_iff, String.eqb_neq. intros E2.
    apply (Hno p Hp' Hne). congruence.
Qed.

(** X17.  [deleteParticipant] under the constraints of the schema.  The
    delete is refused exactly when another participant has the deleted one
    as recipient.  Otherwise the participant and its questionnaire are gone,
    every other participant is found as before, nobody is left with the
    deleted participant as recipient, and the constraints still hold. *)
Theorem deleteParticipant_removes (db : DB) (id : string) :
  schema_constraints db ->
  ((exists p, In p (participants db) /\ p_id p <> id /\
              p_assigned_recipient_id p = Some id) <->
   deleteParticipant db id = inl (Error "FOREIGN KEY constraint failed")) /\
  (forall db',
     deleteParticipant db id = inr db' ->
     findParticipantById db' id = None /\
     findQuestionnaireByParticipant db' id = None /\
     (forall id', id' <> id ->
        findParticipantById db' id' = findParticipantById db id' /\
        findQuestionnaireByParticipant db' id'
        = findQuestionnaireByParticipant db id') /\
     (forall p, In p (participants db') ->
                p_assigned_recipient_id p <> Some id) /\
     schema_constraints db').
Proof.
  intros (Hpk & (Hid & Htok & Hmail & Hfk) & Hrec).
  unfold deleteParticipant.
  destruct (existsb _ (participants db)) eqn:Ex.
  - split; [|intros db' H; discriminate].
    split; [reflexivity|intros _].
    apply existsb_exists in Ex. destruct Ex as (p & Hp & Hq).
    apply andb_true_iff in Hq. destruct Hq as [Ha Hb].
    apply negb_true_iff, String.eqb_neq in Ha. apply opt_eqb_eq in Hb.
    eauto.
  - assert (Hno : forall p, In p (participants db) -> p_id p <> id ->
                            p_assigned_recipient_id p <> Some id).
    { intros p Hp Hne Hr.
      assert (K : existsb (fun p => negb (String.eqb (p_id p) id)
                             && opt_eqb (p_assigned_recipient_id p) (Some id))
                          (participants db) = true).
      { apply existsb_exists. exists p. split; [exact Hp|].
        apply andb_true_iff. split.
        - apply negb_true_iff. now apply String.eqb_neq.
        - rewrite Hr. simpl. apply String.eqb_refl. }
      congruence. }
    split.
    { split; [|discriminate].
      intros (p & Hp & Hne & Hr). exfalso. exact (Hno p Hp Hne Hr). }
    intros db' H. injection H as <-.
    cbn [participants questionnaires exchanges].
    split; [apply (find_filter_same _ p_id)|].
    split; [apply (find_filter_same _ q_participant_id)|].
    split.
    { intros id' Hne. split.
      - now apply (find_filter_other _ p_id).
      - now apply (find_filter_other _ q_participant_id). }
    assert (Hkept : forall p,
              In p (filter (fun p => negb (String.eqb (p_id p) id))
                           (participants db)) ->
              In p (participants db) /\ p_id p <> id).
    { intros p Hp. apply filter_In in Hp. destruct Hp as [Hp Hq].
      split; [exact Hp|]. now apply String.eqb_neq, negb_true_iff. }
    split.
    { intros p Hp. destruct (Hkept p Hp). now apply Hno. }
    apply deleteParticipant_constraints; auto.
    unfold schema_constraints, participant_constraints. repeat split; auto.
Qed.

Lemma example_constraints db :
  map e_id (exchanges db) = ["ex1"] ->
  map p_id (participants db) = ["p1"; "p2"; "p3"] ->
  map p_token (participants db) = ["token-p1"; "token-p2"; "token-p3"] ->
  map (fun p => (p_exchange_id p, p_email p)) (participants db)
  = [("ex1", "ann@example.com"); ("ex1", "bob@example.com");
     ("ex1", "cat@example.com")] ->
  (forall p r, In p (participants db) ->
               p_assigned_recipient_id p = Some r ->
               In r ["p1"; "p2"; "p3"]) ->
  schema_constraints db.
Proof.
  intros He Hi Ht Hm Hr.
  unfold schema_constraints, participant_constraints, recipients_exist.
  rewrite He, Hi, Ht, Hm.
  repeat split; try (repeat constructor; simpl; intuition discriminate);
    auto.
  intros p Hp. apply (in_map (fun p => (p_exchange_id p, p_email p))) in Hp.
  rewrite Hm in Hp. unfold findExchangeById.
  destruct (exchanges db) as [|e [|e' es]]; try discriminate.
  injection He as He. simpl. cbv beta in Hp.
  assert (Hx : p_exchange_id p = "ex1")
    by (destruct Hp as [Hp|[Hp|[Hp|[]]]]; congruence).
  rewrite Hx, He. discriminate.
Qed.

Lemma example_db_constraints status : schema_constraints (example_db status).
Proof.
  apply example_constraints; try reflexivity.
  simpl. intros p r [<-|[<-|[<-|[]]]] E; discriminate.
Qed.

Lemma example_db_assigned_constraints sent :
  schema_constraints (example_db_assigned sent).
Proof.
  apply example_constraints; try reflexivity.
  simpl. intros p r [<-|[<-|[<-|[]]]] E; injection E as <-; simpl; auto.
Qed.

Lemma deleteParticipant_removes_witness :
  deleteParticipant (example_db_assigned None) "p2"
  = inl (Error "FOREIGN KEY constraint failed") /\
  exists db',
    deleteParticipant (example_db Collecting) "p2" = inr db' /\
    findParticipantById db' "p2" = None /\
    findQuestionnaireByParticipant db' "p2" = None /\
    schema_constraints db'.
Proof.
  split.
  - apply (deleteParticipant_removes (example_db_assigned None) "p2"
             (example_db_assigned_constraints None)).
    exists (example_participant "p1" "ann@example.com" (Some "p2")).
    simpl. repeat split; auto. discriminate.
  - eexists. split; [reflexivity|].
    destruct (proj2 (deleteParticipant_removes (example_db Collecting) "p2"
                (example_db_constraints Collecting)) _ eq_refl)
      as (H1 & H2 & _ & _ & H5).
    auto.
Defined.

Lemma filter_all_length (A : Type) (q : A -> bool) l :
  length (filter q l) = length l <-> forall x, In x l -> q x = true.
Proof.
  induction l as [|x l IH]; simpl; [tauto|].
  pose proof (filter_length_le q l) as Hle.
  destruct (q x) eqn:E; simpl.
  - split.
    + intros H y [<-|Hy]; [exact E|]. apply IH; [lia|exact Hy].
    + intros H. f_equal. apply IH. intros y Hy. apply H. now right.
  - split; [lia|]. intros H.
    rewrite (H x (or_introl eq_refl)) in E. discriminate.
Qed.

(** X18.  [areAllQuestionnairesComplete] holds exactly when the exchange has
    a participant and every participant of the exchange has a completion
    time; the two counts it compares are the number of rows that
    [listParticipantsByExchange] returns and the number of those with a
    completion time. *)
Theorem areAllQuestionnairesComplete_iff (db : DB) (exchangeId : string) :
  countParticipantsByExchange db exchangeId
  = length (listParticipantsByExchange db exchangeId) /\
  countCompletedQuestionnaires db exchangeId
  = length (filter (fun p => negb (is_null (p_questionnaire_completed_at p)))
                   (listParticipantsByExchange db exchangeId)) /\
  (areAllQuestionnairesComplete db exchangeId = true <->
   listParticipantsByExchange db exchangeId <> [] /\
   forall p, In p (listParticipantsByExchange db exchangeId) ->
             p_questionnaire_completed_at p <> None).
Proof.
  assert (Hc : countCompletedQuestionnaires db exchangeId
               = length (filter (fun p => negb (is_null
                                    (p_questionnaire_completed_at p)))
                                (listParticipantsByExchange db exchangeId))).
  { apply list_completed_length. }
  split; [symmetry; apply list_length|]. split; [exact Hc|].
  unfold areAllQuestionnairesComplete. cbv zeta. rewrite Hc.
  rewrite <- list_length.
  set (ps := listParticipantsByExchange db exchangeId).
  rewrite andb_true_iff, Nat.ltb_lt, Nat.eqb_eq.
  split.
  - intros [Hpos Heq]. split; [intros E; rewrite E in Hpos; simpl in Hpos; lia|].
    intros p Hp. symmetry in Heq.
    pose proof (proj1 (filter_all_length _ _ ps) Heq p Hp) as K.
    cbv beta in K. destruct (p_questionnaire_completed_at p); [|discriminate].
    discriminate.
  - intros [Hne Hall]. split; [destruct ps; [contradiction|simpl; lia]|].
    symmetry. apply filter_all_length. intros p Hp.
    specialize (Hall p Hp).
    destruct (p_questionnaire_completed_at p); [reflexivity|contradiction].
Qed.

(* ------------------------------------------------------------------ *)
(** ** The constraints of the schema under the writes *)

Lemma findExchangeById_In db id :
  findExchangeById db id <> None <-> In id (map e_id (exchanges db)).
Proof.
  unfold findExchangeById. split.
  - destruct (find _ (exchanges db)) as [e|] eqn:E; [intros _|tauto].
    apply find_some in E. destruct E as [He E].
    apply String.eqb_eq in E. rewrite <- E. now apply in_map.
  - intros Hin H. apply in_map_iff in Hin. destruct Hin as (e & E & He).
    pose proof (find_none _ _ H e He) as K. cbv beta in K.
    rewrite E, String.eqb_refl in K. discriminate.
Qed.

Lemma constraints_exchanges db db' :
  participants db' = participants db ->
  map e_id (exchanges db') = map e_id (exchanges db) ->
  schema_constraints db -> schema_constraints db'.
Proof.
  intros Hp He (Hpk & (Hid & Htok & Hmail & Hfk) & Hrec).
  unfold schema_constraints, participant_constraints, recipients_exist.
  rewrite Hp, He. repeat split; auto.
  intros p Hin. apply findExchangeById_In. rewrite He.
  apply findExchangeById_In. now apply Hfk.
Qed.

Lemma updateExchange_constraints db id input now db' :
  updateExchange db id input now = inr db' ->
  schema_constraints db -> schema_constraints db'.
Proof.
  intros H. unfold updateExchange in H.
  destruct (findExchangeById db id) as [existing|]; [|discriminate].
  cbv zeta in H. destruct (findExchangeById _ id); [|discriminate].
  injection H as <-. apply constraints_exchanges; [reflexivity|].
  cbn [with_exchanges exchanges]. rewrite map_map. apply map_ext.
  intros row. apply update_rows_id.
Qed.

Lemma updateExchangeStatus_constraints db id status now :
  schema_constraints db ->
  schema_constraints (updateExchangeStatus db id status now).
Proof.
  apply constraints_exchanges; [reflexivity|].
  unfold updateExchangeStatus. cbn [with_exchanges exchanges].
  rewrite map_map. apply map_ext. intros e.
  now destruct (String.eqb (e_id e) id).
Qed.

Lemma createParticipant_ok db input now :
  (forall p, In p (participants db) ->
             p_id p <> cp_id input /\ p_token p <> cp_token input /\
             (p_exchange_id p, p_email p)
             <> (cp_exchange_id input, cp_email input)) ->
  findExchangeById db (cp_exchange_id input) <> None ->
  createParticipant db input now
  = inr (with_participants db (participants db ++ [inserted_row input now])).
Proof.
  intros Hall Hex.
  destruct (proj2 (createParticipant_checks db input now) (conj Hall Hex))
    as [db' H].
  rewrite H. unfold createParticipant in H.
  destruct (existsb _ (participants db) || _); [discriminate|].
  injection H as <-. reflexivity.
Qed.

Lemma createParticipant_schema db input now :
  schema_constraints db ->
  (forall p, In p (participants db) ->
             p_id p <> cp_id input /\ p_token p <> cp_token input /\
             (p_exchange_id p, p_email p)
             <> (cp_exchange_id input, cp_email input)) ->
  findExchangeById db (cp_exchange_id input) <> None ->
  schema_constraints
    (with_participants db (participants db ++ [inserted_row input now])).
Proof.
  intros (Hpk & Hpc & Hrec) Hall Hex.
  split; [exact Hpk|]. split.
  - now apply (createParticipant_constraints db input now).
  - unfold recipients_exist. cbn [with_participants participants].
    intros p r Hp Hr. rewrite map_app. apply in_or_app.
    apply in_app_or in Hp. destruct Hp as [Hp|[<-|[]]].
    + left. now apply (Hrec p r).
    + discriminate.
Qed.

Lemma createParticipant_fails db input now :
  (exists p, In p (participants db) /\
             (p_id p = cp_id input \/ p_token p = cp_token input)) ->
  createParticipant db input now = inl (Error "constraint failed").
Proof.
  intros (p & Hp & Hq). unfold createParticipant.
  replace (existsb _ (participants db)) with true; [reflexivity|].
  symmetry. apply existsb_exists. exists p. split; [exact Hp|].
  destruct Hq as [-> | ->]; rewrite String.eqb_refl; cbn [orb];
    [reflexivity|now rewrite orb_true_r].
Qed.

(** X19.  [useAddParticipant] for the owner of an exchange, under the
    constraints of the schema.  In status ready, shuffled or complete the
    action refuses; an email that the exchange already has is refused; a
    generated id or token that collides with a row ends in the error of the
    store; in each of these cases nothing is written and nothing is sent.
    Otherwise one row is appended for the normalized email, with the
    generated id and token and without recipient, the exchange is in status
    collecting afterwards, one invitation goes to the normalized email, and
    the constraints still hold. *)
Theorem useAddParticipant_outcome (normalizeEmail : string -> string)
    (db : DB) (exchangeId : string) (user : AuthUser) (data_email : string)
    (data_name : option string) (participantId token : string) (now : Z)
    (exchange : Exchange) :
  schema_constraints db ->
  findExchangeByIdForOrganizer db exchangeId (u_id user) = Some exchange ->
  let result :=
    useAddParticipant normalizeEmail db exchangeId (Some user) data_email
      data_name participantId token now in
  let email := normalizeEmail data_email in
  (e_status exchange = Ready \/ e_status exchange = Shuffled \/
   e_status exchange = Complete ->
   result = (db, Failed "Cannot add participants after shuffling.", [])) /\
  (e_status exchange = Draft \/ e_status exchange = Collecting ->
   (findParticipantByExchangeAndEmail db exchangeId email <> None ->
    result = (db, Failed "This email is already added to the exchange.", [])) /\
   (findParticipantByExchangeAndEmail db exchangeId email = None ->
    (findParticipantById db participantId <> None \/
     In token (map p_token (participants db)) ->
     result = (db, Failed db_error_message, [])) /\
    (findParticipantById db participantId = None ->
     ~ In token (map p_token (participants db)) ->
     exists db' row,
       result = (db', Succeeded "Participant added and invitation sent!",
                 [QuestionnaireInvite email token]) /\
       participants db' = participants db ++ [row] /\
       p_id row = participantId /\ p_exchange_id row = exchangeId /\
       p_email row = email /\ p_token row = token /\
       p_questionnaire_completed_at row = None /\
       p_assigned_recipient_id row = None /\
       exchange_state db' exchangeId (u_id user)
       = Some (Collecting, e_secrets_sent_at exchange) /\
       schema_constraints db'))).
Proof.
  intros Hsc Hfind result email.
  destruct (forOrganizer_byId _ _ _ _ Hfind) as (Heid & Horg & Hby).
  subst result. unfold useAddParticipant. rewrite Hfind. fold email.
  split.
  { intros [-> | [-> | ->]]; reflexivity. }
  intros Hst.
  replace (negb (status_eqb (e_status exchange) Draft)
           && negb (status_eqb (e_status exchange) Collecting)) with false
    by (destruct Hst as [-> | ->]; reflexivity).
  split.
  { intros Hdup.
    destruct (findParticipantByExchangeAndEmail db exchangeId email);
      [reflexivity|now contradiction Hdup]. }
  intros Hnew. rewrite Hnew.
  set (input := {| cp_id := participantId; cp_exchange_id := exchangeId;
                   cp_email := email;
                   cp_name := if truthy_opt data_name then data_name else None;
                   cp_token := token;
                   cp_is_organizer := String.eqb email (u_email user) |}).
  split.
  { intros Hcol.
    rewrite (createParticipant_fails db input now); [reflexivity|].
    destruct Hcol as [Hcol|Hcol].
    - unfold findParticipantById in Hcol.
      destruct (find _ (participants db)) as [p|] eqn:E;
        [|now contradiction Hcol].
      apply find_some in E. destruct E as [Hp E].
      apply String.eqb_eq in E. exists p. auto.
    - apply in_map_iff in Hcol. destruct Hcol as (p & E & Hp).
      exists p. auto. }
  intros Hid Htok.
  assert (Hall : forall p, In p (participants db) ->
             p_id p <> cp_id input /\ p_token p <> cp_token input /\
             (p_exchange_id p, p_email p)
             <> (cp_exchange_id input, cp_email input)).
  { intros p Hp. cbn [input cp_id cp_token cp_exchange_id cp_email].
    repeat split.
    - intros E. pose proof (find_none _ _ Hid p Hp) as K. cbv beta in K.
      rewrite E, String.eqb_refl in K. discriminate.
    - intros E. apply Htok. rewrite <- E. now apply in_map.
    - intros E. injection E as Ea Eb.
      pose proof (find_none _ _ Hnew p Hp) as K. cbv beta in K.
      rewrite Ea, Eb, !String.eqb_refl in K. discriminate. }
  rewrite (createParticipant_ok db input now Hall Hby).
  set (db1 := with_participants db (participants db ++ [inserted_row input now])).
  assert (Hsc1 : schema_constraints db1)
    by (now apply createParticipant_schema).
  assert (Hfind1 : findExchangeByIdForOrganizer db1 exchangeId (u_id user)
                   = Some exchange) by exact Hfind.
  exists (if status_eqb (e_status exchange) Draft
          then updateExchangeStatus db1 exchangeId Collecting now else db1),
         (inserted_row input now).
  split; [reflexivity|].
  split; [now destruct (status_eqb (e_status exchange) Draft)|].
  do 6 (split; [reflexivity|]).
  destruct Hst as [Hst|Hst]; rewrite Hst; cbn [status_eqb].
  - split; [|now apply updateExchangeStatus_constraints].
    unfold exchange_state, updateExchangeStatus.
    rewrite findExchangeByIdForOrganizer_map
      by (intros row; now destruct (String.eqb (e_id row) exchangeId)).
    rewrite Hfind1. cbn [option_map].
    now rewrite Heid, String.eqb_refl.
  - split; [|exact Hsc1].
    unfold exchange_state. rewrite Hfind1. cbn [option_map]. now rewrite Hst.
Qed.

Lemma useAddParticipant_outcome_witness :
  useAddParticipant (fun s => s) (example_db Ready) "ex1" (Some example_user)
    "dan@example.com" None "p4" "token-p4" 60%Z
  = (example_db Ready, Failed "Cannot add participants after shuffling.", []) /\
  useAddParticipant (fun s => s) (example_db Collecting) "ex1"
    (Some example_user) "bob@example.com" None "p4" "token-p4" 60%Z
  = (example_db Collecting,
     Failed "This email is already added to the exchange.", []) /\
  exists db' row,
    useAddParticipant (fun s => s) (example_db Draft) "ex1" (Some example_user)
      "dan@example.com" None "p4" "token-p4" 60%Z
    = (db', Succeeded "Participant added and invitation sent!",
       [QuestionnaireInvite "dan@example.com" "token-p4"]) /\
    participants db' = participants (example_db Draft) ++ [row] /\
    exchange_state db' "ex1" "org1" = Some (Collecting, None) /\
    schema_constraints db'.
Proof.
  split; [|split].
  - apply (useAddParticipant_outcome (fun s => s) (example_db Ready) "ex1"
             example_user "dan@example.com" None "p4" "token-p4" 60%Z
             (example_exchange Ready None) (example_db_constraints Ready)
             eq_refl).
    now left.
  - apply (useAddParticipant_outcome (fun s => s) (example_db Collecting) "ex1"
             example_user "bob@example.com" None "p4" "token-p4" 60%Z
             (example_exchange Collecting None)
             (example_db_constraints Collecting) eq_refl).
    + now right.
    + discriminate.
  - destruct (useAddParticipant_outcome (fun s => s) (example_db Draft) "ex1"
                example_user "dan@example.com" None "p4" "token-p4" 60%Z
                (example_exchange Draft None) (example_db_constraints Draft)
                eq_refl) as [_ Hok].
    destruct (Hok (or_introl eq_refl)) as [_ Hnew].
    destruct (Hnew eq_refl) as [_ Hadd].
    destruct (Hadd eq_refl) as (db' & row & Hr & Hp & _ & _ & _ & _ & _ & _
                                & Hs & Hc).
    + simpl. intuition discriminate.
    + exists db', row. auto.
Defined.

Lemma constraints_participants_map db db' (g : Participant -> Participant) :
  participants db' = map g (participants db) ->
  map e_id (exchanges db') = map e_id (exchanges db) ->
  (forall p, p_id (g p) = p_id p /\ p_token (g p) = p_token p /\
             p_exchange_id (g p) = p_exchange_id p) ->
  NoDup (map (fun p => (p_exchange_id p, p_email p))
             (map g (participants db))) ->
  (forall p r, In p (participants db) ->
               p_assigned_recipient_id (g p) = Some r ->
               In r (map p_id (participants db))) ->
  schema_constraints db -> schema_constraints db'.
Proof.
  intros Hp He Hg Hpairs Hr (Hpk & (Hid & Htok & Hmail & Hfk) & Hrec).
  assert (Hids : map p_id (map g (participants db))
                 = map p_id (participants db))
    by (rewrite map_map; apply map_ext; intros p; apply Hg).
  assert (Htoks : map p_token (map g (participants db))
                  = map p_token (participants db))
    by (rewrite map_map; apply map_ext; intros p; apply Hg).
  unfold schema_constraints, participant_constraints, recipients_exist.
  rewrite Hp, He, Hids, Htoks. repeat split; auto.
  - intros p' Hin. apply in_map_iff in Hin. destruct Hin as (p & <- & Hin).
    destruct (Hg p) as (_ & _ & ->).
    apply findExchangeById_In. rewrite He. apply findExchangeById_In.
    now apply Hfk.
  - intros p' r Hin Hrp. apply in_map_iff in Hin.
    destruct Hin as (p & <- & Hin). now apply (Hr p r).
Qed.

Lemma useShuffleAction_constraints db id auth tape now :
  schema_constraints db ->
  schema_constraints (db_of (useShuffleAction db id auth tape now)).
Proof.
  intros Hsc. pose proof Hsc as (Hpk & (Hid & Htok & Hmail & Hfk) & Hrec).
  unfold useShuffleAction.
  destruct (shuffle_read db id auth tape) as [r|assignments] eqn:E;
    [exact Hsc|].
  destruct (shuffle_read_plan _ _ _ _ _ E)
    as (u & e & _ & Hfind & _ & Hlen & _ & Hgen & _).
  set (ps := listParticipantsByExchange db id) in *.
  set (ids := map p_id ps) in *.
  assert (Hnd : NoDup ids) by now apply list_ids_NoDup.
  assert (Hlen' : 2 <= length ids) by (unfold ids; now rewrite length_map).
  unfold createSecretSantaAssignments in Hgen.
  rewrite (@chain_result tape ids Hnd Hlen') in Hgen.
  injection Hgen as <-.
  set (chain := combine ids (sattoloShuffle tape ids)).
  assert (Hkeys : Map_keys chain = ids) by (apply chain_keys; exact Hlen').
  pose proof (forOrganizer_unique _ _ _ _ Hpk Hfind) as Hby.
  rewrite (shuffle_write_found db id chain now e Hby). unfold db_of.
  cbn [fst].
  apply (constraints_participants_map db _ (assigned_row chain now)); auto.
  - cbn [with_exchanges participants].
    apply assignRecipient_fold_participants. now rewrite Hkeys.
  - cbn [with_exchanges exchanges]. rewrite map_map. apply map_ext.
    intros row. apply update_rows_id.
  - intros p. unfold assigned_row.
    now destruct (Map_get chain (p_id p)).
  - rewrite map_map.
    replace (map (fun x => (p_exchange_id (assigned_row chain now x),
                            p_email (assigned_row chain now x)))
                 (participants db))
      with (map (fun p => (p_exchange_id p, p_email p)) (participants db));
      [exact Hmail|].
    apply map_ext. intros p. unfold assigned_row.
    now destruct (Map_get chain (p_id p)).
  - intros p r Hp. unfold assigned_row.
    destruct (Map_get chain (p_id p)) as [r'|] eqn:Eg.
    + cbn [set_recipient p_assigned_recipient_id]. intros [= <-].
      apply Map_get_In in Eg. apply in_combine_r in Eg.
      apply (Permutation_in _ (sattoloShuffle_Permutation _ tape ids)) in Eg.
      unfold ids in Eg. apply in_map_iff in Eg. destruct Eg as (q & <- & Hq).
      apply in_map. now apply list_In in Hq.
    + now apply Hrec.
Qed.

Lemma set_email_pairs l pid newEmail now exch :
  NoDup (map p_id l) ->
  NoDup (map (fun p => (p_exchange_id p, p_email p)) l) ->
  (forall y, In y l -> p_id y = pid -> p_exchange_id y = exch) ->
  (forall y, In y l -> p_id y <> pid ->
             (p_exchange_id y, p_email y) <> (exch, newEmail)) ->
  NoDup (map (fun p => (p_exchange_id p, p_email p))
             (map (fun p => if String.eqb (p_id p) pid
                            then set_email newEmail now p else p) l)).
Proof.
  induction l as [|a l IH]; intros Hid Hpairs Hex Hother; [constructor|].
  inversion Hid as [|? ? Ha Hl]; subst.
  inversion Hpairs as [|? ? Hpa Hpl]; subst.
  cbn [map]. constructor.
  - intros Hin. rewrite map_map in Hin. apply in_map_iff in Hin.
    destruct Hin as (y & Hy & Hyin).
    destruct (String.eqb (p_id a) pid) eqn:Ea;
      destruct (String.eqb (p_id y) pid) eqn:Ey.
    + apply String.eqb_eq in Ea, Ey. apply Ha. rewrite Ea, <- Ey.
      now apply in_map.
    + apply String.eqb_eq in Ea. apply String.eqb_neq in Ey.
      cbn [set_email p_exchange_id p_email] in Hy.
      rewrite (Hex a (or_introl eq_refl) Ea) in Hy.
      exact (Hother y (or_intror Hyin) Ey Hy).
    + apply String.eqb_neq in Ea. apply String.eqb_eq in Ey.
      cbn [set_email p_exchange_id p_email] in Hy.
      rewrite (Hex y (or_intror Hyin) Ey) in Hy.
      apply (Hother a (or_introl eq_refl) Ea). now symmetry.
    + apply Hpa. rewrite <- Hy.
      now apply (in_map (fun p => (p_exchange_id p, p_email p))).
  - apply IH; auto.
    + intros y Hy. apply Hex. now right.
    + intros y Hy. apply Hother. now right.
Qed.

Lemma updateParticipantEmail_constraints db id pid participant newEmail now :
  schema_constraints db ->
  findParticipantById db pid = Some participant ->
  p_exchange_id participant = id ->
  match findParticipantByExchangeAndEmail db id newEmail with
  | Some existing => p_id existing = p_id participant
  | None => True
  end ->
  schema_constraints (updateParticipantEmail db pid newEmail now).
Proof.
  intros Hsc Hfind Hex Hdup.
  pose proof Hsc as (Hpk & (Hid & Htok & Hmail & Hfk) & Hrec).
  pose proof (find_some _ _ Hfind) as [Hin Hpid]. cbv beta in Hpid.
  apply String.eqb_eq in Hpid.
  set (g := fun p => if String.eqb (p_id p) pid
                     then set_email newEmail now p else p).
  apply (constraints_participants_map db _ g); auto.
  - intros p. unfold g. now destruct (String.eqb (p_id p) pid).
  - apply (set_email_pairs _ pid newEmail now id); auto.
    + intros y Hy Ey.
      assert (y = participant)
        by (apply (NoDup_map_inj _ _ p_id (participants db)); congruence).
      now subst y.
    + intros y Hy Ey Epair. injection Epair as Ea Eb.
      unfold findParticipantByExchangeAndEmail in Hdup.
      destruct (find _ (participants db)) as [existing|] eqn:Ef.
      * apply find_some in Ef. destruct Ef as [Hein Ee].
        apply andb_true_iff in Ee. destruct Ee as [Ee1 Ee2].
        apply String.eqb_eq in Ee1, Ee2.
        assert (y = existing).
        { apply (NoDup_map_inj _ _ (fun p => (p_exchange_id p, p_email p))
                   (participants db)); auto. cbv beta. congruence. }
        subst y. congruence.
      * pose proof (find_none _ _ Ef y Hy) as K. cbv beta in K.
        rewrite Ea, Eb, !String.eqb_refl in K. discriminate.
  - intros p r Hp. unfold g.
    destruct (String.eqb (p_id p) pid); [cbn [set_email p_assigned_recipient_id]|];
      now apply Hrec.
Qed.

Lemma deleteParticipant_result db id db' :
  deleteParticipant db id = inr db' ->
  (forall p, In p (participants db) -> p_id p <> id ->
             p_assigned_recipient_id p <> Some id) /\
  db' = {| organizers := organizers db;
           exchanges := exchanges db;
           participants :=
             filter (fun p => negb (String.eqb (p_id p) id)) (participants db);
           questionnaires :=
             filter (fun q => negb (String.eqb (q_participant_id q) id))
                    (questionnaires db) |}.
Proof.
  unfold deleteParticipant.
  destruct (existsb _ (participants db)) eqn:Ex; [discriminate|].
  intros [= <-]. split; [|reflexivity].
  intros p Hp Hne Hr.
  assert (K : existsb (fun p => negb (String.eqb (p_id p) id)
                         && opt_eqb (p_assigned_recipient_id p) (Some id))
                      (participants db) = true).
  { apply existsb_exists. exists p. split; [exact Hp|].
    apply andb_true_iff. split.
    - apply negb_true_iff. now apply String.eqb_neq.
    - rewrite Hr. simpl. apply String.eqb_refl. }
  congruence.
Qed.

Lemma handle_constraints nE iV req mail now db :
  schema_constraints db ->
  schema_constraints (db_of (handle nE iV req mail now db)).
Proof.
  intros Hsc. unfold db_of.
  destruct req as [id auth email name pid token | id auth pid
                  | id auth pid email | id auth pid
                  | id auth title description bmin bmax date | id
                  | id auth tape | id auth]; cbn [handle].
  - unfold useAddParticipant.
    destruct auth as [u|]; [|exact Hsc].
    destruct (findExchangeByIdForOrganizer db id (u_id u)) as [e|] eqn:Hf;
      [|exact Hsc].
    destruct (negb (status_eqb (e_status e) Draft)
              && negb (status_eqb (e_status e) Collecting)); [exact Hsc|].
    destruct (findParticipantByExchangeAndEmail db id (nE email));
      [exact Hsc|].
    match goal with
    | |- context [createParticipant db ?i now] => set (input := i)
    end.
    destruct (createParticipant db input now) as [err|db1] eqn:Hc;
      [exact Hsc|].
    destruct (proj1 (createParticipant_checks db input now)
                (ex_intro _ db1 Hc)) as [Hall Hex].
    rewrite (createParticipant_ok db input now Hall Hex) in Hc.
    injection Hc as <-.
    pose proof (createParticipant_schema db input now Hsc Hall Hex) as Hsc1.
    cbn [fst].
    destruct (status_eqb (e_status e) Draft);
      [now apply updateExchangeStatus_constraints|exact Hsc1].
  - unfold useResendInvite.
    destruct auth as [u|]; [|exact Hsc].
    destruct (findExchangeByIdForOrganizer db id (u_id u)); [|exact Hsc].
    destruct (findParticipantById db pid) as [p|]; [|exact Hsc].
    destruct (negb (String.eqb (p_exchange_id p) id)); [exact Hsc|].
    destruct (truthy_num (p_questionnaire_completed_at p)); exact Hsc.
  - unfold useUpdateParticipantEmail.
    destruct auth as [u|]; [|exact Hsc].
    destruct (findExchangeByIdForOrganizer db id (u_id u)); [|exact Hsc].
    destruct (findParticipantById db pid) as [p|] eqn:Hp; [|exact Hsc].
    destruct (negb (String.eqb (p_exchange_id p) id)) eqn:Hx; [exact Hsc|].
    apply negb_false_iff, String.eqb_eq in Hx.
    destruct (negb (iV (nE email))); [exact Hsc|].
    destruct (findParticipantByExchangeAndEmail db id (nE email))
      as [existing|] eqn:Hdup.
    + destruct (negb (String.eqb (p_id existing) (p_id p))) eqn:Hsame;
        [exact Hsc|].
      apply negb_false_iff, String.eqb_eq in Hsame. cbn [fst].
      apply (updateParticipantEmail_constraints db id pid p); auto.
      now rewrite Hdup.
    + cbn [fst].
      apply (updateParticipantEmail_constraints db id pid p); auto.
      now rewrite Hdup.
  - unfold useRemoveParticipant.
    destruct auth as [u|]; [|exact Hsc].
    destruct (findExchangeByIdForOrganizer db id (u_id u)) as [e|];
      [|exact Hsc].
    destruct (status_eqb (e_status e) Shuffled
              || status_eqb (e_status e) Complete); [exact Hsc|].
    destruct (findParticipantById db pid) as [p|]; [|exact Hsc].
    destruct (negb (String.eqb (p_exchange_id p) id)); [exact Hsc|].
    destruct (deleteParticipant db pid) as [err|db'] eqn:Hd; [exact Hsc|].
    destruct (deleteParticipant_result db pid db' Hd) as [Hno ->].
    now apply deleteParticipant_constraints.
  - unfold useUpdateExchange.
    destruct auth as [u|]; [|exact Hsc].
    destruct (findExchangeByIdForOrganizer db id (u_id u)) as [e|];
      [|exact Hsc].
    destruct (status_eqb (e_status e) Shuffled
              || status_eqb (e_status e) Complete); [exact Hsc|].
    destruct (updateExchange db id _ now) as [err|db'] eqn:Hu; [exact Hsc|].
    exact (updateExchange_constraints _ _ _ _ _ Hu Hsc).
  - unfold checkAndNotifyAllComplete.
    destruct (negb (areAllQuestionnairesComplete db id)); [exact Hsc|].
    destruct (findExchangeById db id) as [e|]; [|exact Hsc].
    destruct (negb (status_eqb (e_status e) Collecting)); [exact Hsc|].
    cbv zeta.
    destruct (findOrganizerById _ (e_organizer_id e));
      [destruct (mail 0)|]; now apply updateExchangeStatus_constraints.
  - now apply useShuffleAction_constraints.
  - unfold useSendSecretsAction.
    destruct auth as [u|]; [|exact Hsc].
    destruct (findExchangeByIdForOrganizer db id (u_id u)) as [e|];
      [|exact Hsc].
    destruct (negb (status_eqb (e_status e) Shuffled)); [exact Hsc|].
    destruct (negb (is_null (e_secrets_sent_at e))); [exact Hsc|].
    cbv zeta.
    destruct (sentCount _ =? length _).
    + destruct (updateExchange db id _ now) as [err|db'] eqn:Hu; [exact Hsc|].
      exact (updateExchange_constraints _ _ _ _ _ Hu Hsc).
    + destruct (0 <? sentCount _); [|exact Hsc].
      destruct (updateExchange db id _ now) as [err|db'] eqn:Hu; [exact Hsc|].
      exact (updateExchange_constraints _ _ _ _ _ Hu Hsc).
Qed.

(** X20.  No run of requests breaks the constraints of the schema.  From a
    database with unique exchange ids, unique participant ids and tokens,
    one email per exchange at most once, every participant in an existing
    exchange and every assigned recipient an existing participant, the
    database after any sequence of the eight requests, with any results of
    the email service, satisfies them again.  So [assignRecipient] never
    points to a missing participant and [updateParticipantEmail] never
    doubles an email, which both run without a check of their own. *)
Theorem run_keeps_schema_constraints (normalizeEmail : string -> string)
    (isValidEmail : string -> bool) (reqs : list Request)
    (env : nat -> (nat -> bool) * Z) (k : nat) (db : DB) :
  schema_constraints db ->
  schema_constraints (run normalizeEmail isValidEmail reqs env k db).
Proof.
  revert k db. induction reqs as [|req rest IH]; intros k db Hsc;
    [exact Hsc|].
  cbn [run].
  pose proof (handle_constraints normalizeEmail isValidEmail req
                (fst (env k)) (snd (env k)) db Hsc) as H1.
  unfold db_of in H1.
  destruct (handle normalizeEmail isValidEmail req (fst (env k))
              (snd (env k)) db) as [[db' r] out].
  apply IH. exact H1.
Qed.

Lemma run_keeps_schema_constraints_witness :
  schema_constraints
    (run (fun s => s) (fun _ => true)
       [AddParticipant "ex1" (Some example_user) "dan@example.com" None
          "p4" "token-p4";
        UpdateParticipantEmail "ex1" (Some example_user) "p2"
          "robert@example.com";
        RemoveParticipant "ex1" (Some example_user) "p3";
        CheckAllComplete "ex1";
        Shuffle "ex1" (Some example_user) tape_one;
        SendSecrets "ex1" (Some example_user)]
       (fun _ => (mail_second_fails, 700%Z)) 0 (example_db Collecting)).
Proof.
  apply (run_keeps_schema_constraints (fun s => s) (fun _ => true)).
  apply example_db_constraints.
Defined.

(* ------------------------------------------------------------------ *)
(** ** Editing a participant, an invitation, an exchange *)

Lemma committed_assignments_map db db' (g : Participant -> Participant) id :
  participants db' = map g (participants db) ->
  (forall p, p_id (g p) = p_id p /\ p_exchange_id (g p) = p_exchange_id p /\
             p_assigned_recipient_id (g p) = p_assigned_recipient_id p /\
             p_created_at (g p) = p_created_at p) ->
  committed_assignments db' id = committed_assignments db id.
Proof.
  intros Hp Hg. unfold committed_assignments.
  rewrite (list_map db db' g id Hp)
    by (intros p; now destruct (Hg p) as (_ & -> & _ & ->)).
  rewrite flat_map_concat_map, map_map, <- flat_map_concat_map.
  apply flat_map_ext. intros p. now destruct (Hg p) as (-> & _ & -> & _).
Qed.

(** X21.  [useUpdateParticipantEmail] for the owner of the exchange and one
    of its participants, under the constraints of the schema and with a
    valid new address.  The status of the exchange is not consulted.  If
    another participant of the exchange has the normalized address the
    action refuses and writes nothing.  Otherwise it succeeds without
    sending an email: the participant is read back with the new address and
    is the one found under it, every other participant reads as before, and
    the exchanges and the stored assignments are untouched. *)
Theorem useUpdateParticipantEmail_outcome (normalizeEmail : string -> string)
    (isValidEmail : string -> bool) (db : DB) (exchangeId : string)
    (user : AuthUser) (participantId data_email : string) (now : Z)
    (exchange : Exchange) (participant : Participant) :
  schema_constraints db ->
  findExchangeByIdForOrganizer db exchangeId (u_id user) = Some exchange ->
  findParticipantById db participantId = Some participant ->
  p_exchange_id participant = exchangeId ->
  isValidEmail (normalizeEmail data_email) = true ->
  let result :=
    useUpdateParticipantEmail normalizeEmail isValidEmail db exchangeId
      (Some user) participantId data_email now in
  let newEmail := normalizeEmail data_email in
  ((exists other, In other (participants db) /\
                  p_exchange_id other = exchangeId /\
                  p_email other = newEmail /\ p_id other <> participantId) ->
   result = (db, Failed "This email is already in the exchange.", [])) /\
  ((forall other, In other (participants db) ->
                  p_exchange_id other = exchangeId ->
                  p_email other = newEmail -> p_id other = participantId) ->
   exists db',
     result = (db', Succeeded "Email updated!", []) /\
     findParticipantById db' participantId
     = Some (set_email newEmail now participant) /\
     (exists row,
         findParticipantByExchangeAndEmail db' exchangeId newEmail = Some row /\
         p_id row = participantId) /\
     (forall other, other <> participantId ->
                    findParticipantById db' other = findParticipantById db other) /\
     exchanges db' = exchanges db /\
     committed_assignments db' exchangeId
     = committed_assignments db exchangeId).
Proof.
  intros Hsc Hfind Hp Hx Hvalid result newEmail.
  pose proof Hsc as (Hpk & (Hid & Htok & Hmail & Hfk) & Hrec).
  pose proof (find_some _ _ Hp) as [Hin Hpid]. cbv beta in Hpid.
  apply String.eqb_eq in Hpid.
  subst result. unfold useUpdateParticipantEmail.
  rewrite Hfind, Hp, Hx, String.eqb_refl. cbn [negb].
  rewrite Hvalid. cbn [negb]. fold newEmail.
  split.
  - intros (other & Hoin & Hox & Hoe & Hne).
    destruct (findParticipantByExchangeAndEmail db exchangeId newEmail)
      as [existing|] eqn:Hdup.
    + pose proof (find_some _ _ Hdup) as [Hein Ee]. cbv beta in Ee.
      apply andb_true_iff in Ee. destruct Ee as [Ee1 Ee2].
      apply String.eqb_eq in Ee1, Ee2.
      assert (existing = other).
      { apply (NoDup_map_inj _ _ (fun p => (p_exchange_id p, p_email p))
                 (participants db)); auto. cbv beta. congruence. }
      subst existing.
      replace (String.eqb (p_id other) (p_id participant)) with false;
        [reflexivity|].
      symmetry. apply String.eqb_neq. congruence.
    + exfalso. pose proof (find_none _ _ Hdup other Hoin) as K.
      cbv beta in K. rewrite Hox, Hoe, !String.eqb_refl in K. discriminate.
  - intros Honly.
    set (g := fun p => if String.eqb (p_id p) participantId
                       then set_email newEmail now p else p).
    assert (Hg : forall p, p_id (g p) = p_id p /\
                           p_exchange_id (g p) = p_exchange_id p /\
                           p_assigned_recipient_id (g p)
                           = p_assigned_recipient_id p)
      by (intros p; unfold g; now destruct (String.eqb (p_id p) participantId)).
    exists (updateParticipantEmail db participantId newEmail now).
    split.
    { destruct (findParticipantByExchangeAndEmail db exchangeId newEmail)
        as [existing|] eqn:Hdup; [|reflexivity].
      pose proof (find_some _ _ Hdup) as [Hein Ee]. cbv beta in Ee.
      apply andb_true_iff in Ee. destruct Ee as [Ee1 Ee2].
      apply String.eqb_eq in Ee1, Ee2.
      rewrite (Honly existing Hein Ee1 Ee2), Hpid, String.eqb_refl.
      reflexivity. }
    assert (Hfindg : forall other,
              findParticipantById
                (updateParticipantEmail db participantId newEmail now) other
              = option_map g (findParticipantById db other)).
    { intros other. unfold findParticipantById, updateParticipantEmail.
      cbn [with_participants participants].
      apply find_map_same. intros p. cbv beta.
      now destruct (String.eqb (p_id p) participantId). }
    split.
    { rewrite Hfindg, Hp. cbn [option_map]. unfold g.
      now rewrite Hpid, String.eqb_refl. }
    split.
    { destruct (findParticipantByExchangeAndEmail
                  (updateParticipantEmail db participantId newEmail now)
                  exchangeId newEmail) as [row|] eqn:Hrow.
      - exists row. split; [reflexivity|].
        pose proof (find_some _ _ Hrow) as [Hrin Er]. cbv beta in Er.
        apply andb_true_iff in Er. destruct Er as [Er1 Er2].
        apply String.eqb_eq in Er1, Er2.
        unfold updateParticipantEmail in Hrin.
        cbn [with_participants participants] in Hrin.
        apply in_map_iff in Hrin. destruct Hrin as (y & <- & Hy).
        fold (g y) in *. destruct (Hg y) as (Hi & He & _). rewrite Hi.
        unfold g in Er2. destruct (String.eqb (p_id y) participantId) eqn:Ey.
        + now apply String.eqb_eq.
        + apply Honly; auto. unfold g in Er1. now rewrite Ey in Er1.
      - exfalso.
        assert (Hgin : In (g participant)
                  (participants
                     (updateParticipantEmail db participantId newEmail now)))
          by (unfold updateParticipantEmail;
              cbn [with_participants participants]; now apply in_map).
        pose proof (find_none _ _ Hrow _ Hgin) as K. cbv beta in K.
        unfold g in K. rewrite Hpid, String.eqb_refl in K.
        cbn [set_email p_exchange_id p_email] in K.
        rewrite Hx, !String.eqb_refl in K. discriminate. }
    split.
    { intros other Hne. rewrite Hfindg.
      destruct (findParticipantById db other) as [y|] eqn:Hy; [|reflexivity].
      cbn [option_map]. f_equal. unfold g.
      pose proof (find_some _ _ Hy) as [_ Ey]. cbv beta in Ey.
      apply String.eqb_eq in Ey.
      replace (String.eqb (p_id y) participantId) with false; [reflexivity|].
      symmetry. apply String.eqb_neq. congruence. }
    split; [reflexivity|].
    apply (committed_assignments_map db _ g); [reflexivity|].
    intros p. destruct (Hg p) as (H1 & H2 & H3). repeat split; auto.
    unfold g. now destruct (String.eqb (p_id p) participantId).
Qed.

Lemma useUpdateParticipantEmail_outcome_witness :
  useUpdateParticipantEmail (fun s => s) (fun _ => true)
    (example_db_assigned None) "ex1" (Some example_user) "p2"
    "cat@example.com" 950%Z
  = (example_db_assigned None,
     Failed "This email is already in the exchange.", []) /\
  exists db',
    useUpdateParticipantEmail (fun s => s) (fun _ => true)
      (example_db_assigned None) "ex1" (Some example_user) "p2"
      "robert@example.com" 950%Z
    = (db', Succeeded "Email updated!", []) /\
    option_map p_email (findParticipantById db' "p2")
    = Some "robert@example.com" /\
    committed_assignments db' "ex1"
    = [("p1", "p2"); ("p2", "p3"); ("p3", "p1")].
Proof.
  split.
  - apply (useUpdateParticipantEmail_outcome (fun s => s) (fun _ => true)
             (example_db_assigned None) "ex1" example_user "p2"
             "cat@example.com" 950%Z (example_exchange Shuffled None)
             (example_participant "p2" "bob@example.com" (Some "p3"))
             (example_db_assigned_constraints None) eq_refl eq_refl eq_refl
             eq_refl).
    exists (example_participant "p3" "cat@example.com" (Some "p1")).
    simpl. repeat split; auto. discriminate.
  - destruct (useUpdateParticipantEmail_outcome (fun s => s) (fun _ => true)
                (example_db_assigned None) "ex1" example_user "p2"
                "robert@example.com" 950%Z (example_exchange Shuffled None)
                (example_participant "p2" "bob@example.com" (Some "p3"))
                (example_db_assigned_constraints None) eq_refl eq_refl eq_refl
                eq_refl) as [_ Hok].
    destruct Hok as (db' & Hr & Hf & _ & _ & _ & Hc).
    + simpl. intros other [<-|[<-|[<-|[]]]] _ E; try discriminate E.
    + exists db'. split; [exact Hr|]. split; [now rewrite Hf|].
      rewrite Hc. reflexivity.
Defined.

(** X22.  [useResendInvite] never writes: whatever the request, the
    database is returned as it was.  It sends at most one message, an
    invitation, and only for an authenticated owner of the exchange, to a
    participant of that exchange whose completion time is absent (or 0),
    with the address and the token stored for that participant; the status
    of the exchange is not consulted. *)
Theorem useResendInvite_outcome (db : DB) (exchangeId : string)
    (auth : option AuthUser) (participantId : string) :
  exists response out,
    useResendInvite db exchangeId auth participantId = (db, response, out) /\
    ((out = [] /\ response <> Succeeded "Invitation resent!") \/
     exists user exchange p,
       auth = Some user /\
       findExchangeByIdForOrganizer db exchangeId (u_id user) = Some exchange /\
       findParticipantById db participantId = Some p /\
       p_exchange_id p = exchangeId /\
       truthy_num (p_questionnaire_completed_at p) = false /\
       response = Succeeded "Invitation resent!" /\
       out = [QuestionnaireInvite (p_email p) (p_token p)]).
Proof.
  unfold useResendInvite.
  destruct auth as [u|];
    [|do 2 eexists; split; [reflexivity|left; split; [reflexivity|discriminate]]].
  destruct (findExchangeByIdForOrganizer db exchangeId (u_id u)) as [e|] eqn:Hf;
    [|do 2 eexists; split; [reflexivity|left; split; [reflexivity|discriminate]]].
  destruct (findParticipantById db participantId) as [p|] eqn:Hp;
    [|do 2 eexists; split; [reflexivity|left; split; [reflexivity|discriminate]]].
  destruct (negb (String.eqb (p_exchange_id p) exchangeId)) eqn:Hx;
    [do 2 eexists; split; [reflexivity|left; split; [reflexivity|discriminate]]|].
  apply negb_false_iff, String.eqb_eq in Hx.
  destruct (truthy_num (p_questionnaire_completed_at p)) eqn:Hdone;
    [do 2 eexists; split; [reflexivity|left; split; [reflexivity|discriminate]]|].
  do 2 eexists. split; [reflexivity|]. right.
  exists u, e, p. repeat split; auto.
Qed.

(** X23.  [useUpdateExchange] for the owner, with unique exchange ids.
    After the shuffle (status shuffled or complete) the action refuses and
    writes nothing.  Before, the edit is written, and yet the action
    answers with the failure message of a database error: the redirect it
    throws after the write is caught by its own [catch], which lets only a
    [Response] through.  The exchange read back has the title, budget and
    date of the form and its description (absent when the form's is
    empty), while the status and the times of the shuffle and of the
    reveal, the participants and so the stored assignments are as
    before. *)
Theorem useUpdateExchange_outcome (db : DB) (exchangeId : string)
    (user : AuthUser) (title : string) (description : option string)
    (budget_min budget_max : option Z) (exchange_date : option string)
    (now : Z) (exchange : Exchange) :
  NoDup (map e_id (exchanges db)) ->
  findExchangeByIdForOrganizer db exchangeId (u_id user) = Some exchange ->
  let result :=
    useUpdateExchange db exchangeId (Some user) title description budget_min
      budget_max exchange_date now in
  (e_status exchange = Shuffled \/ e_status exchange = Complete ->
   result = (db, Failed "Cannot edit after shuffling.", [])) /\
  (e_status exchange = Draft \/ e_status exchange = Collecting \/
   e_status exchange = Ready ->
   exists db' row,
     result
     = (db', Failed "Service temporarily unavailable. Please try again later.",
        []) /\
     findExchangeByIdForOrganizer db' exchangeId (u_id user) = Some row /\
     e_title row = title /\
     e_description row
     = (if truthy_opt description then description else None) /\
     e_budget_min row = budget_min /\ e_budget_max row = budget_max /\
     e_exchange_date row = exchange_date /\
     e_status row = e_status exchange /\
     e_shuffled_at row = e_shuffled_at exchange /\
     e_secrets_sent_at row = e_secrets_sent_at exchange /\
     e_created_at row = e_created_at exchange /\
     e_updated_at row = now /\
     participants db' = participants db).
Proof.
  intros Hpk Hfind result. subst result. unfold useUpdateExchange.
  rewrite Hfind. split.
  - intros [-> | ->]; reflexivity.
  - intros Hst.
    replace (status_eqb (e_status exchange) Shuffled
             || status_eqb (e_status exchange) Complete) with false
      by (destruct Hst as [-> | [-> | ->]]; reflexivity).
    pose proof (forOrganizer_unique _ _ _ _ Hpk Hfind) as Hby.
    destruct (forOrganizer_byId _ _ _ _ Hfind) as (Heid & _).
    rewrite (updateExchange_found db exchangeId _ now exchange Hby).
    eexists. eexists. split; [reflexivity|].
    split.
    { rewrite findExchangeByIdForOrganizer_map
        by (intros; first [apply update_rows_id|apply update_rows_organizer]).
      rewrite Hfind. cbn [option_map]. unfold update_rows.
      rewrite Heid, String.eqb_refl. reflexivity. }
    cbn. repeat split; reflexivity.
Qed.

Lemma useUpdateExchange_outcome_witness :
  useUpdateExchange (example_db_assigned None) "ex1" (Some example_user)
    "Winter party" None None None None 60%Z
  = (example_db_assigned None, Failed "Cannot edit after shuffling.", []) /\
  exists db' row,
    useUpdateExchange (example_db Ready) "ex1" (Some example_user)
      "Winter party" (Some "") (Some 10%Z) (Some 20%Z) None 60%Z
    = (db', Failed "Service temporarily unavailable. Please try again later.",
       []) /\
    findExchangeByIdForOrganizer db' "ex1" "org1" = Some row /\
    e_title row = "Winter party" /\ e_description row = None /\
    e_status row = Ready.
Proof.
  split.
  - apply (useUpdateExchange_outcome (example_db_assigned None) "ex1"
             example_user "Winter party" None None None None 60%Z
             (example_exchange Shuffled None)
             (proj1 (example_db_assigned_constraints None)) eq_refl).
    now left.
  - destruct (useUpdateExchange_outcome (example_db Ready) "ex1"
                example_user "Winter party" (Some "") (Some 10%Z) (Some 20%Z)
                None 60%Z (example_exchange Ready None)
                (proj1 (example_db_constraints Ready)) eq_refl) as [_ Hok].
    destruct (Hok (or_intror (or_intror eq_refl)))
      as (db' & row & Hr & Hf & Ht & Hd & _ & _ & _ & Hs & _).
    exists db', row. auto.
Defined.

(* ------------------------------------------------------------------ *)
(** ** The notification when all questionnaires are complete *)

Lemma areAll_participants db db' id :
  participants db' = participants db ->
  areAllQuestionnairesComplete db' id = areAllQuestionnairesComplete db id.
Proof.
  intros H. unfold areAllQuestionnairesComplete, countParticipantsByExchange,
    countCompletedQuestionnaires. now rewrite H.
Qed.

Lemma areAll_exchange_exists db id :
  schema_constraints db ->
  areAllQuestionnairesComplete db id = true ->
  findExchangeById db id <> None.
Proof.
  intros (_ & (_ & _ & _ & Hfk) & _) H.
  unfold areAllQuestionnairesComplete in H. cbv zeta in H.
  apply andb_true_iff in H. destruct H as [H _]. apply Nat.ltb_lt in H.
  unfold countParticipantsByExchange in H.
  destruct (filter _ (participants db)) as [|p l] eqn:E; [simpl in H; lia|].
  assert (Hp : In p (filter (fun p => String.eqb (p_exchange_id p) id)
                            (participants db)))
    by (rewrite E; now left).
  apply filter_In in Hp. destruct Hp as [Hp Hx].
  apply String.eqb_eq in Hx. rewrite <- Hx. now apply Hfk.
Qed.

(** X24.  [checkAndNotifyAllComplete] under the constraints of the schema.
    Unless all questionnaires of the exchange are complete and its status
    is collecting, nothing is written or sent and the answer carries no
    error; in particular "Exchange not found" cannot occur.  Otherwise the
    exchange is set to ready before anything is sent, so it is ready also
    when the organizer is missing or the email fails; at most one email
    goes out, [notified] is true exactly when the organizer was found and
    the email service succeeded, and a second call changes and sends
    nothing. *)
Theorem checkAndNotifyAllComplete_outcome (db : DB) (exchangeId : string)
    (mail : nat -> bool) (now : Z) :
  schema_constraints db ->
  let collecting :=
    match findExchangeById db exchangeId with
    | Some e => status_eqb (e_status e) Collecting
    | None => false
    end in
  (areAllQuestionnairesComplete db exchangeId && collecting = false ->
   checkAndNotifyAllComplete db exchangeId mail now
   = (db, Notified false None, [])) /\
  (areAllQuestionnairesComplete db exchangeId && collecting = true ->
   exists notified error out,
     let db' := updateExchangeStatus db exchangeId Ready now in
     checkAndNotifyAllComplete db exchangeId mail now
     = (db', Notified notified error, out) /\
     option_map e_status (findExchangeById db' exchangeId) = Some Ready /\
     participants db' = participants db /\
     length out <= 1 /\
     (notified = true <-> out <> [] /\ mail 0 = true) /\
     (forall mail' now',
        checkAndNotifyAllComplete db' exchangeId mail' now'
        = (db', Notified false None, []))).
Proof.
  intros Hsc collecting. subst collecting.
  unfold checkAndNotifyAllComplete at 1 2.
  destruct (areAllQuestionnairesComplete db exchangeId) eqn:Hall;
    cbn [negb andb].
  - pose proof (areAll_exchange_exists db exchangeId Hsc Hall) as Hex.
    destruct (findExchangeById db exchangeId) as [e|] eqn:Hf;
      [|now contradiction Hex].
    destruct (status_eqb (e_status e) Collecting) eqn:Hst; cbn [negb].
    + split; [discriminate|intros _].
      set (db' := updateExchangeStatus db exchangeId Ready now).
      assert (Hf' : findExchangeById db' exchangeId
                    = option_map
                        (fun row =>
                           if String.eqb (e_id row) exchangeId then
                             {| e_id := e_id row;
                                e_organizer_id := e_organizer_id row;
                                e_title := e_title row;
                                e_description := e_description row;
                                e_budget_min := e_budget_min row;
                                e_budget_max := e_budget_max row;
                                e_exchange_date := e_exchange_date row;
                                e_status := Ready;
                                e_shuffled_at := e_shuffled_at row;
                                e_secrets_sent_at := e_secrets_sent_at row;
                                e_created_at := e_created_at row;
                                e_updated_at := now |}
                           else row)
                        (findExchangeById db exchangeId)).
      { unfold db', updateExchangeStatus. apply findExchangeById_map.
        intros row. now destruct (String.eqb (e_id row) exchangeId). }
      rewrite Hf in Hf'. cbn [option_map] in Hf'.
      rewrite (byId_id _ _ _ Hf), String.eqb_refl in Hf'.
      assert (Hagain : forall mail' now',
                checkAndNotifyAllComplete db' exchangeId mail' now'
                = (db', Notified false None, [])).
      { intros mail' now'. unfold checkAndNotifyAllComplete.
        rewrite (areAll_participants db db' exchangeId eq_refl), Hall.
        cbn [negb]. rewrite Hf'. reflexivity. }
      cbv zeta. fold db'.
      destruct (findOrganizerById db' (e_organizer_id e)) as [o|].
      * destruct (mail 0) eqn:Hm; do 3 eexists;
          (split; [reflexivity|]); rewrite Hf'; cbn [option_map e_status];
          repeat split; auto; try discriminate.
        intros [_ H]. discriminate.
      * do 3 eexists. split; [reflexivity|]. rewrite Hf'.
        cbn [option_map e_status length]. repeat split; auto; try discriminate.
        intros [H _]. now contradiction H.
    + split; [reflexivity|discriminate].
  - split; [reflexivity|discriminate].
Qed.

Lemma checkAndNotifyAllComplete_outcome_witness :
  checkAndNotifyAllComplete (example_db Ready) "ex1" mail_ok 70%Z
  = (example_db Ready, Notified false None, []) /\
  exists notified error out,
    checkAndNotifyAllComplete (example_db Collecting) "ex1" mail_down 70%Z
    = (updateExchangeStatus (example_db Collecting) "ex1" Ready 70%Z,
       Notified notified error, out) /\
    option_map e_status
      (findExchangeById
         (updateExchangeStatus (example_db Collecting) "ex1" Ready 70%Z) "ex1")
    = Some Ready /\
    (notified = true <-> out <> [] /\ mail_down 0 = true).
Proof.
  split.
  - apply (checkAndNotifyAllComplete_outcome (example_db Ready) "ex1" mail_ok
             70%Z (example_db_constraints Ready)).
    reflexivity.
  - destruct (checkAndNotifyAllComplete_outcome (example_db Collecting) "ex1"
                mail_down 70%Z (example_db_constraints Collecting))
      as [_ Hok].
    destruct (Hok eq_refl) as (n & e & out & Hr & Hs & _ & _ & Hn & _).
    exists n, e, out. auto.
Defined.

(* ------------------------------------------------------------------ *)
(** ** The range and the bias of a draw *)

(** X25.  [secureRandomInt] on a random 32-bit word, for a bound between 1
    and 2^32: the result is below the bound, every value below the bound is
    the result for some word, and over all 2^32 words two values are drawn
    equally often or with a difference of one draw; the draw is uniform
    exactly when the bound divides 2^32. *)
Theorem secureRandomInt_range_and_bias (max : nat) :
  0 < max -> (Z.of_nat max <= 2 ^ 32)%Z ->
  (forall w, secureRandomInt w max < max) /\
  (forall j, j < max -> exists w, (0 <= w < 2 ^ 32)%Z /\
                                  secureRandomInt w max = j) /\
  (forall j k, j < max -> k < max ->
     (count_draws words max j <= count_draws words max k + 1)%N) /\
  (uniform_draw max <-> (words mod N.of_nat max = 0)%N).
Proof.
  intros Hpos Hmax. split; [|split; [|split]].
  - intros w. now apply secureRandomInt_lt.
  - intros j Hj. exists (Z.of_nat j). split; [lia|].
    now apply secureRandomInt_onto.
  - intros j k Hj Hk.
    rewrite (count_draws_words max j Hpos Hj),
            (count_draws_words max k Hpos Hk).
    destruct (N.of_nat j <? words mod N.of_nat max)%N,
             (N.of_nat k <? words mod N.of_nat max)%N; lia.
  - now apply uniform_draw_iff.
Qed.

Lemma secureRandomInt_range_and_bias_witness :
  (forall w, secureRandomInt w 4 < 4) /\
  (forall j, j < 4 -> exists w, (0 <= w < 2 ^ 32)%Z /\
                                secureRandomInt w 4 = j) /\
  (forall j k, j < 4 -> k < 4 ->
     (count_draws words 4 j <= count_draws words 4 k + 1)%N) /\
  (uniform_draw 4 <-> (words mod N.of_nat 4 = 0)%N).
Proof.
  apply (secureRandomInt_range_and_bias 4); [lia|].
  vm_compute. discriminate.
Defined.

(* ------------------------------------------------------------------ *)
(** ** From the shuffle to the reveal *)

Lemma assignRecipient_fold_questionnaires assignments now : forall db,
  questionnaires (fold_left (fun d a => assignRecipient d (fst a) (snd a) now)
                            assignments db) = questionnaires db.
Proof.
  induction assignments as [|a rest IH]; intros db; [reflexivity|].
  simpl. now rewrite IH.
Qed.

Lemma participantMap_get_found l r :
  In r (map p_id l) ->
  exists recipient, participantMap_get l r = Some recipient /\
                    p_id recipient = r /\ In recipient l.
Proof.
  intros Hin. unfold participantMap_get.
  destruct (find _ (rev l)) as [x|] eqn:E.
  - apply find_some in E. destruct E as [Hx E]. apply String.eqb_eq in E.
    exists x. repeat split; auto. now apply in_rev.
  - exfalso. apply in_map_iff in Hin. destruct Hin as (y & Hy & Hyin).
    apply in_rev in Hyin. pose proof (find_none _ _ E y Hyin) as K.
    cbv beta in K. rewrite Hy, String.eqb_refl in K. discriminate.
Qed.

Lemma filter_all_true (A : Type) (q : A -> bool) l :
  (forall x, In x l -> q x = true) -> filter q l = l.
Proof.
  induction l as [|x l IH]; intros H; simpl; [reflexivity|].
  rewrite (H x (or_introl eq_refl)). f_equal. apply IH.
  intros y Hy. apply H. now right.
Qed.

(** X26.  The shuffle and the reveal, one after the other.  On a database
    that satisfies the constraints of the schema, for an exchange of its
    owner in status collecting or ready that was never revealed, with two
    or more participants who all completed, whose ids are not empty and
    whose questionnaires exist: the shuffle succeeds, and the reveal that
    follows hands one message per participant to the email service, in
    the order of the participants, each to the address of a santa and with
    the questionnaire name of the participant stored as this santa's
    recipient, who is another participant of the exchange.  If the email
    service accepts them all, the answer is the full success and the
    exchange is complete with the time of the reveal. *)
Theorem shuffle_then_send (db : DB) (exchangeId : string) (user : AuthUser)
    (tape : nat -> Z) (now now' : Z) (mail : nat -> bool)
    (exchange : Exchange) :
  schema_constraints db ->
  findExchangeByIdForOrganizer db exchangeId (u_id user) = Some exchange ->
  e_status exchange = Collecting \/ e_status exchange = Ready ->
  e_secrets_sent_at exchange = None ->
  2 <= length (listParticipantsByExchange db exchangeId) ->
  countCompletedQuestionnaires db exchangeId
  = length (listParticipantsByExchange db exchangeId) ->
  (forall p, In p (listParticipantsByExchange db exchangeId) ->
             truthy (p_id p) = true /\
             findQuestionnaireByParticipant db (p_id p) <> None) ->
  exists db1 db2 response out,
    useShuffleAction db exchangeId (Some user) tape now
    = (db1, ShuffledOk (length (listParticipantsByExchange db exchangeId)), [])
    /\
    useSendSecretsAction db1 exchangeId (Some user) mail now'
    = (db2, response, out) /\
    Forall2 (fun santa message =>
               exists recipient q,
                 In recipient (listParticipantsByExchange db exchangeId) /\
                 p_id recipient <> p_id santa /\
                 Map_get (committed_assignments db1 exchangeId) (p_id santa)
                 = Some (p_id recipient) /\
                 findQuestionnaireByParticipant db (p_id recipient) = Some q /\
                 message = SecretSantaAssignment (p_email santa) (q_name q))
            (listParticipantsByExchange db exchangeId) out /\
    ((forall k, k < length (listParticipantsByExchange db exchangeId) ->
                mail k = true) ->
     response = SentAll (length (listParticipantsByExchange db exchangeId)) /\
     exchange_state db2 exchangeId (u_id user) = Some (Complete, Some now')).
Proof.
  intros Hsc Hfind Hst Hsent Hlen Hdone Hps.
  pose proof Hsc as (Hpk & (Hid & _) & _).
  set (ps := listParticipantsByExchange db exchangeId) in *.
  set (ids := map p_id ps).
  set (chain := combine ids (sattoloShuffle tape ids)).
  set (g := assigned_row chain now).
  assert (Hnd : NoDup ids) by now apply list_ids_NoDup.
  assert (Hlen' : 2 <= length ids) by (unfold ids; now rewrite length_map).
  assert (Hkeys : Map_keys chain = ids) by (apply chain_keys; exact Hlen').
  assert (Hsl := sattoloShuffle_length _ tape ids).
  (* the shuffle *)
  pose proof (shuffle_read_passes db exchangeId user tape exchange Hid Hfind
                Hst Hlen Hdone (fun p Hp => proj1 (Hps p Hp))) as Hread.
  fold ps ids chain in Hread.
  pose proof (forOrganizer_unique _ _ _ _ Hpk Hfind) as Hby.
  destruct (forOrganizer_byId _ _ _ _ Hfind) as (Heid & _).
  pose proof (shuffle_write_found db exchangeId chain now exchange Hby) as Hw.
  set (db1 := with_exchanges
                (fold_left (fun d a => assignRecipient d (fst a) (snd a) now)
                           chain db)
                (map (update_rows exchangeId exchange (shuffled_input now) now)
                     (exchanges db))) in *.
  assert (Hp1 : participants db1 = map g (participants db)).
  { unfold db1. cbn [with_exchanges participants].
    apply assignRecipient_fold_participants. now rewrite Hkeys. }
  assert (Hq1 : questionnaires db1 = questionnaires db).
  { unfold db1. cbn [with_exchanges questionnaires].
    apply assignRecipient_fold_questionnaires. }
  assert (Hlist : listParticipantsByExchange db1 exchangeId = map g ps).
  { apply list_map; [exact Hp1|]. intros p. unfold g.
    split; [apply assigned_row_exchange|apply assigned_row_created_at]. }
  assert (Hcom : committed_assignments db1 exchangeId = chain).
  { unfold committed_assignments. rewrite Hlist.
    apply (committed_rows chain now ps (sattoloShuffle tape ids)).
    rewrite <- (map_map p_id (Map_get chain)). fold ids.
    now apply Map_get_combine_all. }
  assert (Hfind1 : findExchangeByIdForOrganizer db1 exchangeId (u_id user)
                   = Some (updated_row exchange (shuffled_input now) now
                             exchange)).
  { unfold findExchangeByIdForOrganizer, db1. cbn [with_exchanges exchanges].
    rewrite find_map_same
      by (intros row; now rewrite update_rows_id, update_rows_organizer).
    fold (findExchangeByIdForOrganizer db exchangeId (u_id user)).
    rewrite Hfind. cbn [option_map]. unfold update_rows.
    now rewrite Heid, String.eqb_refl. }
  assert (Hpk1 : NoDup (map e_id (exchanges db1))).
  { unfold db1. cbn [with_exchanges exchanges]. rewrite map_map.
    erewrite map_ext; [exact Hpk|]. intros row. apply update_rows_id. }
  (* what the reveal attempts *)
  assert (Hatt : forall santa, In santa ps ->
            exists recipient q,
              In recipient ps /\ p_id recipient <> p_id santa /\
              Map_get chain (p_id santa) = Some (p_id recipient) /\
              findQuestionnaireByParticipant db (p_id recipient) = Some q /\
              attempted_email db1 (map g ps) (g santa)
              = Some (SecretSantaAssignment (p_email santa) (q_name q))).
  { intros santa Hs.
    destruct (proj1 (@chain_bijection tape ids Hnd Hlen') (p_id santa))
      as (r & Hget & Hr); [unfold ids; now apply in_map|].
    fold chain in Hget.
    pose proof (@chain_no_self tape ids Hnd Hlen' _ _ Hget) as Hself.
    apply in_map_iff in Hr. destruct Hr as (recipient & <- & Hrin).
    destruct (Hps recipient Hrin) as [Htr Hq].
    destruct (findQuestionnaireByParticipant db (p_id recipient)) as [q|] eqn:Eq;
      [|now contradiction Hq].
    exists recipient, q. repeat split; auto.
    unfold attempted_email, g at 1 3, assigned_row. rewrite Hget.
    cbn [set_recipient p_assigned_recipient_id p_email]. rewrite Htr.
    destruct (participantMap_get_found (map g ps) (p_id recipient))
      as (found & Hfound & Hfid & _).
    { rewrite map_map. unfold g.
      erewrite map_ext; [now apply in_map|].
      intros p. unfold assigned_row. now destruct (Map_get chain (p_id p)). }
    rewrite Hfound, Hfid.
    unfold findQuestionnaireByParticipant. rewrite Hq1.
    fold (findQuestionnaireByParticipant db (p_id recipient)).
    now rewrite Eq. }
  assert (Hout : forall l, incl l ps ->
            Forall2 (fun santa message =>
               exists recipient q,
                 In recipient ps /\ p_id recipient <> p_id santa /\
                 Map_get (committed_assignments db1 exchangeId) (p_id santa)
                 = Some (p_id recipient) /\
                 findQuestionnaireByParticipant db (p_id recipient) = Some q /\
                 message = SecretSantaAssignment (p_email santa) (q_name q))
              l (attempted_emails db1 (map g ps) (map g l))).
  { induction l as [|santa l IH]; intros Hincl; [constructor|].
    destruct (Hatt santa (Hincl santa (or_introl eq_refl)))
      as (recipient & q & H1 & H2 & H3 & H4 & H5).
    unfold attempted_emails. cbn [map flat_map]. rewrite H5. cbn [app].
    constructor.
    - exists recipient, q. rewrite Hcom. auto.
    - apply IH. intros y Hy. apply Hincl. now right. }
  specialize (Hout ps (incl_refl ps)).
  pose proof (Forall2_length Hout) as Hn.
  destruct (send_fold_attempts db1 (map g ps) mail (map g ps)
              {| sentCount := 0; errors := []; calls := 0; outbox := [] |})
    as (Ho & _ & Hs).
  cbn [outbox calls sentCount app Nat.add] in Ho, Hs.
  fold (send_loop db1 (map g ps) mail) in Ho, Hs.
  rewrite <- Hn in Hs.
  (* the reveal *)
  assert (Hshape : exists db2 response,
            useSendSecretsAction db1 exchangeId (Some user) mail now'
            = (db2, response, outbox (send_loop db1 (map g ps) mail)) /\
            (sentCount (send_loop db1 (map g ps) mail) = length ps ->
             response = SentAll (length ps) /\
             exchange_state db2 exchangeId (u_id user)
             = Some (Complete, Some now'))).
  { unfold useSendSecretsAction. rewrite Hfind1.
    cbn [updated_row shuffled_input in_status in_secrets_sent_at e_status
         e_secrets_sent_at status_eqb negb].
    rewrite Hsent. cbn [is_null negb]. rewrite Hlist, length_map.
    destruct (exchange_state_updated db1 exchangeId (u_id user) _
                (secrets_sent_input (Some Complete) now') now' Hpk1 Hfind1)
      as (dbc & Huc & Hsc2).
    destruct (sentCount (send_loop db1 (map g ps) mail) =? length ps) eqn:Eall.
    - rewrite Huc. apply Nat.eqb_eq in Eall. rewrite Eall.
      do 2 eexists. split; [reflexivity|]. intros _. split; [reflexivity|].
      exact Hsc2.
    - apply Nat.eqb_neq in Eall.
      destruct (0 <? sentCount (send_loop db1 (map g ps) mail)).
      + destruct (updateExchange db1 exchangeId (secrets_sent_input None now')
                    now');
          do 2 eexists; (split; [reflexivity|]); intros E; contradiction.
      + do 2 eexists. split; [reflexivity|]. intros E. contradiction. }
  destruct Hshape as (db2 & response & Hsend & Hall).
  exists db1, db2, response, (outbox (send_loop db1 (map g ps) mail)).
  split.
  { unfold useShuffleAction. rewrite Hread, Hw.
    replace (length chain) with (length ps); [reflexivity|].
    unfold chain. rewrite length_combine, Hsl, Nat.min_id.
    unfold ids. now rewrite length_map. }
  split; [exact Hsend|].
  split; [rewrite Ho; exact Hout|].
  intros Hmail. apply Hall. rewrite Hs.
  rewrite filter_all_true, length_seq; [reflexivity|].
  intros k Hk. apply in_seq in Hk. apply Hmail. lia.
Qed.

Lemma shuffle_then_send_witness :
  exists db1 db2 out,
    useShuffleAction (example_db Ready) "ex1" (Some example_user) tape_one
      500%Z = (db1, ShuffledOk 3, []) /\
    useSendSecretsAction db1 "ex1" (Some example_user) mail_ok 900%Z
    = (db2, SentAll 3, out) /\
    length out = 3 /\
    exchange_state db2 "ex1" "org1" = Some (Complete, Some 900%Z).
Proof.
  destruct (shuffle_then_send (example_db Ready) "ex1" example_user tape_one
              500%Z 900%Z mail_ok (example_exchange Ready None)
              (example_db_constraints Ready) eq_refl
              (or_intror eq_refl) eq_refl)
    as (db1 & db2 & response & out & H1 & H2 & H3 & H4).
  - simpl. lia.
  - reflexivity.
  - simpl. intros p [<-|[<-|[<-|[]]]]; split; (reflexivity || discriminate).
  - destruct (H4 (fun _ _ => eq_refl)) as [Hr Hs]. subst response.
    exists db1, db2, out. repeat split; auto.
    symmetry. exact (Forall2_length H3).
Defined.

(* ------------------------------------------------------------------ *)
(** ** The questionnaire page *)

Lemma upsertQuestionnaire_update db input q :
  findQuestionnaireByParticipant db (qi_participant_id input) = Some q ->
  upsertQuestionnaire db input
  = inr (with_questionnaires db
           (map (fun q => if String.eqb (q_participant_id q)
                                        (qi_participant_id input)
                          then {| q_id := q_id q;
                                  q_participant_id := q_participant_id q;
                                  q_name := qi_name input |}
                          else q)
                (questionnaires db))) /\
  findQuestionnaireByParticipant
    (with_questionnaires db
       (map (fun q => if String.eqb (q_participant_id q)
                                    (qi_participant_id input)
                      then {| q_id := q_id q;
                              q_participant_id := q_participant_id q;
                              q_name := qi_name input |}
                      else q)
            (questionnaires db)))
    (qi_participant_id input)
  = Some {| q_id := q_id q; q_participant_id := qi_participant_id input;
            q_name := qi_name input |}.
Proof.
  intros Hq.
  assert (Hback :
    findQuestionnaireByParticipant
      (with_questionnaires db
         (map (fun q => if String.eqb (q_participant_id q)
                                      (qi_participant_id input)
                        then {| q_id := q_id q;
                                q_participant_id := q_participant_id q;
                                q_name := qi_name input |}
                        else q)
              (questionnaires db)))
      (qi_participant_id input)
    = Some {| q_id := q_id q; q_participant_id := qi_participant_id input;
              q_name := qi_name input |}).
  { unfold findQuestionnaireByParticipant at 1.
    cbn [with_questionnaires questionnaires].
    rewrite find_map_same.
    - fold (findQuestionnaireByParticipant db (qi_participant_id input)).
      rewrite Hq. cbn [option_map].
      pose proof (find_some _ _ Hq) as [_ E]. cbv beta in E.
      rewrite E. apply String.eqb_eq in E. now rewrite E.
    - intros x. cbv beta.
      destruct (String.eqb (q_participant_id x) (qi_participant_id input))
        eqn:E; [cbn [q_participant_id]|]; exact E. }
  split; [|exact Hback].
  unfold upsertQuestionnaire. rewrite Hq. cbv zeta. now rewrite Hback.
Qed.

Lemma upsertQuestionnaire_insert db input :
  findQuestionnaireByParticipant db (qi_participant_id input) = None ->
  findParticipantById db (qi_participant_id input) <> None ->
  (In (qi_id input) (map q_id (questionnaires db)) ->
   upsertQuestionnaire db input = inl (Error "constraint failed")) /\
  (~ In (qi_id input) (map q_id (questionnaires db)) ->
   upsertQuestionnaire db input
   = inr (with_questionnaires db
            (questionnaires db ++
             [{| q_id := qi_id input;
                 q_participant_id := qi_participant_id input;
                 q_name := qi_name input |}])) /\
   findQuestionnaireByParticipant
     (with_questionnaires db
        (questionnaires db ++
         [{| q_id := qi_id input;
             q_participant_id := qi_participant_id input;
             q_name := qi_name input |}]))
     (qi_participant_id input)
   = Some {| q_id := qi_id input;
             q_participant_id := qi_participant_id input;
             q_name := qi_name input |}).
Proof.
  intros Hq Hp.
  assert (Hnone : forall x, In x (questionnaires db) ->
            String.eqb (q_participant_id x) (qi_participant_id input) = false)
    by (intros x Hx; exact (find_none _ _ Hq x Hx)).
  split.
  - intros Hin. unfold upsertQuestionnaire. rewrite Hq.
    replace (existsb _ (questionnaires db)) with true; [reflexivity|].
    symmetry. apply existsb_exists. apply in_map_iff in Hin.
    destruct Hin as (x & Hx & Hxin). exists x. split; [exact Hxin|].
    now rewrite Hx, String.eqb_refl.
  - intros Hfresh.
    assert (Hback :
      findQuestionnaireByParticipant
        (with_questionnaires db
           (questionnaires db ++
            [{| q_id := qi_id input;
                q_participant_id := qi_participant_id input;
                q_name := qi_name input |}]))
        (qi_participant_id input)
      = Some {| q_id := qi_id input;
                q_participant_id := qi_participant_id input;
                q_name := qi_name input |}).
    { unfold findQuestionnaireByParticipant at 1.
      cbn [with_questionnaires questionnaires].
      rewrite find_app_last by exact Hnone.
      cbn [q_participant_id]. now rewrite String.eqb_refl. }
    split; [|exact Hback].
    unfold upsertQuestionnaire. rewrite Hq.
    replace (existsb _ (questionnaires db)) with false.
    + destruct (findParticipantById db (qi_participant_id input));
        [|now contradiction Hp].
      cbn [is_null orb]. cbv zeta. now rewrite Hback.
    + symmetry. apply not_true_is_false. intros Hex.
      apply existsb_exists in Hex. destruct Hex as (x & Hxin & Hx).
      rewrite (Hnone x Hxin), orb_false_r in Hx.
      apply String.eqb_eq in Hx. apply Hfresh. rewrite <- Hx.
      now apply in_map.
Qed.

Lemma findParticipantByToken_id db token p :
  NoDup (map p_id (participants db)) ->
  findParticipantByToken db token = Some p ->
  findParticipantById db (p_id p) = Some p.
Proof.
  intros Hid Hp. pose proof (find_some _ _ Hp) as [Hin _].
  unfold findParticipantById.
  destruct (find _ (participants db)) as [x|] eqn:E.
  - pose proof (find_some _ _ E) as [Hx Ex]. cbv beta in Ex.
    apply String.eqb_eq in Ex. f_equal.
    now apply (NoDup_map_inj _ _ p_id (participants db)).
  - pose proof (find_none _ _ E p Hin) as K. cbv beta in K.
    now rewrite String.eqb_refl in K.
Qed.

(** X27.  [useSubmitQuestionnaire] for the participant of a token, with
    unique participant ids.  After the shuffle (status shuffled or
    complete) it refuses and writes nothing.  Before, a participant who has
    a questionnaire gets it replaced, with its id kept, and nothing else
    changes or is sent.  A participant without questionnaire gets one
    inserted, unless the generated id is taken, and is marked completed at
    the time of the request; every other participant reads as before; one
    notification goes to the organizer exactly when all questionnaires of
    the exchange are complete now and the organizer is found.  In no case
    is the exchanges table written: the exchange keeps its status, also
    when this submission was the last one missing. *)
Theorem useSubmitQuestionnaire_outcome (db : DB) (token data_name : string)
    (questionnaireId : string) (now : Z) (participant : Participant)
    (exchange : Exchange) :
  NoDup (map p_id (participants db)) ->
  findParticipantByToken db token = Some participant ->
  findExchangeById db (p_exchange_id participant) = Some exchange ->
  let result :=
    useSubmitQuestionnaire db token data_name questionnaireId now in
  exchanges (db_of result) = exchanges db /\
  (e_status exchange = Shuffled \/ e_status exchange = Complete ->
   result
   = (db,
      Failed "The gift exchange has already been shuffled. No changes allowed.",
      [])) /\
  (e_status exchange = Draft \/ e_status exchange = Collecting \/
   e_status exchange = Ready ->
   (forall q,
      findQuestionnaireByParticipant db (p_id participant) = Some q ->
      exists db',
        result = (db', Succeeded "Your preferences have been updated!", []) /\
        participants db' = participants db /\
        findQuestionnaireByParticipant db' (p_id participant)
        = Some {| q_id := q_id q; q_participant_id := p_id participant;
                  q_name := data_name |}) /\
   (findQuestionnaireByParticipant db (p_id participant) = None ->
    (In questionnaireId (map q_id (questionnaires db)) ->
     result = (db, Failed db_error_message, [])) /\
    (~ In questionnaireId (map q_id (questionnaires db)) ->
     exists db' sent,
       result
       = (db',
          Succeeded "Thank you! Your preferences have been saved. You'll receive your Secret Santa assignment once everyone has responded.",
          sent) /\
       findParticipantById db' (p_id participant)
       = Some (set_completed now participant) /\
       findQuestionnaireByParticipant db' (p_id participant)
       = Some {| q_id := questionnaireId;
                 q_participant_id := p_id participant;
                 q_name := data_name |} /\
       (forall other, other <> p_id participant ->
          findParticipantById db' other = findParticipantById db other) /\
       length sent <= 1 /\
       (sent <> [] <->
        areAllQuestionnairesComplete db' (p_exchange_id participant) = true /\
        findOrganizerById db (e_organizer_id exchange) <> None)))).
Proof.
  intros Hid Htok Hex result.
  pose proof (findParticipantByToken_id db token participant Hid Htok) as Hpid.
  assert (Hpart : findParticipantById db (p_id participant) <> None)
    by (rewrite Hpid; discriminate).
  set (g := fun p => if String.eqb (p_id p) (p_id participant)
                     then set_completed now p else p).
  assert (Hfindg : forall d other,
            participants d = participants db ->
            findParticipantById
              (markQuestionnaireCompleted d (p_id participant) now) other
            = option_map g (findParticipantById db other)).
  { intros d other Hd. unfold findParticipantById, markQuestionnaireCompleted.
    cbn [with_participants participants]. rewrite Hd.
    apply find_map_same. intros p. cbv beta.
    now destruct (String.eqb (p_id p) (p_id participant)). }
  subst result. unfold useSubmitQuestionnaire. rewrite Htok, Hex.
  destruct (status_eqb (e_status exchange) Shuffled
            || status_eqb (e_status exchange) Complete) eqn:Hst.
  { split; [reflexivity|]. split; [reflexivity|].
    intros [E | [E | E]]; rewrite E in Hst; discriminate. }
  cbv zeta.
  destruct (findQuestionnaireByParticipant db (p_id participant))
    as [q|] eqn:Hq.
  - set (input := {| qi_id := q_id q; qi_participant_id := p_id participant;
                     qi_name := data_name |}).
    destruct (upsertQuestionnaire_update db input q Hq) as [Hup Hback].
    rewrite Hup. cbn [is_null negb].
    split; [reflexivity|]. split.
    { intros [E | E]; rewrite E in Hst; discriminate. }
    intros _. split; [|discriminate].
    intros q' [= <-]. eexists. split; [reflexivity|].
    split; [reflexivity|exact Hback].
  - set (input := {| qi_id := questionnaireId;
                     qi_participant_id := p_id participant;
                     qi_name := data_name |}).
    destruct (upsertQuestionnaire_insert db input Hq Hpart) as [Hdup Hins].
    cbn [is_null negb].
    destruct (in_dec string_dec questionnaireId (map q_id (questionnaires db)))
      as [Hin|Hfresh].
    + rewrite (Hdup Hin).
      split; [reflexivity|]. split.
      { intros [E | E]; rewrite E in Hst; discriminate. }
      intros _. split; [discriminate|]. intros _.
      split; [reflexivity|]. intros Hn. now contradiction Hn.
    + destruct (Hins Hfresh) as [Hup Hback]. rewrite Hup.
      set (db1 := with_questionnaires db (questionnaires db ++ _)) in *.
      set (db2 := markQuestionnaireCompleted db1 (p_id participant) now).
      split; [reflexivity|]. split.
      { intros [E | E]; rewrite E in Hst; discriminate. }
      intros _. split; [discriminate|]. intros _.
      split; [intros Hn; now contradiction Hn|]. intros _.
      eexists. eexists. split; [reflexivity|].
      split.
      { unfold db2. rewrite (Hfindg db1 _ eq_refl), Hpid. cbn [option_map].
        unfold g. now rewrite String.eqb_refl. }
      split; [exact Hback|].
      split.
      { intros other Hne. unfold db2. rewrite (Hfindg db1 _ eq_refl).
        destruct (findParticipantById db other) as [y|] eqn:Hy;
          [|reflexivity].
        cbn [option_map]. f_equal. unfold g.
        pose proof (find_some _ _ Hy) as [_ Ey]. cbv beta in Ey.
        apply String.eqb_eq in Ey.
        replace (String.eqb (p_id y) (p_id participant)) with false;
          [reflexivity|].
        symmetry. apply String.eqb_neq. congruence. }
      assert (Horg : findOrganizerById db2 (e_organizer_id exchange)
                     = findOrganizerById db (e_organizer_id exchange))
        by reflexivity.
      rewrite Horg.
      destruct (areAllQuestionnairesComplete db2 (p_exchange_id participant)).
      * destruct (findOrganizerById db (e_organizer_id exchange)) as [o|].
        -- split; [simpl; lia|]. split; [intros _; split; [reflexivity|discriminate]|discriminate].
        -- split; [simpl; lia|].
           split; [intros H; now contradiction H|intros [_ H]; now contradiction H].
      * split; [simpl; lia|].
        split; [intros H; now contradiction H|intros [H _]; discriminate].
Qed.

Lemma useSubmitQuestionnaire_outcome_witness :
  useSubmitQuestionnaire (example_db_assigned None) "token-p1" "Anna" "q9"
    80%Z
  = (example_db_assigned None,
     Failed "The gift exchange has already been shuffled. No changes allowed.",
     []) /\
  exists db',
    useSubmitQuestionnaire (example_db Collecting) "token-p1" "Anna" "q9" 80%Z
    = (db', Succeeded "Your preferences have been updated!", []) /\
    exchanges db' = exchanges (example_db Collecting) /\
    findQuestionnaireByParticipant db' "p1"
    = Some {| q_id := "q-p1"; q_participant_id := "p1"; q_name := "Anna" |}.
Proof.
  split.
  - apply (useSubmitQuestionnaire_outcome (example_db_assigned None)
             "token-p1" "Anna" "q9" 80%Z
             (example_participant "p1" "ann@example.com" (Some "p2"))
             (example_exchange Shuffled None)
             (proj1 (proj1 (proj2 (example_db_assigned_constraints None))))
             eq_refl eq_refl).
    now left.
  - destruct (useSubmitQuestionnaire_outcome (example_db Collecting)
                "token-p1" "Anna" "q9" 80%Z
                (example_participant "p1" "ann@example.com" None)
                (example_exchange Collecting None)
                (proj1 (proj1 (proj2 (example_db_constraints Collecting))))
                eq_refl eq_refl) as (Hex & _ & Hok).
    destruct (Hok (or_intror (or_introl eq_refl))) as [Hupd _].
    destruct (Hupd _ eq_refl) as (db' & Hr & _ & Hq).
    exists db'. split; [exact Hr|]. split; [|exact Hq].
    rewrite Hr in Hex. exact Hex.
Defined.

(* ------------------------------------------------------------------ *)
(** ** Completed participants and their questionnaires *)

Lemma find_app_found (A : Type) (q : A -> bool) l l' :
  find q l <> None -> find q (l ++ l') <> None.
Proof.
  induction l as [|x l IH]; simpl; [intros H; now contradiction H|].
  destruct (q x); [discriminate|exact IH].
Qed.

Lemma questionnaires_follow db db' (g : Participant -> Participant) :
  participants db' = map g (participants db) ->
  questionnaires db' = questionnaires db ->
  (forall p, p_id (g p) = p_id p /\
             p_questionnaire_completed_at (g p)
             = p_questionnaire_completed_at p) ->
  questionnaire_constraints db /\ completed_have_questionnaire db ->
  questionnaire_constraints db' /\ completed_have_questionnaire db'.
Proof.
  intros Hp Hq Hg [(Hqid & Hqp & Hqfk) Hdone].
  unfold questionnaire_constraints, completed_have_questionnaire,
    findQuestionnaireByParticipant, findParticipantById.
  rewrite Hp, Hq. repeat split; auto.
  - intros q Hin.
    rewrite find_map_same by (intros p; now destruct (Hg p) as [-> _]).
    specialize (Hqfk q Hin). unfold findParticipantById in Hqfk.
    destruct (find _ (participants db)); [discriminate|exact Hqfk].
  - intros p' Hin. apply in_map_iff in Hin. destruct Hin as (p & <- & Hin).
    destruct (Hg p) as [-> ->]. now apply Hdone.
Qed.

Lemma questionnaires_same db db' :
  participants db' = participants db ->
  questionnaires db' = questionnaires db ->
  questionnaire_constraints db /\ completed_have_questionnaire db ->
  questionnaire_constraints db' /\ completed_have_questionnaire db'.
Proof.
  intros Hp Hq. apply (questionnaires_follow db db' (fun p => p)); auto.
  now rewrite map_id.
Qed.

Lemma updateExchange_tables db id input now db' :
  updateExchange db id input now = inr db' ->
  participants db' = participants db /\
  questionnaires db' = questionnaires db.
Proof.
  intros H. unfold updateExchange in H.
  destruct (findExchangeById db id); [|discriminate].
  cbv zeta in H. destruct (findExchangeById _ id); [|discriminate].
  injection H as <-. now split.
Qed.

Lemma useShuffleAction_tables db id auth tape now :
  schema_constraints db ->
  exists g,
    participants (db_of (useShuffleAction db id auth tape now))
    = map g (participants db) /\
    questionnaires (db_of (useShuffleAction db id auth tape now))
    = questionnaires db /\
    forall p, p_id (g p) = p_id p /\
              p_questionnaire_completed_at (g p)
              = p_questionnaire_completed_at p.
Proof.
  intros (Hpk & (Hid & _) & _). unfold useShuffleAction.
  destruct (shuffle_read db id auth tape) as [r|assignments] eqn:E.
  { exists (fun p => p). unfold db_of. cbn [fst].
    rewrite map_id. repeat split. }
  destruct (shuffle_read_plan _ _ _ _ _ E)
    as (u & e & _ & Hfind & _ & Hlen & _ & Hgen & _).
  set (ids := map p_id (listParticipantsByExchange db id)) in *.
  assert (Hnd : NoDup ids) by now apply list_ids_NoDup.
  assert (Hlen' : 2 <= length ids) by (unfold ids; now rewrite length_map).
  unfold createSecretSantaAssignments in Hgen.
  rewrite (@chain_result tape ids Hnd Hlen') in Hgen.
  injection Hgen as <-.
  set (chain := combine ids (sattoloShuffle tape ids)).
  assert (Hkeys : Map_keys chain = ids) by (apply chain_keys; exact Hlen').
  pose proof (forOrganizer_unique _ _ _ _ Hpk Hfind) as Hby.
  rewrite (shuffle_write_found db id chain now e Hby). unfold db_of.
  cbn [fst with_exchanges participants questionnaires].
  exists (assigned_row chain now). split; [|split].
  - apply assignRecipient_fold_participants. now rewrite Hkeys.
  - apply assignRecipient_fold_questionnaires.
  - intros p. unfold assigned_row. now destruct (Map_get chain (p_id p)).
Qed.

Lemma handle_questionnaires nE iV req mail now db :
  store_invariant db ->
  questionnaire_constraints (db_of (handle nE iV req mail now db)) /\
  completed_have_questionnaire (db_of (handle nE iV req mail now db)).
Proof.
  intros (Hsc & Hq). unfold db_of.
  destruct req as [id auth email name pid token | id auth pid
                  | id auth pid email | id auth pid
                  | id auth title description bmin bmax date | id
                  | id auth tape | id auth]; cbn [handle].
  - unfold useAddParticipant.
    destruct auth as [u|]; [|exact Hq].
    destruct (findExchangeByIdForOrganizer db id (u_id u)) as [e|];
      [|exact Hq].
    destruct (negb (status_eqb (e_status e) Draft)
              && negb (status_eqb (e_status e) Collecting)); [exact Hq|].
    destruct (findParticipantByExchangeAndEmail db id (nE email)); [exact Hq|].
    match goal with
    | |- context [createParticipant db ?i now] => set (input := i)
    end.
    destruct (createParticipant db input now) as [err|db1] eqn:Hc; [exact Hq|].
    destruct (proj1 (createParticipant_checks db input now)
                (ex_intro _ db1 Hc)) as [Hall Hex].
    rewrite (createParticipant_ok db input now Hall Hex) in Hc.
    injection Hc as <-. cbn [fst].
    set (db1 := with_participants db
                  (participants db ++ [inserted_row input now])).
    assert (Hq1 : questionnaire_constraints db1 /\
                  completed_have_questionnaire db1).
    { destruct Hq as [(Hqid & Hqp & Hqfk) Hdone].
      unfold questionnaire_constraints, completed_have_questionnaire,
        findQuestionnaireByParticipant, findParticipantById, db1.
      cbn [with_participants participants questionnaires].
      repeat split; auto.
      - intros q Hin. apply find_app_found. now apply Hqfk.
      - intros p Hin. apply in_app_or in Hin.
        destruct Hin as [Hin|[<-|[]]]; [now apply Hdone|].
        intros H. now contradiction H. }
    destruct (status_eqb (e_status e) Draft); [|exact Hq1].
    now apply (questionnaires_same db1).
  - unfold useResendInvite.
    destruct auth as [u|]; [|exact Hq].
    destruct (findExchangeByIdForOrganizer db id (u_id u)); [|exact Hq].
    destruct (findParticipantById db pid) as [p|]; [|exact Hq].
    destruct (negb (String.eqb (p_exchange_id p) id)); [exact Hq|].
    destruct (truthy_num (p_questionnaire_completed_at p)); exact Hq.
  - unfold useUpdateParticipantEmail.
    destruct auth as [u|]; [|exact Hq].
    destruct (findExchangeByIdForOrganizer db id (u_id u)); [|exact Hq].
    destruct (findParticipantById db pid) as [p|]; [|exact Hq].
    destruct (negb (String.eqb (p_exchange_id p) id)); [exact Hq|].
    destruct (negb (iV (nE email))); [exact Hq|].
    assert (Hupd : questionnaire_constraints
                     (updateParticipantEmail db pid (nE email) now) /\
                   completed_have_questionnaire
                     (updateParticipantEmail db pid (nE email) now)).
    { apply (questionnaires_follow db _
               (fun p => if String.eqb (p_id p) pid
                         then set_email (nE email) now p else p));
        auto.
      intros x. now destruct (String.eqb (p_id x) pid). }
    destruct (findParticipantByExchangeAndEmail db id (nE email))
      as [existing|]; [|exact Hupd].
    destruct (negb (String.eqb (p_id existing) (p_id p)));
      [exact Hq|exact Hupd].
  - unfold useRemoveParticipant.
    destruct auth as [u|]; [|exact Hq].
    destruct (findExchangeByIdForOrganizer db id (u_id u)) as [e|];
      [|exact Hq].
    destruct (status_eqb (e_status e) Shuffled
              || status_eqb (e_status e) Complete); [exact Hq|].
    destruct (findParticipantById db pid) as [p|]; [|exact Hq].
    destruct (negb (String.eqb (p_exchange_id p) id)); [exact Hq|].
    destruct (deleteParticipant db pid) as [err|db'] eqn:Hd; [exact Hq|].
    destruct (deleteParticipant_result db pid db' Hd) as [_ ->].
    cbn [fst].
    destruct Hq as [(Hqid & Hqp & Hqfk) Hdone].
    unfold questionnaire_constraints, completed_have_questionnaire.
    cbn [participants questionnaires].
    split; [split; [|split]|].
    + now apply NoDup_map_filter.
    + now apply NoDup_map_filter.
    + intros q Hin. apply filter_In in Hin. destruct Hin as [Hin Hne].
      apply negb_true_iff, String.eqb_neq in Hne.
      unfold findParticipantById. cbn [participants].
      rewrite (find_filter_other _ p_id) by exact Hne. now apply Hqfk.
    + intros x Hin. apply filter_In in Hin. destruct Hin as [Hin Hne].
      apply negb_true_iff, String.eqb_neq in Hne. intros Hc.
      unfold findQuestionnaireByParticipant. cbn [questionnaires].
      rewrite (find_filter_other _ q_participant_id) by exact Hne.
      now apply Hdone.
  - unfold useUpdateExchange.
    destruct auth as [u|]; [|exact Hq].
    destruct (findExchangeByIdForOrganizer db id (u_id u)) as [e|];
      [|exact Hq].
    destruct (status_eqb (e_status e) Shuffled
              || status_eqb (e_status e) Complete); [exact Hq|].
    destruct (updateExchange db id _ now) as [err|db'] eqn:Hu; [exact Hq|].
    destruct (updateExchange_tables _ _ _ _ _ Hu).
    now apply (questionnaires_same db).
  - unfold checkAndNotifyAllComplete.
    destruct (negb (areAllQuestionnairesComplete db id)); [exact Hq|].
    destruct (findExchangeById db id) as [e|]; [|exact Hq].
    destruct (negb (status_eqb (e_status e) Collecting)); [exact Hq|].
    cbv zeta.
    destruct (findOrganizerById _ (e_organizer_id e));
      [destruct (mail 0)|]; now apply (questionnaires_same db).
  - destruct (useShuffleAction_tables db id auth tape now Hsc)
      as (g & Hp & Hqs & Hg).
    now apply (questionnaires_follow db _ g).
  - unfold useSendSecretsAction.
    destruct auth as [u|]; [|exact Hq].
    destruct (findExchangeByIdForOrganizer db id (u_id u)) as [e|];
      [|exact Hq].
    destruct (negb (status_eqb (e_status e) Shuffled)); [exact Hq|].
    destruct (negb (is_null (e_secrets_sent_at e))); [exact Hq|].
    cbv zeta.
    destruct (sentCount _ =? length _).
    + destruct (updateExchange db id _ now) as [err|db'] eqn:Hu; [exact Hq|].
      destruct (updateExchange_tables _ _ _ _ _ Hu).
      now apply (questionnaires_same db).
    + destruct (0 <? sentCount _); [|exact Hq].
      destruct (updateExchange db id _ now) as [err|db'] eqn:Hu; [exact Hq|].
      destruct (updateExchange_tables _ _ _ _ _ Hu).
      now apply (questionnaires_same db).
Qed.

Lemma useSubmitQuestionnaire_invariant db token data_name qid now :
  store_invariant db ->
  store_invariant (db_of (useSubmitQuestionnaire db token data_name qid now)).
Proof.
  intros Hinv. pose proof Hinv as (Hsc & (Hqid & Hqp & Hqfk) & Hdone).
  pose proof Hsc as (Hpk & (Hid & Htok & Hmail & Hfk) & Hrec).
  unfold useSubmitQuestionnaire, db_of.
  destruct (findParticipantByToken db token) as [participant|] eqn:Hp;
    [|exact Hinv].
  destruct (findExchangeById db (p_exchange_id participant)) as [e|];
    [|exact Hinv].
  destruct (status_eqb (e_status e) Shuffled
            || status_eqb (e_status e) Complete); [exact Hinv|].
  cbv zeta.
  pose proof (findParticipantByToken_id db token participant Hid Hp) as Hpid.
  destruct (findQuestionnaireByParticipant db (p_id participant))
    as [q|] eqn:Hq.
  - set (input := {| qi_id := q_id q; qi_participant_id := p_id participant;
                     qi_name := data_name |}).
    destruct (upsertQuestionnaire_update db input q Hq) as [Hup _].
    rewrite Hup. cbn [is_null negb fst].
    set (h := fun x => if String.eqb (q_participant_id x) (p_id participant)
                       then {| q_id := q_id x;
                               q_participant_id := q_participant_id x;
                               q_name := data_name |}
                       else x).
    assert (Hh : forall x, q_id (h x) = q_id x /\
                           q_participant_id (h x) = q_participant_id x)
      by (intros x; unfold h;
          now destruct (String.eqb (q_participant_id x) (p_id participant))).
    split; [now apply (constraints_exchanges db)|].
    unfold questionnaire_constraints, completed_have_questionnaire,
      findQuestionnaireByParticipant, findParticipantById.
    cbn [with_questionnaires participants questionnaires qi_participant_id
         qi_name input].
    fold h. rewrite !map_map.
    rewrite (map_ext (fun x => q_id (h x)) q_id) by (intros x; apply Hh).
    rewrite (map_ext (fun x => q_participant_id (h x)) q_participant_id)
      by (intros x; apply Hh).
    repeat split; auto.
    + intros x Hin. apply in_map_iff in Hin. destruct Hin as (y & <- & Hin).
      destruct (Hh y) as [_ ->]. now apply Hqfk.
    + intros p Hin Hc.
      rewrite find_map_same by (intros x; now destruct (Hh x) as [_ ->]).
      specialize (Hdone p Hin Hc).
      unfold findQuestionnaireByParticipant in Hdone.
      destruct (find _ (questionnaires db)); [discriminate|exact Hdone].
  - set (input := {| qi_id := qid; qi_participant_id := p_id participant;
                     qi_name := data_name |}).
    assert (Hpart : findParticipantById db (qi_participant_id input) <> None)
      by (cbn [input qi_participant_id]; rewrite Hpid; discriminate).
    destruct (upsertQuestionnaire_insert db input Hq Hpart) as [Hdup Hins].
    cbn [is_null negb].
    destruct (in_dec string_dec qid (map q_id (questionnaires db)))
      as [Hin|Hfresh].
    { rewrite (Hdup Hin). exact Hinv. }
    destruct (Hins Hfresh) as [Hup Hback]. rewrite Hup. cbn [fst].
    set (new := {| q_id := qid; q_participant_id := p_id participant;
                   q_name := data_name |}) in *.
    set (db1 := with_questionnaires db (questionnaires db ++ [new])) in *.
    set (g := fun p => if String.eqb (p_id p) (p_id participant)
                       then set_completed now p else p).
    assert (Hg : forall p, p_id (g p) = p_id p /\ p_token (g p) = p_token p /\
                           p_exchange_id (g p) = p_exchange_id p)
      by (intros p; unfold g;
          now destruct (String.eqb (p_id p) (p_id participant))).
    split; [|split].
    + apply (constraints_participants_map db _ g); auto.
      * rewrite map_map.
        erewrite map_ext; [exact Hmail|]. intros p. unfold g.
        now destruct (String.eqb (p_id p) (p_id participant)).
      * intros p r Hin. unfold g.
        destruct (String.eqb (p_id p) (p_id participant));
          [cbn [set_completed p_assigned_recipient_id]|]; now apply Hrec.
    + unfold questionnaire_constraints.
      cbn [markQuestionnaireCompleted with_participants participants
           questionnaires db1 with_questionnaires].
      split; [|split].
      * apply NoDup_map_snoc; auto.
      * apply NoDup_map_snoc; auto. cbn [new q_participant_id].
        intros Hin. apply in_map_iff in Hin. destruct Hin as (x & Hx & Hxin).
        pose proof (find_none _ _ Hq x Hxin) as K. cbv beta in K.
        rewrite Hx, String.eqb_refl in K. discriminate.
      * intros x Hin. unfold findParticipantById.
        cbn [markQuestionnaireCompleted with_participants participants].
        fold g. rewrite find_map_same by (intros p; now destruct (Hg p) as [-> _]).
        assert (Hx : findParticipantById db (q_participant_id x) <> None).
        { apply in_app_or in Hin. destruct Hin as [Hin|[<-|[]]];
            [now apply Hqfk|exact Hpart]. }
        unfold findParticipantById in Hx.
        cbn [with_questionnaires participants].
        destruct (find _ (participants db));
          [cbn [option_map]; discriminate|now contradiction Hx].
    + unfold completed_have_questionnaire.
      cbn [markQuestionnaireCompleted with_participants participants].
      fold g. intros p' Hin. apply in_map_iff in Hin.
      destruct Hin as (p & <- & Hin). unfold g at 1 2.
      unfold findQuestionnaireByParticipant.
      cbn [markQuestionnaireCompleted with_participants questionnaires db1
           with_questionnaires].
      destruct (String.eqb (p_id p) (p_id participant)) eqn:E.
      * intros _. apply String.eqb_eq in E.
        cbn [set_completed p_id]. rewrite E.
        intros Hn. pose proof (eq_trans (eq_sym Hn) Hback) as K.
        discriminate K.
      * intros Hc. apply find_app_found. now apply Hdone.
Qed.

(** X28.  Whatever sequence of organizer requests and questionnaire
    submissions reaches the store, the constraints of the schema on
    exchanges, participants and questionnaires keep holding, and every
    participant marked as completed keeps having a questionnaire.  So,
    whenever the shuffle finds all questionnaires of an exchange complete,
    the reveal will find a questionnaire for every participant of it. *)
Theorem store_invariant_preserved (normalizeEmail : string -> string)
    (isValidEmail : string -> bool) (events : list Event) (db : DB) :
  store_invariant db ->
  let db' := fold_left (step normalizeEmail isValidEmail) events db in
  store_invariant db' /\
  forall exchangeId,
    countCompletedQuestionnaires db' exchangeId
    = length (listParticipantsByExchange db' exchangeId) ->
    forall p, In p (listParticipantsByExchange db' exchangeId) ->
              findQuestionnaireByParticipant db' (p_id p) <> None.
Proof.
  intros Hinv db'.
  assert (H : store_invariant db').
  { subst db'. revert db Hinv.
    induction events as [|ev rest IH]; intros db Hinv; [exact Hinv|].
    cbn [fold_left]. apply IH.
    destruct ev as [req mail now | token name qid now]; cbn [step].
    - split.
      + apply handle_constraints. apply Hinv.
      + now apply handle_questionnaires.
    - now apply useSubmitQuestionnaire_invariant. }
  split; [exact H|].
  intros id Hall p Hp. destruct H as (_ & _ & Hdone).
  assert (Hin : In p (participants db'))
    by now apply list_In in Hp.
  apply (Hdone p Hin).
  rewrite list_completed_length in Hall.
  pose proof (proj1 (filter_all_length _ _ _) Hall p Hp) as K.
  cbv beta in K. destruct (p_questionnaire_completed_at p); [discriminate|].
  discriminate.
Qed.

Lemma example_store_invariant status :
  store_invariant (example_db status).
Proof.
  split; [apply example_db_constraints|]. split.
  - unfold questionnaire_constraints. simpl.
    repeat split; try (repeat constructor; simpl; intuition discriminate).
    intros q [<-|[<-|[<-|[]]]]; discriminate.
  - unfold completed_have_questionnaire. simpl.
    intros p [<-|[<-|[<-|[]]]] _; discriminate.
Qed.

Lemma store_invariant_preserved_witness :
  store_invariant
    (fold_left (step (fun s => s) (fun _ => true))
       [OrganizerRequest
          (AddParticipant "ex1" (Some example_user) "dan@example.com" None
             "p4" "token-p4") mail_ok 60%Z;
        Submission "token-p4" "Dan" "q-p4" 70%Z;
        Submission "token-p1" "Anna" "q-9" 75%Z;
        OrganizerRequest (RemoveParticipant "ex1" (Some example_user) "p3")
          mail_ok 80%Z;
        OrganizerRequest (Shuffle "ex1" (Some example_user) tape_one)
          mail_ok 90%Z;
        OrganizerRequest (SendSecrets "ex1" (Some example_user))
          mail_second_fails 95%Z]
       (example_db Collecting)).
Proof.
  exact (proj1 (store_invariant_preserved (fun s => s) (fun _ => true) _
                  (example_db Collecting)
                  (example_store_invariant Collecting))).
Defined.

(** X29.  What [useQuestionnaireData] shows for a non-empty token agrees
    with what [useSubmitQuestionnaire] then does.  Where the page is an
    error, the submission fails and writes nothing; the error is marked
    not-found exactly when no participant has the token.  Where the page
    says the exchange is already shuffled, it hides the questionnaire and
    the submission is refused.  Otherwise the page shows the stored
    questionnaire of the participant, and the submission succeeds: as an
    update when there is one, as a first answer when there is none and the
    generated id is free. *)
Theorem useQuestionnaireData_agrees_with_submit (db : DB)
    (token data_name questionnaireId : string) (now : Z) :
  truthy token = true ->
  match useQuestionnaireData db token with
  | PageError error notFound =>
      (exists message,
          useSubmitQuestionnaire db token data_name questionnaireId now
          = (db, Failed message, [])) /\
      (notFound = true <-> findParticipantByToken db token = None)
  | PageData participant exchange questionnaire alreadyShuffled =>
      findParticipantByToken db token = Some participant /\
      findExchangeById db (p_exchange_id participant) = Some exchange /\
      (alreadyShuffled = true ->
       questionnaire = None /\
       useSubmitQuestionnaire db token data_name questionnaireId now
       = (db,
          Failed "The gift exchange has already been shuffled. No changes allowed.",
          [])) /\
      (alreadyShuffled = false ->
       questionnaire = findQuestionnaireByParticipant db (p_id participant) /\
       (questionnaire <> None ->
        exists db',
          useSubmitQuestionnaire db token data_name questionnaireId now
          = (db', Succeeded "Your preferences have been updated!", [])) /\
       (questionnaire = None ->
        ~ In questionnaireId (map q_id (questionnaires db)) ->
        exists db' sent,
          useSubmitQuestionnaire db token data_name questionnaireId now
          = (db',
             Succeeded "Thank you! Your preferences have been saved. You'll receive your Secret Santa assignment once everyone has responded.",
             sent)))
  end.
Proof.
  intros Htr. unfold useQuestionnaireData, useSubmitQuestionnaire.
  rewrite Htr. cbn [negb].
  destruct (findParticipantByToken db token) as [participant|] eqn:Hp.
  2:{ split; [eauto|]. split; reflexivity. }
  destruct (findExchangeById db (p_exchange_id participant)) as [e|] eqn:He.
  2:{ split; [eauto|]. split; discriminate. }
  destruct (status_eqb (e_status e) Shuffled
            || status_eqb (e_status e) Complete).
  { repeat split; auto; discriminate. }
  split; [first [reflexivity|assumption]|].
  split; [first [reflexivity|assumption]|]. split; [discriminate|].
  intros _. split; [reflexivity|]. cbv zeta.
  assert (Hpart : findParticipantById db (p_id participant) <> None).
  { pose proof (find_some _ _ Hp) as [Hin _]. intros Hn.
    pose proof (find_none _ _ Hn participant Hin) as K. cbv beta in K.
    now rewrite String.eqb_refl in K. }
  destruct (findQuestionnaireByParticipant db (p_id participant))
    as [q|] eqn:Hq.
  - split; [intros _|intros H; discriminate].
    destruct (upsertQuestionnaire_update db
                {| qi_id := q_id q; qi_participant_id := p_id participant;
                   qi_name := data_name |} q Hq) as [Hup _].
    rewrite Hup. cbn [is_null negb]. eauto.
  - split; [intros H; now contradiction H|intros _ Hfresh].
    destruct (upsertQuestionnaire_insert db
                {| qi_id := questionnaireId;
                   qi_participant_id := p_id participant;
                   qi_name := data_name |} Hq Hpart) as [_ Hins].
    destruct (Hins Hfresh) as [Hup _]. rewrite Hup. cbn [is_null negb].
    eauto.
Qed.

Lemma useQuestionnaireData_agrees_with_submit_witness :
  useQuestionnaireData (example_db_assigned None) "token-p2"
  = PageData (example_participant "p2" "bob@example.com" (Some "p3"))
      (example_exchange Shuffled None) None true /\
  useSubmitQuestionnaire (example_db_assigned None) "token-p2" "Bob" "q9" 80%Z
  = (example_db_assigned None,
     Failed "The gift exchange has already been shuffled. No changes allowed.",
     []) /\
  exists message,
    useSubmitQuestionnaire (example_db Collecting) "token-p9" "Bob" "q9" 80%Z
    = (example_db Collecting, Failed message, []).
Proof.
  split; [reflexivity|]. split.
  - pose proof (useQuestionnaireData_agrees_with_submit
                  (example_db_assigned None) "token-p2" "Bob" "q9" 80%Z
                  eq_refl) as H.
    change (useQuestionnaireData (example_db_assigned None) "token-p2")
      with (PageData (example_participant "p2" "bob@example.com" (Some "p3"))
              (example_exchange Shuffled None) None true) in H.
    destruct H as (_ & _ & Hs & _). now destruct (Hs eq_refl).
  - pose proof (useQuestionnaireData_agrees_with_submit
                  (example_db Collecting) "token-p9" "Bob" "q9" 80%Z
                  eq_refl) as H.
    change (useQuestionnaireData (example_db Collecting) "token-p9")
      with (PageError "This questionnaire link is invalid or has expired."
              true) in H.
    now destruct H as [H _].
Defined.

(** X30.  The invitation opens the questionnaire.  After a successful
    [useAddParticipant] on a store that satisfies its invariant, with a
    non-empty generated token, the token of the invitation that was sent
    leads [useQuestionnaireData] to the page of the new participant, in an
    exchange in status collecting, with no questionnaire yet and not
    shuffled; and a first submission under this token with a free
    questionnaire id succeeds and marks this participant as completed at
    the time of the submission. *)
Theorem invitation_opens_questionnaire (normalizeEmail : string -> string)
    (db : DB) (exchangeId : string) (user : AuthUser) (data_email : string)
    (data_name : option string) (participantId token : string) (now : Z)
    (db' : DB) (message : string) (out : list Email) :
  store_invariant db ->
  truthy token = true ->
  useAddParticipant normalizeEmail db exchangeId (Some user) data_email
    data_name participantId token now = (db', Succeeded message, out) ->
  out = [QuestionnaireInvite (normalizeEmail data_email) token] /\
  exists row exchange,
    useQuestionnaireData db' token = PageData row exchange None false /\
    p_id row = participantId /\ p_exchange_id row = exchangeId /\
    p_email row = normalizeEmail data_email /\
    e_id exchange = exchangeId /\ e_status exchange = Collecting /\
    forall answer questionnaireId now',
      ~ In questionnaireId (map q_id (questionnaires db')) ->
      exists db'' sent,
        useSubmitQuestionnaire db' token answer questionnaireId now'
        = (db'',
           Succeeded "Thank you! Your preferences have been saved. You'll receive your Secret Santa assignment once everyone has responded.",
           sent) /\
        option_map p_questionnaire_completed_at
                   (findParticipantById db'' participantId)
        = Some (Some now') /\
        option_map q_name (findQuestionnaireByParticipant db'' participantId)
        = Some answer.
Proof.
  intros Hinv Htr Hadd.
  pose proof Hinv as (Hsc & (Hqid & Hqp & Hqfk) & Hdone).
  pose proof Hsc as (Hpk & (Hid & Htok & Hmail & Hfk) & Hrec).
  unfold useAddParticipant in Hadd.
  destruct (findExchangeByIdForOrganizer db exchangeId (u_id user))
    as [e|] eqn:Hfind; [|discriminate].
  destruct (negb (status_eqb (e_status e) Draft)
            && negb (status_eqb (e_status e) Collecting)) eqn:Hst;
    [discriminate|].
  destruct (findParticipantByExchangeAndEmail db exchangeId
              (normalizeEmail data_email)); [discriminate|].
  match type of Hadd with
  | context [createParticipant db ?i now] => set (input := i) in Hadd
  end.
  destruct (createParticipant db input now) as [err|db1] eqn:Hc;
    [discriminate|].
  destruct (proj1 (createParticipant_checks db input now)
              (ex_intro _ db1 Hc)) as [Hall Hex].
  rewrite (createParticipant_ok db input now Hall Hex) in Hc.
  injection Hc as <-. injection Hadd as <- _ <-.
  split; [reflexivity|].
  set (row := inserted_row input now).
  set (db1 := with_participants db (participants db ++ [row])).
  set (db' := if status_eqb (e_status e) Draft
              then updateExchangeStatus db1 exchangeId Collecting now
              else db1).
  pose proof (forOrganizer_unique _ _ _ _ Hpk Hfind) as Hby.
  destruct (forOrganizer_byId _ _ _ _ Hfind) as (Heid & _).
  assert (Hps : participants db' = participants db ++ [row])
    by (unfold db'; now destruct (status_eqb (e_status e) Draft)).
  assert (Hqs : questionnaires db' = questionnaires db)
    by (unfold db'; now destruct (status_eqb (e_status e) Draft)).
  assert (Hex' : exists e', findExchangeById db' exchangeId = Some e' /\
                            e_id e' = exchangeId /\ e_status e' = Collecting).
  { unfold db'. destruct (status_eqb (e_status e) Draft) eqn:Ed.
    - unfold updateExchangeStatus.
      assert (Hmap := findExchangeById_map db1
                (fun row =>
                   if String.eqb (e_id row) exchangeId then
                     {| e_id := e_id row; e_organizer_id := e_organizer_id row;
                        e_title := e_title row;
                        e_description := e_description row;
                        e_budget_min := e_budget_min row;
                        e_budget_max := e_budget_max row;
                        e_exchange_date := e_exchange_date row;
                        e_status := Collecting;
                        e_shuffled_at := e_shuffled_at row;
                        e_secrets_sent_at := e_secrets_sent_at row;
                        e_created_at := e_created_at row;
                        e_updated_at := now |}
                   else row)).
      rewrite Hmap
        by (intros x; now destruct (String.eqb (e_id x) exchangeId)).
      change (findExchangeById db1 exchangeId)
        with (findExchangeById db exchangeId).
      rewrite Hby. cbn [option_map]. rewrite Heid, String.eqb_refl.
      eexists. split; [reflexivity|]. split; [cbn [e_id]; first [reflexivity|exact Heid]|reflexivity].
    - exists e. split; [exact Hby|]. split; [exact Heid|].
      cbn [negb andb] in Hst.
      apply negb_false_iff in Hst. now apply status_eqb_eq. }
  destruct Hex' as (e' & He' & Heid' & Hst').
  assert (Htoken : findParticipantByToken db' token = Some row).
  { unfold findParticipantByToken. rewrite Hps, find_app_last.
    - cbn [row inserted_row input p_token cp_token].
      now rewrite String.eqb_refl.
    - intros p Hp. apply String.eqb_neq. now destruct (Hall p Hp) as (_ & H & _). }
  assert (Hbyid : findParticipantById db' participantId = Some row).
  { unfold findParticipantById. rewrite Hps, find_app_last.
    - cbn [row inserted_row input p_id cp_id]. now rewrite String.eqb_refl.
    - intros p Hp. apply String.eqb_neq. now destruct (Hall p Hp) as (H & _). }
  assert (Hnoq : findQuestionnaireByParticipant db' participantId = None).
  { unfold findQuestionnaireByParticipant. rewrite Hqs.
    destruct (find _ (questionnaires db)) as [q|] eqn:Eq; [|reflexivity].
    exfalso. pose proof (find_some _ _ Eq) as [Hq Eqid]. cbv beta in Eqid.
    apply String.eqb_eq in Eqid. apply (Hqfk q Hq). rewrite Eqid.
    unfold findParticipantById.
    destruct (find _ (participants db)) as [p|] eqn:Ep; [|reflexivity].
    exfalso. pose proof (find_some _ _ Ep) as [Hp Epid]. cbv beta in Epid.
    apply String.eqb_eq in Epid. now destruct (Hall p Hp) as (H & _). }
  exists row, e'.
  split.
  { unfold useQuestionnaireData. rewrite Htr. cbn [negb]. rewrite Htoken.
    change (p_exchange_id row) with exchangeId. rewrite He', Hst'.
    cbn [status_eqb orb]. change (p_id row) with participantId.
    now rewrite Hnoq. }
  do 5 (split; [first [reflexivity|assumption]|]).
  intros answer qid now' Hfresh.
  unfold useSubmitQuestionnaire. rewrite Htoken.
  change (p_exchange_id row) with exchangeId. rewrite He', Hst'.
  cbn [status_eqb orb]. cbv zeta. change (p_id row) with participantId.
  rewrite Hnoq.
  destruct (upsertQuestionnaire_insert db'
              {| qi_id := qid; qi_participant_id := participantId;
                 qi_name := answer |} Hnoq) as [_ Hins].
  { cbn [qi_participant_id]. rewrite Hbyid. discriminate. }
  destruct (Hins Hfresh) as [Hup Hback]. rewrite Hup. cbn [is_null negb].
  eexists. eexists. split; [reflexivity|]. split.
  - unfold findParticipantById, markQuestionnaireCompleted.
    cbn [with_participants with_questionnaires participants].
    rewrite find_map_same
      by (intros p; cbv beta;
          destruct (String.eqb (p_id p) participantId) eqn:E;
          [cbn [set_completed p_id]|]; exact E).
    fold (findParticipantById db' participantId). rewrite Hbyid.
    cbn [option_map]. change (p_id row) with participantId.
    now rewrite String.eqb_refl.
  - exact (f_equal (option_map q_name) Hback).
Qed.

Lemma invitation_opens_questionnaire_witness :
  exists db' row exchange db'' sent,
    useAddParticipant (fun s => s) (example_db Draft) "ex1"
      (Some example_user) "dan@example.com" None "p4" "token-p4" 60%Z
    = (db', Succeeded "Participant added and invitation sent!",
       [QuestionnaireInvite "dan@example.com" "token-p4"]) /\
    useQuestionnaireData db' "token-p4" = PageData row exchange None false /\
    p_id row = "p4" /\ e_status exchange = Collecting /\
    useSubmitQuestionnaire db' "token-p4" "Dan" "q-p4" 70%Z
    = (db'',
       Succeeded "Thank you! Your preferences have been saved. You'll receive your Secret Santa assignment once everyone has responded.",
       sent) /\
    option_map p_questionnaire_completed_at (findParticipantById db'' "p4")
    = Some (Some 70%Z).
Proof.
  eexists.
  destruct (invitation_opens_questionnaire (fun s => s) (example_db Draft)
              "ex1" example_user "dan@example.com" None "p4" "token-p4" 60%Z
              _ _ _ (example_store_invariant Draft) eq_refl eq_refl)
    as (Hout & row & exchange & Hpage & Hid & _ & _ & _ & Hst & Hsub).
  destruct (Hsub "Dan" "q-p4" 70%Z) as (db'' & sent & Hr & Hc & _).
  - simpl. intuition discriminate.
  - exists row, exchange, db'', sent. repeat split; auto.
Defined.

(* ================================================================== *)
(** * Requests that overlap, and the states after a reveal *)

(* ------------------------------------------------------------------ *)
(** ** Two shuffle requests whose writes take turns *)

Lemma list_participants_same db db' id :
  participants db' = participants db ->
  listParticipantsByExchange db' id = listParticipantsByExchange db id.
Proof. intros H. unfold listParticipantsByExchange. now rewrite H. Qed.

Lemma assignRecipient_list_ids db s r now id :
  map p_id (listParticipantsByExchange (assignRecipient db s r now) id)
  = map p_id (listParticipantsByExchange db id).
Proof.
  rewrite (list_map db (assignRecipient db s r now)
             (fun p => if String.eqb (p_id p) s then set_recipient r now p
                       else p) id eq_refl).
  - rewrite map_map. apply map_ext. intros p.
    now destruct (String.eqb (p_id p) s).
  - intros p. now destruct (String.eqb (p_id p) s).
Qed.

(** A request served alone runs its statements one after the other: this
    is [shuffle_write]. *)
Lemma writer_alone id assignmentsB nowB b now : forall assignments all db,
  race id all now assignmentsB nowB
       (repeat true (length assignments + 3)) (Assigning assignments) b db
  = (let db1 := fold_left (fun d a => assignRecipient d (fst a) (snd a) now)
                          assignments db in
     match updateExchange db1 id (shuffled_input now) now with
     | inl _ => (Answered (Failed db_error_message), b, db1)
     | inr db2 => (Answered (ShuffledOk (length all)), b, db2)
     end).
Proof.
  induction assignments as [|[s r] rest IH]; intros all db.
  - cbn [length Nat.add repeat race writer_step fold_left]. cbv zeta.
    unfold updateExchange.
    destruct (findExchangeById db id) as [existing|] eqn:E;
      [|reflexivity].
    cbn [race writer_step].
    rewrite findExchangeById_map by apply update_rows_id.
    rewrite E. reflexivity.
  - cbn [length Nat.add repeat race writer_step fold_left fst snd].
    apply IH.
Qed.

Section Race.
Variable db0 : DB.
Variable id : string.

Lemma race_invariant_sym assignmentsA nowA assignmentsB nowB a b db :
  race_invariant db0 id assignmentsA nowA assignmentsB nowB a b db ->
  race_invariant db0 id assignmentsB nowB assignmentsA nowA b a db.
Proof.
  intros (sA & sB & HA & HB & Hex & Hids & Hw & Hrows).
  exists sB, sA. repeat split; auto.
  - intros [H|H];
      [destruct (Hw (or_intror H)) as (e & He & Hs & Ht)
      |destruct (Hw (or_introl H)) as (e & He & Hs & Ht)];
      exists e; tauto.
  - intros p r0 Hp Hin.
    destruct (Hrows p r0 Hp) as (r & Hr & Hor).
    + apply in_app_iff. apply in_app_iff in Hin. tauto.
    + exists r. tauto.
Qed.

(** One statement of A keeps the invariant, and is one statement less to
    run. *)
Lemma writer_step_invariant assignmentsA nowA assignmentsB nowB a b db :
  race_invariant db0 id assignmentsA nowA assignmentsB nowB a b db ->
  race_invariant db0 id assignmentsA nowA assignmentsB nowB
    (fst (writer_step id assignmentsA nowA a db)) b
    (snd (writer_step id assignmentsA nowA a db)) /\
  remaining (fst (writer_step id assignmentsA nowA a db))
  = pred (remaining a).
Proof.
  intros (sA & sB & HA & HB & Hex & Hids & Hw & Hrows).
  destruct a as [[|[s r] rest]|existing| |response]; cbn [writer_step].
  - (* the loop is over: the SELECT of updateExchange *)
    destruct (findExchangeById db id) as [existing|] eqn:E;
      [|contradiction].
    cbn [fst snd remaining]. split; [|reflexivity].
    exists sA, sB. cbn [progress] in *. rewrite app_nil_r in HA.
    repeat split; auto.
    + now rewrite E.
    + intros [[]|H]. rewrite E. apply Hw. now right.
  - (* assignRecipient *)
    cbn [fst snd remaining length]. split; [|lia].
    exists (sA ++ [(s, r)]), sB. cbn [progress] in *.
    split; [now rewrite <- app_assoc|]. split; [exact HB|].
    split; [exact Hex|].
    split; [now rewrite assignRecipient_list_ids|].
    split.
    { intros [[]|H]. now apply Hw; right. }
    intros p' r0 Hp' Hin.
    unfold assignRecipient in Hp'. cbn [with_participants participants] in Hp'.
    apply in_map_iff in Hp'. destruct Hp' as (p & <- & Hp).
    destruct (String.eqb (p_id p) s) eqn:Es.
    + apply String.eqb_eq in Es. exists r.
      cbn [set_recipient p_assigned_recipient_id p_id].
      split; [reflexivity|]. left. rewrite HA, Es.
      apply in_app_iff. right. now left.
    + apply (Hrows p r0 Hp).
      rewrite <- app_assoc in Hin. apply in_app_iff in Hin.
      apply in_app_iff.
      destruct Hin as [Hin|[Hin|Hin]]; [now left| |now right].
      injection Hin as Hs _. rewrite Hs, String.eqb_refl in Es.
      discriminate.
  - (* the UPDATE *)
    cbn [fst snd remaining]. split; [|reflexivity].
    exists sA, sB. cbn [progress] in *.
    destruct (findExchangeById db id) as [row|] eqn:E; [|contradiction].
    assert (Hf : findExchangeById
                   (with_exchanges db
                      (map (update_rows id existing (shuffled_input nowA) nowA)
                           (exchanges db))) id
                 = Some (update_rows id existing (shuffled_input nowA) nowA
                           row))
      by (rewrite findExchangeById_map, E by apply update_rows_id;
          reflexivity).
    split; [exact HA|]. split; [exact HB|].
    split; [rewrite Hf; discriminate|].
    split; [exact Hids|].
    split.
    { intros _. eexists. split; [exact Hf|].
      unfold update_rows. rewrite (byId_id _ _ _ E), String.eqb_refl.
      cbn. split; [reflexivity|now left]. }
    exact Hrows.
  - (* the SELECT that reads the row back *)
    destruct (findExchangeById db id) as [row|] eqn:E; [|contradiction].
    cbn [fst snd remaining]. split; [|reflexivity].
    exists sA, sB. cbn [progress] in *. repeat split; auto.
    + now rewrite E.
    + intros _. rewrite E. apply Hw. now left.
  - cbn [fst snd remaining]. split; [|reflexivity].
    exists sA, sB. split; [exact HA|]. repeat split; auto.
Qed.

Lemma race_keeps_invariant assignmentsA nowA assignmentsB nowB :
  forall schedule a b db,
    race_invariant db0 id assignmentsA nowA assignmentsB nowB a b db ->
    exists a' b' db',
      race id assignmentsA nowA assignmentsB nowB schedule a b db
      = (a', b', db') /\
      race_invariant db0 id assignmentsA nowA assignmentsB nowB a' b' db' /\
      remaining a' = remaining a - turns true schedule /\
      remaining b' = remaining b - turns false schedule.
Proof.
  induction schedule as [|[|] rest IH]; intros a b db Hinv.
  - exists a, b, db. cbn. repeat split; auto; lia.
  - cbn [race].
    destruct (writer_step_invariant _ _ _ _ _ _ _ Hinv) as [Hinv' Hrem].
    destruct (writer_step id assignmentsA nowA a db) as [a1 db1].
    cbn [fst snd] in *.
    destruct (IH a1 b db1 Hinv') as (a' & b' & db' & Hr & Hi & Ha & Hb).
    exists a', b', db'. split; [exact Hr|]. split; [exact Hi|].
    unfold turns in *. cbn [filter Bool.eqb length] in *. lia.
  - cbn [race].
    destruct (writer_step_invariant _ _ _ _ _ _ _
                (race_invariant_sym _ _ _ _ _ _ _ Hinv)) as [Hinv' Hrem].
    destruct (writer_step id assignmentsB nowB b db) as [b1 db1].
    cbn [fst snd] in *. apply race_invariant_sym in Hinv'.
    destruct (IH a b1 db1 Hinv') as (a' & b' & db' & Hr & Hi & Ha & Hb).
    exists a', b', db'. split; [exact Hr|]. split; [exact Hi|].
    unfold turns in *. cbn [filter Bool.eqb length] in *. lia.
Qed.
End Race.

Lemma shuffle_read_pairs db id auth tape assignments :
  NoDup (map p_id (participants db)) ->
  shuffle_read db id auth tape = inr assignments ->
  findExchangeById db id <> None /\
  Map_keys assignments = map p_id (listParticipantsByExchange db id).
Proof.
  intros Hpk H.
  destruct (shuffle_read_plan _ _ _ _ _ H)
    as (u & e & _ & Hfind & _ & Hlen & _ & Hgen & _).
  split; [now destruct (forOrganizer_byId _ _ _ _ Hfind)|].
  set (ids := map p_id (listParticipantsByExchange db id)) in *.
  assert (Hnd : NoDup ids) by now apply list_ids_NoDup.
  assert (Hlen' : 2 <= length ids) by (unfold ids; now rewrite length_map).
  unfold createSecretSantaAssignments in Hgen.
  rewrite (@chain_result tape ids Hnd Hlen') in Hgen.
  injection Hgen as <-. now apply chain_keys.
Qed.

(** C5, as the code has it.  The transition to [Shuffled] is a read of the
    status followed, later, by writes that no condition guards
    ([UPDATE participants ... WHERE id = ?] for every pair, then
    [UPDATE exchanges SET ... WHERE id = ?]).  When two requests on the
    same exchange have both passed their reads before either writes, then
    in whatever order their statements take turns: a request that has
    answered has answered with success, never with a conflict; a request
    that got as many turns as it has statements has answered; once one of
    them has answered, the exchange is [Shuffled], with the shuffled
    timestamp of one of the two, and every participant of the exchange
    holds a recipient that one of the two requests assigned to it. *)
Theorem racing_shuffles_both_succeed (db : DB) (exchangeId : string)
    (authA authB : option AuthUser) (tapeA tapeB : nat -> Z) (nowA nowB : Z)
    (assignmentsA assignmentsB : list (string * string))
    (schedule : list bool) :
  NoDup (map p_id (participants db)) ->
  shuffle_read db exchangeId authA tapeA = inr assignmentsA ->
  shuffle_read db exchangeId authB tapeB = inr assignmentsB ->
  exists a b db',
    racing_shuffles db exchangeId authA tapeA nowA authB tapeB nowB schedule
    = (a, b, db') /\
    (forall response, a = Answered response ->
                      response = ShuffledOk (length assignmentsA)) /\
    (forall response, b = Answered response ->
                      response = ShuffledOk (length assignmentsB)) /\
    (length assignmentsA + 3 <= turns true schedule ->
     a = Answered (ShuffledOk (length assignmentsA))) /\
    (length assignmentsB + 3 <= turns false schedule ->
     b = Answered (ShuffledOk (length assignmentsB))) /\
    ((exists response, a = Answered response) \/
     (exists response, b = Answered response) ->
     (exists e, findExchangeById db' exchangeId = Some e /\
                e_status e = Shuffled /\
                (e_shuffled_at e = Some nowA \/ e_shuffled_at e = Some nowB)) /\
     (forall p, In p (listParticipantsByExchange db' exchangeId) ->
                exists r, p_assigned_recipient_id p = Some r /\
                          (In (p_id p, r) assignmentsA \/
                           In (p_id p, r) assignmentsB))).
Proof.
  intros Hpk HA HB.
  destruct (shuffle_read_pairs _ _ _ _ _ Hpk HA) as [Hex HkA].
  destruct (shuffle_read_pairs _ _ _ _ _ Hpk HB) as [_ HkB].
  unfold racing_shuffles. rewrite HA, HB. cbn [planned writer_start].
  destruct (race_keeps_invariant db exchangeId assignmentsA nowA
              assignmentsB nowB schedule
              (Assigning assignmentsA) (Assigning assignmentsB) db)
    as (a & b & db' & Hrace & Hinv & Hra & Hrb).
  { exists [], []. cbn [progress app]. repeat split; auto.
    - intros [[]|[]].
    - intros p r0 _ []. }
  exists a, b, db'. split; [exact Hrace|].
  destruct Hinv as (sA & sB & HpA & HpB & _ & Hids & Hw & Hrows).
  cbn [remaining] in Hra, Hrb.
  assert (Hans : forall assignments w saved,
            progress assignments w saved -> remaining w = 0 ->
            w = Answered (ShuffledOk (length assignments))).
  { intros assignments [rest|existing| |response] saved Hp Hr;
      cbn [remaining] in Hr; try lia.
    destruct Hp as [_ ->]. reflexivity. }
  split; [intros response ->; now destruct HpA|].
  split; [intros response ->; now destruct HpB|].
  split; [intros Hle; apply (Hans _ _ _ HpA); lia|].
  split; [intros Hle; apply (Hans _ _ _ HpB); lia|].
  intros Hdone. split.
  - apply Hw. destruct Hdone as [[response ->]|[response ->]];
      [left|right]; exact I.
  - intros p Hp.
    assert (Hkey : In (p_id p) (map p_id (listParticipantsByExchange db' exchangeId)))
      by now apply in_map.
    rewrite Hids in Hkey.
    apply list_In in Hp. destruct Hp as [Hp _].
    destruct Hdone as [[response ->]|[response ->]].
    + destruct HpA as [-> _]. rewrite <- HkA in Hkey.
      apply in_map_iff in Hkey. destruct Hkey as ([k r0] & Hk & Hin).
      cbn [fst] in Hk. subst k.
      apply (Hrows p r0 Hp). apply in_app_iff. now left.
    + destruct HpB as [-> _]. rewrite <- HkB in Hkey.
      apply in_map_iff in Hkey. destruct Hkey as ([k r0] & Hk & Hin).
      cbn [fst] in Hk. subst k.
      apply (Hrows p r0 Hp). apply in_app_iff. now right.
Qed.

Lemma racing_shuffles_both_succeed_witness :
  exists a b db',
    racing_shuffles (example_db Ready) "ex1" (Some example_user) tape_zero 500%Z
      (Some example_user) tape_one 501%Z example_schedule
    = (a, b, db') /\
    a = Answered (ShuffledOk 3) /\ b = Answered (ShuffledOk 3) /\
    (exists e, findExchangeById db' "ex1" = Some e /\
               e_status e = Shuffled /\
               (e_shuffled_at e = Some 500%Z \/ e_shuffled_at e = Some 501%Z)) /\
    (forall p, In p (listParticipantsByExchange db' "ex1") ->
               exists r, p_assigned_recipient_id p = Some r /\
                         (In (p_id p, r)
                             [("p1", "p2"); ("p2", "p3"); ("p3", "p1")] \/
                          In (p_id p, r)
                             [("p1", "p3"); ("p2", "p1"); ("p3", "p2")])).
Proof.
  destruct (racing_shuffles_both_succeed (example_db Ready) "ex1"
              (Some example_user) (Some example_user) tape_zero tape_one
              500%Z 501%Z
              [("p1", "p2"); ("p2", "p3"); ("p3", "p1")]
              [("p1", "p3"); ("p2", "p1"); ("p3", "p2")]
              example_schedule)
    as (a & b & db' & Hr & _ & _ & Ha & Hb & Hdone).
  - simpl. repeat constructor; simpl; intuition discriminate.
  - vm_compute. reflexivity.
  - vm_compute. reflexivity.
  - exists a, b, db'. split; [exact Hr|].
    assert (Ea : a = Answered (ShuffledOk 3)) by (apply Ha; vm_compute; lia).
    assert (Eb : b = Answered (ShuffledOk 3)) by (apply Hb; vm_compute; lia).
    split; [exact Ea|]. split; [exact Eb|].
    apply Hdone. left. now exists (ShuffledOk 3).
Defined.

(** Two racing requests on the example exchange, A with the cycle
    p1 -> p2 -> p3 -> p1 and B with p1 -> p3 -> p2 -> p1, their statements
    in the order of [example_schedule].  Neither observes a conflict and
    both answer with success.  Every row holds the recipient of the request
    that wrote it last: p1 and p2 both give to p3 and nobody gives to p1,
    so what is stored is the shuffle of neither request and fails
    [validateAssignments]. *)
Lemma racing_shuffles_no_conflict :
  let '(a, b, db') :=
    racing_shuffles (example_db Ready) "ex1" (Some example_user) tape_zero 500%Z
      (Some example_user) tape_one 501%Z example_schedule in
  shuffle_read (example_db Ready) "ex1" (Some example_user) tape_zero
  = inr [("p1", "p2"); ("p2", "p3"); ("p3", "p1")] /\
  shuffle_read (example_db Ready) "ex1" (Some example_user) tape_one
  = inr [("p1", "p3"); ("p2", "p1"); ("p3", "p2")] /\
  a = Answered (ShuffledOk 3) /\ b = Answered (ShuffledOk 3) /\
  option_map e_status (findExchangeById db' "ex1") = Some Shuffled /\
  committed_assignments db' "ex1"
  = [("p1", "p3"); ("p2", "p3"); ("p3", "p2")] /\
  validateAssignments (committed_assignments db' "ex1")
  = Some (Invalid MismatchedSizes).
Proof. vm_compute. repeat split. Qed.

(* ------------------------------------------------------------------ *)
(** ** An exchange whose reveal is over is never written again *)

Lemma update_rows_keeps id existing input now es e :
  In e es -> e_id e <> id ->
  In e (map (update_rows id existing input now) es).
Proof.
  intros Hin Hid. apply in_map_iff. exists e. split; [|exact Hin].
  unfold update_rows. now rewrite (proj2 (String.eqb_neq _ _) Hid).
Qed.

Lemma updateExchangeStatus_keeps db id status now e :
  In e (exchanges db) -> e_id e <> id ->
  In e (exchanges (updateExchangeStatus db id status now)).
Proof.
  intros Hin Hid. unfold updateExchangeStatus.
  cbn [with_exchanges exchanges]. apply in_map_iff.
  exists e. split; [|exact Hin].
  now rewrite (proj2 (String.eqb_neq _ _) Hid).
Qed.

Lemma upsertQuestionnaire_exchanges db input db' :
  upsertQuestionnaire db input = inr db' -> exchanges db' = exchanges db.
Proof.
  unfold upsertQuestionnaire.
  destruct (findQuestionnaireByParticipant db (qi_participant_id input)).
  - destruct (findQuestionnaireByParticipant _ _); [|discriminate].
    now intros [= <-].
  - destruct (_ || _); [discriminate|].
    destruct (findQuestionnaireByParticipant _ _); [|discriminate].
    now intros [= <-].
Qed.

Lemma useSubmitQuestionnaire_exchanges db token data_name qid now :
  exchanges (db_of (useSubmitQuestionnaire db token data_name qid now))
  = exchanges db.
Proof.
  unfold useSubmitQuestionnaire, db_of.
  destruct (findParticipantByToken db token) as [p|]; [|reflexivity].
  destruct (findExchangeById db (p_exchange_id p)) as [ex|]; [|reflexivity].
  destruct (_ || _); [reflexivity|]. cbv zeta.
  destruct (upsertQuestionnaire db _) as [|db1] eqn:Eu; [reflexivity|].
  apply upsertQuestionnaire_exchanges in Eu.
  destruct (negb _); exact Eu.
Qed.

Lemma useSubmitQuestionnaire_no_assignment_email db token data_name qid now :
  assignment_emails (useSubmitQuestionnaire db token data_name qid now) = [].
Proof.
  unfold assignment_emails, useSubmitQuestionnaire.
  destruct (findParticipantByToken db token) as [p|]; [|reflexivity].
  destruct (findExchangeById db (p_exchange_id p)) as [ex|]; [|reflexivity].
  destruct (_ || _); [reflexivity|]. cbv zeta.
  destruct (upsertQuestionnaire db _) as [|db1]; [reflexivity|].
  destruct (negb _); [reflexivity|]. cbn [snd].
  destruct (areAllQuestionnairesComplete _ _); [|reflexivity].
  destruct (findOrganizerById _ _); reflexivity.
Qed.

Section RevealOver.
Variable normalizeEmail : string -> string.
Variable isValidEmail : string -> bool.
Variable db : DB.
Hypothesis keys : NoDup (map e_id (exchanges db)).
Variable e : Exchange.
Hypothesis row : In e (exchanges db).
Hypothesis over : reveal_over e.

(** The row that a write selects passed a guard on its status that [e]
    does not pass: it is another row, with another id. *)
Lemma other_row id existing :
  findExchangeById db id = Some existing -> ~ reveal_over existing ->
  e_id e <> id.
Proof.
  intros Hf Hn Hid. apply Hn.
  now rewrite <- (unique_row _ _ _ _ keys Hf row Hid).
Qed.

Lemma useAddParticipant_keeps id auth em nm pid tk now :
  In e (exchanges (db_of (useAddParticipant normalizeEmail db id auth em nm
                            pid tk now))).
Proof.
  unfold useAddParticipant, db_of.
  destruct auth as [u|]; [|exact row].
  destruct (findExchangeByIdForOrganizer db id (u_id u)) as [ex|] eqn:E;
    [|exact row].
  destruct (_ && _); [exact row|].
  destruct (findParticipantByExchangeAndEmail _ _ _); [exact row|].
  destruct (createParticipant _ _ _) as [|db1] eqn:Ec; [exact row|].
  apply createParticipant_exchanges in Ec. simpl.
  destruct (status_eqb (e_status ex) Draft) eqn:Es;
    [|rewrite Ec; exact row].
  apply status_eqb_eq in Es.
  pose proof (forOrganizer_unique _ _ _ _ keys E) as Hid.
  apply updateExchangeStatus_keeps; [now rewrite Ec|].
  apply (other_row id ex Hid).
  intros [H|[H _]]; rewrite Es in H; discriminate.
Qed.

Lemma useRemoveParticipant_keeps id auth pid :
  In e (exchanges (db_of (useRemoveParticipant db id auth pid))).
Proof.
  unfold useRemoveParticipant, db_of.
  destruct auth as [u|]; [|exact row].
  destruct (findExchangeByIdForOrganizer _ _ _); [|exact row].
  destruct (_ || _); [exact row|].
  destruct (findParticipantById _ _); [|exact row].
  destruct (negb _); [exact row|].
  destruct (deleteParticipant db pid) as [|db'] eqn:Ed; [exact row|].
  simpl. now rewrite (deleteParticipant_exchanges _ _ _ Ed).
Qed.

Lemma useUpdateExchange_keeps id auth ti de b1 b2 da now :
  In e (exchanges (db_of (useUpdateExchange db id auth ti de b1 b2 da now))).
Proof.
  unfold useUpdateExchange, db_of.
  destruct auth as [u|]; [|exact row].
  destruct (findExchangeByIdForOrganizer db id (u_id u)) as [ex|] eqn:E;
    [|exact row].
  destruct (status_eqb (e_status ex) Shuffled) eqn:E1; [exact row|].
  destruct (status_eqb (e_status ex) Complete) eqn:E2; [exact row|].
  pose proof (forOrganizer_unique _ _ _ _ keys E) as Hid.
  cbn [orb]. rewrite (updateExchange_found _ _ _ _ _ Hid). simpl.
  apply update_rows_keeps; [exact row|].
  apply (other_row id ex Hid).
  intros [H|[H _]]; rewrite H in *; discriminate.
Qed.

Lemma checkAndNotifyAllComplete_keeps id mail now :
  In e (exchanges (db_of (checkAndNotifyAllComplete db id mail now))).
Proof.
  unfold checkAndNotifyAllComplete, db_of.
  destruct (negb _); [exact row|].
  destruct (findExchangeById db id) as [ex|] eqn:E; [|exact row].
  destruct (status_eqb (e_status ex) Collecting) eqn:Es; simpl;
    [|exact row].
  apply status_eqb_eq in Es.
  assert (Ha : In e (exchanges (updateExchangeStatus db id Ready now))).
  { apply updateExchangeStatus_keeps; [exact row|].
    apply (other_row id ex E).
    intros [H|[H _]]; rewrite Es in H; discriminate. }
  destruct (findOrganizerById _ _); [|exact Ha].
  destruct (mail 0); exact Ha.
Qed.

Lemma useShuffleAction_keeps id auth tape now :
  In e (exchanges (db_of (useShuffleAction db id auth tape now))).
Proof.
  unfold useShuffleAction, db_of.
  destruct (shuffle_read db id auth tape) as [r|a] eqn:Er; [exact row|].
  destruct (shuffle_read_plan _ _ _ _ _ Er) as (u & ex & _ & E & Hs & _).
  pose proof (forOrganizer_unique _ _ _ _ keys E) as Hid.
  rewrite (shuffle_write_found _ _ _ _ _ Hid). simpl.
  apply update_rows_keeps; [exact row|].
  apply (other_row id ex Hid).
  intros [H|[H _]]; destruct Hs as [Hs|Hs]; rewrite Hs in H; discriminate.
Qed.

Lemma useSendSecretsAction_keeps id auth mail now :
  In e (exchanges (db_of (useSendSecretsAction db id auth mail now))).
Proof.
  unfold useSendSecretsAction, db_of.
  destruct auth as [u|]; [|exact row].
  destruct (findExchangeByIdForOrganizer db id (u_id u)) as [ex|] eqn:E;
    [|exact row].
  destruct (status_eqb (e_status ex) Shuffled) eqn:Es; simpl; [|exact row].
  apply status_eqb_eq in Es.
  destruct (e_secrets_sent_at ex) as [t|] eqn:Et; [exact row|].
  cbn [is_null negb].
  pose proof (forOrganizer_unique _ _ _ _ keys E) as Hid.
  assert (Hother : e_id e <> id).
  { apply (other_row id ex Hid).
    intros [H|[_ H]]; [rewrite Es in H; discriminate|now apply H]. }
  destruct (_ =? _).
  - rewrite (updateExchange_found _ _ _ _ _ Hid). simpl.
    now apply update_rows_keeps.
  - destruct (0 <? _); [|exact row].
    rewrite (updateExchange_found _ _ _ _ _ Hid). simpl.
    now apply update_rows_keeps.
Qed.

Lemma handle_keeps req mail now :
  In e (exchanges (db_of (handle normalizeEmail isValidEmail req mail now db))).
Proof.
  destruct req; simpl handle.
  - apply useAddParticipant_keeps.
  - unfold useResendInvite, db_of. split_cases; exact row.
  - unfold useUpdateParticipantEmail, db_of. split_cases; exact row.
  - apply useRemoveParticipant_keeps.
  - apply useUpdateExchange_keeps.
  - apply checkAndNotifyAllComplete_keeps.
  - apply useShuffleAction_keeps.
  - apply useSendSecretsAction_keeps.
Qed.

Lemma step_keeps ev :
  NoDup (map e_id (exchanges (step normalizeEmail isValidEmail db ev))) /\
  In e (exchanges (step normalizeEmail isValidEmail db ev)).
Proof.
  destruct ev as [req mail now | token name qid now]; cbn [step].
  - split; [|apply handle_keeps].
    rewrite (advance_ids _ _
               (handle_advance normalizeEmail isValidEmail db keys req mail
                  now)).
    exact keys.
  - rewrite useSubmitQuestionnaire_exchanges. now split.
Qed.
End RevealOver.

(** Whatever reaches the store afterwards, the row of an exchange whose
    reveal is over stays as it is. *)
Lemma events_keep_reveal_over nE iV events : forall db e,
  NoDup (map e_id (exchanges db)) -> In e (exchanges db) -> reveal_over e ->
  NoDup (map e_id (exchanges (fold_left (step nE iV) events db))) /\
  In e (exchanges (fold_left (step nE iV) events db)).
Proof.
  induction events as [|ev rest IH]; intros db e Hnd Hin Hover;
    [now split|].
  cbn [fold_left].
  destruct (step_keeps nE iV db Hnd e Hin Hover ev) as [Hnd' Hin'].
  now apply IH.
Qed.

Lemma forOrganizer_of_row db e :
  NoDup (map e_id (exchanges db)) -> In e (exchanges db) ->
  findExchangeByIdForOrganizer db (e_id e) (e_organizer_id e) = Some e.
Proof.
  intros Hnd Hin. unfold findExchangeByIdForOrganizer.
  destruct (find _ (exchanges db)) as [x|] eqn:E.
  - pose proof (find_some _ _ E) as [Hx Hp]. cbv beta in Hp.
    apply andb_true_iff in Hp. destruct Hp as [Hi _].
    apply String.eqb_eq in Hi.
    now rewrite (NoDup_map_inj _ _ e_id (exchanges db) x e Hnd Hx Hin Hi).
  - pose proof (find_none _ _ E e Hin) as Hp. cbv beta in Hp.
    now rewrite !String.eqb_refl in Hp.
Qed.

(** C7, as the code has it.  After a send with partial failures (some
    deliveries made, at least one failed) the reveal timestamp is set, and
    it stays set whatever requests of organizers and submissions of
    participants reach the store afterwards: in every later state the
    exchange is still [Shuffled] with that timestamp, a further
    [sendSecrets] on it is refused ("Secrets have already been sent.") and
    delivers nothing, and no request on the exchange and no submission
    hands an assignment email to the service.  The recipients already
    notified get no duplicate, and the failed ones get no second delivery
    (the sources have no [resendOne]). *)
Theorem no_resend_after_partial_send (normalizeEmail : string -> string)
    (isValidEmail : string -> bool) (db : DB) (exchangeId : string)
    (user : AuthUser) (mail : nat -> bool) (now : Z) (db' : DB)
    (sent total : nat) (errs : list (string * SendError)) (out : list Email)
    (events : list Event) :
  NoDup (map e_id (exchanges db)) ->
  useSendSecretsAction db exchangeId (Some user) mail now
    = (db', SentPartial sent total errs, out) ->
  let later := fold_left (step normalizeEmail isValidEmail) events db' in
  (0 < sent /\ sent + length errs = total /\ errs <> []) /\
  exchange_state later exchangeId (u_id user) = Some (Shuffled, Some now) /\
  (forall mail' now',
      useSendSecretsAction later exchangeId (Some user) mail' now'
      = (later, Failed "Secrets have already been sent.", [])) /\
  (forall req mail' now',
      request_exchange req = exchangeId ->
      assignment_emails (handle normalizeEmail isValidEmail req mail' now'
                           later) = []) /\
  (forall token data_name questionnaireId now',
      assignment_emails (useSubmitQuestionnaire later token data_name
                           questionnaireId now') = []).
Proof.
  intros Hnd H later.
  assert (Hnd' : NoDup (map e_id (exchanges db'))).
  { pose proof (useSendSecretsAction_advance db Hnd exchangeId (Some user)
                  mail now) as Ha.
    rewrite H in Ha. unfold db_of in Ha. cbn [fst] in Ha.
    now rewrite (advance_ids _ _ Ha). }
  assert (Hstate : (0 < sent /\ sent + length errs = total /\ errs <> []) /\
                   exchange_state db' exchangeId (u_id user)
                   = Some (Shuffled, Some now)).
  { unfold useSendSecretsAction in H.
    destruct (findExchangeByIdForOrganizer db exchangeId (u_id user))
      as [ex|] eqn:E; [|discriminate].
    destruct (status_eqb (e_status ex) Shuffled) eqn:Es; simpl in H;
      [|discriminate].
    apply status_eqb_eq in Es.
    destruct (negb (is_null (e_secrets_sent_at ex))); [discriminate|].
    set (ps := listParticipantsByExchange db exchangeId) in *.
    pose proof (send_loop_counts db ps mail) as Hc.
    destruct (sentCount (send_loop db ps mail) =? length ps) eqn:E1.
    { destruct (updateExchange _ _ _ _); discriminate. }
    apply Nat.eqb_neq in E1.
    destruct (0 <? sentCount (send_loop db ps mail)) eqn:E2; [|discriminate].
    apply Nat.ltb_lt in E2.
    destruct (exchange_state_updated db exchangeId (u_id user) ex
                (secrets_sent_input None now) now Hnd E) as (d & Hu & Hs).
    rewrite Hu in H. injection H as <- <- <- <- _.
    simpl in Hs. rewrite Es in Hs. split; [|exact Hs].
    repeat split; auto.
    intros K. rewrite K in Hc. simpl in Hc. lia. }
  destruct Hstate as [Hcount Hstate].
  split; [exact Hcount|].
  unfold exchange_state in Hstate.
  destruct (findExchangeByIdForOrganizer db' exchangeId (u_id user))
    as [e'|] eqn:Hfind; [|discriminate].
  cbn [option_map] in Hstate. injection Hstate as Hst Hsent.
  destruct (forOrganizer_byId _ _ _ _ Hfind) as (Hid & Horg & _).
  assert (Hin : In e' (exchanges db'))
    by (unfold findExchangeByIdForOrganizer in Hfind;
        now apply find_some in Hfind).
  assert (Hover : reveal_over e')
    by (right; split; [exact Hst|rewrite Hsent; discriminate]).
  destruct (events_keep_reveal_over normalizeEmail isValidEmail events
              db' e' Hnd' Hin Hover) as [Hndl Hinl].
  fold later in Hndl, Hinl.
  pose proof (forOrganizer_of_row later e' Hndl Hinl) as Hlater.
  rewrite Hid, Horg in Hlater.
  assert (Hrows : forall e, In e (exchanges later) -> e_id e = exchangeId ->
                            e_secrets_sent_at e <> None).
  { intros e He Heid.
    rewrite (NoDup_map_inj _ _ e_id (exchanges later) e e' Hndl He Hinl)
      by congruence.
    rewrite Hsent. discriminate. }
  split; [|split; [|split]].
  - unfold exchange_state. rewrite Hlater. cbn [option_map].
    now rewrite Hst, Hsent.
  - intros mail' now'. unfold useSendSecretsAction.
    rewrite Hlater, Hst, Hsent. reflexivity.
  - intros req mail' now' Hreq.
    now apply (no_assignment_email_once_sent _ _ later exchangeId).
  - intros. apply useSubmitQuestionnaire_no_assignment_email.
Qed.

Lemma no_resend_after_partial_send_witness :
  let later :=
    fold_left (step (fun s => s) (fun _ => true)) example_events
              example_db_partial in
  (0 < 2 /\ 2 + length [("bob@example.com", SendFailed)] = 3 /\
   [("bob@example.com", SendFailed)] <> []) /\
  exchange_state later "ex1" (u_id example_user)
    = Some (Shuffled, Some 900%Z) /\
  (forall mail' now',
      useSendSecretsAction later "ex1" (Some example_user) mail' now'
      = (later, Failed "Secrets have already been sent.", [])) /\
  (forall req mail' now',
      request_exchange req = "ex1" ->
      assignment_emails (handle (fun s => s) (fun _ => true) req mail' now'
                           later) = []) /\
  (forall token data_name questionnaireId now',
      assignment_emails (useSubmitQuestionnaire later token data_name
                           questionnaireId now') = []).
Proof.
  apply (no_resend_after_partial_send (fun s => s) (fun _ => true)
           (example_db_assigned None) "ex1" example_user mail_second_fails
           900%Z example_db_partial 2 3 [("bob@example.com", SendFailed)]
           [SecretSantaAssignment "ann@example.com" "Bob";
            SecretSantaAssignment "bob@example.com" "Cat";
            SecretSantaAssignment "cat@example.com" "Ann"]
           example_events).
  - simpl. constructor; [intros []|constructor].
  - vm_compute. reflexivity.
Defined.

(** After the send in which the delivery to bob failed, whatever reaches
    the store, no request on the exchange delivers an assignment to
    anyone, bob included: an operation that resends to one participant
    does not exist. *)
Lemma no_resend_operation :
  ~ exists (normalizeEmail : string -> string) (isValidEmail : string -> bool)
           (events : list Event) (req : Request) (mail : nat -> bool)
           (now : Z),
      request_exchange req = "ex1" /\
      assignment_emails
        (handle normalizeEmail isValidEmail req mail now
           (fold_left (step normalizeEmail isValidEmail) events
                      example_db_partial)) <> [].
Proof.
  intros (nE & iV & events & req & mail & now & Hid & Hne). apply Hne.
  set (row := {| e_id := "ex1"; e_organizer_id := "org1";
                 e_title := "Office party"; e_description := None;
                 e_budget_min := None; e_budget_max := None;
                 e_exchange_date := None; e_status := Shuffled;
                 e_shuffled_at := None; e_secrets_sent_at := Some 900%Z;
                 e_created_at := 1%Z; e_updated_at := 900%Z |}).
  destruct (events_keep_reveal_over nE iV events example_db_partial row)
    as [Hnd Hin].
  - simpl. constructor; [intros []|constructor].
  - now left.
  - right. split; [reflexivity|discriminate].
  - apply (no_assignment_email_once_sent _ _ _ "ex1"); [|exact Hid].
    intros e He Heid.
    rewrite (NoDup_map_inj _ _ e_id _ e row Hnd He Hin)
      by (rewrite Heid; reflexivity).
    discriminate.
Qed.

(* ------------------------------------------------------------------ *)
(** ** A shuffled exchange keeps its participants *)

Lemma have_participants_step db db' (h : Exchange -> Exchange) :
  exchanges db' = map h (exchanges db) ->
  shuffled_have_participants db ->
  (forall e, In e (exchanges db) ->
     e_status (h e) = Shuffled \/ e_status (h e) = Complete ->
     2 <= countParticipantsByExchange db' (e_id (h e)) \/
     ((e_status e = Shuffled \/ e_status e = Complete) /\
      e_id (h e) = e_id e /\
      countParticipantsByExchange db (e_id e)
      <= countParticipantsByExchange db' (e_id e))) ->
  shuffled_have_participants db'.
Proof.
  intros Hex Hinv Hstep e' Hin Hst. rewrite Hex in Hin.
  apply in_map_iff in Hin. destruct Hin as (e & <- & Hin).
  rewrite list_length.
  destruct (Hstep e Hin Hst) as [H|(Hs & Hid & Hle)]; [exact H|].
  rewrite Hid. pose proof (Hinv e Hin Hs) as H2.
  rewrite list_length in H2. lia.
Qed.

Lemma have_participants_same db db' :
  exchanges db' = exchanges db ->
  shuffled_have_participants db ->
  (forall e, In e (exchanges db) ->
     e_status e = Shuffled \/ e_status e = Complete ->
     countParticipantsByExchange db (e_id e)
     <= countParticipantsByExchange db' (e_id e)) ->
  shuffled_have_participants db'.
Proof.
  intros Hex Hinv Hc.
  apply (have_participants_step db db' (fun e => e));
    [now rewrite map_id|exact Hinv|].
  intros e He Hs. right. auto.
Qed.

Lemma count_map db db' (g : Participant -> Participant) id :
  participants db' = map g (participants db) ->
  (forall p, p_exchange_id (g p) = p_exchange_id p) ->
  countParticipantsByExchange db' id = countParticipantsByExchange db id.
Proof.
  intros Hp Hg. unfold countParticipantsByExchange. rewrite Hp.
  rewrite filter_map_swap by (intros p; now rewrite Hg).
  apply length_map.
Qed.

Lemma count_same db db' id :
  participants db' = participants db ->
  countParticipantsByExchange db' id = countParticipantsByExchange db id.
Proof. intros Hp. unfold countParticipantsByExchange. now rewrite Hp. Qed.

Lemma count_app db db' l id :
  participants db' = participants db ++ l ->
  countParticipantsByExchange db id <= countParticipantsByExchange db' id.
Proof.
  intros Hp. unfold countParticipantsByExchange.
  rewrite Hp, filter_app, length_app. lia.
Qed.

Lemma filter_delete_other (l : list Participant) pid id :
  (forall p, In p l -> p_id p = pid -> p_exchange_id p <> id) ->
  filter (fun p => String.eqb (p_exchange_id p) id)
         (filter (fun p => negb (String.eqb (p_id p) pid)) l)
  = filter (fun p => String.eqb (p_exchange_id p) id) l.
Proof.
  induction l as [|p l IH]; intros Hother; [reflexivity|].
  cbn [filter].
  assert (IH' := IH (fun q Hq => Hother q (or_intror Hq))).
  destruct (String.eqb (p_id p) pid) eqn:E; cbn [negb].
  - apply String.eqb_eq in E.
    rewrite (proj2 (String.eqb_neq _ _) (Hother p (or_introl eq_refl) E)).
    exact IH'.
  - cbn [filter]. now rewrite IH'.
Qed.

Lemma count_delete db db' pid id :
  participants db'
  = filter (fun p => negb (String.eqb (p_id p) pid)) (participants db) ->
  (forall p, In p (participants db) -> p_id p = pid ->
             p_exchange_id p <> id) ->
  countParticipantsByExchange db' id = countParticipantsByExchange db id.
Proof.
  intros Hp Hother. unfold countParticipantsByExchange. rewrite Hp.
  now rewrite filter_delete_other.
Qed.

Lemma updateExchangeStatus_rows db id status now :
  exists h,
    exchanges (updateExchangeStatus db id status now) = map h (exchanges db) /\
    forall e, e_id (h e) = e_id e /\ (h e = e \/ e_status (h e) = status).
Proof.
  eexists. split; [reflexivity|]. intros e. cbv beta.
  destruct (String.eqb (e_id e) id); cbn; auto.
Qed.

Lemma update_rows_status id existing input now e :
  update_rows id existing input now e = e \/
  (e_id e = id /\
   e_status (update_rows id existing input now e)
   = match in_status input with
     | Some s => s
     | None => e_status existing
     end).
Proof.
  unfold update_rows. destruct (String.eqb (e_id e) id) eqn:E; [|now left].
  right. apply String.eqb_eq in E. now split.
Qed.

Section KeepParticipants.
Variable normalizeEmail : string -> string.
Variable isValidEmail : string -> bool.
Variable db : DB.
Hypothesis keys : NoDup (map e_id (exchanges db)).
Hypothesis participant_keys : NoDup (map p_id (participants db)).
Hypothesis have : shuffled_have_participants db.

Lemma useAddParticipant_have id auth em nm pid tk now :
  shuffled_have_participants
    (db_of (useAddParticipant normalizeEmail db id auth em nm pid tk now)).
Proof.
  unfold useAddParticipant, db_of.
  destruct auth as [u|]; [|exact have].
  destruct (findExchangeByIdForOrganizer db id (u_id u)) as [ex|] eqn:E;
    [|exact have].
  destruct (_ && _); [exact have|].
  destruct (findParticipantByExchangeAndEmail _ _ _); [exact have|].
  destruct (createParticipant _ _ _) as [|db1] eqn:Ec; [exact have|].
  assert (Hp : exists l, participants db1 = participants db ++ l).
  { unfold createParticipant in Ec. destruct (_ || _); [discriminate|].
    injection Ec as <-. now eexists. }
  destruct Hp as [l Hp].
  apply createParticipant_exchanges in Ec. cbn [fst].
  destruct (status_eqb (e_status ex) Draft).
  - destruct (updateExchangeStatus_rows db1 id Collecting now)
      as (h & Hh & Hrows).
    rewrite Ec in Hh.
    apply (have_participants_step db _ h Hh have).
    intros e He Hst. destruct (Hrows e) as [Hid [Hsame|Hs]].
    + right. rewrite Hsame in Hst. split; [exact Hst|].
      split; [exact Hid|]. now apply (count_app db _ l).
    + rewrite Hs in Hst. destruct Hst; discriminate.
  - apply (have_participants_same db db1 Ec have).
    intros e _ _. now apply (count_app db db1 l).
Qed.

Lemma useUpdateParticipantEmail_have id auth pid em now :
  shuffled_have_participants
    (db_of (useUpdateParticipantEmail normalizeEmail isValidEmail db id auth
              pid em now)).
Proof.
  assert (Hup : forall newEmail,
            shuffled_have_participants
              (updateParticipantEmail db pid newEmail now)).
  { intros newEmail.
    refine (have_participants_same db _ _ have _); [reflexivity|].
    intros e _ _. apply Nat.eq_le_incl. symmetry.
    apply (count_map db _
             (fun p => if String.eqb (p_id p) pid
                       then set_email newEmail now p else p)).
    - reflexivity.
    - intros p. now destruct (String.eqb (p_id p) pid). }
  unfold useUpdateParticipantEmail, db_of.
  split_cases; cbn [fst]; first [exact have|apply Hup].
Qed.

Lemma useRemoveParticipant_have id auth pid :
  shuffled_have_participants (db_of (useRemoveParticipant db id auth pid)).
Proof.
  unfold useRemoveParticipant, db_of.
  destruct auth as [u|]; [|exact have].
  destruct (findExchangeByIdForOrganizer db id (u_id u)) as [ex|] eqn:E;
    [|exact have].
  destruct (status_eqb (e_status ex) Shuffled) eqn:E1; [exact have|].
  destruct (status_eqb (e_status ex) Complete) eqn:E2; [exact have|].
  cbn [orb].
  destruct (findParticipantById db pid) as [participant|] eqn:Ep;
    [|exact have].
  destruct (String.eqb (p_exchange_id participant) id) eqn:Ex;
    [|exact have].
  cbn [negb]. apply String.eqb_eq in Ex.
  destruct (deleteParticipant db pid) as [|db'] eqn:Ed; [exact have|].
  destruct (deleteParticipant_result _ _ _ Ed) as [_ ->]. cbn [fst].
  refine (have_participants_same db _ _ have _); [reflexivity|].
  intros e He Hs. apply Nat.eq_le_incl. symmetry.
  apply (count_delete db _ pid); [reflexivity|].
  intros p Hp Hpid Hpe.
  pose proof (find_some _ _ Ep) as [Hin Hq]. cbv beta in Hq.
  apply String.eqb_eq in Hq.
  assert (p = participant)
    by (apply (NoDup_map_inj _ _ p_id (participants db)); auto; congruence).
  subst p.
  pose proof (forOrganizer_unique _ _ _ _ keys E) as Hid.
  assert (e = ex)
    by (apply (unique_row _ _ _ _ keys Hid He); congruence).
  subst e. destruct Hs as [Hs|Hs]; rewrite Hs in *; discriminate.
Qed.

Lemma useUpdateExchange_have id auth ti de b1 b2 da now :
  shuffled_have_participants
    (db_of (useUpdateExchange db id auth ti de b1 b2 da now)).
Proof.
  unfold useUpdateExchange, db_of.
  destruct auth as [u|]; [|exact have].
  destruct (findExchangeByIdForOrganizer db id (u_id u)) as [ex|] eqn:E;
    [|exact have].
  destruct (status_eqb (e_status ex) Shuffled) eqn:E1; [exact have|].
  destruct (status_eqb (e_status ex) Complete) eqn:E2; [exact have|].
  cbn [orb].
  pose proof (forOrganizer_unique _ _ _ _ keys E) as Hid.
  rewrite (updateExchange_found _ _ _ _ _ Hid). cbn [fst].
  eapply (have_participants_step db); [reflexivity|exact have|].
  intros e He Hst.
  destruct (update_rows_status id ex
              {| in_title := Some ti;
                 in_description := Some (if truthy_opt de then de else None);
                 in_budget_min := Some b1; in_budget_max := Some b2;
                 in_exchange_date := Some da; in_status := None;
                 in_shuffled_at := None; in_secrets_sent_at := None |}
              now e) as [Hsame|[_ Hs]].
  - right. rewrite Hsame in *. split; [exact Hst|]. split; [reflexivity|].
    apply Nat.eq_le_incl. symmetry. now apply count_same.
  - cbn [in_status] in Hs. rewrite Hs in Hst.
    destruct Hst as [K|K]; rewrite K in *; discriminate.
Qed.

Lemma checkAndNotifyAllComplete_have id mail now :
  shuffled_have_participants
    (db_of (checkAndNotifyAllComplete db id mail now)).
Proof.
  unfold checkAndNotifyAllComplete, db_of.
  destruct (negb _); [exact have|].
  destruct (findExchangeById db id) as [ex|] eqn:E; [|exact have].
  destruct (status_eqb (e_status ex) Collecting) eqn:Es; cbn [fst];
    [|exact have].
  assert (Ha : shuffled_have_participants
                 (updateExchangeStatus db id Ready now)).
  { destruct (updateExchangeStatus_rows db id Ready now) as (h & Hh & Hrows).
    apply (have_participants_step db _ h Hh have).
    intros e He Hst. destruct (Hrows e) as [Hid [Hsame|Hs]].
    - right. rewrite Hsame in Hst. split; [exact Hst|].
      split; [exact Hid|]. apply Nat.eq_le_incl. symmetry.
      now apply count_same.
    - rewrite Hs in Hst. destruct Hst; discriminate. }
  destruct (findOrganizerById _ _); [|exact Ha].
  destruct (mail 0); exact Ha.
Qed.

Lemma useShuffleAction_have id auth tape now :
  shuffled_have_participants (db_of (useShuffleAction db id auth tape now)).
Proof.
  unfold useShuffleAction, db_of.
  destruct (shuffle_read db id auth tape) as [r|a] eqn:Er; [exact have|].
  destruct (shuffle_read_plan _ _ _ _ _ Er)
    as (u & ex & _ & E & _ & Hlen & _).
  destruct (shuffle_read_pairs _ _ _ _ _ participant_keys Er) as [_ Hk].
  pose proof (forOrganizer_unique _ _ _ _ keys E) as Hid.
  rewrite (shuffle_write_found _ _ _ _ _ Hid). cbn [fst].
  assert (Hc : forall id',
            countParticipantsByExchange
              (with_exchanges
                 (fold_left (fun d p => assignRecipient d (fst p) (snd p) now)
                            a db)
                 (map (update_rows id ex (shuffled_input now) now)
                      (exchanges db))) id'
            = countParticipantsByExchange db id').
  { intros id'. apply (count_map db _ (assigned_row a now)).
    - cbn [with_exchanges participants].
      apply assignRecipient_fold_participants. rewrite Hk.
      now apply list_ids_NoDup.
    - intros p. apply assigned_row_exchange. }
  eapply (have_participants_step db); [reflexivity|exact have|].
  intros e He Hst.
  destruct (update_rows_status id ex (shuffled_input now) now e)
    as [Hsame|[Heid _]].
  - right. rewrite Hsame in *. split; [exact Hst|]. split; [reflexivity|].
    rewrite Hc. lia.
  - left. rewrite update_rows_id, Hc, Heid, <- list_length. exact Hlen.
Qed.

Lemma useSendSecretsAction_have id auth mail now :
  shuffled_have_participants
    (db_of (useSendSecretsAction db id auth mail now)).
Proof.
  assert (Hup : forall ex input,
            findExchangeById db id = Some ex -> e_status ex = Shuffled ->
            shuffled_have_participants
              (with_exchanges db
                 (map (update_rows id ex input now) (exchanges db)))).
  { intros ex input Hid Hs.
    eapply (have_participants_step db); [reflexivity|exact have|].
    intros e He Hst. right.
    destruct (update_rows_status id ex input now e) as [Hsame|[Heid _]].
    - rewrite Hsame in *. split; [exact Hst|]. split; [reflexivity|].
      apply Nat.eq_le_incl. symmetry. now apply count_same.
    - rewrite (unique_row _ _ _ _ keys Hid He Heid).
      split; [now left|]. split; [apply update_rows_id|].
      apply Nat.eq_le_incl. symmetry. now apply count_same. }
  unfold useSendSecretsAction, db_of.
  destruct auth as [u|]; [|exact have].
  destruct (findExchangeByIdForOrganizer db id (u_id u)) as [ex|] eqn:E;
    [|exact have].
  destruct (status_eqb (e_status ex) Shuffled) eqn:Es; cbn [negb];
    [|exact have].
  apply status_eqb_eq in Es.
  destruct (negb _); [exact have|].
  pose proof (forOrganizer_unique _ _ _ _ keys E) as Hid.
  destruct (_ =? _).
  - rewrite (updateExchange_found _ _ _ _ _ Hid). cbn [fst].
    now apply Hup.
  - destruct (0 <? _); [|exact have].
    rewrite (updateExchange_found _ _ _ _ _ Hid). cbn [fst].
    now apply Hup.
Qed.

Lemma useSubmitQuestionnaire_have token data_name qid now :
  shuffled_have_participants
    (db_of (useSubmitQuestionnaire db token data_name qid now)).
Proof.
  apply (have_participants_same db _
           (useSubmitQuestionnaire_exchanges db token data_name qid now)
           have).
  intros e _ _. apply Nat.eq_le_incl. symmetry.
  unfold useSubmitQuestionnaire, db_of.
  destruct (findParticipantByToken db token) as [p|]; [|reflexivity].
  destruct (findExchangeById db (p_exchange_id p)) as [ex|]; [|reflexivity].
  destruct (_ || _); [reflexivity|]. cbv zeta.
  destruct (upsertQuestionnaire db _) as [|db1] eqn:Eu; [reflexivity|].
  assert (Hp : participants db1 = participants db).
  { unfold upsertQuestionnaire in Eu.
    destruct (findQuestionnaireByParticipant db _).
    - destruct (findQuestionnaireByParticipant _ _); [|discriminate].
      now injection Eu as <-.
    - destruct (_ || _); [discriminate|].
      destruct (findQuestionnaireByParticipant _ _); [|discriminate].
      now injection Eu as <-. }
  destruct (negb _); cbn [fst]; [now apply count_same|].
  apply (count_map db _
           (fun x => if String.eqb (p_id x) (p_id p)
                     then set_completed now x else x)).
  - unfold markQuestionnaireCompleted. cbn [with_participants participants].
    now rewrite Hp.
  - intros x. now destruct (String.eqb (p_id x) (p_id p)).
Qed.

Lemma step_have ev :
  shuffled_have_participants (step normalizeEmail isValidEmail db ev).
Proof.
  destruct ev as [req mail now | token name qid now]; cbn [step].
  - destruct req; cbn [handle].
    + apply useAddParticipant_have.
    + unfold useResendInvite, db_of. split_cases; exact have.
    + apply useUpdateParticipantEmail_have.
    + apply useRemoveParticipant_have.
    + apply useUpdateExchange_have.
    + apply checkAndNotifyAllComplete_have.
    + apply useShuffleAction_have.
    + apply useSendSecretsAction_have.
  - apply useSubmitQuestionnaire_have.
Qed.
End KeepParticipants.

Lemma step_store_invariant nE iV db ev :
  store_invariant db -> store_invariant (step nE iV db ev).
Proof.
  intros Hinv.
  destruct ev as [req mail now | token name qid now]; cbn [step].
  - split.
    + apply handle_constraints. apply Hinv.
    + now apply handle_questionnaires.
  - now apply useSubmitQuestionnaire_invariant.
Qed.

(** Whatever reaches the store, an exchange is shuffled with two
    participants or more, and a shuffled exchange loses none: from a store
    in which every shuffled exchange has two participants, as one without
    shuffled exchanges is, every later store is such. *)
Lemma shuffled_keep_participants nE iV events : forall db,
  store_invariant db -> shuffled_have_participants db ->
  shuffled_have_participants (fold_left (step nE iV) events db).
Proof.
  induction events as [|ev rest IH]; intros db Hinv Hhave; [exact Hhave|].
  cbn [fold_left]. apply IH.
  - now apply step_store_invariant.
  - destruct Hinv as ((Hpk & (Hid & _) & _) & _).
    now apply step_have.
Qed.

(* ------------------------------------------------------------------ *)
(** ** The reveal, by what the email service answers *)

Lemma send_one_errors db ps mail st santa :
  match attempted_email db ps santa with
  | None =>
      exists err,
        errors (send_one db ps mail st santa)
        = errors st ++ [(p_email santa, err)]
  | Some _ =>
      errors (send_one db ps mail st santa)
      = errors st ++ (if mail (calls st) then []
                      else [(p_email santa, SendFailed)])
  end.
Proof.
  unfold attempted_email, send_one.
  destruct (p_assigned_recipient_id santa) as [r|]; [|now eexists].
  destruct (truthy r); [|now eexists].
  destruct (participantMap_get ps r) as [recipient|]; [|now eexists].
  destruct (findQuestionnaireByParticipant db (p_id recipient)) as [q|];
    [|now eexists].
  cbv zeta. destruct (mail (calls st)); cbn [errors push_error];
    [now rewrite app_nil_r|reflexivity].
Qed.

(** Every failure names a santa of the loop. *)
Lemma send_fold_errors_named db ps mail santas : forall st a err,
  In (a, err) (errors (fold_left (send_one db ps mail) santas st)) ->
  In (a, err) (errors st) \/
  exists santa, In santa santas /\ p_email santa = a.
Proof.
  induction santas as [|santa santas IH]; intros st a err H; [now left|].
  cbn [fold_left] in H. apply IH in H.
  destruct H as [H|(s & Hs & Ha)]; [|right; exists s; split; [now right|auto]].
  pose proof (send_one_errors db ps mail st santa) as H1.
  destruct (attempted_email db ps santa).
  - rewrite H1 in H. apply in_app_iff in H. destruct H as [H|H]; [now left|].
    destruct (mail (calls st)); [contradiction|].
    destruct H as [[= <- _]|[]]. right. exists santa. split; [now left|auto].
  - destruct H1 as (err' & H1). rewrite H1 in H. apply in_app_iff in H.
    destruct H as [H|[[= <- _]|[]]]; [now left|].
    right. exists santa. split; [now left|auto].
Qed.

(** When the message of every santa reaches the service, the failures are
    the calls that the service refused. *)
Lemma send_fold_errors_handed db ps mail santas : forall st,
  (forall santa, In santa santas -> attempted_email db ps santa <> None) ->
  errors (fold_left (send_one db ps mail) santas st)
  = errors st ++ refused_by_service mail (calls st) santas.
Proof.
  induction santas as [|santa santas IH]; intros st Hall.
  - unfold refused_by_service. cbn. now rewrite app_nil_r.
  - cbn [fold_left]. rewrite IH by (intros s Hs; apply Hall; now right).
    pose proof (send_one_errors db ps mail st santa) as H1.
    pose proof (send_one_attempt db ps mail st santa) as H2.
    destruct (attempted_email db ps santa) as [e|] eqn:E;
      [|exfalso; apply (Hall santa); [now left|exact E]].
    destruct H2 as (_ & Hc & _). rewrite H1, Hc, <- app_assoc.
    unfold refused_by_service.
    cbn [length seq combine flat_map fst snd]. reflexivity.
Qed.

Lemma attempted_emails_length db ps santas :
  length (attempted_emails db ps santas) <= length santas /\
  (length (attempted_emails db ps santas) = length santas ->
   forall santa, In santa santas -> attempted_email db ps santa <> None).
Proof.
  unfold attempted_emails.
  induction santas as [|santa santas [IH1 IH2]]; [split; [auto|intros _ ? []]|].
  cbn [flat_map]. rewrite length_app.
  destruct (attempted_email db ps santa) as [e|] eqn:E;
    cbn [length Nat.add]; split; try lia.
  intros H s [<-|Hs]; [rewrite E; discriminate|].
  apply IH2; [lia|exact Hs].
Qed.

Lemma filter_none_length (A : Type) (q : A -> bool) l :
  (forall x, In x l -> q x = false) -> filter q l = [].
Proof.
  induction l as [|x l IH]; intros H; [reflexivity|]. cbn [filter].
  rewrite (H x (or_introl eq_refl)). apply IH. intros y Hy. apply H.
  now right.
Qed.

Lemma filter_some_length (A : Type) (q : A -> bool) l x :
  In x l -> q x = true -> 0 < length (filter q l).
Proof.
  intros Hin Hq.
  assert (H : In x (filter q l)) by (apply filter_In; now split).
  destruct (filter q l); [contradiction|cbn; lia].
Qed.

Lemma filter_not_all_length (A : Type) (q : A -> bool) l x :
  In x l -> q x = false -> length (filter q l) < length l.
Proof.
  intros Hin Hq. pose proof (filter_length_le q l) as Hle.
  destruct (Nat.eq_dec (length (filter q l)) (length l)) as [E|]; [|lia].
  rewrite (proj1 (filter_all_length _ q l) E x Hin) in Hq. discriminate.
Qed.

(** C6.  [sendSecrets] is refused unless the status is [Shuffled] and the
    reveal timestamp is unset.  When it runs on an exchange that has
    participants, the loop hands to the email service the message of every
    santa whose recipient and recipient's questionnaire are found, and the
    outcome follows what the service answers to these calls.  If every
    participant's message is handed over and the service accepts every
    call, the status becomes [Complete] and the reveal timestamp is
    recorded.  If the service accepts some call but not every
    participant's, the status stays [Shuffled], the reveal timestamp is
    recorded, and the result carries the number of accepted calls and one
    failure per other participant, each under the address of a
    participant; when every message was handed over, the failures are
    exactly the refused calls.  If the service accepts no call, the
    database is unchanged.  An exchange is shuffled with two participants
    or more and keeps them ([shuffled_keep_participants]). *)
Theorem send_secrets_outcome (db : DB) (exchangeId : string) (user : AuthUser)
    (mail : nat -> bool) (now : Z) (exchange : Exchange) :
  NoDup (map e_id (exchanges db)) ->
  findExchangeByIdForOrganizer db exchangeId (u_id user) = Some exchange ->
  listParticipantsByExchange db exchangeId <> [] ->
  let participants := listParticipantsByExchange db exchangeId in
  let handed := attempted_emails db participants participants in
  let accepted := filter mail (seq 0 (length handed)) in
  exists db' response out,
    useSendSecretsAction db exchangeId (Some user) mail now
    = (db', response, out) /\
    (e_status exchange <> Shuffled ->
     db' = db /\ out = [] /\
     response = Failed "Exchange must be shuffled before sending secrets.") /\
    (e_status exchange = Shuffled -> e_secrets_sent_at exchange <> None ->
     db' = db /\ out = [] /\ response = Failed "Secrets have already been sent.") /\
    (e_status exchange = Shuffled -> e_secrets_sent_at exchange = None ->
     out = handed /\
     (length handed = length participants ->
      (forall k, k < length handed -> mail k = true) ->
      response = SentAll (length participants) /\
      exchange_state db' exchangeId (u_id user) = Some (Complete, Some now)) /\
     ((exists k, k < length handed /\ mail k = true) ->
      length handed < length participants \/
      (exists k, k < length handed /\ mail k = false) ->
      exists failures,
        response
        = SentPartial (length accepted) (length participants) failures /\
        length accepted + length failures = length participants /\
        (forall address err, In (address, err) failures ->
           exists santa, In santa participants /\ p_email santa = address) /\
        (length handed = length participants ->
         failures = refused_by_service mail 0 participants) /\
        exchange_state db' exchangeId (u_id user) = Some (Shuffled, Some now)) /\
     ((forall k, k < length handed -> mail k = false) ->
      exists failures,
        response = SentNone failures /\
        length failures = length participants /\ db' = db)).
Proof.
  intros Hnd He Hne ps handed accepted.
  set (st := send_loop db ps mail).
  pose proof (send_loop_counts db ps mail) as Hcount. fold st in Hcount.
  destruct (send_fold_attempts db ps mail ps
              {| sentCount := 0; errors := []; calls := 0; outbox := [] |})
    as (Hout & _ & Hsent).
  fold (send_loop db ps mail) in Hout, Hsent. fold st in Hout, Hsent.
  cbn [outbox sentCount calls app Nat.add] in Hout, Hsent.
  fold handed in Hout, Hsent. fold accepted in Hsent.
  destruct (attempted_emails_length db ps ps) as [Hle Hall].
  fold handed in Hle, Hall.
  assert (Hacc : length accepted <= length handed)
    by (unfold accepted; etransitivity; [apply filter_length_le|];
        now rewrite length_seq).
  assert (Hin : forall k, k < length handed <-> In k (seq 0 (length handed)))
    by (intros k; rewrite in_seq; lia).
  assert (Hpos : 0 < length ps)
    by (apply Nat.neq_0_lt_0; intros K; apply Hne;
        now apply length_zero_iff_nil).
  unfold useSendSecretsAction. rewrite He. fold ps. fold st.
  destruct (status_eqb (e_status exchange) Shuffled) eqn:Es; simpl.
  2:{ exists db, (Failed "Exchange must be shuffled before sending secrets."), [].
      split; [reflexivity|]. split; [auto|].
      assert (e_status exchange <> Shuffled)
        by (intros K; rewrite K in Es; discriminate).
      split; intros; contradiction. }
  apply status_eqb_eq in Es.
  destruct (e_secrets_sent_at exchange) as [t|] eqn:Et; simpl.
  { exists db, (Failed "Secrets have already been sent."), [].
    split; [reflexivity|]. split; [intros; contradiction|].
    split; [auto|]. intros _ K; discriminate. }
  destruct (sentCount st =? length ps) eqn:E1.
  - apply Nat.eqb_eq in E1.
    destruct (exchange_state_updated db exchangeId (u_id user) exchange
                (secrets_sent_input (Some Complete) now) now Hnd He)
      as (db' & Hu & Hs).
    rewrite Hu. exists db', (SentAll (sentCount st)), (outbox st).
    split; [reflexivity|]. split; [intros; contradiction|].
    split; [intros _ K; now elim K|]. intros _ _.
    split; [exact Hout|]. split; [|split].
    + intros _ _. now rewrite E1.
    + intros _ [Hlt|(k & Hk & Hm)]; [lia|].
      pose proof (filter_not_all_length _ mail _ k (proj1 (Hin k) Hk) Hm) as K.
      fold accepted in K. rewrite length_seq in K. lia.
    + intros Hno.
      assert (K : accepted = [])
        by (apply filter_none_length; intros k Hk; apply Hno; now apply Hin).
      rewrite K in Hsent. cbn in Hsent. lia.
  - apply Nat.eqb_neq in E1.
    destruct (0 <? sentCount st) eqn:E2.
    + apply Nat.ltb_lt in E2.
      destruct (exchange_state_updated db exchangeId (u_id user) exchange
                  (secrets_sent_input None now) now Hnd He)
        as (db' & Hu & Hs).
      rewrite Hu.
      exists db', (SentPartial (sentCount st) (length ps) (errors st)),
             (outbox st).
      split; [reflexivity|]. split; [intros; contradiction|].
      split; [intros _ K; now elim K|]. intros _ _.
      split; [exact Hout|]. split; [|split].
      * intros Hl Hyes. exfalso. apply E1. rewrite Hsent, <- Hl.
        unfold accepted.
        rewrite (proj2 (filter_all_length _ mail _));
          [now rewrite length_seq|].
        intros k Hk. apply Hyes. now apply Hin.
      * intros _ _. exists (errors st). rewrite <- Hsent.
        split; [reflexivity|]. split; [exact Hcount|]. split; [|split].
        -- intros a err Ha.
           destruct (send_fold_errors_named db ps mail ps _ a err Ha)
             as [[]|K]. exact K.
        -- intros Hl. unfold st, send_loop.
           rewrite send_fold_errors_handed by (now apply Hall).
           reflexivity.
        -- simpl in Hs. now rewrite Es in Hs.
      * intros Hno.
        assert (K : accepted = [])
          by (apply filter_none_length; intros k Hk; apply Hno; now apply Hin).
        rewrite K in Hsent. cbn in Hsent. lia.
    + apply Nat.ltb_ge in E2.
      exists db, (SentNone (errors st)), (outbox st).
      split; [reflexivity|]. split; [intros; contradiction|].
      split; [intros _ K; now elim K|]. intros _ _.
      split; [exact Hout|]. split; [|split].
      * intros Hl Hyes. exfalso. apply E1. rewrite Hsent, <- Hl.
        unfold accepted.
        rewrite (proj2 (filter_all_length _ mail _));
          [now rewrite length_seq|].
        intros k Hk. apply Hyes. now apply Hin.
      * intros (k & Hk & Hm) _.
        pose proof (filter_some_length _ mail _ k (proj1 (Hin k) Hk) Hm) as K.
        fold accepted in K. lia.
      * intros _. exists (errors st). repeat split. lia.
Qed.

Lemma send_secrets_outcome_witness :
  (exists db' out,
      useSendSecretsAction (example_db_assigned None) "ex1" (Some example_user)
        mail_ok 900%Z = (db', SentAll 3, out) /\
      exchange_state db' "ex1" "org1" = Some (Complete, Some 900%Z)) /\
  (exists db' out,
      useSendSecretsAction (example_db_assigned None) "ex1" (Some example_user)
        mail_second_fails 900%Z
      = (db', SentPartial 2 3 [("bob@example.com", SendFailed)], out) /\
      exchange_state db' "ex1" "org1" = Some (Shuffled, Some 900%Z)) /\
  (exists failures out,
      useSendSecretsAction (example_db_assigned None) "ex1" (Some example_user)
        mail_down 900%Z = (example_db_assigned None, SentNone failures, out) /\
      length failures = 3) /\
  useSendSecretsAction (example_db_assigned (Some 900%Z)) "ex1"
    (Some example_user) mail_ok 950%Z
  = (example_db_assigned (Some 900%Z),
     Failed "Secrets have already been sent.", []) /\
  useSendSecretsAction (example_db Ready) "ex1" (Some example_user) mail_ok 950%Z
  = (example_db Ready,
     Failed "Exchange must be shuffled before sending secrets.", []).
Proof.
  assert (Hne : forall sent,
            listParticipantsByExchange (example_db_assigned sent) "ex1" <> [])
    by (intros sent; vm_compute; discriminate).
  assert (Hne' : listParticipantsByExchange (example_db Ready) "ex1" <> [])
    by (vm_compute; discriminate).
  split; [|split; [|split; [|split]]].
  - destruct (send_secrets_outcome (example_db_assigned None) "ex1"
                example_user mail_ok 900%Z (example_exchange Shuffled None)
                (example_keys Shuffled None) eq_refl (Hne None))
      as (db' & r & out & Heq & _ & _ & Hrun).
    destruct (Hrun eq_refl eq_refl) as (_ & Hall & _ & _).
    destruct (Hall eq_refl (fun k _ => eq_refl)) as [Hr Hs]. subst r.
    exists db', out. split; [exact Heq|exact Hs].
  - destruct (send_secrets_outcome (example_db_assigned None) "ex1"
                example_user mail_second_fails 900%Z
                (example_exchange Shuffled None)
                (example_keys Shuffled None) eq_refl (Hne None))
      as (db' & r & out & Heq & _ & _ & Hrun).
    destruct (Hrun eq_refl eq_refl) as (_ & _ & Hpart & _).
    destruct Hpart as (failures & Hr & _ & _ & Hf & Hs).
    + exists 0. split; [vm_compute; lia|reflexivity].
    + right. exists 1. split; [vm_compute; lia|reflexivity].
    + rewrite (Hf eq_refl) in Hr. subst r.
      exists db', out. split; [exact Heq|exact Hs].
  - destruct (send_secrets_outcome (example_db_assigned None) "ex1"
                example_user mail_down 900%Z (example_exchange Shuffled None)
                (example_keys Shuffled None) eq_refl (Hne None))
      as (db' & r & out & Heq & _ & _ & Hrun).
    destruct (Hrun eq_refl eq_refl) as (_ & _ & _ & Hnone).
    destruct (Hnone (fun k _ => eq_refl)) as (failures & Hr & Hl & Hd).
    subst r db'. exists failures, out. split; [exact Heq|exact Hl].
  - destruct (send_secrets_outcome (example_db_assigned (Some 900%Z)) "ex1"
                example_user mail_ok 950%Z
                (example_exchange Shuffled (Some 900%Z))
                (example_keys Shuffled (Some 900%Z)) eq_refl
                (Hne (Some 900%Z)))
      as (db' & r & out & Heq & _ & Hsent & _).
    destruct (Hsent eq_refl ltac:(discriminate)) as (Hd & Ho & Hr).
    subst. exact Heq.
  - destruct (send_secrets_outcome (example_db Ready) "ex1"
                example_user mail_ok 950%Z (example_exchange Ready None)
                (example_keys Ready None) eq_refl Hne')
      as (db' & r & out & Heq & Hst & _).
    destruct (Hst ltac:(discriminate)) as (Hd & Ho & Hr).
    subst. exact Heq.
Defined.
